(** * A shallow embedding of the interceptor core (guminterceptor.c)

    The development follows the C source function by function.  Pointers are
    integers ([NULL] is 0); the structures the source reaches through
    pointers ([GumFunctionContext], the [GPtrArray] listener snapshots) live
    in two stores indexed by pointer, so that aliasing and in-place mutation
    are visible.  Everything the source obtains from its collaborators (the
    backend, the OS abstraction, the listener classes) is gathered in the
    record [Host].  A failed [g_assert], or a read outside an array, is the
    outcome [None]; the state is passed explicitly.  The [gint] counters
    (nesting level, ignore level, usage counter) are unbounded integers: the
    model does not follow 2^31 nested calls.

    The build modelled is the default one: 64-bit pointers, GObject present
    (no GUM_DIET), not Windows (the thread error is read after the guard is
    taken), and an x86-64 program counter (no Thumb bit to clear).

    Left out: the on-leave half of the invocation engine
    ([_gum_function_context_end_invocation]), the per-thread listener data
    slots and the accessors of [GumInvocationContext], the singleton
    ([gum_interceptor_obtain]) and the locks: the state is the one a single
    thread sees between two of its own calls.

    The first part holds the embedding, the second part the properties:
    hook entry, the ignore level, the shadow stack, listener snapshots, the
    commit of a transaction and the order of its page updates, [attach] and
    [replace], and the invariant that every reachable state satisfies. *)

From Stdlib Require Import ZArith List Bool Lia Arith Permutation Sorted.
Import ListNotations.
Local Open Scope Z_scope.

(** ** Machine data *)

Definition gpointer := Z.
Definition NULL : gpointer := 0.
Definition gint := Z.
Definition guint := Z.
Definition gsize := Z.
Definition GumThreadId := Z.
Definition GumInvocationState := Z.

(** [GPOINTER_TO_SIZE]: a pointer seen as an unsigned 64-bit integer. *)
Definition GPOINTER_TO_SIZE (p : gpointer) : gsize := p mod 2 ^ 64.

(** Subtraction of two [gsize] values wraps around at 64 bits. *)
Definition gsize_sub (a b : gsize) : gsize := (a - b) mod 2 ^ 64.

(** Conversion of a [gsize] to the 32-bit signed [gint]: the low 32 bits,
    read in two's complement. *)
Definition gsize_to_gint (z : gsize) : gint :=
  (z + 2 ^ 31) mod 2 ^ 32 - 2 ^ 31.

(** Pointers into the two stores. *)
Definition ctx_ptr := nat.
Definition array_ptr := nat.

(** A listener is known by its handle; its class provides the two optional
    callbacks.  A callback is modelled by what it does to the
    [system_error] field of the invocation context it is handed. *)
Definition GumInvocationListener := Z.

Record GumInvocationListenerInterface := {
  on_enter : option (gint -> gint);
  on_leave : option (gint -> gint)
}.

Record ListenerEntry := {
  listener_interface : GumInvocationListenerInterface;
  listener_instance : GumInvocationListener;
  function_data : gpointer
}.

Inductive GumInterceptorType :=
| GUM_INTERCEPTOR_TYPE_DEFAULT
| GUM_INTERCEPTOR_TYPE_FAST.

Definition GumInterceptorType_eqb (a b : GumInterceptorType) : bool :=
  match a, b with
  | GUM_INTERCEPTOR_TYPE_DEFAULT, GUM_INTERCEPTOR_TYPE_DEFAULT => true
  | GUM_INTERCEPTOR_TYPE_FAST, GUM_INTERCEPTOR_TYPE_FAST => true
  | _, _ => false
  end.

Record GumFunctionContext := {
  function_address : gpointer;
  type : GumInterceptorType;
  listener_entries : array_ptr;
  trampoline_slice : gpointer;
  on_invoke_trampoline : gpointer;
  on_leave_trampoline : gpointer;
  overwritten_prologue_len : Z;
  replacement_function : gpointer;
  replacement_data : gpointer;
  activated : bool;
  destroyed : bool;
  has_on_leave_listener : bool;
  trampoline_usage_counter : gint;
  finalized : bool  (* model only: the structure went through g_slice_free *)
}.

Inductive GumInstrumentationError :=
| GUM_INSTRUMENTATION_ERROR_NONE
| GUM_INSTRUMENTATION_ERROR_WRONG_SIGNATURE
| GUM_INSTRUMENTATION_ERROR_POLICY_VIOLATION
| GUM_INSTRUMENTATION_ERROR_WRONG_TYPE.

Inductive GumAttachReturn :=
| GUM_ATTACH_OK
| GUM_ATTACH_WRONG_SIGNATURE
| GUM_ATTACH_ALREADY_ATTACHED
| GUM_ATTACH_POLICY_VIOLATION
| GUM_ATTACH_WRONG_TYPE.

Inductive GumReplaceReturn :=
| GUM_REPLACE_OK
| GUM_REPLACE_WRONG_SIGNATURE
| GUM_REPLACE_ALREADY_REPLACED
| GUM_REPLACE_POLICY_VIOLATION
| GUM_REPLACE_WRONG_TYPE.

(** The release callbacks the source hands to [schedule_destroy]. *)
Inductive GDestroyNotify :=
| g_ptr_array_unref
| g_object_unref
| gum_function_context_perform_destroy_notify.

Record GumDestroyTask := {
  task_ctx : ctx_ptr;
  task_notify : GDestroyNotify;
  task_data : Z
}.

(** The two update functions the source hands to [schedule_update]. *)
Inductive GumUpdateTaskFunc :=
| gum_interceptor_activate_func
| gum_interceptor_deactivate_func.

Record GumUpdateTask := {
  update_ctx : ctx_ptr;
  update_func : GumUpdateTaskFunc
}.

(** [pending_update_tasks] is a hash table from page address to an array of
    tasks; it is kept as an association list in the table's enumeration
    order. *)
Record GumInterceptorTransaction := {
  is_dirty : bool;
  level : gint;
  pending_destroy_tasks : list GumDestroyTask;
  pending_update_tasks : list (gpointer * list GumUpdateTask)
}.

Record GumInterceptor := {
  function_by_address : list (gpointer * ctx_ptr);
  backend : bool;  (* the backend object has been created *)
  selected_thread_id : GumThreadId;
  current_transaction : GumInterceptorTransaction
}.

Inductive InvocationBackendKind :=
| NoBackend
| ListenerBackend
| ReplacementBackend.

Record GumCpuContext := {
  pc : gsize;
  registers : list Z
}.

Record GumInvocationStackEntry := {
  function_ctx : ctx_ptr;
  caller_ret_addr : gpointer;
  invocation_function : gpointer;
  invocation_system_error : gint;
  invocation_backend : InvocationBackendKind;
  cpu_context : GumCpuContext;
  calling_replacement : bool;
  original_system_error : gint
}.

(** The shadow stack is a [GArray]: index 0 is the oldest frame, the top is
    the last element. *)
Definition GumInvocationStack := list GumInvocationStackEntry.

Record InterceptorThreadContext := {
  ignore_level : gint;
  stack : GumInvocationStack
}.

(** ** The collaborators

    What the core asks of the backend, of the OS layer and of the listener
    classes.  The backend is asked about a context through the kind and the
    address of the context; [None] is its refusal. *)

Inductive GumCodeSigningPolicy :=
| GUM_CODE_SIGNING_OPTIONAL
| GUM_CODE_SIGNING_REQUIRED.

Inductive GumPageProtection :=
| GUM_PAGE_RW
| GUM_PAGE_RX
| GUM_PAGE_RWX.

Record Trampoline := {
  slice : gpointer;
  on_invoke : gpointer;
  on_leave_stub : gpointer;
  prologue_len : Z
}.

Record Host := {
  gum_process_get_code_signing_policy : GumCodeSigningPolicy;
  gum_query_page_size : Z;
  gum_query_is_rwx_supported : bool;
  gum_code_segment_is_supported : bool;
  gum_code_segment_get_address : gpointer;
  gum_process_get_current_thread_id : GumThreadId;
  gum_process_enumerate_threads : list GumThreadId;
  gum_thread_suspend : GumThreadId -> bool;
  gum_strip_code_pointer : gpointer -> gpointer;
  gum_sign_code_pointer : gpointer -> gpointer;
  gum_interceptor_backend_create_trampoline :
    GumInterceptorType -> gpointer -> option Trampoline;
  gum_interceptor_backend_claim_grafted_trampoline :
    GumInterceptorType -> gpointer -> option Trampoline;
  gum_interceptor_backend_resolve_redirect : gpointer -> gpointer;
  gum_interceptor_backend_get_function_address : gpointer -> gpointer;
  GUM_INVOCATION_LISTENER_GET_IFACE :
    GumInvocationListener -> GumInvocationListenerInterface
}.

(** ** Observable effects

    Calls that leave the core are recorded, in program order, in a trace. *)

Inductive Event :=
| EvCodeAllocatorCommit
| EvEnsureCodeReadable (address : gpointer)
| EvMprotect (page : gpointer) (protection : GumPageProtection)
| EvClearCache (page : gpointer)
| EvThreadSuspend (id : GumThreadId)
| EvThreadResume (id : GumThreadId)
| EvCodeSegmentNew (size : Z)
| EvMemcpy (dst src : gpointer)
| EvCodeSegmentRealize
| EvCodeSegmentMap (source_offset : Z) (target_page : gpointer)
| EvCodeSegmentFree
| EvActivateTrampoline (ctx : ctx_ptr) (prologue : gpointer)
| EvDeactivateTrampoline (ctx : ctx_ptr) (prologue : gpointer)
| EvDestroyTrampoline (ctx : ctx_ptr)
| EvPtrArrayUnref (entries : array_ptr)
| EvSliceFree (ctx : ctx_ptr)
| EvNotify (notify : GDestroyNotify) (data : Z)
| EvOnEnter (listener : GumInvocationListener)
| EvOnLeave (listener : GumInvocationListener).

(** ** The state of the process, as one thread sees it *)

Record State := {
  interceptor : GumInterceptor;
  contexts : ctx_ptr -> GumFunctionContext;
  next_context : ctx_ptr;
  arrays : array_ptr -> list (option ListenerEntry);
  next_array : array_ptr;
  thread_context : option InterceptorThreadContext;
  guard : bool;  (* the guard TLS slot holds this interceptor *)
  system_error : gint;
  trace : list Event
}.

Definition upd {A : Type} (h : nat -> A) (k : nat) (v : A) : nat -> A :=
  fun k' => if Nat.eqb k' k then v else h k'.

Definition set_interceptor (i : GumInterceptor) (st : State) : State :=
  {| interceptor := i; contexts := contexts st;
     next_context := next_context st; arrays := arrays st;
     next_array := next_array st; thread_context := thread_context st;
     guard := guard st; system_error := system_error st;
     trace := trace st |}.

Definition set_contexts (h : ctx_ptr -> GumFunctionContext) (st : State)
  : State :=
  {| interceptor := interceptor st; contexts := h;
     next_context := next_context st; arrays := arrays st;
     next_array := next_array st; thread_context := thread_context st;
     guard := guard st; system_error := system_error st;
     trace := trace st |}.

Definition set_thread_context (t : option InterceptorThreadContext)
    (st : State) : State :=
  {| interceptor := interceptor st; contexts := contexts st;
     next_context := next_context st; arrays := arrays st;
     next_array := next_array st; thread_context := t;
     guard := guard st; system_error := system_error st;
     trace := trace st |}.

Definition set_guard (g : bool) (st : State) : State :=
  {| interceptor := interceptor st; contexts := contexts st;
     next_context := next_context st; arrays := arrays st;
     next_array := next_array st; thread_context := thread_context st;
     guard := g; system_error := system_error st;
     trace := trace st |}.

Definition set_system_error (e : gint) (st : State) : State :=
  {| interceptor := interceptor st; contexts := contexts st;
     next_context := next_context st; arrays := arrays st;
     next_array := next_array st; thread_context := thread_context st;
     guard := guard st; system_error := e;
     trace := trace st |}.

Definition emit (e : Event) (st : State) : State :=
  {| interceptor := interceptor st; contexts := contexts st;
     next_context := next_context st; arrays := arrays st;
     next_array := next_array st; thread_context := thread_context st;
     guard := guard st; system_error := system_error st;
     trace := trace st ++ [e] |}.

(** Allocation hands out the next unused pointer of a store. *)
Definition alloc_context (c : GumFunctionContext) (st : State)
  : ctx_ptr * State :=
  (next_context st,
   {| interceptor := interceptor st;
      contexts := upd (contexts st) (next_context st) c;
      next_context := S (next_context st); arrays := arrays st;
      next_array := next_array st; thread_context := thread_context st;
      guard := guard st; system_error := system_error st;
      trace := trace st |}).

Definition alloc_array (a : list (option ListenerEntry)) (st : State)
  : array_ptr * State :=
  (next_array st,
   {| interceptor := interceptor st; contexts := contexts st;
      next_context := next_context st;
      arrays := upd (arrays st) (next_array st) a;
      next_array := S (next_array st); thread_context := thread_context st;
      guard := guard st; system_error := system_error st;
      trace := trace st |}).

Definition set_array (p : array_ptr) (a : list (option ListenerEntry))
    (st : State) : State :=
  {| interceptor := interceptor st; contexts := contexts st;
     next_context := next_context st;
     arrays := upd (arrays st) p a;
     next_array := next_array st; thread_context := thread_context st;
     guard := guard st; system_error := system_error st;
     trace := trace st |}.

Definition update_context (p : ctx_ptr)
    (f : GumFunctionContext -> GumFunctionContext) (st : State) : State :=
  set_contexts (upd (contexts st) p (f (contexts st p))) st.

Definition set_current_transaction (t : GumInterceptorTransaction)
    (st : State) : State :=
  set_interceptor
    {| function_by_address := function_by_address (interceptor st);
       backend := backend (interceptor st);
       selected_thread_id := selected_thread_id (interceptor st);
       current_transaction := t |} st.

Definition set_function_by_address (m : list (gpointer * ctx_ptr))
    (st : State) : State :=
  set_interceptor
    {| function_by_address := m;
       backend := backend (interceptor st);
       selected_thread_id := selected_thread_id (interceptor st);
       current_transaction := current_transaction (interceptor st) |} st.

Definition set_backend (b : bool) (st : State) : State :=
  set_interceptor
    {| function_by_address := function_by_address (interceptor st);
       backend := b;
       selected_thread_id := selected_thread_id (interceptor st);
       current_transaction := current_transaction (interceptor st) |} st.

Definition set_selected_thread_id (id : GumThreadId) (st : State) : State :=
  set_interceptor
    {| function_by_address := function_by_address (interceptor st);
       backend := backend (interceptor st);
       selected_thread_id := id;
       current_transaction := current_transaction (interceptor st) |} st.

Definition transaction (st : State) : GumInterceptorTransaction :=
  current_transaction (interceptor st).

(** ** Thread context, ignore level, shadow stack *)

Definition interceptor_thread_context_new : InterceptorThreadContext :=
  {| ignore_level := 0; stack := [] |}.

(** The thread context is created on first use. *)
Definition get_interceptor_thread_context (st : State)
  : InterceptorThreadContext * State :=
  match thread_context st with
  | Some context => (context, st)
  | None =>
      (interceptor_thread_context_new,
       set_thread_context (Some interceptor_thread_context_new) st)
  end.

Definition set_ignore_level (l : gint) (c : InterceptorThreadContext)
  : InterceptorThreadContext :=
  {| ignore_level := l; stack := stack c |}.

Definition set_stack (s : GumInvocationStack) (c : InterceptorThreadContext)
  : InterceptorThreadContext :=
  {| ignore_level := ignore_level c; stack := s |}.

Definition gum_interceptor_ignore_current_thread (st : State) : State :=
  let (interceptor_ctx, st) := get_interceptor_thread_context st in
  set_thread_context
    (Some (set_ignore_level (ignore_level interceptor_ctx + 1)
             interceptor_ctx)) st.

Definition gum_interceptor_unignore_current_thread (st : State) : State :=
  let (interceptor_ctx, st) := get_interceptor_thread_context st in
  set_thread_context
    (Some (set_ignore_level (ignore_level interceptor_ctx - 1)
             interceptor_ctx)) st.

Definition gum_interceptor_maybe_unignore_current_thread (st : State)
  : bool * State :=
  let (interceptor_ctx, st) := get_interceptor_thread_context st in
  if ignore_level interceptor_ctx <=? 0 then (false, st)
  else
    (true,
     set_thread_context
       (Some (set_ignore_level (ignore_level interceptor_ctx - 1)
                interceptor_ctx)) st).

(** The level the calling thread is at; a thread without a context is at
    the level a fresh context starts with. *)
Definition current_ignore_level (st : State) : gint :=
  ignore_level (fst (get_interceptor_thread_context st)).

Section WithHost.

Variable host : Host.

Definition gum_interceptor_ignore_other_threads (st : State) : State :=
  set_selected_thread_id (gum_process_get_current_thread_id host) st.

Definition gum_interceptor_unignore_other_threads (st : State)
  : option State :=
  if selected_thread_id (interceptor st)
     =? gum_process_get_current_thread_id host
  then Some (set_selected_thread_id 0 st)
  else None.

End WithHost.

(** [_gum_interceptor_empty_stack] stands in for a thread that has no
    context yet. *)
Definition gum_interceptor_get_current_stack (st : State)
  : GumInvocationStack :=
  match thread_context st with
  | None => []
  | Some context => stack context
  end.

(** The loop of [gum_invocation_stack_translate], from index 0 upward. *)
Fixpoint gum_invocation_stack_translate
    (h : ctx_ptr -> GumFunctionContext) (self : GumInvocationStack)
    (return_address : gpointer) : gpointer :=
  match self with
  | [] => return_address
  | entry :: rest =>
      if on_leave_trampoline (h (function_ctx entry)) =? return_address
      then caller_ret_addr entry
      else gum_invocation_stack_translate h rest return_address
  end.

Definition gum_invocation_stack_peek_top (s : GumInvocationStack)
  : option GumInvocationStackEntry :=
  match s with
  | [] => None
  | _ => nth_error s (length s - 1)%nat
  end.

Definition _gum_interceptor_peek_top_caller_return_address (st : State)
  : gpointer :=
  match gum_invocation_stack_peek_top (gum_interceptor_get_current_stack st)
  with
  | None => NULL
  | Some entry => caller_ret_addr entry
  end.

Definition _gum_interceptor_translate_top_return_address (st : State)
    (return_address : gpointer) : gpointer :=
  let stack := gum_interceptor_get_current_stack st in
  match gum_invocation_stack_peek_top stack with
  | None => return_address
  | Some entry =>
      if negb (on_leave_trampoline (contexts st (function_ctx entry))
               =? return_address)
      then return_address
      else caller_ret_addr entry
  end.

Definition gum_interceptor_save (st : State) : GumInvocationState :=
  Z.of_nat (length (gum_interceptor_get_current_stack st)).

Definition add_usage (d : Z) (c : GumFunctionContext) : GumFunctionContext :=
  {| function_address := function_address c; type := type c;
     listener_entries := listener_entries c;
     trampoline_slice := trampoline_slice c;
     on_invoke_trampoline := on_invoke_trampoline c;
     on_leave_trampoline := on_leave_trampoline c;
     overwritten_prologue_len := overwritten_prologue_len c;
     replacement_function := replacement_function c;
     replacement_data := replacement_data c;
     activated := activated c; destroyed := destroyed c;
     has_on_leave_listener := has_on_leave_listener c;
     trampoline_usage_counter := trampoline_usage_counter c + d;
     finalized := finalized c |}.

Definition g_atomic_int_inc (p : ctx_ptr) (st : State) : State :=
  update_context p (add_usage 1) st.

Definition g_atomic_int_dec_and_test (p : ctx_ptr) (st : State) : State :=
  update_context p (add_usage (-1)) st.

(** The loop [for (i = old_depth; i != new_depth; i++)] of
    [gum_interceptor_restore].  [n] bounds the number of rounds by the
    length of the stack: reading a frame the stack does not hold ends the
    run. *)
Fixpoint restore_loop (n : nat) (stack : GumInvocationStack) (i : guint)
    (new_depth : guint) (st : State) : option State :=
  if i =? new_depth then Some st
  else
    match n with
    | O => None
    | S n' =>
        if i <? 0 then None
        else
          match nth_error stack (Z.to_nat i) with
          | None => None
          | Some entry =>
              restore_loop n' stack (i + 1) new_depth
                (g_atomic_int_dec_and_test (function_ctx entry) st)
          end
    end.

Definition g_array_set_size (s : GumInvocationStack) (n : guint)
  : GumInvocationStack := firstn (Z.to_nat n) s.

Definition gum_interceptor_restore (state : GumInvocationState) (st : State)
  : option State :=
  let stack := gum_interceptor_get_current_stack st in
  let old_depth := state in
  let new_depth := Z.of_nat (length stack) in
  if new_depth =? old_depth then Some st
  else
    match restore_loop (length stack) stack old_depth new_depth st with
    | None => None
    | Some st' =>
        match thread_context st' with
        | None => None
        | Some context =>
            Some (set_thread_context
                    (Some (set_stack (g_array_set_size stack old_depth)
                             context)) st')
        end
    end.

(** ** GLib containers

    [g_list_sort] is GLib's top-down merge sort: the list is cut after its
    first [len / 2] cells, both halves are sorted, and the merge takes the
    head of the first half whenever the comparison is [<= 0]. *)

Section GList.

Context {A : Type}.
Variable compare_func : A -> A -> gint.

Fixpoint g_list_sort_merge (l1 : list A) : list A -> list A :=
  fix merge_into (l2 : list A) : list A :=
    match l1, l2 with
    | [], _ => l2
    | _, [] => l1
    | a1 :: l1', a2 :: l2' =>
        if compare_func a1 a2 <=? 0
        then a1 :: g_list_sort_merge l1' l2
        else a2 :: merge_into l2'
    end.

Fixpoint g_list_sort_real (n : nat) (l : list A) : list A :=
  match n with
  | O => l
  | S n' =>
      match l with
      | [] => []
      | [x] => [x]
      | _ =>
          let half := (length l / 2)%nat in
          g_list_sort_merge
            (g_list_sort_real n' (firstn half l))
            (g_list_sort_real n' (skipn half l))
      end
  end.

Definition g_list_sort (l : list A) : list A :=
  g_list_sort_real (length l) l.

End GList.

(** A [GHashTable] keyed by pointer, in enumeration order. *)
Section GHashTable.

Context {V : Type}.

Fixpoint g_hash_table_lookup (table : list (gpointer * V)) (key : gpointer)
  : option V :=
  match table with
  | [] => None
  | (k, v) :: rest =>
      if k =? key then Some v else g_hash_table_lookup rest key
  end.

Fixpoint g_hash_table_insert (table : list (gpointer * V)) (key : gpointer)
    (value : V) : list (gpointer * V) :=
  match table with
  | [] => [(key, value)]
  | (k, v) :: rest =>
      if k =? key then (k, value) :: rest
      else (k, v) :: g_hash_table_insert rest key value
  end.

Fixpoint g_hash_table_remove (table : list (gpointer * V)) (key : gpointer)
  : list (gpointer * V) :=
  match table with
  | [] => []
  | (k, v) :: rest =>
      if k =? key then rest else (k, v) :: g_hash_table_remove rest key
  end.

Definition g_hash_table_get_keys (table : list (gpointer * V))
  : list gpointer := map fst table.

Definition g_hash_table_size (table : list (gpointer * V)) : guint :=
  Z.of_nat (length table).

End GHashTable.

(** ** Page addresses *)

Definition gum_page_address_compare (a b : gpointer) : gint :=
  gsize_to_gint (gsize_sub (GPOINTER_TO_SIZE a) (GPOINTER_TO_SIZE b)).

Definition page_address_from_pointer (page_size : Z) (ptr : gpointer)
  : gpointer :=
  Z.land (GPOINTER_TO_SIZE ptr) (Z.lnot (page_size - 1)).

(** ** Field updates of a function context *)

Definition set_activated (b : bool) (c : GumFunctionContext)
  : GumFunctionContext :=
  {| function_address := function_address c; type := type c;
     listener_entries := listener_entries c;
     trampoline_slice := trampoline_slice c;
     on_invoke_trampoline := on_invoke_trampoline c;
     on_leave_trampoline := on_leave_trampoline c;
     overwritten_prologue_len := overwritten_prologue_len c;
     replacement_function := replacement_function c;
     replacement_data := replacement_data c;
     activated := b; destroyed := destroyed c;
     has_on_leave_listener := has_on_leave_listener c;
     trampoline_usage_counter := trampoline_usage_counter c;
     finalized := finalized c |}.

Definition set_destroyed (b : bool) (c : GumFunctionContext)
  : GumFunctionContext :=
  {| function_address := function_address c; type := type c;
     listener_entries := listener_entries c;
     trampoline_slice := trampoline_slice c;
     on_invoke_trampoline := on_invoke_trampoline c;
     on_leave_trampoline := on_leave_trampoline c;
     overwritten_prologue_len := overwritten_prologue_len c;
     replacement_function := replacement_function c;
     replacement_data := replacement_data c;
     activated := activated c; destroyed := b;
     has_on_leave_listener := has_on_leave_listener c;
     trampoline_usage_counter := trampoline_usage_counter c;
     finalized := finalized c |}.

Definition set_has_on_leave_listener (b : bool) (c : GumFunctionContext)
  : GumFunctionContext :=
  {| function_address := function_address c; type := type c;
     listener_entries := listener_entries c;
     trampoline_slice := trampoline_slice c;
     on_invoke_trampoline := on_invoke_trampoline c;
     on_leave_trampoline := on_leave_trampoline c;
     overwritten_prologue_len := overwritten_prologue_len c;
     replacement_function := replacement_function c;
     replacement_data := replacement_data c;
     activated := activated c; destroyed := destroyed c;
     has_on_leave_listener := b;
     trampoline_usage_counter := trampoline_usage_counter c;
     finalized := finalized c |}.

Definition set_listener_entries (a : array_ptr) (c : GumFunctionContext)
  : GumFunctionContext :=
  {| function_address := function_address c; type := type c;
     listener_entries := a;
     trampoline_slice := trampoline_slice c;
     on_invoke_trampoline := on_invoke_trampoline c;
     on_leave_trampoline := on_leave_trampoline c;
     overwritten_prologue_len := overwritten_prologue_len c;
     replacement_function := replacement_function c;
     replacement_data := replacement_data c;
     activated := activated c; destroyed := destroyed c;
     has_on_leave_listener := has_on_leave_listener c;
     trampoline_usage_counter := trampoline_usage_counter c;
     finalized := finalized c |}.

Definition set_replacement (f d : gpointer) (c : GumFunctionContext)
  : GumFunctionContext :=
  {| function_address := function_address c; type := type c;
     listener_entries := listener_entries c;
     trampoline_slice := trampoline_slice c;
     on_invoke_trampoline := on_invoke_trampoline c;
     on_leave_trampoline := on_leave_trampoline c;
     overwritten_prologue_len := overwritten_prologue_len c;
     replacement_function := f;
     replacement_data := d;
     activated := activated c; destroyed := destroyed c;
     has_on_leave_listener := has_on_leave_listener c;
     trampoline_usage_counter := trampoline_usage_counter c;
     finalized := finalized c |}.

(** What a backend leaves in the context when it builds or adopts a
    trampoline. *)
Definition set_trampoline (t : Trampoline) (c : GumFunctionContext)
  : GumFunctionContext :=
  {| function_address := function_address c; type := type c;
     listener_entries := listener_entries c;
     trampoline_slice := slice t;
     on_invoke_trampoline := on_invoke t;
     on_leave_trampoline := on_leave_stub t;
     overwritten_prologue_len := prologue_len t;
     replacement_function := replacement_function c;
     replacement_data := replacement_data c;
     activated := activated c; destroyed := destroyed c;
     has_on_leave_listener := has_on_leave_listener c;
     trampoline_usage_counter := trampoline_usage_counter c;
     finalized := finalized c |}.

(** The backend's [destroy_trampoline] gives the slice back and clears the
    field. *)
Definition clear_trampoline_slice (c : GumFunctionContext)
  : GumFunctionContext :=
  {| function_address := function_address c; type := type c;
     listener_entries := listener_entries c;
     trampoline_slice := NULL;
     on_invoke_trampoline := on_invoke_trampoline c;
     on_leave_trampoline := on_leave_trampoline c;
     overwritten_prologue_len := overwritten_prologue_len c;
     replacement_function := replacement_function c;
     replacement_data := replacement_data c;
     activated := activated c; destroyed := destroyed c;
     has_on_leave_listener := has_on_leave_listener c;
     trampoline_usage_counter := trampoline_usage_counter c;
     finalized := finalized c |}.

Definition set_finalized (c : GumFunctionContext) : GumFunctionContext :=
  {| function_address := function_address c; type := type c;
     listener_entries := listener_entries c;
     trampoline_slice := trampoline_slice c;
     on_invoke_trampoline := on_invoke_trampoline c;
     on_leave_trampoline := on_leave_trampoline c;
     overwritten_prologue_len := overwritten_prologue_len c;
     replacement_function := replacement_function c;
     replacement_data := replacement_data c;
     activated := activated c; destroyed := destroyed c;
     has_on_leave_listener := has_on_leave_listener c;
     trampoline_usage_counter := trampoline_usage_counter c;
     finalized := true |}.

(** ** Function contexts, listeners, scheduling *)

Section Interceptor.

Variable host : Host.

Definition gum_interceptor_transaction_init : GumInterceptorTransaction :=
  {| is_dirty := false; level := 0;
     pending_destroy_tasks := []; pending_update_tasks := [] |}.

Definition set_is_dirty (b : bool) (st : State) : State :=
  let t := transaction st in
  set_current_transaction
    {| is_dirty := b; level := level t;
       pending_destroy_tasks := pending_destroy_tasks t;
       pending_update_tasks := pending_update_tasks t |} st.

Definition set_level (l : gint) (st : State) : State :=
  let t := transaction st in
  set_current_transaction
    {| is_dirty := is_dirty t; level := l;
       pending_destroy_tasks := pending_destroy_tasks t;
       pending_update_tasks := pending_update_tasks t |} st.

Definition set_pending_destroy_tasks (q : list GumDestroyTask) (st : State)
  : State :=
  let t := transaction st in
  set_current_transaction
    {| is_dirty := is_dirty t; level := level t;
       pending_destroy_tasks := q;
       pending_update_tasks := pending_update_tasks t |} st.

Definition set_pending_update_tasks
    (m : list (gpointer * list GumUpdateTask)) (st : State) : State :=
  let t := transaction st in
  set_current_transaction
    {| is_dirty := is_dirty t; level := level t;
       pending_destroy_tasks := pending_destroy_tasks t;
       pending_update_tasks := m |} st.

Definition gum_interceptor_transaction_begin (st : State) : State :=
  set_level (level (transaction st) + 1) st.

Definition gum_interceptor_transaction_schedule_destroy (ctx : ctx_ptr)
    (notify : GDestroyNotify) (data : Z) (st : State) : State :=
  let task :=
    {| task_ctx := ctx; task_notify := notify; task_data := data |} in
  set_pending_destroy_tasks
    (pending_destroy_tasks (transaction st) ++ [task]) st.

Definition backend_get_function_address (st : State) (ctx : ctx_ptr)
  : gpointer :=
  gum_interceptor_backend_get_function_address host
    (function_address (contexts st ctx)).

Definition gum_page_address_from_pointer (ptr : gpointer) : gpointer :=
  page_address_from_pointer (gum_query_page_size host) ptr.

Definition gum_interceptor_transaction_schedule_update (ctx : ctx_ptr)
    (func : GumUpdateTaskFunc) (st : State) : State :=
  let function_address := backend_get_function_address st ctx in
  let start_page := gum_page_address_from_pointer function_address in
  let end_page :=
    gum_page_address_from_pointer
      (function_address + overwritten_prologue_len (contexts st ctx) - 1) in
  let table := pending_update_tasks (transaction st) in
  let pending :=
    match g_hash_table_lookup table start_page with
    | Some pending => pending
    | None => []
    end in
  let update := {| update_ctx := ctx; update_func := func |} in
  let table := g_hash_table_insert table start_page (pending ++ [update]) in
  let table :=
    if negb (end_page =? start_page) then
      match g_hash_table_lookup table end_page with
      | Some _ => table
      | None => g_hash_table_insert table end_page []
      end
    else table in
  set_pending_update_tasks table st.

Definition gum_function_context_new (function_address : gpointer)
    (type : GumInterceptorType) (st : State) : ctx_ptr * State :=
  let (entries, st) := alloc_array [] st in
  alloc_context
    {| function_address := function_address; type := type;
       listener_entries := entries;
       trampoline_slice := NULL; on_invoke_trampoline := NULL;
       on_leave_trampoline := NULL; overwritten_prologue_len := 0;
       replacement_function := NULL; replacement_data := NULL;
       activated := false; destroyed := false;
       has_on_leave_listener := false; trampoline_usage_counter := 0;
       finalized := false |} st.

Definition gum_function_context_finalize (function_ctx : ctx_ptr)
    (st : State) : option State :=
  if trampoline_slice (contexts st function_ctx) =? NULL then
    let st :=
      emit (EvPtrArrayUnref (listener_entries (contexts st function_ctx)))
        st in
    Some (emit (EvSliceFree function_ctx)
            (update_context function_ctx set_finalized st))
  else None.

Definition gum_function_context_destroy (function_ctx : ctx_ptr)
    (st : State) : option State :=
  if destroyed (contexts st function_ctx) then None
  else
    let st := update_context function_ctx (set_destroyed true) st in
    let st :=
      if activated (contexts st function_ctx)
      then gum_interceptor_transaction_schedule_update function_ctx
             gum_interceptor_deactivate_func st
      else st in
    Some (gum_interceptor_transaction_schedule_destroy function_ctx
            gum_function_context_perform_destroy_notify
            (Z.of_nat function_ctx) st).

Definition gum_function_context_perform_destroy (function_ctx : ctx_ptr)
    (st : State) : option State :=
  let st := emit (EvDestroyTrampoline function_ctx) st in
  let st := update_context function_ctx clear_trampoline_slice st in
  gum_function_context_finalize function_ctx st.

Definition entries_of (st : State) (function_ctx : ctx_ptr)
  : list (option ListenerEntry) :=
  arrays st (listener_entries (contexts st function_ctx)).

(** First slot, from index [i] on, that holds an entry of [listener]. *)
Fixpoint find_listener_from (i : nat) (entries : list (option ListenerEntry))
    (listener : GumInvocationListener) : option nat :=
  match entries with
  | [] => None
  | slot :: rest =>
      match slot with
      | Some e =>
          if listener_instance e =? listener then Some i
          else find_listener_from (S i) rest listener
      | None => find_listener_from (S i) rest listener
      end
  end.

Definition gum_function_context_find_listener (st : State)
    (function_ctx : ctx_ptr) (listener : GumInvocationListener)
  : option nat :=
  find_listener_from 0 (entries_of st function_ctx) listener.

Definition gum_function_context_has_listener (st : State)
    (function_ctx : ctx_ptr) (listener : GumInvocationListener) : bool :=
  match gum_function_context_find_listener st function_ctx listener with
  | Some _ => true
  | None => false
  end.

Fixpoint find_taken_slot_from (i : nat)
    (entries : list (option ListenerEntry)) : option nat :=
  match entries with
  | [] => None
  | Some _ :: _ => Some i
  | None :: rest => find_taken_slot_from (S i) rest
  end.

Definition gum_function_context_find_taken_listener_slot (st : State)
    (function_ctx : ctx_ptr) : option nat :=
  find_taken_slot_from 0 (entries_of st function_ctx).

Definition gum_function_context_is_empty (st : State)
    (function_ctx : ctx_ptr) : bool :=
  if negb (replacement_function (contexts st function_ctx) =? NULL)
  then false
  else
    match gum_function_context_find_taken_listener_slot st function_ctx with
    | None => true
    | Some _ => false
    end.

(** The copy loop of [gum_function_context_add_listener]. *)
Fixpoint copy_entries (old_entries : list (option ListenerEntry))
  : list (option ListenerEntry) :=
  match old_entries with
  | [] => []
  | Some old_entry :: rest => Some old_entry :: copy_entries rest
  | None :: rest => copy_entries rest
  end.

Definition is_some {T : Type} (o : option T) : bool :=
  match o with Some _ => true | None => false end.

Definition gum_function_context_add_listener (function_ctx : ctx_ptr)
    (listener : GumInvocationListener) (function_data : gpointer)
    (st : State) : State :=
  let entry :=
    {| listener_interface := GUM_INVOCATION_LISTENER_GET_IFACE host listener;
       listener_instance := listener;
       function_data := function_data |} in
  let old_entries := listener_entries (contexts st function_ctx) in
  let (new_entries, st) :=
    alloc_array (copy_entries (arrays st old_entries) ++ [Some entry]) st in
  let st :=
    update_context function_ctx (set_listener_entries new_entries) st in
  let st :=
    gum_interceptor_transaction_schedule_destroy function_ctx
      g_ptr_array_unref (Z.of_nat old_entries) st in
  if is_some (on_leave (listener_interface entry))
  then update_context function_ctx (set_has_on_leave_listener true) st
  else st.

Fixpoint clear_slot (i : nat) (entries : list (option ListenerEntry))
  : list (option ListenerEntry) :=
  match entries, i with
  | [], _ => []
  | _ :: rest, O => None :: rest
  | slot :: rest, S i' => slot :: clear_slot i' rest
  end.

(** The scan of [gum_function_context_remove_listener]. *)
Fixpoint scan_on_leave (entries : list (option ListenerEntry)) : bool :=
  match entries with
  | [] => false
  | Some entry :: rest =>
      if is_some (on_leave (listener_interface entry)) then true
      else scan_on_leave rest
  | None :: rest => scan_on_leave rest
  end.

Definition gum_function_context_remove_listener (function_ctx : ctx_ptr)
    (listener : GumInvocationListener) (st : State) : option State :=
  match gum_function_context_find_listener st function_ctx listener with
  | None => None
  | Some slot =>
      let entries := listener_entries (contexts st function_ctx) in
      let st := set_array entries (clear_slot slot (arrays st entries)) st in
      let has_on_leave_listener :=
        scan_on_leave (entries_of st function_ctx) in
      Some (update_context function_ctx
              (set_has_on_leave_listener has_on_leave_listener) st)
  end.


(** ** Update tasks and the commit *)

Definition gum_interceptor_activate (ctx : ctx_ptr) (prologue : gpointer)
    (st : State) : option State :=
  if destroyed (contexts st ctx) then Some st
  else if activated (contexts st ctx) then None
  else
    Some (emit (EvActivateTrampoline ctx prologue)
            (update_context ctx (set_activated true) st)).

Definition gum_interceptor_deactivate (ctx : ctx_ptr) (prologue : gpointer)
    (st : State) : option State :=
  if activated (contexts st ctx) then
    Some (emit (EvDeactivateTrampoline ctx prologue)
            (update_context ctx (set_activated false) st))
  else None.

Definition call_update_func (func : GumUpdateTaskFunc)
  : ctx_ptr -> gpointer -> State -> option State :=
  match func with
  | gum_interceptor_activate_func => gum_interceptor_activate
  | gum_interceptor_deactivate_func => gum_interceptor_deactivate
  end.

(** The inner loop over the tasks of one page; [prologue_of] turns the
    address the backend names into the address handed to the task. *)
Fixpoint run_pending (pending : list GumUpdateTask)
    (prologue_of : gpointer -> gpointer) (st : State) : option State :=
  match pending with
  | [] => Some st
  | update :: rest =>
      match call_update_func (update_func update) (update_ctx update)
              (prologue_of
                 (backend_get_function_address st (update_ctx update))) st
      with
      | None => None
      | Some st' => run_pending rest prologue_of st'
      end
  end.

(** The outer loop over the sorted pages.  [source_page] is [None] when the
    tasks write to the live page, and the staged copy of the current page
    otherwise. *)
Fixpoint run_updates (table : list (gpointer * list GumUpdateTask))
    (addresses : list gpointer) (source_page : option gpointer) (st : State)
  : option State :=
  match addresses with
  | [] => Some st
  | target_page :: rest =>
      match g_hash_table_lookup table target_page with
      | None => None
      | Some pending =>
          let prologue_of function_address :=
            match source_page with
            | None => function_address
            | Some source_page =>
                source_page + (function_address - target_page)
            end in
          match run_pending pending prologue_of st with
          | None => None
          | Some st' =>
              run_updates table rest
                (option_map (fun p => p + gum_query_page_size host)
                   source_page) st'
          end
      end
  end.

Definition for_each_page (f : gpointer -> Event) (addresses : list gpointer)
    (st : State) : State :=
  fold_left (fun st target_page => emit (f target_page) st) addresses st.

(** [gum_process_enumerate_threads] with [gum_maybe_suspend_thread]. *)
Fixpoint suspend_threads (threads : list GumThreadId)
    (current_thread_id : GumThreadId) (suspended_threads : list GumThreadId)
    (st : State) : list GumThreadId * State :=
  match threads with
  | [] => (suspended_threads, st)
  | id :: rest =>
      if id =? current_thread_id then
        suspend_threads rest current_thread_id suspended_threads st
      else if negb (gum_thread_suspend host id) then
        suspend_threads rest current_thread_id suspended_threads st
      else
        suspend_threads rest current_thread_id (suspended_threads ++ [id])
          (emit (EvThreadSuspend id) st)
  end.

(** Threads are resumed from the tail of the queue; a zero id reads as the
    end of the queue. *)
Fixpoint resume_threads (reversed : list GumThreadId) (st : State) : State :=
  match reversed with
  | [] => st
  | raw_id :: rest =>
      if raw_id =? 0 then st
      else resume_threads rest (emit (EvThreadResume raw_id) st)
  end.

Fixpoint copy_pages (addresses : list gpointer) (current_page : gpointer)
    (st : State) : State :=
  match addresses with
  | [] => st
  | target_page :: rest =>
      copy_pages rest (current_page + gum_query_page_size host)
        (emit (EvMemcpy current_page target_page) st)
  end.

Fixpoint map_pages (addresses : list gpointer) (source_offset : gsize)
    (st : State) : State :=
  match addresses with
  | [] => st
  | target_page :: rest =>
      map_pages rest (source_offset + gum_query_page_size host)
        (emit (EvClearCache target_page)
           (emit (EvCodeSegmentMap source_offset target_page) st))
  end.

(** The three ways the commit writes the pending updates. *)
Definition apply_updates (table : list (gpointer * list GumUpdateTask))
    (addresses : list gpointer) (st : State) : option State :=
  match gum_process_get_code_signing_policy host with
  | GUM_CODE_SIGNING_REQUIRED => run_updates table addresses None st
  | GUM_CODE_SIGNING_OPTIONAL =>
      let rwx_supported := gum_query_is_rwx_supported host in
      let code_segment_supported := gum_code_segment_is_supported host in
      if rwx_supported || negb code_segment_supported then
        let protection := if rwx_supported then GUM_PAGE_RWX else GUM_PAGE_RW in
        let (suspended_threads, st) :=
          if negb rwx_supported
          then suspend_threads (gum_process_enumerate_threads host)
                 (gum_process_get_current_thread_id host) [] st
          else ([], st) in
        let st :=
          for_each_page (fun p => EvMprotect p protection) addresses st in
        match run_updates table addresses None st with
        | None => None
        | Some st =>
            let st :=
              if negb rwx_supported
              then for_each_page (fun p => EvMprotect p GUM_PAGE_RX)
                     addresses st
              else st in
            let st := for_each_page EvClearCache addresses st in
            Some (if negb rwx_supported
                  then resume_threads (rev suspended_threads) st
                  else st)
        end
      else
        let num_pages := g_hash_table_size table in
        let st :=
          emit (EvCodeSegmentNew (num_pages * gum_query_page_size host)) st in
        let source_page := gum_code_segment_get_address host in
        let st := copy_pages addresses source_page st in
        match run_updates table addresses (Some source_page) st with
        | None => None
        | Some st =>
            let st := emit EvCodeSegmentRealize st in
            let st := map_pages addresses 0 st in
            Some (emit EvCodeSegmentFree st)
        end
  end.

(** Calling a task's release callback. *)
Definition call_notify (task : GumDestroyTask) (st : State) : option State :=
  let st := emit (EvNotify (task_notify task) (task_data task)) st in
  match task_notify task with
  | gum_function_context_perform_destroy_notify =>
      gum_function_context_perform_destroy (Z.to_nat (task_data task)) st
  | _ => Some st
  end.

(** The drain loop of the commit over the queue of the transaction copy;
    a task that has to wait goes to the interceptor's current transaction. *)
Fixpoint drain_destroy_tasks (queue : list GumDestroyTask) (st : State)
  : option State :=
  match queue with
  | [] => Some st
  | task :: rest =>
      if trampoline_usage_counter (contexts st (task_ctx task)) =? 0 then
        match call_notify task st with
        | None => None
        | Some st' => drain_destroy_tasks rest st'
        end
      else
        let st := set_is_dirty true st in
        drain_destroy_tasks rest
          (set_pending_destroy_tasks
             (pending_destroy_tasks (transaction st) ++ [task]) st)
  end.

(** [gum_interceptor_transaction_destroy]: every task left in the queue is
    called, whatever the usage counter of its context. *)
Fixpoint gum_interceptor_transaction_destroy (queue : list GumDestroyTask)
    (st : State) : option State :=
  match queue with
  | [] => Some st
  | task :: rest =>
      match call_notify task st with
      | None => None
      | Some st' => gum_interceptor_transaction_destroy rest st'
      end
  end.

Definition g_queue_is_empty {T : Type} (q : list T) : bool :=
  match q with [] => true | _ => false end.

Definition gum_interceptor_transaction_end (st : State) : option State :=
  let st := set_level (level (transaction st) - 1) st in
  if level (transaction st) >? 0 then Some st
  else if negb (is_dirty (transaction st)) then Some st
  else
    let st := gum_interceptor_ignore_current_thread st in
    let st := emit EvCodeAllocatorCommit st in
    if g_queue_is_empty (pending_destroy_tasks (transaction st))
       && (g_hash_table_size (pending_update_tasks (transaction st)) =? 0)
    then
      Some (gum_interceptor_unignore_current_thread (set_is_dirty false st))
    else
      let transaction_copy := transaction st in
      let st := set_current_transaction gum_interceptor_transaction_init st in
      let addresses :=
        g_list_sort gum_page_address_compare
          (g_hash_table_get_keys (pending_update_tasks transaction_copy)) in
      match apply_updates (pending_update_tasks transaction_copy) addresses st
      with
      | None => None
      | Some st =>
          match drain_destroy_tasks (pending_destroy_tasks transaction_copy)
                  st with
          | None => None
          | Some st =>
              (* the drain has emptied the copy's queue *)
              match gum_interceptor_transaction_destroy [] st with
              | None => None
              | Some st => Some (gum_interceptor_unignore_current_thread st)
              end
          end
      end.


(** ** Resolution and instrumentation *)

Definition gum_interceptor_has (st : State) (function_address : gpointer)
  : bool :=
  is_some (g_hash_table_lookup (function_by_address (interceptor st))
             function_address).

(** [gum_interceptor_resolve] follows redirects; [n] bounds the number of
    redirects followed. *)
Fixpoint gum_interceptor_resolve (n : nat) (address : gpointer) (st : State)
  : option (gpointer * State) :=
  let address := gum_strip_code_pointer host address in
  if negb (gum_interceptor_has st address) then
    let st := emit (EvEnsureCodeReadable address) st in
    match gum_process_get_code_signing_policy host with
    | GUM_CODE_SIGNING_REQUIRED => Some (address, st)
    | GUM_CODE_SIGNING_OPTIONAL =>
        let target :=
          gum_interceptor_backend_resolve_redirect host address in
        if negb (target =? NULL) then
          match n with
          | O => None
          | S n' => gum_interceptor_resolve n' target st
          end
        else Some (address, st)
    end
  else Some (address, st).

Definition gum_interceptor_instrument (type_ : GumInterceptorType)
    (function_address : gpointer) (st : State)
  : option (option ctx_ptr * GumInstrumentationError * State) :=
  match g_hash_table_lookup (function_by_address (interceptor st))
          function_address with
  | Some ctx =>
      if negb (GumInterceptorType_eqb (type (contexts st ctx)) type_)
      then Some (None, GUM_INSTRUMENTATION_ERROR_WRONG_TYPE, st)
      else Some (Some ctx, GUM_INSTRUMENTATION_ERROR_NONE, st)
  | None =>
      let st := if backend (interceptor st) then st else set_backend true st in
      let (ctx, st) := gum_function_context_new function_address type_ st in
      let built :=
        match gum_process_get_code_signing_policy host with
        | GUM_CODE_SIGNING_REQUIRED =>
            match gum_interceptor_backend_claim_grafted_trampoline host
                    type_ function_address with
            | Some t => inl t
            | None => inr GUM_INSTRUMENTATION_ERROR_POLICY_VIOLATION
            end
        | GUM_CODE_SIGNING_OPTIONAL =>
            match gum_interceptor_backend_create_trampoline host
                    type_ function_address with
            | Some t => inl t
            | None => inr GUM_INSTRUMENTATION_ERROR_WRONG_SIGNATURE
            end
        end in
      match built with
      | inl t =>
          let st := update_context ctx (set_trampoline t) st in
          let st :=
            set_function_by_address
              (g_hash_table_insert (function_by_address (interceptor st))
                 function_address ctx) st in
          let st :=
            gum_interceptor_transaction_schedule_update ctx
              gum_interceptor_activate_func st in
          Some (Some ctx, GUM_INSTRUMENTATION_ERROR_NONE, st)
      | inr error =>
          match gum_function_context_finalize ctx st with
          | None => None
          | Some st => Some (None, error, st)
          end
      end
  end.

(** ** The public operations *)

Definition gum_interceptor_attach (n : nat) (function_address : gpointer)
    (listener : GumInvocationListener) (listener_function_data : gpointer)
    (st : State) : option (GumAttachReturn * State) :=
  let beach (result : GumAttachReturn) (st : State) :=
    match gum_interceptor_transaction_end st with
    | None => None
    | Some st => Some (result, gum_interceptor_unignore_current_thread st)
    end in
  let st := gum_interceptor_ignore_current_thread st in
  let st := gum_interceptor_transaction_begin st in
  let st := set_is_dirty true st in
  match gum_interceptor_resolve n function_address st with
  | None => None
  | Some (function_address, st) =>
      match gum_interceptor_instrument GUM_INTERCEPTOR_TYPE_DEFAULT
              function_address st with
      | None => None
      | Some (None, error, st) =>
          match error with
          | GUM_INSTRUMENTATION_ERROR_WRONG_SIGNATURE =>
              beach GUM_ATTACH_WRONG_SIGNATURE st
          | GUM_INSTRUMENTATION_ERROR_POLICY_VIOLATION =>
              beach GUM_ATTACH_POLICY_VIOLATION st
          | GUM_INSTRUMENTATION_ERROR_WRONG_TYPE =>
              beach GUM_ATTACH_WRONG_TYPE st
          | GUM_INSTRUMENTATION_ERROR_NONE => None
          end
      | Some (Some function_ctx, _, st) =>
          if gum_function_context_has_listener st function_ctx listener
          then beach GUM_ATTACH_ALREADY_ATTACHED st
          else
            beach GUM_ATTACH_OK
              (gum_function_context_add_listener function_ctx listener
                 listener_function_data st)
      end
  end.

(** Removing a key of [function_by_address] runs the table's value
    destructor, [gum_function_context_destroy]. *)
Definition function_by_address_remove (key : gpointer) (st : State)
  : option State :=
  match g_hash_table_lookup (function_by_address (interceptor st)) key with
  | None => Some st
  | Some function_ctx =>
      gum_function_context_destroy function_ctx
        (set_function_by_address
           (g_hash_table_remove (function_by_address (interceptor st)) key)
           st)
  end.

(** The loop of [gum_interceptor_detach] over the entries the table holds
    when the iteration starts.  (The per-thread listener data slots the
    source also clears are not part of the model.) *)
Fixpoint detach_loop (entries : list (gpointer * ctx_ptr))
    (listener : GumInvocationListener) (st : State) : option State :=
  match entries with
  | [] => Some st
  | (key, function_ctx) :: rest =>
      if gum_function_context_has_listener st function_ctx listener then
        match gum_function_context_remove_listener function_ctx listener st
        with
        | None => None
        | Some st =>
            let st :=
              gum_interceptor_transaction_schedule_destroy function_ctx
                g_object_unref listener st in
            if gum_function_context_is_empty st function_ctx then
              match function_by_address_remove key st with
              | None => None
              | Some st => detach_loop rest listener st
              end
            else detach_loop rest listener st
        end
      else detach_loop rest listener st
  end.

Definition gum_interceptor_detach (listener : GumInvocationListener)
    (st : State) : option State :=
  let st := gum_interceptor_ignore_current_thread st in
  let st := gum_interceptor_transaction_begin st in
  let st := set_is_dirty true st in
  match detach_loop (function_by_address (interceptor st)) listener st with
  | None => None
  | Some st =>
      match gum_interceptor_transaction_end st with
      | None => None
      | Some st => Some (gum_interceptor_unignore_current_thread st)
      end
  end.

(** [original_function] is the cell the caller's pointer designates, [None]
    for a null pointer; the cell is returned as the call leaves it. *)
Definition gum_interceptor_replace_with_type (n : nat)
    (type_ : GumInterceptorType) (function_address : gpointer)
    (replacement_function_ replacement_data_ : gpointer)
    (original_function : option gpointer) (st : State)
  : option (GumReplaceReturn * option gpointer * State) :=
  let beach (result : GumReplaceReturn) (cell : option gpointer)
      (st : State) :=
    match gum_interceptor_transaction_end st with
    | None => None
    | Some st => Some (result, cell, st)
    end in
  let st := gum_interceptor_transaction_begin st in
  let st := set_is_dirty true st in
  match gum_interceptor_resolve n function_address st with
  | None => None
  | Some (function_address, st) =>
      match gum_interceptor_instrument type_ function_address st with
      | None => None
      | Some (None, error, st) =>
          match error with
          | GUM_INSTRUMENTATION_ERROR_WRONG_SIGNATURE =>
              beach GUM_REPLACE_WRONG_SIGNATURE original_function st
          | GUM_INSTRUMENTATION_ERROR_POLICY_VIOLATION =>
              beach GUM_REPLACE_POLICY_VIOLATION original_function st
          | GUM_INSTRUMENTATION_ERROR_WRONG_TYPE =>
              beach GUM_REPLACE_WRONG_TYPE original_function st
          | GUM_INSTRUMENTATION_ERROR_NONE => None
          end
      | Some (Some function_ctx, _, st) =>
          if negb (replacement_function (contexts st function_ctx) =? NULL)
          then beach GUM_REPLACE_ALREADY_REPLACED original_function st
          else
            let st :=
              update_context function_ctx
                (set_replacement replacement_function_ replacement_data_) st in
            let cell :=
              match original_function with
              | Some _ =>
                  Some (on_invoke_trampoline (contexts st function_ctx))
              | None => None
              end in
            beach GUM_REPLACE_OK cell st
      end
  end.

Definition gum_interceptor_replace (n : nat) (function_address : gpointer)
    (replacement_function_ replacement_data_ : gpointer)
    (original_function : option gpointer) (st : State) :=
  gum_interceptor_replace_with_type n GUM_INTERCEPTOR_TYPE_DEFAULT
    function_address replacement_function_ replacement_data_
    original_function st.

Definition gum_interceptor_replace_fast (n : nat)
    (function_address : gpointer) (replacement_function_ : gpointer)
    (original_function : option gpointer) (st : State) :=
  gum_interceptor_replace_with_type n GUM_INTERCEPTOR_TYPE_FAST
    function_address replacement_function_ NULL original_function st.

Definition gum_interceptor_revert (n : nat) (function_address : gpointer)
    (st : State) : option State :=
  let st := gum_interceptor_transaction_begin st in
  let st := set_is_dirty true st in
  match gum_interceptor_resolve n function_address st with
  | None => None
  | Some (function_address, st) =>
      match g_hash_table_lookup (function_by_address (interceptor st))
              function_address with
      | None => gum_interceptor_transaction_end st
      | Some function_ctx =>
          let st :=
            update_context function_ctx (set_replacement NULL NULL) st in
          if gum_function_context_is_empty st function_ctx then
            match function_by_address_remove function_address st with
            | None => None
            | Some st => gum_interceptor_transaction_end st
            end
          else gum_interceptor_transaction_end st
      end
  end.

Definition gum_interceptor_begin_transaction (st : State) : State :=
  gum_interceptor_transaction_begin st.

Definition gum_interceptor_end_transaction (st : State) : option State :=
  gum_interceptor_transaction_end st.

Definition gum_interceptor_flush (st : State) : option (bool * State) :=
  if level (transaction st) =? 0 then
    let st := gum_interceptor_transaction_begin st in
    match gum_interceptor_transaction_end st with
    | None => None
    | Some st =>
        Some (g_queue_is_empty (pending_destroy_tasks (transaction st)), st)
    end
  else Some (false, st).

(** Tear-down: [g_hash_table_remove_all] destroys every context, one commit
    follows, and finalization runs whatever the queue still holds. *)
Fixpoint remove_all (entries : list (gpointer * ctx_ptr)) (st : State)
  : option State :=
  match entries with
  | [] => Some st
  | (key, _) :: rest =>
      match function_by_address_remove key st with
      | None => None
      | Some st => remove_all rest st
      end
  end.

Definition gum_interceptor_do_dispose (st : State) : option State :=
  let st := gum_interceptor_transaction_begin st in
  let st := set_is_dirty true st in
  match remove_all (function_by_address (interceptor st)) st with
  | None => None
  | Some st => gum_interceptor_transaction_end st
  end.

Definition gum_interceptor_do_finalize (st : State) : option State :=
  match gum_interceptor_transaction_destroy
          (pending_destroy_tasks (transaction st)) st with
  | None => None
  | Some st => Some (set_backend false (set_pending_destroy_tasks [] st))
  end.


(** ** The invocation engine: hook entry *)

Definition gum_invocation_stack_push (stack : GumInvocationStack)
    (function_ctx_ : ctx_ptr) (function_address_ : gpointer)
    (caller_ret_addr_ : gpointer) : GumInvocationStack :=
  stack ++
  [{| function_ctx := function_ctx_;
      caller_ret_addr := caller_ret_addr_;
      invocation_function := gum_sign_code_pointer host function_address_;
      invocation_system_error := 0;
      invocation_backend := NoBackend;
      cpu_context := {| pc := 0; registers := [] |};
      calling_replacement := false;
      original_system_error := 0 |}].

Definition gum_invocation_stack_pop (stack : GumInvocationStack)
  : GumInvocationStack := removelast stack.

Definition update_top
    (f : GumInvocationStackEntry -> GumInvocationStackEntry)
    (stack : GumInvocationStack) : GumInvocationStack :=
  match gum_invocation_stack_peek_top stack with
  | None => stack
  | Some entry => removelast stack ++ [f entry]
  end.

Definition set_invocation (system_error_ : gint)
    (backend_ : InvocationBackendKind) (e : GumInvocationStackEntry)
  : GumInvocationStackEntry :=
  {| function_ctx := function_ctx e; caller_ret_addr := caller_ret_addr e;
     invocation_function := invocation_function e;
     invocation_system_error := system_error_;
     invocation_backend := backend_;
     cpu_context := cpu_context e;
     calling_replacement := calling_replacement e;
     original_system_error := original_system_error e |}.

Definition set_calling_replacement (cpu : GumCpuContext)
    (system_error_ : gint) (e : GumInvocationStackEntry)
  : GumInvocationStackEntry :=
  {| function_ctx := function_ctx e; caller_ret_addr := caller_ret_addr e;
     invocation_function := invocation_function e;
     invocation_system_error := invocation_system_error e;
     invocation_backend := ReplacementBackend;
     cpu_context := cpu;
     calling_replacement := true;
     original_system_error := system_error_ |}.

Definition gum_function_context_fixup_cpu_context (c : GumFunctionContext)
    (cpu : GumCpuContext) : GumCpuContext :=
  {| pc := GPOINTER_TO_SIZE (function_address c);
     registers := registers cpu |}.

(** The loop over the listener snapshot on entry: every live entry that
    has an [on_enter] callback is called, in slot order. *)
Fixpoint dispatch_on_enter (entries : list (option ListenerEntry))
    (system_error_ : gint) (st : State) : gint * State :=
  match entries with
  | [] => (system_error_, st)
  | None :: rest => dispatch_on_enter rest system_error_ st
  | Some listener_entry :: rest =>
      match on_enter (listener_interface listener_entry) with
      | Some callback =>
          dispatch_on_enter rest (callback system_error_)
            (emit (EvOnEnter (listener_instance listener_entry)) st)
      | None => dispatch_on_enter rest system_error_ st
      end
  end.

(** The test made on the top frame: a replacement of this very function is
    calling through to the original. *)
Definition replacement_reentry (stack : GumInvocationStack)
    (c : GumFunctionContext) : bool :=
  match gum_invocation_stack_peek_top stack with
  | Some stack_entry =>
      calling_replacement stack_entry
      && (gum_strip_code_pointer host (invocation_function stack_entry)
          =? function_address c)
  | None => false
  end.

(** The two decisions taken on entry, as the source computes them. *)
Definition entry_invoke_listeners (interceptor_ : GumInterceptor)
    (interceptor_ctx : InterceptorThreadContext) : bool :=
  let invoke_listeners :=
    if negb (selected_thread_id interceptor_ =? 0)
    then gum_process_get_current_thread_id host
         =? selected_thread_id interceptor_
    else true in
  if invoke_listeners then ignore_level interceptor_ctx <=? 0
  else invoke_listeners.

Definition entry_will_trap_on_leave (c : GumFunctionContext)
    (invoke_listeners : bool) : bool :=
  negb (replacement_function c =? NULL)
  || (invoke_listeners && has_on_leave_listener c).

Record BeginInvocation := {
  out_cpu_context : GumCpuContext;
  out_caller_ret_addr : gpointer;
  out_next_hop : gpointer
}.

Definition _gum_function_context_begin_invocation (function_ctx_ : ctx_ptr)
    (cpu_context_ : GumCpuContext) (caller_ret_addr_ : gpointer)
    (st : State) : BeginInvocation * State :=
  let st := g_atomic_int_inc function_ctx_ st in
  let c := contexts st function_ctx_ in
  if guard st then
    ({| out_cpu_context := cpu_context_;
        out_caller_ret_addr := caller_ret_addr_;
        out_next_hop := on_invoke_trampoline c |},
     g_atomic_int_dec_and_test function_ctx_ st)
  else
    let st := set_guard true st in
    let (interceptor_ctx, st) := get_interceptor_thread_context st in
    let stack := stack interceptor_ctx in
    if replacement_reentry stack c then
      ({| out_cpu_context := cpu_context_;
          out_caller_ret_addr := caller_ret_addr_;
          out_next_hop := on_invoke_trampoline c |},
       g_atomic_int_dec_and_test function_ctx_ (set_guard false st))
    else
      let system_error_ := system_error st in
      let invoke_listeners :=
        entry_invoke_listeners (interceptor st) interceptor_ctx in
      let will_trap_on_leave :=
        entry_will_trap_on_leave c invoke_listeners in
      let stack :=
        if will_trap_on_leave then
          update_top (set_invocation system_error_ NoBackend)
            (gum_invocation_stack_push stack function_ctx_
               (function_address c) caller_ret_addr_)
        else if invoke_listeners then
          update_top (set_invocation system_error_ NoBackend)
            (gum_invocation_stack_push stack function_ctx_
               (function_address c) (function_address c))
        else stack in
      let cpu_context_ := gum_function_context_fixup_cpu_context c
                            cpu_context_ in
      let '(system_error_, stack, st) :=
        if invoke_listeners then
          let (e, st) :=
            dispatch_on_enter (arrays st (listener_entries c))
              system_error_ st in
          (e, update_top (set_invocation e ListenerBackend) stack, st)
        else (system_error_, stack, st) in
      let stack :=
        if negb will_trap_on_leave && invoke_listeners
        then gum_invocation_stack_pop stack
        else stack in
      let st := set_system_error system_error_ st in
      let st := set_guard false st in
      let caller_ret_addr_ :=
        if will_trap_on_leave then on_leave_trampoline c
        else caller_ret_addr_ in
      let '(stack, next_hop) :=
        if negb (replacement_function c =? NULL) then
          (update_top (set_calling_replacement cpu_context_ system_error_)
             stack,
           replacement_function c)
        else (stack, on_invoke_trampoline c) in
      let st :=
        set_thread_context (Some (set_stack stack interceptor_ctx)) st in
      let st :=
        if negb will_trap_on_leave
        then g_atomic_int_dec_and_test function_ctx_ st
        else st in
      ({| out_cpu_context := cpu_context_;
          out_caller_ret_addr := caller_ret_addr_;
          out_next_hop := next_hop |}, st).

End Interceptor.

(** ** The state a process starts in *)

Definition blank_context : GumFunctionContext :=
  {| function_address := NULL; type := GUM_INTERCEPTOR_TYPE_DEFAULT;
     listener_entries := O;
     trampoline_slice := NULL; on_invoke_trampoline := NULL;
     on_leave_trampoline := NULL; overwritten_prologue_len := 0;
     replacement_function := NULL; replacement_data := NULL;
     activated := false; destroyed := false;
     has_on_leave_listener := false; trampoline_usage_counter := 0;
     finalized := false |}.

(** [gum_interceptor_init], in a process where no thread has entered a hook
    yet. *)
Definition gum_interceptor_init : State :=
  {| interceptor :=
       {| function_by_address := []; backend := false;
          selected_thread_id := 0;
          current_transaction := gum_interceptor_transaction_init |};
     contexts := fun _ => blank_context; next_context := O;
     arrays := fun _ => []; next_array := O;
     thread_context := None; guard := false; system_error := 0;
     trace := [] |}.

(** ** Observations used in the statements *)

(** What a run from [st] to [st'] added to the trace. *)
Definition new_events (st st' : State) : list Event :=
  skipn (length (trace st)) (trace st').

(** The listeners of the live entries that provide [on_enter], in slot
    order. *)
Fixpoint on_enter_listeners (entries : list (option ListenerEntry))
  : list GumInvocationListener :=
  match entries with
  | [] => []
  | Some e :: rest =>
      if is_some (on_enter (listener_interface e))
      then listener_instance e :: on_enter_listeners rest
      else on_enter_listeners rest
  | None :: rest => on_enter_listeners rest
  end.

(** The call is cut short by the guard or by the re-entry test. *)
Definition bypassed (host : Host) (function_ctx_ : ctx_ptr) (st : State)
  : bool :=
  guard st
  || replacement_reentry host (gum_interceptor_get_current_stack st)
       (contexts st function_ctx_).

(** The thread passes the selected-thread filter. *)
Definition thread_selected (host : Host) (st : State) : bool :=
  (selected_thread_id (interceptor st) =? 0)
  || (gum_process_get_current_thread_id host
      =? selected_thread_id (interceptor st)).

Inductive IgnoreOp := Ignore | Unignore.

Definition run_ignore_op (st : State) (op : IgnoreOp) : State :=
  match op with
  | Ignore => gum_interceptor_ignore_current_thread st
  | Unignore => gum_interceptor_unignore_current_thread st
  end.

Definition run_ignore_ops (ops : list IgnoreOp) (st : State) : State :=
  fold_left run_ignore_op ops st.

Fixpoint ignore_balance (ops : list IgnoreOp) : Z :=
  match ops with
  | [] => 0
  | Ignore :: rest => 1 + ignore_balance rest
  | Unignore :: rest => ignore_balance rest - 1
  end.

(** How many of the frames belong to context [c]. *)
Fixpoint frames_of (c : ctx_ptr) (frames : GumInvocationStack) : Z :=
  match frames with
  | [] => 0
  | e :: rest =>
      (if Nat.eqb (function_ctx e) c then 1 else 0) + frames_of c rest
  end.

(** ** A concrete host and concrete states, for examples *)

Definition demo_interface : GumInvocationListenerInterface :=
  {| on_enter := Some (fun e => e); on_leave := Some (fun e => e) |}.

Definition demo_host : Host :=
  {| gum_process_get_code_signing_policy := GUM_CODE_SIGNING_OPTIONAL;
     gum_query_page_size := 4096;
     gum_query_is_rwx_supported := true;
     gum_code_segment_is_supported := false;
     gum_code_segment_get_address := 0;
     gum_process_get_current_thread_id := 7;
     gum_process_enumerate_threads := [7; 8];
     gum_thread_suspend := fun _ => true;
     gum_strip_code_pointer := fun p => p;
     gum_sign_code_pointer := fun p => p;
     gum_interceptor_backend_create_trampoline := fun _ a =>
       Some {| slice := a + 1048576; on_invoke := a + 1048592;
               on_leave_stub := a + 1048608; prologue_len := 16 |};
     gum_interceptor_backend_claim_grafted_trampoline := fun _ _ => None;
     gum_interceptor_backend_resolve_redirect := fun _ => NULL;
     gum_interceptor_backend_get_function_address := fun a => a;
     GUM_INVOCATION_LISTENER_GET_IFACE := fun _ => demo_interface |}.

Definition demo_frame (c : ctx_ptr) (ret : gpointer)
  : GumInvocationStackEntry :=
  {| function_ctx := c; caller_ret_addr := ret;
     invocation_function := 0; invocation_system_error := 0;
     invocation_backend := NoBackend;
     cpu_context := {| pc := 0; registers := [] |};
     calling_replacement := false; original_system_error := 0 |}.

Definition or_init (o : option State) : State :=
  match o with Some st => st | None => gum_interceptor_init end.

(** Listener 1 attached to the function at 0x401000. *)
Definition demo_attached : State :=
  or_init (option_map snd
             (gum_interceptor_attach demo_host 0 4198400 1 0
                gum_interceptor_init)).

(** The same, with two calls of that function in flight on the thread. *)
Definition demo_in_flight : State :=
  set_thread_context
    (Some {| ignore_level := 0;
             stack := [demo_frame O 1000; demo_frame O 2000] |})
    (g_atomic_int_inc O (g_atomic_int_inc O demo_attached)).

(** The same as [demo_attached], after another thread (id 5) has asked for
    listeners to fire on it alone. *)
Definition demo_other_selected : State :=
  set_selected_thread_id 5 demo_attached.

Definition with_ignore_level (l : gint) (st : State) : State :=
  set_thread_context
    (Some (set_ignore_level l (fst (get_interceptor_thread_context st)))) st.

Definition demo_cpu : GumCpuContext := {| pc := 0; registers := [] |}.

Definition discard_frames (frames : GumInvocationStack) (st : State)
  : State :=
  fold_left (fun st e => g_atomic_int_dec_and_test (function_ctx e) st)
    frames st.

(** Some live entry provides [on_leave]. *)
Definition live_on_leave (entries : list (option ListenerEntry)) : bool :=
  existsb
    (fun slot =>
       match slot with
       | Some e => is_some (on_leave (listener_interface e))
       | None => false
       end) entries.

Definition flag_accurate (st : State) (function_ctx_ : ctx_ptr) : Prop :=
  has_on_leave_listener (contexts st function_ctx_)
  = live_on_leave (entries_of st function_ctx_).

Inductive ListenerOp :=
| AddListener (listener : GumInvocationListener) (function_data_ : gpointer)
| RemoveListener (listener : GumInvocationListener).

Fixpoint run_listener_ops (host : Host) (function_ctx_ : ctx_ptr)
    (ops : list ListenerOp) (st : State) : option State :=
  match ops with
  | [] => Some st
  | AddListener listener function_data_ :: rest =>
      run_listener_ops host function_ctx_ rest
        (gum_function_context_add_listener host function_ctx_ listener
           function_data_ st)
  | RemoveListener listener :: rest =>
      match gum_function_context_remove_listener function_ctx_ listener st
      with
      | None => None
      | Some st' => run_listener_ops host function_ctx_ rest st'
      end
  end.

(** The tasks of a table, page after page in enumeration order. *)
Definition all_update_tasks (table : list (gpointer * list GumUpdateTask))
  : list GumUpdateTask := concat (map snd table).

(** The tasks in the order the commit runs them, for a given page order. *)
Definition scheduled (table : list (gpointer * list GumUpdateTask))
    (addresses : list gpointer) : list GumUpdateTask :=
  flat_map
    (fun page =>
       match g_hash_table_lookup table page with
       | Some pending => pending
       | None => []
       end) addresses.

(** The assertion of the task's function holds. *)
Definition update_task_ready (h : ctx_ptr -> GumFunctionContext)
    (t : GumUpdateTask) : Prop :=
  match update_func t with
  | gum_interceptor_activate_func =>
      destroyed (h (update_ctx t)) = true
      \/ activated (h (update_ctx t)) = false
  | gum_interceptor_deactivate_func =>
      activated (h (update_ctx t)) = true
  end.

(** Pending updates are well formed: one entry per page, at most one task
    per context, each task on an allocated context and with its assertion
    true. *)
Definition updates_wf (st : State) : Prop :=
  let table := pending_update_tasks (transaction st) in
  NoDup (map fst table)
  /\ NoDup (map update_ctx (all_update_tasks table))
  /\ Forall (update_task_ready (contexts st)) (all_update_tasks table)
  /\ Forall (fun t => (update_ctx t < next_context st)%nat)
       (all_update_tasks table).

(** A context-destroying task names the context it belongs to. *)
Definition destroy_tasks_wf (st : State) : Prop :=
  Forall
    (fun t =>
       task_notify t = gum_function_context_perform_destroy_notify ->
       task_data t = Z.of_nat (task_ctx t))
    (pending_destroy_tasks (transaction st)).

(** The release callbacks that ran, oldest first. *)
Fixpoint notifications (events : list Event) : list (GDestroyNotify * Z) :=
  match events with
  | [] => []
  | EvNotify notify data :: rest => (notify, data) :: notifications rest
  | _ :: rest => notifications rest
  end.

Definition released (st : State) : list (GDestroyNotify * Z) :=
  notifications (trace st).

Definition callback (t : GumDestroyTask) : GDestroyNotify * Z :=
  (task_notify t, task_data t).

(** The context of the task is idle in [st]. *)
Definition idle (st : State) (t : GumDestroyTask) : bool :=
  trampoline_usage_counter (contexts st (task_ctx t)) =? 0.

(** A context in which only the fields the commit writes may differ. *)
Definition with_volatile (a : bool) (s : gpointer) (f : bool)
    (c : GumFunctionContext) : GumFunctionContext :=
  {| function_address := function_address c; type := type c;
     listener_entries := listener_entries c;
     trampoline_slice := s;
     on_invoke_trampoline := on_invoke_trampoline c;
     on_leave_trampoline := on_leave_trampoline c;
     overwritten_prologue_len := overwritten_prologue_len c;
     replacement_function := replacement_function c;
     replacement_data := replacement_data c;
     activated := a; destroyed := destroyed c;
     has_on_leave_listener := has_on_leave_listener c;
     trampoline_usage_counter := trampoline_usage_counter c;
     finalized := f |}.

Definition keeps (c c' : GumFunctionContext) : Prop :=
  c' = with_volatile (activated c') (trampoline_slice c') (finalized c') c.

(** What a commit leaves alone. *)
Record commit_frame (st st' : State) : Prop := {
  cf_function_by_address :
    function_by_address (interceptor st')
    = function_by_address (interceptor st);
  cf_backend : backend (interceptor st') = backend (interceptor st);
  cf_selected_thread_id :
    selected_thread_id (interceptor st')
    = selected_thread_id (interceptor st);
  cf_arrays : arrays st' = arrays st;
  cf_next_context : next_context st' = next_context st;
  cf_next_array : next_array st' = next_array st;
  cf_guard : guard st' = guard st;
  cf_system_error : system_error st' = system_error st;
  cf_stack :
    gum_interceptor_get_current_stack st'
    = gum_interceptor_get_current_stack st;
  cf_contexts : forall q, keeps (contexts st q) (contexts st' q)
}.

(** What every step of the update phase preserves. *)
Record update_frame (st st' : State) : Prop := {
  uf_commit : commit_frame st st';
  uf_interceptor : interceptor st' = interceptor st;
  uf_thread_context : thread_context st' = thread_context st;
  uf_released : released st' = released st;
  uf_storage :
    forall q,
      trampoline_slice (contexts st' q) = trampoline_slice (contexts st q)
      /\ finalized (contexts st' q) = finalized (contexts st q)
}.

(** Steps that only add events other than release callbacks. *)
Record quiet_frame (st st' : State) : Prop := {
  qf_update : update_frame st st';
  qf_contexts : contexts st' = contexts st
}.

Definition waiting (st : State) (t : GumDestroyTask) : bool :=
  negb (idle st t).

Definition demo_entered : State :=
  snd (_gum_function_context_begin_invocation demo_host O demo_cpu 5000
         demo_attached).

Definition demo_detaching : State :=
  or_init (gum_interceptor_detach demo_host 1
             (gum_interceptor_begin_transaction demo_entered)).

Definition demo_waiting : State :=
  or_init (gum_interceptor_transaction_end demo_host demo_detaching).

Definition demo_disposed : State :=
  or_init (gum_interceptor_do_dispose demo_host demo_waiting).

Definition demo_finalized : State :=
  or_init (gum_interceptor_do_finalize demo_disposed).

(** Two functions attached inside one transaction: one of the main program
    (page 0x555555555000) and one of a shared library (page
    0x7ffff7e4f000); the state is the one [end_transaction] finds. *)
Definition demo_far_apart : State :=
  or_init (option_map snd
    (gum_interceptor_attach demo_host 0 140737352364048 1 0
       (or_init (option_map snd
          (gum_interceptor_attach demo_host 0 93824992235584 1 0
             (gum_interceptor_begin_transaction gum_interceptor_init)))))).

(** The writes to prologues among the events. *)
Fixpoint update_events (events : list Event) : list Event :=
  match events with
  | [] => []
  | EvActivateTrampoline c p :: rest =>
      EvActivateTrampoline c p :: update_events rest
  | EvDeactivateTrampoline c p :: rest =>
      EvDeactivateTrampoline c p :: update_events rest
  | _ :: rest => update_events rest
  end.

Definition low_page : gpointer := 93824992235520.
Definition high_page : gpointer := 140737352364032.

(** ** Outcomes of the public operations *)

(** The address [gum_interceptor_resolve] arrives at, when [n] redirects
    are enough. *)
Definition resolve_address (host : Host) (n : nat) (address : gpointer)
    (st : State) : option gpointer :=
  option_map fst (gum_interceptor_resolve host n address st).

(** What the backend is asked for a new context, and the error its refusal
    is reported as. *)
Definition backend_build (host : Host) (type_ : GumInterceptorType)
    (function_address_ : gpointer) : option Trampoline :=
  match gum_process_get_code_signing_policy host with
  | GUM_CODE_SIGNING_REQUIRED =>
      gum_interceptor_backend_claim_grafted_trampoline host type_
        function_address_
  | GUM_CODE_SIGNING_OPTIONAL =>
      gum_interceptor_backend_create_trampoline host type_ function_address_
  end.

Definition build_error (host : Host) : GumInstrumentationError :=
  match gum_process_get_code_signing_policy host with
  | GUM_CODE_SIGNING_REQUIRED => GUM_INSTRUMENTATION_ERROR_POLICY_VIOLATION
  | GUM_CODE_SIGNING_OPTIONAL => GUM_INSTRUMENTATION_ERROR_WRONG_SIGNATURE
  end.

(** Only default contexts carry listeners. *)
Definition listeners_wf (st : State) : Prop :=
  forall a ctx slot,
    g_hash_table_lookup (function_by_address (interceptor st)) a = Some ctx ->
    type (contexts st ctx) = GUM_INTERCEPTOR_TYPE_FAST ->
    In slot (entries_of st ctx) -> slot = None.

(** The code [gum_interceptor_attach] returns for the resolved address
    [ra]. *)
Definition attach_outcome (host : Host) (st : State) (ra : gpointer)
    (listener : GumInvocationListener) : GumAttachReturn :=
  match g_hash_table_lookup (function_by_address (interceptor st)) ra with
  | Some ctx =>
      match type (contexts st ctx) with
      | GUM_INTERCEPTOR_TYPE_FAST => GUM_ATTACH_WRONG_TYPE
      | GUM_INTERCEPTOR_TYPE_DEFAULT =>
          if gum_function_context_has_listener st ctx listener
          then GUM_ATTACH_ALREADY_ATTACHED
          else GUM_ATTACH_OK
      end
  | None =>
      match backend_build host GUM_INTERCEPTOR_TYPE_DEFAULT ra with
      | Some _ => GUM_ATTACH_OK
      | None =>
          match gum_process_get_code_signing_policy host with
          | GUM_CODE_SIGNING_REQUIRED => GUM_ATTACH_POLICY_VIOLATION
          | GUM_CODE_SIGNING_OPTIONAL => GUM_ATTACH_WRONG_SIGNATURE
          end
      end
  end.

(** The code [gum_interceptor_replace_with_type] returns for the resolved
    address [ra]. *)
Definition replace_outcome (host : Host) (st : State) (ra : gpointer)
    (type_ : GumInterceptorType) : GumReplaceReturn :=
  match g_hash_table_lookup (function_by_address (interceptor st)) ra with
  | Some ctx =>
      if GumInterceptorType_eqb (type (contexts st ctx)) type_ then
        if replacement_function (contexts st ctx) =? NULL
        then GUM_REPLACE_OK
        else GUM_REPLACE_ALREADY_REPLACED
      else GUM_REPLACE_WRONG_TYPE
  | None =>
      match backend_build host type_ ra with
      | Some _ => GUM_REPLACE_OK
      | None =>
          match gum_process_get_code_signing_policy host with
          | GUM_CODE_SIGNING_REQUIRED => GUM_REPLACE_POLICY_VIOLATION
          | GUM_CODE_SIGNING_OPTIONAL => GUM_REPLACE_WRONG_SIGNATURE
          end
      end
  end.

(** The function at 0x401000 replaced through [replace_fast] by the code
    at 0x2000. *)
Definition demo_fast_replaced : State :=
  or_init (option_map (fun x => snd x)
             (gum_interceptor_replace_fast demo_host 0 4198400 8192 None
                gum_interceptor_init)).

(** The same function replaced through [replace] by the code at 0x2000,
    with data 77. *)
Definition demo_replaced : State :=
  or_init (option_map (fun x => snd x)
             (gum_interceptor_replace demo_host 0 4198400 8192 77 None
                gum_interceptor_init)).

(** ** The invariant of the interceptor's data, and reachable states *)

(** A deactivation is pending only for a context that has been destroyed. *)
Definition deactivations_wf (st : State) : Prop :=
  Forall
    (fun t =>
       update_func t = gum_interceptor_deactivate_func ->
       destroyed (contexts st (update_ctx t)) = true)
    (all_update_tasks (pending_update_tasks (transaction st))).

(** The contexts of the table are allocated, distinct and not destroyed;
    their listener arrays are allocated. *)
Definition table_wf (st : State) : Prop :=
  let table := function_by_address (interceptor st) in
  NoDup (map fst table)
  /\ NoDup (map snd table)
  /\ forall a ctx,
       In (a, ctx) table ->
       (ctx < next_context st)%nat
       /\ destroyed (contexts st ctx) = false
       /\ (listener_entries (contexts st ctx) < next_array st)%nat.

(** Contexts of the fast kind have no live listener entry. *)
Definition fast_contexts_wf (st : State) : Prop :=
  forall a ctx slot,
    In (a, ctx) (function_by_address (interceptor st)) ->
    type (contexts st ctx) = GUM_INTERCEPTOR_TYPE_FAST ->
    In slot (entries_of st ctx) -> slot = None.

(** The invariant of the interceptor's data. *)
Record interceptor_wf (st : State) : Prop := {
  wf_updates : updates_wf st;
  wf_destroy_tasks : destroy_tasks_wf st;
  wf_deactivations : deactivations_wf st;
  wf_table : table_wf st;
  wf_fast_contexts : fast_contexts_wf st
}.

(** Two states that agree on everything the invariant reads: the tables,
    and the contexts and arrays allocated in the first. *)
Record same_shape (st st' : State) : Prop := {
  ss_table :
    function_by_address (interceptor st')
    = function_by_address (interceptor st);
  ss_updates :
    pending_update_tasks (transaction st')
    = pending_update_tasks (transaction st);
  ss_destroy_tasks :
    pending_destroy_tasks (transaction st')
    = pending_destroy_tasks (transaction st);
  ss_next_context : (next_context st <= next_context st')%nat;
  ss_next_array : (next_array st <= next_array st')%nat;
  ss_arrays :
    forall a, (a < next_array st)%nat -> arrays st' a = arrays st a;
  ss_contexts :
    forall q,
      (q < next_context st)%nat ->
      type (contexts st' q) = type (contexts st q)
      /\ listener_entries (contexts st' q) = listener_entries (contexts st q)
      /\ activated (contexts st' q) = activated (contexts st q)
      /\ destroyed (contexts st' q) = destroyed (contexts st q)
}.

(** The states a process gets to from [gum_interceptor_init] through the
    operations of the model. *)
Inductive reachable (host : Host) : State -> Prop :=
| reach_init : reachable host gum_interceptor_init
| reach_attach n address l d st r st' :
    reachable host st ->
    gum_interceptor_attach host n address l d st = Some (r, st') ->
    reachable host st'
| reach_detach l st st' :
    reachable host st ->
    gum_interceptor_detach host l st = Some st' ->
    reachable host st'
| reach_replace n address f d cell st r cell' st' :
    reachable host st ->
    gum_interceptor_replace host n address f d cell st
    = Some (r, cell', st') ->
    reachable host st'
| reach_replace_fast n address f cell st r cell' st' :
    reachable host st ->
    gum_interceptor_replace_fast host n address f cell st
    = Some (r, cell', st') ->
    reachable host st'
| reach_revert n address st st' :
    reachable host st ->
    gum_interceptor_revert host n address st = Some st' ->
    reachable host st'
| reach_begin_transaction st :
    reachable host st ->
    reachable host (gum_interceptor_begin_transaction st)
| reach_end_transaction st st' :
    reachable host st ->
    gum_interceptor_end_transaction host st = Some st' ->
    reachable host st'
| reach_flush st flushed st' :
    reachable host st ->
    gum_interceptor_flush host st = Some (flushed, st') ->
    reachable host st'
| reach_ignore_current_thread st :
    reachable host st ->
    reachable host (gum_interceptor_ignore_current_thread st)
| reach_unignore_current_thread st :
    reachable host st ->
    reachable host (gum_interceptor_unignore_current_thread st)
| reach_maybe_unignore_current_thread st :
    reachable host st ->
    reachable host (snd (gum_interceptor_maybe_unignore_current_thread st))
| reach_ignore_other_threads st :
    reachable host st ->
    reachable host (gum_interceptor_ignore_other_threads host st)
| reach_unignore_other_threads st st' :
    reachable host st ->
    gum_interceptor_unignore_other_threads host st = Some st' ->
    reachable host st'
| reach_other_thread_selected id st :
    (* [gum_interceptor_ignore_other_threads] called on another thread *)
    reachable host st ->
    reachable host (set_selected_thread_id id st)
| reach_begin_invocation f cpu ra st :
    reachable host st ->
    (f < next_context st)%nat ->
    reachable host
      (snd (_gum_function_context_begin_invocation host f cpu ra st))
| reach_restore s st st' :
    reachable host st ->
    gum_interceptor_restore s st = Some st' ->
    reachable host st'.

(** Page addresses that fit in 64 bits and lie less than 2 GiB apart. *)
Definition close_pages (pages : list gpointer) : Prop :=
  forall a b,
    In a pages -> In b pages ->
    0 <= a < 2 ^ 64 /\ 0 <= b < 2 ^ 64 /\ - 2 ^ 31 <= a - b < 2 ^ 31.

(** Two functions of one page (0x401000) attached, in this order, inside
    one transaction; the state is the one [end_transaction] finds. *)
Definition demo_same_page : State :=
  or_init (option_map snd
    (gum_interceptor_attach demo_host 0 4198656 1 0
       (or_init (option_map snd
          (gum_interceptor_attach demo_host 0 4198400 1 0
             (gum_interceptor_begin_transaction gum_interceptor_init)))))).

(** ** The invocation engine: hook leave *)

(** The loop over the listener snapshot on leave: every live entry that has
    an [on_leave] callback is called, in slot order. *)
Fixpoint dispatch_on_leave (entries : list (option ListenerEntry))
    (system_error_ : gint) (st : State) : gint * State :=
  match entries with
  | [] => (system_error_, st)
  | None :: rest => dispatch_on_leave rest system_error_ st
  | Some listener_entry :: rest =>
      match on_leave (listener_interface listener_entry) with
      | Some callback =>
          dispatch_on_leave rest (callback system_error_)
            (emit (EvOnLeave (listener_instance listener_entry)) st)
      | None => dispatch_on_leave rest system_error_ st
      end
  end.

Record EndInvocation := {
  leave_cpu_context : GumCpuContext;
  leave_next_hop : gpointer
}.

(** [_gum_function_context_end_invocation].  The top frame is read through
    the pointer [gum_invocation_stack_peek_top] returns: on an empty stack
    that pointer is null and the run ends ([None]). *)
Definition _gum_function_context_end_invocation (host : Host)
    (function_ctx_ : ctx_ptr) (cpu_context_ : GumCpuContext) (st : State)
  : option (EndInvocation * State) :=
  let st := set_guard true st in
  let system_error_ := system_error st in
  let (interceptor_ctx, st) := get_interceptor_thread_context st in
  match gum_invocation_stack_peek_top (stack interceptor_ctx) with
  | None => None
  | Some stack_entry =>
      let next_hop :=
        gum_sign_code_pointer host (caller_ret_addr stack_entry) in
      let system_error_ :=
        if calling_replacement stack_entry
           && negb (invocation_system_error stack_entry
                    =? original_system_error stack_entry)
        then invocation_system_error stack_entry
        else system_error_ in
      let stack :=
        update_top (set_invocation system_error_ ListenerBackend)
          (stack interceptor_ctx) in
      let c := contexts st function_ctx_ in
      let cpu_context_ :=
        gum_function_context_fixup_cpu_context c cpu_context_ in
      let (system_error_, st) :=
        dispatch_on_leave (arrays st (listener_entries c)) system_error_ st in
      let stack :=
        update_top (set_invocation system_error_ ListenerBackend) stack in
      let st := set_system_error system_error_ st in
      let stack := gum_invocation_stack_pop stack in
      let st :=
        set_thread_context (Some (set_stack stack interceptor_ctx)) st in
      let st := set_guard false st in
      let st := g_atomic_int_dec_and_test function_ctx_ st in
      Some ({| leave_cpu_context := cpu_context_;
               leave_next_hop := next_hop |}, st)
  end.

(** The listeners of the live entries that provide [on_leave], in slot
    order. *)
Fixpoint on_leave_listeners (entries : list (option ListenerEntry))
  : list GumInvocationListener :=
  match entries with
  | [] => []
  | Some e :: rest =>
      if is_some (on_leave (listener_interface e))
      then listener_instance e :: on_leave_listeners rest
      else on_leave_listeners rest
  | None :: rest => on_leave_listeners rest
  end.

(** What the [on_leave] callbacks of a snapshot do, one after the other, to
    the system error they are handed. *)
Fixpoint on_leave_effect (entries : list (option ListenerEntry))
    (system_error_ : gint) : gint :=
  match entries with
  | [] => system_error_
  | Some e :: rest =>
      match on_leave (listener_interface e) with
      | Some callback => on_leave_effect rest (callback system_error_)
      | None => on_leave_effect rest system_error_
      end
  | None :: rest => on_leave_effect rest system_error_
  end.

(** ** Listener data slots of a thread context *)

(** A slot of a thread's [listener_data_slots]: the listener that owns it
    ([NULL] for none) and [GUM_MAX_LISTENER_DATA] bytes. *)
Record ListenerDataSlot := {
  owner : GumInvocationListener;
  data : list Z
}.

(** The bytes of a slot after [gum_memset (.., 0, ..)], and of a slot that
    [g_array_set_size] adds to an array created with its clear flag set. *)
Definition zeroed_data (GUM_MAX_LISTENER_DATA : Z) : list Z :=
  repeat 0 (Z.to_nat GUM_MAX_LISTENER_DATA).

(** The loop of [interceptor_thread_context_get_listener_data] from index
    [i] on: the index of the slot [listener] owns, where the loop returns,
    or else the last slot without an owner it has gone past. *)
Fixpoint find_listener_data_slot (slots : list ListenerDataSlot) (i : nat)
    (listener : GumInvocationListener) (available_slot : option nat)
  : nat + option nat :=
  match slots with
  | [] => inr available_slot
  | slot :: rest =>
      if owner slot =? listener then inl i
      else if owner slot =? NULL then
        find_listener_data_slot rest (S i) listener (Some i)
      else find_listener_data_slot rest (S i) listener available_slot
  end.

Fixpoint set_listener_data_slot (i : nat) (slot : ListenerDataSlot)
    (slots : list ListenerDataSlot) : list ListenerDataSlot :=
  match slots, i with
  | [], _ => []
  | _ :: rest, O => slot :: rest
  | s :: rest, S i' => s :: set_listener_data_slot i' slot rest
  end.

(** [interceptor_thread_context_get_listener_data] on the slots of a thread
    context.  [GUM_MAX_LISTENER_DATA] comes from a header that is not part
    of the file.  The pointer returned, into the slot's bytes, is the index
    of the slot; [None] is the null pointer. *)
Definition interceptor_thread_context_get_listener_data
    (GUM_MAX_LISTENER_DATA : Z) (self : list ListenerDataSlot)
    (listener : GumInvocationListener) (required_size : gsize)
  : option nat * list ListenerDataSlot :=
  if required_size >? GUM_MAX_LISTENER_DATA then (None, self)
  else
    match find_listener_data_slot self 0 listener None with
    | inl i => (Some i, self)
    | inr None =>
        (Some (length self),
         self ++ [{| owner := listener;
                     data := zeroed_data GUM_MAX_LISTENER_DATA |}])
    | inr (Some available_slot) =>
        (Some available_slot,
         set_listener_data_slot available_slot
           {| owner := listener;
              data := zeroed_data GUM_MAX_LISTENER_DATA |} self)
    end.

(** [interceptor_thread_context_forget_listener_data]: the first slot
    [listener] owns loses its owner and keeps its bytes. *)
Fixpoint interceptor_thread_context_forget_listener_data
    (self : list ListenerDataSlot) (listener : GumInvocationListener)
  : list ListenerDataSlot :=
  match self with
  | [] => []
  | slot :: rest =>
      if owner slot =? listener
      then {| owner := NULL; data := data slot |} :: rest
      else
        slot :: interceptor_thread_context_forget_listener_data rest listener
  end.

(** The second loop of [gum_interceptor_detach], over the slot arrays of
    all thread contexts. *)
Definition forget_listener_data_everywhere
    (thread_contexts : list (list ListenerDataSlot))
    (listener : GumInvocationListener) : list (list ListenerDataSlot) :=
  map (fun self =>
         interceptor_thread_context_forget_listener_data self listener)
    thread_contexts.

(** No listener owns two slots of one thread. *)
Definition owners_unique (slots : list ListenerDataSlot) : Prop :=
  forall j k sj sk,
    nth_error slots j = Some sj -> nth_error slots k = Some sk ->
    owner sj = owner sk -> owner sj <> NULL -> j = k.

Definition owns (slots : list ListenerDataSlot)
    (listener : GumInvocationListener) : Prop :=
  exists j slot, nth_error slots j = Some slot /\ owner slot = listener.

(** Slots of a thread: listener 1 owns the first, the second is free and
    still holds bytes of an earlier owner. *)
Definition demo_slots : list ListenerDataSlot :=
  [{| owner := 1; data := [7; 7] |}; {| owner := NULL; data := [9; 9] |}].


(** ** Observations on a commit *)

(** The trace of [st'] continues the trace of [st]. *)
Definition extends (st st' : State) : Prop :=
  exists l, trace st' = trace st ++ l.

(** The run from [st] to [st'] has carried out the task: an activation of a
    context that is not destroyed has written the prologue and set
    [activated], and the activation of a destroyed context has been skipped;
    a deactivation has written the prologue back and cleared
    [activated]. *)
Definition applied (st st' : State) (t : GumUpdateTask) : Prop :=
  match update_func t with
  | gum_interceptor_activate_func =>
      (destroyed (contexts st (update_ctx t)) = false ->
       activated (contexts st' (update_ctx t)) = true
       /\ exists prologue,
            In (EvActivateTrampoline (update_ctx t) prologue)
              (new_events st st'))
      /\ (destroyed (contexts st (update_ctx t)) = true ->
          activated (contexts st' (update_ctx t))
          = activated (contexts st (update_ctx t)))
  | gum_interceptor_deactivate_func =>
      activated (contexts st' (update_ctx t)) = false
      /\ exists prologue,
           In (EvDeactivateTrampoline (update_ctx t) prologue)
             (new_events st st')
  end.

(** Steps that only add events. *)
Definition only_events (st st' : State) : Prop :=
  extends st st' /\ contexts st' = contexts st.

(** The trace continues and no prologue has been written. *)
Definition settled (st st' : State) : Prop :=
  extends st st'
  /\ forall q, activated (contexts st' q) = activated (contexts st q).

(** ** Calls in flight *)

(** The program's calls of hooked functions between two states of a
    thread: any number of hook entries, none of them left yet. *)
Inductive hooks_entered (host : Host) (st : State) : State -> Prop :=
| entered_none : hooks_entered host st st
| entered_call st1 f cpu ra :
    hooks_entered host st st1 ->
    hooks_entered host st
      (snd (_gum_function_context_begin_invocation host f cpu ra st1)).

(** The current invocation: the context of the top frame, NULL on an empty
    stack.  The thread context is created on first use. *)
Definition gum_interceptor_get_current_invocation (st : State)
  : option GumInvocationStackEntry * State :=
  let (interceptor_ctx, st) := get_interceptor_thread_context st in
  (gum_invocation_stack_peek_top (stack interceptor_ctx), st).

(** ** Hooks in place *)

(** The listeners of the live entries of an array, in slot order. *)
Fixpoint live_listeners (entries : list (option ListenerEntry))
  : list GumInvocationListener :=
  match entries with
  | [] => []
  | Some e :: rest => listener_instance e :: live_listeners rest
  | None :: rest => live_listeners rest
  end.

Definition activation (c : ctx_ptr) : GumUpdateTask :=
  {| update_ctx := c; update_func := gum_interceptor_activate_func |}.

Definition deactivation (c : ctx_ptr) : GumUpdateTask :=
  {| update_ctx := c; update_func := gum_interceptor_deactivate_func |}.

Definition pending_tasks (st : State) : list GumUpdateTask :=
  all_update_tasks (pending_update_tasks (transaction st)).

(** What holds of the hooks at every point of an operation: a context of
    the table is activated or waits for its activation; a destroyed context
    is deactivated or waits for its deactivation; the contexts of the table
    have listener arrays of their own, and no listener occurs twice among
    the live entries of one. *)
Record hooks_mid (st : State) : Prop := {
  hm_wf : interceptor_wf st;
  hm_live :
    forall a c,
      In (a, c) (function_by_address (interceptor st)) ->
      activated (contexts st c) = true \/ In (activation c) (pending_tasks st);
  hm_gone :
    forall c,
      destroyed (contexts st c) = true ->
      activated (contexts st c) = false
      \/ In (deactivation c) (pending_tasks st);
  hm_arrays :
    forall a1 c1 a2 c2,
      In (a1, c1) (function_by_address (interceptor st)) ->
      In (a2, c2) (function_by_address (interceptor st)) ->
      listener_entries (contexts st c1) = listener_entries (contexts st c2) ->
      c1 = c2;
  hm_listeners :
    forall a c,
      In (a, c) (function_by_address (interceptor st)) ->
      NoDup (live_listeners (entries_of st c))
}.

(** Updates are pending only inside a dirty transaction. *)
Definition transaction_settled (st : State) : Prop :=
  pending_update_tasks (transaction st) <> [] ->
  is_dirty (transaction st) = true /\ 1 <= level (transaction st).

(** The invariant between operations. *)
Record hooks_wf (st : State) : Prop := {
  hw_mid : hooks_mid st;
  hw_settled : transaction_settled st
}.

(** A step that leaves the table alone, drops no pending update, and keeps
    the flags and the listener array of every context. *)
Record hooks_frame (st st' : State) : Prop := {
  hf_table :
    function_by_address (interceptor st')
    = function_by_address (interceptor st);
  hf_tasks : forall t, In t (pending_tasks st) -> In t (pending_tasks st');
  hf_contexts :
    forall q,
      activated (contexts st' q) = activated (contexts st q)
      /\ destroyed (contexts st' q) = destroyed (contexts st q)
      /\ listener_entries (contexts st' q) = listener_entries (contexts st q);
  hf_arrays :
    forall a, (a < next_array st)%nat -> arrays st' a = arrays st a
}.

(** What the loop of [gum_interceptor_detach] over [entries] has done
    between [st] and [st']: contexts are only removed from the table; the
    listener is gone from the contexts visited that are left, and the other
    listeners are where they were; a context is removed exactly when the
    listener was its only user, and is then destroyed. *)
Record detached (l : GumInvocationListener)
    (entries : list (gpointer * ctx_ptr)) (st st' : State) : Prop := {
  dt_table :
    forall a c,
      In (a, c) (function_by_address (interceptor st')) ->
      In (a, c) (function_by_address (interceptor st));
  dt_visited :
    forall a c,
      In (a, c) (function_by_address (interceptor st')) ->
      In (a, c) entries ->
      ~ In l (live_listeners (entries_of st' c));
  dt_others :
    forall a c,
      In (a, c) (function_by_address (interceptor st')) ->
      ~ In (a, c) entries ->
      entries_of st' c = entries_of st c;
  dt_kept :
    forall a c x,
      In (a, c) (function_by_address (interceptor st')) ->
      x <> l ->
      (In x (live_listeners (entries_of st' c))
       <-> In x (live_listeners (entries_of st c)));
  dt_removed :
    forall a c,
      In (a, c) (function_by_address (interceptor st)) ->
      ~ In (a, c) (function_by_address (interceptor st')) ->
      In (a, c) entries
      /\ destroyed (contexts st' c) = true
      /\ replacement_function (contexts st c) = NULL
      /\ In l (live_listeners (entries_of st c))
      /\ forall x, In x (live_listeners (entries_of st c)) -> x = l;
  dt_in_use :
    forall a c,
      In (a, c) (function_by_address (interceptor st')) ->
      In (a, c) entries ->
      In l (live_listeners (entries_of st c)) ->
      replacement_function (contexts st c) <> NULL
      \/ exists x, x <> l /\ In x (live_listeners (entries_of st c));
  dt_contexts :
    forall q,
      replacement_function (contexts st' q)
      = replacement_function (contexts st q)
      /\ (destroyed (contexts st q) = true ->
          destroyed (contexts st' q) = true)
}.

(** Two states with the same table, listener entries, replacements and
    destroyed flags. *)
Definition same_listeners (st st' : State) : Prop :=
  function_by_address (interceptor st') = function_by_address (interceptor st)
  /\ (forall c, entries_of st' c = entries_of st c)
  /\ (forall q,
        replacement_function (contexts st' q)
        = replacement_function (contexts st q)
        /\ destroyed (contexts st' q) = destroyed (contexts st q)).

(** [demo_attached] after the detach of its listener. *)
Definition demo_detached : State :=
  or_init (gum_interceptor_detach demo_host 1 demo_attached).

(** [demo_replaced] after the revert of its replacement. *)
Definition demo_reverted : State :=
  or_init (gum_interceptor_revert demo_host 0 4198400 demo_replaced).


(** ** The writes of a commit *)




(** * Properties *)

Ltac split_and := repeat match goal with |- _ /\ _ => split end.

(** ** Stores and traces *)

Lemma upd_eq {A} (h : nat -> A) k v : upd h k v k = v.
Proof. unfold upd. now rewrite Nat.eqb_refl. Qed.

Lemma upd_ne {A} (h : nat -> A) k k' v : k' <> k -> upd h k v k' = h k'.
Proof.
  intros Hne. unfold upd.
  destruct (Nat.eqb_spec k' k); [contradiction | reflexivity].
Qed.

Lemma new_events_app st st' l :
  trace st' = trace st ++ l -> new_events st st' = l.
Proof.
  intros H. unfold new_events. rewrite H.
  rewrite skipn_app, skipn_all, Nat.sub_diag. reflexivity.
Qed.

Lemma dispatch_on_enter_frame entries :
  forall e st,
    let r := dispatch_on_enter entries e st in
    trace (snd r) = trace st ++ map EvOnEnter (on_enter_listeners entries)
    /\ interceptor (snd r) = interceptor st
    /\ contexts (snd r) = contexts st
    /\ arrays (snd r) = arrays st
    /\ thread_context (snd r) = thread_context st
    /\ guard (snd r) = guard st.
Proof.
  induction entries as [|slot rest IH]; intros e st; cbn.
  - rewrite app_nil_r. repeat split; reflexivity.
  - destruct slot as [le|]; [|apply IH].
    destruct (on_enter (listener_interface le)) as [cb|]; cbn; [|apply IH].
    destruct (IH (cb e) (emit (EvOnEnter (listener_instance le)) st))
      as (Ht & Hi & Hc & Ha & Hth & Hg).
    rewrite Ht. cbn. rewrite <- app_assoc. repeat split; assumption.
Qed.

(** ** Hook entry *)

Section HookEntry.

Variable host : Host.

Lemma entry_invoke_listeners_eq i tc :
  entry_invoke_listeners host i tc
  = ((selected_thread_id i =? 0)
     || (gum_process_get_current_thread_id host =? selected_thread_id i))
    && (ignore_level tc <=? 0).
Proof.
  unfold entry_invoke_listeners.
  destruct (selected_thread_id i =? 0); cbn;
    destruct (gum_process_get_current_thread_id host =? selected_thread_id i);
    reflexivity.
Qed.

Lemma peek_top_snoc (s : GumInvocationStack) e :
  gum_invocation_stack_peek_top (s ++ [e]) = Some e.
Proof.
  unfold gum_invocation_stack_peek_top.
  destruct (s ++ [e]) eqn:E.
  - destruct s; discriminate.
  - rewrite <- E. rewrite length_app. cbn.
    replace (length s + 1 - 1)%nat with (length s) by lia.
    rewrite nth_error_app2 by lia. rewrite Nat.sub_diag. reflexivity.
Qed.

Lemma update_top_snoc f (s : GumInvocationStack) e :
  update_top f (s ++ [e]) = s ++ [f e].
Proof.
  unfold update_top. rewrite peek_top_snoc. now rewrite removelast_last.
Qed.

Lemma begin_invocation_spec f cpu ra st :
  bypassed host f st = false ->
  let c := contexts st f in
  let il := thread_selected host st && (current_ignore_level st <=? 0) in
  let wt := negb (replacement_function c =? NULL)
            || (il && has_on_leave_listener c) in
  let r := _gum_function_context_begin_invocation host f cpu ra st in
  out_caller_ret_addr (fst r) = (if wt then on_leave_trampoline c else ra)
  /\ out_next_hop (fst r)
     = (if negb (replacement_function c =? NULL)
        then replacement_function c else on_invoke_trampoline c)
  /\ new_events st (snd r)
     = (if il then map EvOnEnter (on_enter_listeners (entries_of st f))
        else [])
  /\ trampoline_usage_counter (contexts (snd r) f)
     = trampoline_usage_counter c + (if wt then 1 else 0)
  /\ length (gum_interceptor_get_current_stack (snd r))
     = (length (gum_interceptor_get_current_stack st)
        + (if wt then 1 else 0))%nat.
Proof.
  intros Hb c il wt r. unfold bypassed in Hb. apply orb_false_elim in Hb.
  destruct Hb as [Hg Hre]. subst r.
  assert (Hil : il = entry_invoke_listeners host (interceptor st)
                       (fst (get_interceptor_thread_context st))).
  { rewrite entry_invoke_listeners_eq. reflexivity. }
  unfold _gum_function_context_begin_invocation.
  assert (Hc : contexts (g_atomic_int_inc f st) f = add_usage 1 c).
  { unfold g_atomic_int_inc, update_context. cbn. apply upd_eq. }
  rewrite Hc.
  cbn [guard g_atomic_int_inc update_context set_contexts].
  rewrite Hg.
  assert (Hre' : replacement_reentry host
                   (stack (fst (get_interceptor_thread_context st)))
                   (add_usage 1 c) = false).
  { rewrite <- Hre. unfold c, get_interceptor_thread_context,
      gum_interceptor_get_current_stack.
    destruct (thread_context st); reflexivity. }
  assert (Hlen : length (stack (fst (get_interceptor_thread_context st)))
                 = length (gum_interceptor_get_current_stack st)).
  { unfold get_interceptor_thread_context,
      gum_interceptor_get_current_stack.
    destruct (thread_context st); reflexivity. }
  rewrite <- Hlen. clear Hlen.
  unfold get_interceptor_thread_context in *.
  replace (thread_context (set_guard true (g_atomic_int_inc f st)))
    with (thread_context st) by reflexivity.
  unfold entry_will_trap_on_leave.
  replace (replacement_function (add_usage 1 c))
    with (replacement_function c) by reflexivity.
  replace (has_on_leave_listener (add_usage 1 c))
    with (has_on_leave_listener c) by reflexivity.
  replace (on_invoke_trampoline (add_usage 1 c))
    with (on_invoke_trampoline c) by reflexivity.
  replace (on_leave_trampoline (add_usage 1 c))
    with (on_leave_trampoline c) by reflexivity.
  replace (listener_entries (add_usage 1 c))
    with (listener_entries c) by reflexivity.
  subst wt.
  destruct (thread_context st) as [tc|] eqn:Htc; cbn [fst snd] in *;
    cbv beta iota;
    rewrite Hre';
    cbn [interceptor set_guard set_thread_context g_atomic_int_inc
         update_context set_contexts arrays system_error];
    rewrite <- Hil;
    destruct il;
    destruct (negb (replacement_function c =? NULL)) eqn:Hrep;
    destruct (has_on_leave_listener c) eqn:Hol;
    cbn [orb andb negb].
  all: try match goal with
    | |- context [dispatch_on_enter ?a ?b ?s] =>
        pose proof (dispatch_on_enter_frame a b s) as Hd;
        destruct (dispatch_on_enter a b s) as [e' st']; cbn [fst snd] in Hd;
        destruct Hd as (Ht & Hi & Hcx & Ha & Hth & Hgd)
    end.
  all: cbn [fst snd out_caller_ret_addr out_next_hop].
  all: unfold gum_invocation_stack_push; rewrite ?update_top_snoc;
       unfold gum_invocation_stack_pop; rewrite ?removelast_last;
       rewrite ?update_top_snoc.
  all: repeat split; try reflexivity.
  all: try apply new_events_app.
  all: unfold g_atomic_int_dec_and_test, g_atomic_int_inc, update_context,
         gum_interceptor_get_current_stack, entries_of in *;
       cbn [trace contexts thread_context set_thread_context set_guard
            set_system_error set_contexts set_stack stack] in *;
       rewrite ?Hcx, ?Ht;
       cbn [trace contexts thread_context set_thread_context set_guard
            set_system_error set_contexts set_stack stack];
       rewrite ?upd_eq; rewrite ?upd_eq;
       cbn [trampoline_usage_counter add_usage];
       rewrite ?app_nil_r, ?length_app; cbn [length]; fold c;
       try reflexivity; try lia.
Qed.

Lemma invoke_listeners_iff st :
  thread_selected host st && (current_ignore_level st <=? 0) = true
  <-> (selected_thread_id (interceptor st) = 0
       \/ gum_process_get_current_thread_id host
          = selected_thread_id (interceptor st))
      /\ current_ignore_level st <= 0.
Proof.
  unfold thread_selected.
  rewrite andb_true_iff, orb_true_iff, !Z.eqb_eq, Z.leb_le. reflexivity.
Qed.

Lemma replacement_set_iff (c : GumFunctionContext) :
  negb (replacement_function c =? NULL) = true
  <-> replacement_function c <> NULL.
Proof. rewrite negb_true_iff, Z.eqb_neq. reflexivity. Qed.

(** C2. On hook entry, when the call is not cut short by the guard or by
    the re-entry test: the [on_enter] callbacks of the live entries run if
    and only if the thread passes the selected-thread filter and its ignore
    level is at most zero (and then all of them run, in slot order); the
    caller's return address is replaced by the on-leave trampoline, and a
    frame stays on the shadow stack, if and only if the context has a
    replacement or listeners are invoked and [has_on_leave_listener] is
    set. *)
Theorem begin_invocation_decisions f cpu ra st :
  bypassed host f st = false ->
  let c := contexts st f in
  let r := _gum_function_context_begin_invocation host f cpu ra st in
  let invoke_listeners :=
    (selected_thread_id (interceptor st) = 0
     \/ gum_process_get_current_thread_id host
        = selected_thread_id (interceptor st))
    /\ current_ignore_level st <= 0 in
  let will_trap_on_leave :=
    replacement_function c <> NULL
    \/ (invoke_listeners /\ has_on_leave_listener c = true) in
  (forall l, In l (on_enter_listeners (entries_of st f)) ->
     (In (EvOnEnter l) (new_events st (snd r)) <-> invoke_listeners))
  /\ (invoke_listeners ->
      new_events st (snd r)
      = map EvOnEnter (on_enter_listeners (entries_of st f)))
  /\ (~ invoke_listeners -> new_events st (snd r) = [])
  /\ (will_trap_on_leave ->
      out_caller_ret_addr (fst r) = on_leave_trampoline c
      /\ length (gum_interceptor_get_current_stack (snd r))
         = S (length (gum_interceptor_get_current_stack st)))
  /\ (~ will_trap_on_leave ->
      out_caller_ret_addr (fst r) = ra
      /\ length (gum_interceptor_get_current_stack (snd r))
         = length (gum_interceptor_get_current_stack st)).
Proof.
  intros Hb c r il wt.
  destruct (begin_invocation_spec f cpu ra st Hb)
    as (Hret & _ & Hev & _ & Hlen).
  fold c in Hret, Hlen. fold r in Hret, Hev, Hlen.
  pose proof (invoke_listeners_iff st) as Hil. fold il in Hil.
  pose proof (replacement_set_iff c) as Hrep.
  assert (Hwt : negb (replacement_function c =? NULL)
                || (thread_selected host st && (current_ignore_level st <=? 0))
                   && has_on_leave_listener c = true <-> wt).
  { unfold wt. rewrite orb_true_iff, andb_true_iff, Hil, Hrep. reflexivity. }
  assert (Hwt' : ~ wt ->
            negb (replacement_function c =? NULL)
            || (thread_selected host st && (current_ignore_level st <=? 0))
               && has_on_leave_listener c = false).
  { intros Hn. apply not_true_is_false. intros Ht. apply Hn, Hwt, Ht. }
  assert (Hev_yes : il -> new_events st (snd r)
            = map EvOnEnter (on_enter_listeners (entries_of st f))).
  { intros Hyes. apply Hil in Hyes. rewrite Hyes in Hev. exact Hev. }
  assert (Hev_no : ~ il -> new_events st (snd r) = []).
  { intros Hno. rewrite Hev.
    destruct (thread_selected host st && (current_ignore_level st <=? 0));
      [exfalso; apply Hno, Hil; reflexivity | reflexivity]. }
  split; [|split; [|split; [|split]]].
  - intros l Hin. split.
    + intros Hev_in.
      destruct (thread_selected host st && (current_ignore_level st <=? 0));
        [apply Hil; reflexivity | ].
      rewrite Hev in Hev_in. destruct Hev_in.
    + intros Hyes. rewrite (Hev_yes Hyes). apply in_map. exact Hin.
  - exact Hev_yes.
  - exact Hev_no.
  - intros Hyes. apply Hwt in Hyes. rewrite Hyes in Hret, Hlen.
    split; [exact Hret | lia].
  - intros Hno. apply Hwt' in Hno. rewrite Hno in Hret, Hlen.
    split; [exact Hret | lia].
Qed.
End HookEntry.

Section HookEntryBypass.
Variable host : Host.

Lemma begin_invocation_bypass f cpu ra st :
  bypassed host f st = true ->
  let r := _gum_function_context_begin_invocation host f cpu ra st in
  out_next_hop (fst r) = on_invoke_trampoline (contexts st f)
  /\ out_caller_ret_addr (fst r) = ra
  /\ new_events st (snd r) = [].
Proof.
  intros Hb r. subst r. unfold bypassed in Hb.
  unfold _gum_function_context_begin_invocation.
  assert (Hc : contexts (g_atomic_int_inc f st) f
               = add_usage 1 (contexts st f)).
  { unfold g_atomic_int_inc, update_context. cbn. apply upd_eq. }
  rewrite Hc.
  replace (guard (g_atomic_int_inc f st)) with (guard st) by reflexivity.
  destruct (guard st) eqn:Hg.
  - cbn [fst snd out_next_hop out_caller_ret_addr].
    repeat split; try reflexivity.
    apply new_events_app. cbn. now rewrite app_nil_r.
  - cbn [orb] in Hb.
    unfold get_interceptor_thread_context,
      gum_interceptor_get_current_stack in *.
    replace (thread_context (set_guard true (g_atomic_int_inc f st)))
      with (thread_context st) by reflexivity.
    destruct (thread_context st) as [tc|]; cbv beta iota.
    + replace (replacement_reentry host (stack tc)
                 (add_usage 1 (contexts st f)))
        with (replacement_reentry host (stack tc) (contexts st f))
        by reflexivity.
      rewrite Hb. cbn [fst snd out_next_hop out_caller_ret_addr].
      repeat split; try reflexivity.
      apply new_events_app. cbn. now rewrite app_nil_r.
    + cbn in Hb. discriminate.
Qed.

End HookEntryBypass.

(** ** Ignore level *)

Lemma current_ignore_level_ignore st :
  current_ignore_level (gum_interceptor_ignore_current_thread st)
  = current_ignore_level st + 1.
Proof.
  unfold current_ignore_level, gum_interceptor_ignore_current_thread,
    get_interceptor_thread_context.
  destruct (thread_context st); reflexivity.
Qed.

Lemma current_ignore_level_unignore st :
  current_ignore_level (gum_interceptor_unignore_current_thread st)
  = current_ignore_level st - 1.
Proof.
  unfold current_ignore_level, gum_interceptor_unignore_current_thread,
    get_interceptor_thread_context.
  destruct (thread_context st); reflexivity.
Qed.

Lemma run_ignore_ops_level ops :
  forall st,
    current_ignore_level (run_ignore_ops ops st)
    = current_ignore_level st + ignore_balance ops.
Proof.
  induction ops as [|op ops IH]; intros st;
    unfold run_ignore_ops in *; cbn [fold_left ignore_balance].
  - lia.
  - rewrite IH.
    destruct op; cbn [run_ignore_op].
    + rewrite current_ignore_level_ignore. lia.
    + rewrite current_ignore_level_unignore. lia.
Qed.

Lemma ignore_balance_app a b :
  ignore_balance (a ++ b) = ignore_balance a + ignore_balance b.
Proof.
  induction a as [|op a IH]; [cbn; lia|].
  destruct op; cbn [app ignore_balance]; lia.
Qed.

Lemma ignore_balance_repeat_ignore n :
  ignore_balance (repeat Ignore n) = Z.of_nat n.
Proof. induction n; cbn [repeat ignore_balance]; lia. Qed.

Lemma ignore_balance_repeat_unignore n :
  ignore_balance (repeat Unignore n) = - Z.of_nat n.
Proof. induction n; cbn [repeat ignore_balance]; lia. Qed.

Lemma maybe_unignore_spec st :
  let r := gum_interceptor_maybe_unignore_current_thread st in
  (fst r = true <-> current_ignore_level st > 0)
  /\ current_ignore_level (snd r)
     = (if fst r then current_ignore_level st - 1
        else current_ignore_level st).
Proof.
  unfold current_ignore_level,
    gum_interceptor_maybe_unignore_current_thread,
    get_interceptor_thread_context.
  destruct (thread_context st) as [tc|] eqn:E; cbn [fst snd].
  - destruct (Z.leb_spec (ignore_level tc) 0); cbn [fst snd].
    + rewrite E. cbn. split; [split; [discriminate | lia] | reflexivity].
    + cbn. split; [split; [lia | reflexivity] | reflexivity].
  - cbn. split; [split; [discriminate | lia] | reflexivity].
Qed.

Lemma bypassed_with_ignore_level host f l st :
  bypassed host f (with_ignore_level l st) = bypassed host f st.
Proof.
  unfold bypassed, with_ignore_level, gum_interceptor_get_current_stack,
    get_interceptor_thread_context.
  destruct (thread_context st); reflexivity.
Qed.

(** C7. The ignore level is a counter: [ignore_current_thread] adds one,
    [unignore_current_thread] takes one away, a run of both changes it by
    their balance, and from level zero [n] increments followed by [m]
    decrements leave it positive exactly when [m < n];
    [maybe_unignore_current_thread] returns TRUE exactly when the level is
    positive, and decrements it only then.  On hook entry (not cut short by
    the guard or the re-entry test) a positive level suppresses every
    listener callback, and on a thread that passes the selected-thread
    filter a level of at most zero lets all of them run; the next hop does
    not depend on the ignore level, and is the replacement function when
    there is one. *)
Theorem ignore_level_counter host st ops n m f cpu ra :
  let level := current_ignore_level st in
  let entry st := _gum_function_context_begin_invocation host f cpu ra st in
  let maybe := gum_interceptor_maybe_unignore_current_thread st in
  current_ignore_level (gum_interceptor_ignore_current_thread st) = level + 1
  /\ current_ignore_level (gum_interceptor_unignore_current_thread st)
     = level - 1
  /\ current_ignore_level (run_ignore_ops ops st)
     = level + ignore_balance ops
  /\ (level = 0 ->
      (current_ignore_level
         (run_ignore_ops (repeat Ignore n ++ repeat Unignore m) st) > 0
       <-> (m < n)%nat))
  /\ (fst maybe = true <-> level > 0)
  /\ current_ignore_level (snd maybe)
     = (if fst maybe then level - 1 else level)
  /\ (bypassed host f st = false -> level > 0 ->
      new_events st (snd (entry st)) = [])
  /\ (bypassed host f st = false -> thread_selected host st = true ->
      level <= 0 ->
      new_events st (snd (entry st))
      = map EvOnEnter (on_enter_listeners (entries_of st f)))
  /\ (forall l,
        out_next_hop (fst (entry (with_ignore_level l st)))
        = out_next_hop (fst (entry st)))
  /\ (bypassed host f st = false ->
      replacement_function (contexts st f) <> NULL ->
      out_next_hop (fst (entry st)) = replacement_function (contexts st f)).
Proof.
  intros level entry maybe.
  split; [apply current_ignore_level_ignore|].
  split; [apply current_ignore_level_unignore|].
  split; [apply run_ignore_ops_level|].
  split.
  { intros H0. rewrite run_ignore_ops_level, ignore_balance_app,
      ignore_balance_repeat_ignore, ignore_balance_repeat_unignore.
    fold level. lia. }
  split; [apply maybe_unignore_spec|].
  split; [apply maybe_unignore_spec|].
  split.
  { intros Hb Hl.
    destruct (begin_invocation_spec host f cpu ra st Hb)
      as (_ & _ & Hev & _).
    unfold entry. rewrite Hev. fold level.
    destruct (Z.leb_spec level 0); [lia|].
    now rewrite andb_false_r. }
  split.
  { intros Hb Hs Hl.
    destruct (begin_invocation_spec host f cpu ra st Hb)
      as (_ & _ & Hev & _).
    unfold entry. rewrite Hev, Hs. fold level.
    destruct (Z.leb_spec level 0); [reflexivity | lia]. }
  split.
  { intros l. unfold entry.
    pose proof (bypassed_with_ignore_level host f l st) as Hbl.
    destruct (bypassed host f st) eqn:Hb.
    - destruct (begin_invocation_bypass host f cpu ra st Hb) as (H1 & _).
      destruct (begin_invocation_bypass host f cpu ra _ Hbl) as (H2 & _).
      rewrite H1, H2. reflexivity.
    - destruct (begin_invocation_spec host f cpu ra st Hb) as (_ & H1 & _).
      destruct (begin_invocation_spec host f cpu ra _ Hbl) as (_ & H2 & _).
      rewrite H1, H2. reflexivity. }
  intros Hb Hrep.
  destruct (begin_invocation_spec host f cpu ra st Hb) as (_ & H1 & _).
  unfold entry. rewrite H1.
  destruct (Z.eqb_spec (replacement_function (contexts st f)) NULL);
    [contradiction | reflexivity].
Qed.

Lemma ignore_level_counter_witness :
  bypassed demo_host O demo_attached = false
  /\ thread_selected demo_host demo_attached = true
  /\ current_ignore_level demo_attached <= 0
  /\ new_events demo_attached
       (snd (_gum_function_context_begin_invocation demo_host O demo_cpu
               5000 demo_attached))
     = [EvOnEnter 1].
Proof.
  assert (Hb : bypassed demo_host O demo_attached = false) by reflexivity.
  assert (Hs : thread_selected demo_host demo_attached = true)
    by reflexivity.
  assert (Hl : current_ignore_level demo_attached <= 0)
    by (vm_compute; discriminate).
  refine (conj Hb (conj Hs (conj Hl _))).
  exact (proj1 (proj2 (proj2 (proj2 (proj2 (proj2 (proj2 (proj2
           (ignore_level_counter demo_host demo_attached [] O O O demo_cpu
              5000)))))))) Hb Hs Hl).
Defined.

(** C7, as the claim words it: with another thread selected, hook entry at
    ignore level zero runs no listener callback, so suppression does not
    imply a positive level. *)
Lemma ignore_level_counterexample :
  let st := demo_other_selected in
  let r := _gum_function_context_begin_invocation demo_host O demo_cpu 5000
             st in
  bypassed demo_host O st = false
  /\ on_enter_listeners (entries_of st O) = [1]
  /\ current_ignore_level st = 0
  /\ new_events st (snd r) = []
  /\ ~ (new_events st (snd r) = [] <-> current_ignore_level st > 0).
Proof.
  cbv zeta.
  split; [reflexivity|]. split; [reflexivity|]. split; [reflexivity|].
  split; [reflexivity|].
  intros [H _]. specialize (H eq_refl). vm_compute in H. discriminate.
Qed.

(** ** Shadow-stack translation *)

Lemma translate_no_match h (s : GumInvocationStack) ra :
  (forall e, In e s -> on_leave_trampoline (h (function_ctx e)) <> ra) ->
  gum_invocation_stack_translate h s ra = ra.
Proof.
  induction s as [|e s IH]; intros Hno; cbn; [reflexivity|].
  destruct (Z.eqb_spec (on_leave_trampoline (h (function_ctx e))) ra) as [E|E].
  - exfalso. apply (Hno e); [now left | exact E].
  - apply IH. intros e' Hin. apply Hno. now right.
Qed.

Lemma translate_first_match h (s : GumInvocationStack) ra :
  forall i e,
    nth_error s i = Some e ->
    on_leave_trampoline (h (function_ctx e)) = ra ->
    (forall j e', (j < i)%nat -> nth_error s j = Some e' ->
       on_leave_trampoline (h (function_ctx e')) <> ra) ->
    gum_invocation_stack_translate h s ra = caller_ret_addr e.
Proof.
  induction s as [|e0 s IH]; intros i e Hnth Hm Hfirst.
  - destruct i; discriminate.
  - cbn. destruct i as [|i].
    + cbn in Hnth. injection Hnth as ->. rewrite Hm, Z.eqb_refl. reflexivity.
    + destruct (Z.eqb_spec (on_leave_trampoline (h (function_ctx e0))) ra)
        as [E|E].
      * exfalso. apply (Hfirst O e0); [lia | reflexivity | exact E].
      * apply (IH i e Hnth Hm). intros j e' Hj Hn.
        apply (Hfirst (S j) e'); [lia | exact Hn].
Qed.

(** C8. [gum_invocation_stack_translate] returns the saved caller return
    address of the first frame, from index 0 upward, whose context has the
    given address as its on-leave trampoline, and the given address when no
    frame matches; [_gum_interceptor_translate_top_return_address] does the
    same with the top frame alone, and returns its input on an empty stack
    or when the top frame does not match. *)
Theorem stack_translation h (s : GumInvocationStack) st ra :
  (forall i e,
     nth_error s i = Some e ->
     on_leave_trampoline (h (function_ctx e)) = ra ->
     (forall j e', (j < i)%nat -> nth_error s j = Some e' ->
        on_leave_trampoline (h (function_ctx e')) <> ra) ->
     gum_invocation_stack_translate h s ra = caller_ret_addr e)
  /\ ((forall e, In e s ->
         on_leave_trampoline (h (function_ctx e)) <> ra) ->
      gum_invocation_stack_translate h s ra = ra)
  /\ (gum_interceptor_get_current_stack st = [] ->
      _gum_interceptor_translate_top_return_address st ra = ra)
  /\ (forall below top,
        gum_interceptor_get_current_stack st = below ++ [top] ->
        (on_leave_trampoline (contexts st (function_ctx top)) = ra ->
         _gum_interceptor_translate_top_return_address st ra
         = caller_ret_addr top)
        /\ (on_leave_trampoline (contexts st (function_ctx top)) <> ra ->
            _gum_interceptor_translate_top_return_address st ra = ra)).
Proof.
  split; [apply translate_first_match|].
  split; [apply translate_no_match|].
  unfold _gum_interceptor_translate_top_return_address.
  split.
  - intros ->. reflexivity.
  - intros below top ->. rewrite peek_top_snoc.
    destruct (Z.eqb_spec
                (on_leave_trampoline (contexts st (function_ctx top))) ra);
      cbn; split; intros; congruence.
Qed.

Lemma stack_translation_witness :
  nth_error (gum_interceptor_get_current_stack demo_in_flight) 0
  = Some (demo_frame O 1000)
  /\ on_leave_trampoline (contexts demo_in_flight O) = 5247008
  /\ gum_invocation_stack_translate (contexts demo_in_flight)
       (gum_interceptor_get_current_stack demo_in_flight) 5247008 = 1000
  /\ _gum_interceptor_translate_top_return_address demo_in_flight 5247008
     = 2000.
Proof.
  pose proof (stack_translation (contexts demo_in_flight)
                (gum_interceptor_get_current_stack demo_in_flight)
                demo_in_flight 5247008) as (Hfirst & _ & _ & Htop).
  split; [reflexivity|]. split; [reflexivity|]. split.
  - apply (Hfirst O (demo_frame O 1000)); [reflexivity | reflexivity |].
    intros j e' Hj. inversion Hj.
  - apply (Htop [demo_frame O 1000] (demo_frame O 2000)); reflexivity.
Defined.

(** ** Save and restore *)

Lemma restore_loop_spec (s : GumInvocationStack) :
  forall rest pre st n,
    s = pre ++ rest ->
    (length rest <= n)%nat ->
    restore_loop n s (Z.of_nat (length pre)) (Z.of_nat (length s)) st
    = Some (discard_frames rest st).
Proof.
  induction rest as [|e rest IH]; intros pre st n Hs Hn.
  - rewrite app_nil_r in Hs. subst pre.
    destruct n; cbn; rewrite Z.eqb_refl; reflexivity.
  - assert (Hlen : length s = (length pre + S (length rest))%nat)
      by (rewrite Hs, length_app; reflexivity).
    destruct n as [|n]; [cbn in Hn; lia|].
    cbn [restore_loop].
    destruct (Z.eqb_spec (Z.of_nat (length pre)) (Z.of_nat (length s)));
      [lia|].
    destruct (Z.ltb_spec (Z.of_nat (length pre)) 0); [lia|].
    rewrite Nat2Z.id.
    replace (nth_error s (length pre)) with (Some e).
    2:{ rewrite Hs, nth_error_app2 by lia. now rewrite Nat.sub_diag. }
    replace (Z.of_nat (length pre) + 1) with (Z.of_nat (length (pre ++ [e])))
      by (rewrite length_app; cbn; lia).
    rewrite (IH (pre ++ [e])).
    + reflexivity.
    + rewrite <- app_assoc. exact Hs.
    + cbn in Hn. lia.
Qed.

Lemma add_usage_0 c : add_usage 0 c = c.
Proof. destruct c. unfold add_usage. cbn. f_equal. lia. Qed.

Lemma add_usage_add a b c :
  add_usage a (add_usage b c) = add_usage (b + a) c.
Proof. destruct c. unfold add_usage. cbn. f_equal. lia. Qed.

Lemma discard_frames_frame frames :
  forall st,
    thread_context (discard_frames frames st) = thread_context st
    /\ interceptor (discard_frames frames st) = interceptor st
    /\ arrays (discard_frames frames st) = arrays st
    /\ trace (discard_frames frames st) = trace st
    /\ forall c,
         contexts (discard_frames frames st) c
         = add_usage (- frames_of c frames) (contexts st c).
Proof.
  induction frames as [|e frames IH]; intros st.
  - cbn. repeat split; try reflexivity.
    intros c. now rewrite add_usage_0.
  - cbn [discard_frames fold_left].
    destruct (IH (g_atomic_int_dec_and_test (function_ctx e) st))
      as (Ht & Hi & Ha & Htr & Hc).
    unfold discard_frames in *.
    rewrite Ht, Hi, Ha, Htr. repeat split; try reflexivity.
    intros c. rewrite Hc. cbn [frames_of].
    unfold g_atomic_int_dec_and_test, update_context.
    cbn [contexts set_contexts].
    unfold upd. rewrite Nat.eqb_sym.
    destruct (Nat.eqb_spec (function_ctx e) c) as [Heq|Hne].
    + rewrite Heq, add_usage_add. f_equal. lia.
    + f_equal.
Qed.

(** C9. For a saved depth [s] not above the current depth,
    [gum_interceptor_restore] cuts the shadow stack down to [s] frames and
    lowers the usage counter of a context once for each discarded frame
    that belongs to it; restoring the depth just saved changes nothing. *)
Theorem restore_truncates (s : GumInvocationState) st :
  0 <= s <= gum_interceptor_save st ->
  let stack := gum_interceptor_get_current_stack st in
  let discarded := skipn (Z.to_nat s) stack in
  exists st',
    gum_interceptor_restore s st = Some st'
    /\ gum_interceptor_get_current_stack st' = firstn (Z.to_nat s) stack
    /\ gum_interceptor_save st' = s
    /\ (forall c,
          trampoline_usage_counter (contexts st' c)
          = trampoline_usage_counter (contexts st c) - frames_of c discarded)
    /\ (forall c,
          contexts st' c = add_usage (- frames_of c discarded) (contexts st c))
    /\ gum_interceptor_restore (gum_interceptor_save st) st = Some st.
Proof.
  intros Hs frames discarded. unfold gum_interceptor_save in *.
  fold frames in Hs. fold frames.
  assert (Hsame : gum_interceptor_restore (Z.of_nat (length frames)) st
                  = Some st).
  { unfold gum_interceptor_restore. fold frames. now rewrite Z.eqb_refl. }
  destruct (Z.eq_dec (Z.of_nat (length frames)) s) as [E|E].
  - exists st. subst s. subst discarded. rewrite Nat2Z.id in *.
    rewrite skipn_all, firstn_all. cbn [frames_of].
    repeat split; try assumption; try reflexivity.
    + intros c. lia.
    + intros c. now rewrite add_usage_0.
  - unfold gum_interceptor_restore. fold frames.
    destruct (Z.eqb_spec (Z.of_nat (length frames)) s); [contradiction|].
    assert (Hlen : length (firstn (Z.to_nat s) frames) = Z.to_nat s)
      by (apply firstn_length_le; lia).
    pose proof (restore_loop_spec frames discarded
                  (firstn (Z.to_nat s) frames) st (length frames)) as Hloop.
    rewrite Hlen, Z2Nat.id in Hloop by lia.
    rewrite Hloop.
    2:{ subst discarded. now rewrite firstn_skipn. }
    2:{ subst discarded. rewrite length_skipn. lia. }
    destruct (discard_frames_frame discarded st)
      as (Ht & Hi & Ha & Htr & Hc).
    rewrite Ht.
    destruct (thread_context st) as [tc|] eqn:Htc.
    + eexists. split; [reflexivity|].
      unfold gum_interceptor_get_current_stack, g_array_set_size.
      cbn [thread_context set_thread_context set_stack stack
           contexts].
      repeat split; try assumption.
      * rewrite Hlen. lia.
      * intros c. rewrite Hc. reflexivity.
    + exfalso. unfold frames, gum_interceptor_get_current_stack in *.
      rewrite Htc in *. cbn in *. lia.
Qed.

Lemma restore_truncates_witness :
  0 <= 1 <= gum_interceptor_save demo_in_flight
  /\ exists st',
       gum_interceptor_restore 1 demo_in_flight = Some st'
       /\ gum_interceptor_get_current_stack st' = [demo_frame O 1000]
       /\ trampoline_usage_counter (contexts st' O) = 1.
Proof.
  assert (H : 0 <= 1 <= gum_interceptor_save demo_in_flight)
    by (vm_compute; split; discriminate).
  split; [exact H|].
  destruct (restore_truncates 1 demo_in_flight H)
    as (st' & Hr & Hstack & _ & Hcount & _).
  exists st'. split; [exact Hr|]. split; [exact Hstack|].
  rewrite Hcount. reflexivity.
Defined.

(** ** Listener snapshots *)

Lemma copy_entries_filter old :
  copy_entries old = filter is_some old.
Proof.
  induction old as [|[e|] old IH]; cbn; [reflexivity | now rewrite IH | exact IH].
Qed.

Lemma scan_on_leave_live entries :
  scan_on_leave entries = live_on_leave entries.
Proof.
  induction entries as [|[e|] entries IH]; cbn; [reflexivity | | exact IH].
  rewrite IH. destruct (is_some (on_leave (listener_interface e))); reflexivity.
Qed.

Lemma live_on_leave_app a b :
  live_on_leave (a ++ b) = live_on_leave a || live_on_leave b.
Proof. apply existsb_app. Qed.

Lemma live_on_leave_copy old :
  live_on_leave (copy_entries old) = live_on_leave old.
Proof.
  induction old as [|[e|] old IH]; [reflexivity | | exact IH].
  cbn [copy_entries]. unfold live_on_leave in *. cbn [existsb].
  now rewrite IH.
Qed.

Section Listeners.
Variable host : Host.

Lemma add_listener_spec p l d st :
  let old := listener_entries (contexts st p) in
  let entry :=
    {| listener_interface := GUM_INVOCATION_LISTENER_GET_IFACE host l;
       listener_instance := l; function_data := d |} in
  let st' := gum_function_context_add_listener host p l d st in
  listener_entries (contexts st' p) = next_array st
  /\ next_array st' = S (next_array st)
  /\ entries_of st' p = copy_entries (arrays st old) ++ [Some entry]
  /\ (forall a, a <> next_array st -> arrays st' a = arrays st a)
  /\ pending_destroy_tasks (transaction st')
     = pending_destroy_tasks (transaction st)
       ++ [{| task_ctx := p; task_notify := g_ptr_array_unref;
              task_data := Z.of_nat old |}]
  /\ has_on_leave_listener (contexts st' p)
     = (is_some (on_leave (listener_interface entry))
        || has_on_leave_listener (contexts st p))
  /\ (forall q, q <> p -> contexts st' q = contexts st q)
  /\ function_by_address (interceptor st')
     = function_by_address (interceptor st).
Proof.
  intros old entry st'. subst st'.
  unfold gum_function_context_add_listener, alloc_array.
  fold old. fold entry.
  destruct (is_some (on_leave (listener_interface entry))) eqn:E;
    unfold entries_of, gum_interceptor_transaction_schedule_destroy,
      set_pending_destroy_tasks, set_current_transaction, set_interceptor,
      update_context, set_contexts, transaction;
    cbn; rewrite ?upd_eq; cbn; rewrite ?upd_eq;
    repeat split; try reflexivity;
    try (intros a Ha; now apply upd_ne);
    try (intros q Hq; now rewrite ?upd_ne by assumption).
Qed.

Lemma remove_listener_spec p l st st' :
  gum_function_context_remove_listener p l st = Some st' ->
  exists slot,
    gum_function_context_find_listener st p l = Some slot
    /\ entries_of st' p = clear_slot slot (entries_of st p)
    /\ has_on_leave_listener (contexts st' p)
       = live_on_leave (entries_of st' p)
    /\ listener_entries (contexts st' p) = listener_entries (contexts st p)
    /\ next_array st' = next_array st
    /\ (forall a, a <> listener_entries (contexts st p) ->
          arrays st' a = arrays st a)
    /\ (forall q, q <> p -> contexts st' q = contexts st q)
    /\ interceptor st' = interceptor st.
Proof.
  unfold gum_function_context_remove_listener.
  destruct (gum_function_context_find_listener st p l) as [slot|];
    [|discriminate].
  intros H. injection H as <-. exists slot.
  unfold entries_of, update_context, set_contexts, set_array.
  cbn. rewrite ?upd_eq. cbn. rewrite ?upd_eq.
  repeat split; try reflexivity.
  - apply scan_on_leave_live.
  - intros a Ha. now apply upd_ne.
  - intros q Hq. now apply upd_ne.
Qed.

Lemma function_context_new_spec fa ty st :
  let r := gum_function_context_new fa ty st in
  fst r = next_context st
  /\ next_context (snd r) = S (next_context st)
  /\ next_array (snd r) = S (next_array st)
  /\ listener_entries (contexts (snd r) (fst r)) = next_array st
  /\ entries_of (snd r) (fst r) = []
  /\ has_on_leave_listener (contexts (snd r) (fst r)) = false
  /\ type (contexts (snd r) (fst r)) = ty
  /\ function_address (contexts (snd r) (fst r)) = fa
  /\ replacement_function (contexts (snd r) (fst r)) = NULL
  /\ activated (contexts (snd r) (fst r)) = false
  /\ destroyed (contexts (snd r) (fst r)) = false
  /\ trampoline_slice (contexts (snd r) (fst r)) = NULL
  /\ (forall q, q <> next_context st -> contexts (snd r) q = contexts st q)
  /\ (forall a, a <> next_array st -> arrays (snd r) a = arrays st a)
  /\ interceptor (snd r) = interceptor st
  /\ trace (snd r) = trace st
  /\ thread_context (snd r) = thread_context st
  /\ replacement_data (contexts (snd r) (fst r)) = NULL.
Proof.
  unfold gum_function_context_new, alloc_array, alloc_context, entries_of.
  cbn. rewrite ?upd_eq. cbn. rewrite ?upd_eq.
  repeat split; try reflexivity.
  - intros q Hq. now apply upd_ne.
  - intros a Ha. now apply upd_ne.
Qed.

Lemma add_listener_flag p l d st :
  flag_accurate st p ->
  flag_accurate (gum_function_context_add_listener host p l d st) p.
Proof.
  unfold flag_accurate. intros Hacc.
  destruct (add_listener_spec p l d st) as (_ & _ & He & _ & _ & Hf & _).
  rewrite Hf, He, live_on_leave_app, live_on_leave_copy.
  fold (entries_of st p). rewrite <- Hacc. cbn.
  now rewrite orb_false_r, orb_comm.
Qed.

Lemma remove_listener_flag p l st st' :
  gum_function_context_remove_listener p l st = Some st' ->
  flag_accurate st' p.
Proof.
  intros H. destruct (remove_listener_spec p l st st' H) as (slot & _ & _ & Hf & _).
  exact Hf.
Qed.

Lemma run_listener_ops_flag p ops :
  forall st st',
    flag_accurate st p ->
    run_listener_ops host p ops st = Some st' ->
    flag_accurate st' p.
Proof.
  induction ops as [|op ops IH]; intros st st' Hacc Hrun; cbn in Hrun.
  - now injection Hrun as <-.
  - destruct op as [l d|l].
    + apply (IH _ _ (add_listener_flag p l d st Hacc) Hrun).
    + destruct (gum_function_context_remove_listener p l st) as [st1|] eqn:E;
        [|discriminate].
      apply (IH _ _ (remove_listener_flag p l st st1 E) Hrun).
Qed.

(** C6. Adding a listener publishes a snapshot at a pointer no list had
    before; it holds the live entries of the previous list, in order,
    followed by the new entry; the previous list is left as it was and its
    release is queued as a destroy task of the context.  After every add or
    remove, [has_on_leave_listener] says whether some live entry of the
    current list provides [on_leave]. *)
Theorem listener_snapshots p l d st :
  let old := listener_entries (contexts st p) in
  let entry :=
    {| listener_interface := GUM_INVOCATION_LISTENER_GET_IFACE host l;
       listener_instance := l; function_data := d |} in
  let st' := gum_function_context_add_listener host p l d st in
  (listener_entries (contexts st' p) = next_array st
   /\ next_array st' = S (next_array st))
  /\ entries_of st' p = filter is_some (entries_of st p) ++ [Some entry]
  /\ ((old < next_array st)%nat -> arrays st' old = arrays st old)
  /\ pending_destroy_tasks (transaction st')
     = pending_destroy_tasks (transaction st)
       ++ [{| task_ctx := p; task_notify := g_ptr_array_unref;
              task_data := Z.of_nat old |}]
  /\ (flag_accurate st p -> flag_accurate st' p)
  /\ (forall l' st'',
        gum_function_context_remove_listener p l' st = Some st'' ->
        flag_accurate st'' p)
  /\ (forall fa ty ops st'',
        let created := gum_function_context_new fa ty st in
        run_listener_ops host (fst created) ops (snd created) = Some st'' ->
        flag_accurate st'' (fst created)).
Proof.
  intros old entry st'.
  destruct (add_listener_spec p l d st)
    as (Hptr & Hnext & He & Harr & Hq & _).
  fold old entry st' in Hptr, Hnext, He, Harr, Hq.
  split; [split; assumption|].
  split; [rewrite He, copy_entries_filter; reflexivity|].
  split; [intros Hlt; apply Harr; lia|].
  split; [exact Hq|].
  split; [apply add_listener_flag|].
  split; [intros l' st''; apply remove_listener_flag|].
  intros fa ty ops st'' created Hrun.
  apply (run_listener_ops_flag _ ops (snd created) st''); [|exact Hrun].
  unfold flag_accurate.
  destruct (function_context_new_spec fa ty st)
    as (_ & _ & _ & _ & He' & Hf' & _).
  fold created in He', Hf'. rewrite He', Hf'. reflexivity.
Qed.

End Listeners.

Lemma listener_snapshots_witness :
  (listener_entries (contexts demo_attached O) < next_array demo_attached)%nat
  /\ flag_accurate demo_attached O
  /\ arrays (gum_function_context_add_listener demo_host O 2 0 demo_attached)
       (listener_entries (contexts demo_attached O))
     = arrays demo_attached (listener_entries (contexts demo_attached O))
  /\ flag_accurate
       (gum_function_context_add_listener demo_host O 2 0 demo_attached) O.
Proof.
  assert (H1 : (listener_entries (contexts demo_attached O)
                < next_array demo_attached)%nat) by (vm_compute; lia).
  assert (H2 : flag_accurate demo_attached O) by reflexivity.
  pose proof (listener_snapshots demo_host O 2 0 demo_attached)
    as (_ & _ & Hold & _ & Hflag & _).
  exact (conj H1 (conj H2 (conj (Hold H1) (Hflag H2)))).
Defined.

(** ** GLib's sort returns a permutation *)

Section SortPermutation.
Context {A : Type}.
Variable compare_func : A -> A -> gint.

Lemma g_list_sort_merge_perm (l1 : list A) :
  forall l2, Permutation (g_list_sort_merge compare_func l1 l2) (l1 ++ l2).
Proof.
  induction l1 as [|a1 l1 IH1]; intros l2.
  - destruct l2; reflexivity.
  - induction l2 as [|a2 l2 IH2].
    + cbn. now rewrite app_nil_r.
    + cbn [g_list_sort_merge].
      destruct (compare_func a1 a2 <=? 0).
      * cbn. constructor. apply IH1.
      * etransitivity; [constructor; exact IH2|].
        cbn. etransitivity; [apply perm_swap|].
        constructor. apply Permutation_middle.
Qed.

Lemma g_list_sort_real_perm n :
  forall l, Permutation (g_list_sort_real compare_func n l) l.
Proof.
  induction n as [|n IH]; intros l; cbn [g_list_sort_real]; [reflexivity|].
  destruct l as [|x [|y l]]; [reflexivity | reflexivity |].
  etransitivity; [apply g_list_sort_merge_perm|].
  etransitivity; [apply Permutation_app; apply IH|].
  now rewrite firstn_skipn.
Qed.

Lemma g_list_sort_perm l : Permutation (g_list_sort compare_func l) l.
Proof. apply g_list_sort_real_perm. Qed.

End SortPermutation.

(** ** Frames *)

Lemma keeps_refl c : keeps c c.
Proof. destruct c. reflexivity. Qed.

Lemma keeps_trans c1 c2 c3 : keeps c1 c2 -> keeps c2 c3 -> keeps c1 c3.
Proof.
  unfold keeps. intros H12 H23. rewrite H23. rewrite H12 at 1. 
  destruct c1, c3. reflexivity.
Qed.

Lemma keeps_set_activated b c : keeps c (set_activated b c).
Proof. destruct c. reflexivity. Qed.

Lemma keeps_clear_trampoline_slice c : keeps c (clear_trampoline_slice c).
Proof. destruct c. reflexivity. Qed.

Lemma keeps_set_finalized c : keeps c (set_finalized c).
Proof. destruct c. reflexivity. Qed.

Lemma commit_frame_refl st : commit_frame st st.
Proof. constructor; try reflexivity. intros q. apply keeps_refl. Qed.

Lemma commit_frame_trans st1 st2 st3 :
  commit_frame st1 st2 -> commit_frame st2 st3 -> commit_frame st1 st3.
Proof.
  intros [] []. constructor; try congruence.
  intros q. eapply keeps_trans; eauto.
Qed.

Lemma commit_frame_emit e st : commit_frame st (emit e st).
Proof. constructor; try reflexivity. intros q. apply keeps_refl. Qed.

Lemma commit_frame_update_context p f st :
  (forall c, keeps c (f c)) ->
  commit_frame st (update_context p f st).
Proof.
  intros Hf. constructor; try reflexivity.
  intros q. unfold update_context. cbn. unfold upd.
  destruct (Nat.eqb_spec q p) as [->|]; [apply Hf | apply keeps_refl].
Qed.

Lemma commit_frame_set_current_transaction t st :
  commit_frame st (set_current_transaction t st).
Proof. constructor; try reflexivity. intros q. apply keeps_refl. Qed.

Lemma commit_frame_ignore st :
  commit_frame st (gum_interceptor_ignore_current_thread st).
Proof.
  unfold gum_interceptor_ignore_current_thread,
    get_interceptor_thread_context.
  destruct (thread_context st) eqn:E; constructor; try reflexivity;
    try (intros q; apply keeps_refl);
    unfold gum_interceptor_get_current_stack; cbn; now rewrite E.
Qed.

Lemma commit_frame_unignore st :
  commit_frame st (gum_interceptor_unignore_current_thread st).
Proof.
  unfold gum_interceptor_unignore_current_thread,
    get_interceptor_thread_context.
  destruct (thread_context st) eqn:E; constructor; try reflexivity;
    try (intros q; apply keeps_refl);
    unfold gum_interceptor_get_current_stack; cbn; now rewrite E.
Qed.

Lemma notifications_app a b :
  notifications (a ++ b) = notifications a ++ notifications b.
Proof.
  induction a as [|e a IH]; [reflexivity|].
  destruct e; cbn; rewrite ?IH; reflexivity.
Qed.

Lemma released_emit e st :
  released (emit e st) = released st ++ notifications [e].
Proof. unfold released. cbn. apply notifications_app. Qed.

Lemma update_frame_refl st : update_frame st st.
Proof.
  constructor; try reflexivity; [apply commit_frame_refl | now split].
Qed.

Lemma update_frame_trans st1 st2 st3 :
  update_frame st1 st2 -> update_frame st2 st3 -> update_frame st1 st3.
Proof.
  intros [] []. constructor; try congruence.
  - eapply commit_frame_trans; eauto.
  - intros q. destruct (uf_storage0 q), (uf_storage1 q).
    split; congruence.
Qed.

Lemma update_frame_emit e st :
  notifications [e] = [] -> update_frame st (emit e st).
Proof.
  intros H. constructor; try reflexivity.
  - apply commit_frame_emit.
  - rewrite released_emit, H. apply app_nil_r.
  - now split.
Qed.

Lemma update_frame_set_activated p b st :
  update_frame st (update_context p (set_activated b) st).
Proof.
  constructor; try reflexivity.
  - apply commit_frame_update_context. intros c. apply keeps_set_activated.
  - intros q. unfold update_context. cbn. unfold upd.
    destruct (Nat.eqb_spec q p) as [->|]; now split.
Qed.

Lemma NoDup_app_disjoint {A} (l1 l2 : list A) :
  NoDup (l1 ++ l2) -> forall a, In a l1 -> ~ In a l2.
Proof.
  induction l1 as [|x l1 IH]; intros Hnd a Hin1 Hin2; [destruct Hin1|].
  cbn in Hnd. apply NoDup_cons_iff in Hnd. destruct Hnd as [Hx Hnd].
  destruct Hin1 as [->|Hin1].
  - apply Hx. apply in_or_app. now right.
  - exact (IH Hnd a Hin1 Hin2).
Qed.

Lemma quiet_frame_refl st : quiet_frame st st.
Proof. constructor; [apply update_frame_refl | reflexivity]. Qed.

Lemma quiet_frame_trans st1 st2 st3 :
  quiet_frame st1 st2 -> quiet_frame st2 st3 -> quiet_frame st1 st3.
Proof.
  intros [] []. constructor; [eapply update_frame_trans; eauto | congruence].
Qed.

Lemma quiet_frame_emit e st :
  notifications [e] = [] -> quiet_frame st (emit e st).
Proof.
  intros H. constructor; [now apply update_frame_emit | reflexivity].
Qed.

Section Commit.
Variable host : Host.

Lemma call_update_func_ok t prologue st :
  update_task_ready (contexts st) t ->
  exists st',
    call_update_func (update_func t) (update_ctx t) prologue st = Some st'
    /\ update_frame st st'
    /\ (forall q, q <> update_ctx t -> contexts st' q = contexts st q).
Proof.
  unfold update_task_ready, call_update_func,
    gum_interceptor_activate, gum_interceptor_deactivate.
  destruct (update_func t); intros Hready.
  - destruct (destroyed (contexts st (update_ctx t))) eqn:Hd.
    + exists st. split; [reflexivity|]. split; [apply update_frame_refl|].
      reflexivity.
    + destruct Hready as [Hready|Hready]; [discriminate|]. rewrite Hready.
      eexists. split; [reflexivity|]. split.
      * eapply update_frame_trans;
          [apply update_frame_set_activated | now apply update_frame_emit].
      * intros q Hq. cbn. now apply upd_ne.
  - rewrite Hready.
    eexists. split; [reflexivity|]. split.
    + eapply update_frame_trans;
        [apply update_frame_set_activated | now apply update_frame_emit].
    + intros q Hq. cbn. now apply upd_ne.
Qed.

Lemma update_task_ready_ext h h' t :
  h' (update_ctx t) = h (update_ctx t) ->
  update_task_ready h t -> update_task_ready h' t.
Proof. unfold update_task_ready. intros ->. exact (fun H => H). Qed.

Lemma run_pending_ok pending prologue_of :
  forall st,
    NoDup (map update_ctx pending) ->
    Forall (update_task_ready (contexts st)) pending ->
    exists st',
      run_pending host pending prologue_of st = Some st'
      /\ update_frame st st'
      /\ (forall q, ~ In q (map update_ctx pending) ->
            contexts st' q = contexts st q).
Proof.
  induction pending as [|t pending IH]; intros st Hnd Hready.
  - exists st. split; [reflexivity|]. split; [apply update_frame_refl|].
    reflexivity.
  - cbn [run_pending]. cbn [map] in Hnd.
    apply NoDup_cons_iff in Hnd. destruct Hnd as [Hnotin Hnd].
    apply Forall_cons_iff in Hready. destruct Hready as [Ht Hrest].
    destruct (call_update_func_ok t
                (prologue_of (backend_get_function_address host st
                                (update_ctx t))) st Ht)
      as (st1 & Hcall & Hf1 & Hother1).
    rewrite Hcall.
    destruct (IH st1 Hnd) as (st2 & Hrun & Hf2 & Hother2).
    + apply Forall_forall. intros t' Hin.
      apply (update_task_ready_ext (contexts st)).
      * apply Hother1. intros E. apply Hnotin. rewrite <- E.
        now apply in_map.
      * rewrite Forall_forall in Hrest. now apply Hrest.
    + exists st2. split; [exact Hrun|]. split.
      * eapply update_frame_trans; eauto.
      * intros q Hq. cbn [map] in Hq.
        rewrite Hother2, Hother1; [reflexivity | |];
          intros E; apply Hq; [now left | now right].
Qed.

Lemma run_updates_ok table addresses :
  forall source_page st,
    (forall a, In a addresses -> g_hash_table_lookup table a <> None) ->
    NoDup (map update_ctx (scheduled table addresses)) ->
    Forall (update_task_ready (contexts st)) (scheduled table addresses) ->
    exists st',
      run_updates host table addresses source_page st = Some st'
      /\ update_frame st st'
      /\ (forall q, ~ In q (map update_ctx (scheduled table addresses)) ->
            contexts st' q = contexts st q).
Proof.
  induction addresses as [|a addresses IH]; intros source_page st Hk Hnd Hr.
  - exists st. split; [reflexivity|]. split; [apply update_frame_refl|].
    reflexivity.
  - cbn [run_updates]. unfold scheduled in *. cbn [flat_map] in *.
    destruct (g_hash_table_lookup table a) as [pending|] eqn:El;
      [|exfalso; apply (Hk a); [now left | exact El]].
    rewrite map_app in Hnd. rewrite Forall_app in Hr.
    destruct Hr as [Hr1 Hr2].
    pose proof (NoDup_app_remove_r _ _ Hnd) as Hnd1.
    pose proof (NoDup_app_remove_l _ _ Hnd) as Hnd2.
    match goal with
    | |- context [run_pending host pending ?f st] =>
        destruct (run_pending_ok pending f st Hnd1 Hr1)
          as (st1 & Hrun1 & Hf1 & Ho1)
    end.
    rewrite Hrun1.
    destruct (IH (option_map (fun p => p + gum_query_page_size host)
                    source_page) st1)
      as (st2 & Hrun2 & Hf2 & Ho2).
    + intros a' Hin. apply Hk. now right.
    + exact Hnd2.
    + apply Forall_forall. intros t' Hin.
      apply (update_task_ready_ext (contexts st)).
      * apply Ho1. intros Hin1.
        apply (NoDup_app_disjoint _ _ Hnd (update_ctx t'));
          [exact Hin1 | now apply in_map].
      * rewrite Forall_forall in Hr2. now apply Hr2.
    + exists st2. split; [exact Hrun2|]. split.
      * eapply update_frame_trans; eauto.
      * intros q Hq. rewrite map_app, in_app_iff in Hq.
        rewrite Ho2, Ho1; [reflexivity | |]; intros E; apply Hq;
          [now left | now right].
Qed.

Lemma for_each_page_frame f addresses :
  (forall p, notifications [f p] = []) ->
  forall st, quiet_frame st (for_each_page f addresses st).
Proof.
  intros Hf. unfold for_each_page.
  induction addresses as [|a addresses IH]; intros st; cbn.
  - apply quiet_frame_refl.
  - eapply quiet_frame_trans; [apply quiet_frame_emit, Hf | apply IH].
Qed.

Lemma suspend_threads_frame threads current :
  forall suspended st,
    quiet_frame st (snd (suspend_threads host threads current suspended st)).
Proof.
  induction threads as [|id threads IH]; intros suspended st; cbn.
  - apply quiet_frame_refl.
  - destruct (id =? current); [apply IH|].
    destruct (gum_thread_suspend host id); cbn; [|apply IH].
    eapply quiet_frame_trans; [|apply IH]. now apply quiet_frame_emit.
Qed.

Lemma resume_threads_frame reversed :
  forall st, quiet_frame st (resume_threads reversed st).
Proof.
  induction reversed as [|id reversed IH]; intros st; cbn.
  - apply quiet_frame_refl.
  - destruct (id =? 0); [apply quiet_frame_refl|].
    eapply quiet_frame_trans; [|apply IH]. now apply quiet_frame_emit.
Qed.

Lemma copy_pages_frame addresses :
  forall current_page st,
    quiet_frame st (copy_pages host addresses current_page st).
Proof.
  induction addresses as [|a addresses IH]; intros current_page st; cbn.
  - apply quiet_frame_refl.
  - eapply quiet_frame_trans; [|apply IH]. now apply quiet_frame_emit.
Qed.

Lemma map_pages_frame addresses :
  forall source_offset st,
    quiet_frame st (map_pages host addresses source_offset st).
Proof.
  induction addresses as [|a addresses IH]; intros source_offset st; cbn.
  - apply quiet_frame_refl.
  - eapply quiet_frame_trans; [|apply IH].
    eapply quiet_frame_trans; now apply quiet_frame_emit.
Qed.

Lemma apply_updates_ok table addresses st :
  (forall a, In a addresses -> g_hash_table_lookup table a <> None) ->
  NoDup (map update_ctx (scheduled table addresses)) ->
  Forall (update_task_ready (contexts st)) (scheduled table addresses) ->
  exists st',
    apply_updates host table addresses st = Some st'
    /\ update_frame st st'
    /\ (forall q, ~ In q (map update_ctx (scheduled table addresses)) ->
          contexts st' q = contexts st q).
Proof.
  intros Hk Hnd Hr. unfold apply_updates.
  assert (Hrun : forall source_page st0,
             quiet_frame st st0 ->
             exists st',
               run_updates host table addresses source_page st0 = Some st'
               /\ update_frame st st'
               /\ (forall q,
                     ~ In q (map update_ctx (scheduled table addresses)) ->
                     contexts st' q = contexts st q)).
  { intros source_page st0 [Hf0 Hc0].
    destruct (run_updates_ok table addresses source_page st0 Hk Hnd)
      as (st' & Hrun & Hf & Ho).
    - now rewrite Hc0.
    - exists st'. split; [exact Hrun|]. split.
      + eapply update_frame_trans; eauto.
      + intros q Hq. rewrite (Ho q Hq). now rewrite Hc0. }
  assert (Hdone : forall st1 st2,
            update_frame st st1 ->
            (forall q, ~ In q (map update_ctx (scheduled table addresses)) ->
               contexts st1 q = contexts st q) ->
            quiet_frame st1 st2 ->
            update_frame st st2
            /\ (forall q,
                  ~ In q (map update_ctx (scheduled table addresses)) ->
                  contexts st2 q = contexts st q)).
  { intros st1 st2 Hf1 Ho1 [Hf2 Hc2]. split.
    - eapply update_frame_trans; eauto.
    - intros q Hq. rewrite Hc2. now apply Ho1. }
  destruct (gum_process_get_code_signing_policy host).
  - destruct (gum_query_is_rwx_supported host
              || negb (gum_code_segment_is_supported host)).
    + destruct (gum_query_is_rwx_supported host); cbn [negb].
      * match goal with
        | |- context [run_updates host table addresses None ?s] =>
            destruct (Hrun None s) as (st1 & Hrun1 & Hf1 & Ho1)
        end.
        { now apply for_each_page_frame. }
        rewrite Hrun1. eexists. split; [reflexivity|].
        apply (Hdone st1); try assumption.
        now apply for_each_page_frame.
      * pose proof (suspend_threads_frame
                      (gum_process_enumerate_threads host)
                      (gum_process_get_current_thread_id host) [] st) as Hs.
        destruct (suspend_threads host (gum_process_enumerate_threads host)
                    (gum_process_get_current_thread_id host) [] st)
          as [suspended st0].
        cbn [snd] in Hs.
        match goal with
        | |- context [run_updates host table addresses None ?s] =>
            destruct (Hrun None s) as (st1 & Hrun1 & Hf1 & Ho1)
        end.
        { eapply quiet_frame_trans; [exact Hs|].
          now apply for_each_page_frame. }
        rewrite Hrun1. eexists. split; [reflexivity|].
        apply (Hdone st1); try assumption.
        eapply quiet_frame_trans; [|apply resume_threads_frame].
        eapply quiet_frame_trans; now apply for_each_page_frame.
    + match goal with
      | |- context [run_updates host table addresses (Some ?p) ?s] =>
          destruct (Hrun (Some p) s) as (st1 & Hrun1 & Hf1 & Ho1)
      end.
      { eapply quiet_frame_trans; [|apply copy_pages_frame].
        now apply quiet_frame_emit. }
      rewrite Hrun1. eexists. split; [reflexivity|].
      apply (Hdone st1); try assumption.
      eapply quiet_frame_trans; [|now apply quiet_frame_emit].
      eapply quiet_frame_trans; [|apply map_pages_frame].
      now apply quiet_frame_emit.
  - destruct (Hrun None st (quiet_frame_refl st)) as (st1 & Hrun1 & Hf1 & Ho1).
    exists st1. auto.
Qed.

Lemma lookup_key_in {V} (table : list (gpointer * V)) a :
  In a (g_hash_table_get_keys table) -> g_hash_table_lookup table a <> None.
Proof.
  unfold g_hash_table_get_keys.
  induction table as [|[k v] table IH]; intros Hin; [destruct Hin|].
  cbn. destruct (Z.eqb_spec k a); [discriminate|].
  apply IH. destruct Hin as [E|Hin]; [contradiction | exact Hin].
Qed.

Lemma scheduled_keys table :
  NoDup (map fst table) ->
  scheduled table (g_hash_table_get_keys table) = all_update_tasks table.
Proof.
  unfold scheduled, all_update_tasks, g_hash_table_get_keys.
  induction table as [|[k v] table IH]; intros Hnd; [reflexivity|].
  cbn [map fst flat_map concat snd g_hash_table_lookup].
  rewrite Z.eqb_refl. f_equal.
  cbn [map fst] in Hnd. apply NoDup_cons_iff in Hnd.
  destruct Hnd as [Hk Hnd].
  rewrite <- (IH Hnd). rewrite !flat_map_concat_map. f_equal.
  apply map_ext_in. intros a Hin.
  destruct (Z.eqb_spec k a) as [->|]; [contradiction | reflexivity].
Qed.

Lemma scheduled_sorted_perm table :
  NoDup (map fst table) ->
  Permutation
    (scheduled table
       (g_list_sort gum_page_address_compare (g_hash_table_get_keys table)))
    (all_update_tasks table).
Proof.
  intros Hnd. rewrite <- (scheduled_keys table Hnd).
  unfold scheduled. apply Permutation_flat_map, g_list_sort_perm.
Qed.

Lemma updates_wf_apply st table :
  let addresses :=
    g_list_sort gum_page_address_compare (g_hash_table_get_keys table) in
  NoDup (map fst table) ->
  NoDup (map update_ctx (all_update_tasks table)) ->
  Forall (update_task_ready (contexts st)) (all_update_tasks table) ->
  exists st',
    apply_updates host table addresses st = Some st'
    /\ update_frame st st'
    /\ (forall q, ~ In q (map update_ctx (all_update_tasks table)) ->
          contexts st' q = contexts st q).
Proof.
  intros addresses Hk Hnd Hr.
  pose proof (scheduled_sorted_perm table Hk) as Hperm. fold addresses in Hperm.
  destruct (apply_updates_ok table addresses st) as (st' & Ha & Hf & Ho).
  - intros a Hin. apply lookup_key_in.
    eapply Permutation_in; [apply g_list_sort_perm | exact Hin].
  - eapply Permutation_NoDup; [|exact Hnd].
    apply Permutation_map, Permutation_sym, Hperm.
  - eapply Permutation_Forall; [apply Permutation_sym, Hperm | exact Hr].
  - exists st'. split; [exact Ha|]. split; [exact Hf|].
    intros q Hq. apply Ho. intros Hin. apply Hq.
    eapply Permutation_in; [apply Permutation_map, Hperm | exact Hin].
Qed.

(** *** The drain *)

Lemma keeps_counter c c' :
  keeps c c' -> trampoline_usage_counter c' = trampoline_usage_counter c.
Proof. intros H. rewrite H. reflexivity. Qed.

Lemma idle_frame st st' t :
  commit_frame st st' -> idle st' t = idle st t.
Proof.
  intros Hf. unfold idle.
  now rewrite (keeps_counter _ _ (cf_contexts _ _ Hf (task_ctx t))).
Qed.

Lemma call_notify_ok task st :
  exists st',
    call_notify task st = Some st'
    /\ commit_frame st st'
    /\ interceptor st' = interceptor st
    /\ thread_context st' = thread_context st
    /\ released st' = released st ++ [callback task]
    /\ (forall q,
          (task_notify task = gum_function_context_perform_destroy_notify ->
           q <> Z.to_nat (task_data task)) ->
          contexts st' q = contexts st q).
Proof.
  unfold call_notify, gum_function_context_perform_destroy,
    gum_function_context_finalize.
  assert (Hrel : released (emit (EvNotify (task_notify task) (task_data task))
                             st) = released st ++ [callback task])
    by apply released_emit.
  destruct (task_notify task) eqn:En.
  1,2: eexists; split; [reflexivity|];
       repeat split; try reflexivity; try exact Hrel;
       apply commit_frame_emit.
  set (p := Z.to_nat (task_data task)).
  set (st1 := emit (EvNotify gum_function_context_perform_destroy_notify
                      (task_data task)) st) in *.
  set (st2 := update_context p clear_trampoline_slice
                (emit (EvDestroyTrampoline p) st1)).
  assert (Hs : (trampoline_slice (contexts st2 p) =? NULL) = true).
  { unfold st2, update_context. cbn. rewrite upd_eq.
    destruct (contexts st p). reflexivity. }
  rewrite Hs. eexists. split; [reflexivity|].
  assert (Hf2 : commit_frame st st2).
  { eapply commit_frame_trans; [apply commit_frame_emit|].
    eapply commit_frame_trans; [apply commit_frame_emit|].
    apply commit_frame_update_context. apply keeps_clear_trampoline_slice. }
  split.
  { eapply commit_frame_trans; [exact Hf2|].
    eapply commit_frame_trans; [apply commit_frame_emit|].
    eapply commit_frame_trans; [|apply commit_frame_emit].
    apply commit_frame_update_context. apply keeps_set_finalized. }
  split; [reflexivity|]. split; [reflexivity|]. split.
  { unfold released, callback. cbn. rewrite !notifications_app. cbn.
    now rewrite !app_nil_r, En. }
  intros q Hq. specialize (Hq eq_refl). cbn.
  rewrite !upd_ne by exact Hq. reflexivity.
Qed.

Lemma drain_destroy_tasks_ok queue :
  forall st,
    exists st',
      drain_destroy_tasks queue st = Some st'
      /\ commit_frame st st'
      /\ thread_context st' = thread_context st
      /\ released st' = released st ++ map callback (filter (idle st) queue)
      /\ pending_destroy_tasks (transaction st')
         = pending_destroy_tasks (transaction st)
           ++ filter (waiting st) queue
      /\ pending_update_tasks (transaction st')
         = pending_update_tasks (transaction st)
      /\ level (transaction st') = level (transaction st)
      /\ is_dirty (transaction st')
         = (is_dirty (transaction st)
            || negb (g_queue_is_empty (filter (waiting st) queue)))
      /\ (forall q,
            (forall t, In t queue -> idle st t = true ->
               task_notify t = gum_function_context_perform_destroy_notify ->
               q <> Z.to_nat (task_data t)) ->
            contexts st' q = contexts st q).
Proof.
  induction queue as [|task queue IH]; intros st.
  - exists st. cbn. rewrite !app_nil_r, orb_false_r.
    repeat split; try reflexivity. apply commit_frame_refl.
  - cbn [drain_destroy_tasks filter]. unfold waiting in *.
    fold (idle st task).
    destruct (idle st task) eqn:Hidle; cbn [negb].
    + destruct (call_notify_ok task st)
        as (st1 & Hcall & Hf1 & Hi1 & Ht1 & Hr1 & Ho1).
      rewrite Hcall.
      destruct (IH st1)
        as (st2 & Hd & Hf2 & Ht2 & Hr2 & Hq2 & Hu2 & Hl2 & Hdirty2 & Ho2).
      assert (Hidle_eq : forall t, idle st1 t = idle st t)
        by (intros t; now apply idle_frame).
      rewrite (filter_ext _ _ Hidle_eq) in Hr2.
      assert (Hwait_eq : forall t, negb (idle st1 t) = negb (idle st t))
        by (intros t; now rewrite Hidle_eq).
      rewrite (filter_ext _ _ Hwait_eq) in Hq2, Hdirty2.
      unfold transaction in *. rewrite Hi1 in *.
      exists st2. split; [exact Hd|].
      split; [eapply commit_frame_trans; eauto|].
      split; [congruence|].
      split; [rewrite Hr2, Hr1; cbn [map]; now rewrite <- app_assoc|].
      split; [exact Hq2|]. split; [exact Hu2|]. split; [exact Hl2|].
      split; [exact Hdirty2|].
      intros q Hq. rewrite Ho2, Ho1; [reflexivity | |].
      * intros Hn. apply (Hq task); [now left | exact Hidle | exact Hn].
      * intros t Hin Hi Hn. apply (Hq t); [now right | | exact Hn].
        now rewrite <- Hidle_eq.
    + match goal with
      | |- context [drain_destroy_tasks queue ?s] =>
          set (st1 := s);
          destruct (IH st1)
            as (st2 & Hd & Hf2 & Ht2 & Hr2 & Hq2 & Hu2 & Hl2 & Hdirty2 & Ho2)
      end.
      assert (Hf1 : commit_frame st st1).
      { unfold st1, set_pending_destroy_tasks, set_is_dirty.
        eapply commit_frame_trans;
          apply commit_frame_set_current_transaction. }
      assert (Hidle_eq : forall t, idle st1 t = idle st t)
        by (intros t; now apply idle_frame).
      rewrite (filter_ext _ _ Hidle_eq) in Hr2.
      assert (Hwait_eq : forall t, negb (idle st1 t) = negb (idle st t))
        by (intros t; now rewrite Hidle_eq).
      rewrite (filter_ext _ _ Hwait_eq) in Hq2, Hdirty2.
      exists st2. split; [exact Hd|].
      split; [eapply commit_frame_trans; eauto|].
      split; [exact Ht2|]. split; [exact Hr2|].
      split; [rewrite Hq2; unfold st1; cbn; now rewrite <- app_assoc|].
      split; [exact Hu2|]. split; [exact Hl2|].
      split; [rewrite Hdirty2; unfold st1; cbn; now rewrite orb_true_r|].
      intros q Hq. rewrite Ho2; [reflexivity|].
      intros t Hin Hi Hn. apply (Hq t); [now right | | exact Hn].
      now rewrite <- Hidle_eq.
Qed.

Lemma current_ignore_level_ext st st' :
  thread_context st' = thread_context st ->
  current_ignore_level st' = current_ignore_level st.
Proof.
  intros Ht. unfold current_ignore_level, get_interceptor_thread_context.
  rewrite Ht. destruct (thread_context st); reflexivity.
Qed.

Lemma ignore_unignore_level st st' :
  thread_context st'
  = thread_context (gum_interceptor_ignore_current_thread st) ->
  current_ignore_level (gum_interceptor_unignore_current_thread st')
  = current_ignore_level st.
Proof.
  intros Ht. rewrite current_ignore_level_unignore.
  assert (H : current_ignore_level st'
              = current_ignore_level
                  (gum_interceptor_ignore_current_thread st)).
  { unfold current_ignore_level, get_interceptor_thread_context.
    rewrite Ht.
    destruct (thread_context (gum_interceptor_ignore_current_thread st));
      reflexivity. }
  rewrite H, current_ignore_level_ignore. lia.
Qed.

(** What [gum_interceptor_transaction_end] does, case by case. *)
Lemma transaction_end_ok st :
  updates_wf st ->
  let queue := pending_destroy_tasks (transaction st) in
  exists st',
    gum_interceptor_transaction_end host st = Some st'
    /\ commit_frame st st'
    /\ current_ignore_level st' = current_ignore_level st
    /\ (level (transaction st) > 1 \/ is_dirty (transaction st) = false ->
        st' = set_level (level (transaction st) - 1) st)
    /\ (level (transaction st) <= 1 -> is_dirty (transaction st) = true ->
        released st' = released st ++ map callback (filter (idle st) queue)
        /\ pending_destroy_tasks (transaction st')
           = filter (waiting st) queue
        /\ pending_update_tasks (transaction st') = []
        /\ is_dirty (transaction st')
           = negb (g_queue_is_empty (filter (waiting st) queue))
        /\ (forall q,
              (forall t, In t queue -> idle st t = true ->
                 task_notify t = gum_function_context_perform_destroy_notify ->
                 q <> Z.to_nat (task_data t)) ->
              trampoline_slice (contexts st' q)
              = trampoline_slice (contexts st q)
              /\ finalized (contexts st' q) = finalized (contexts st q))).
Proof.
  intros (Hkeys & Hnd & Hready & _) queue.
  unfold gum_interceptor_transaction_end.
  set (st0 := set_level (level (transaction st) - 1) st).
  assert (Hf0 : commit_frame st st0)
    by apply commit_frame_set_current_transaction.
  replace (level (transaction st0)) with (level (transaction st) - 1)
    by reflexivity.
  replace (is_dirty (transaction st0)) with (is_dirty (transaction st))
    by reflexivity.
  destruct (Z.gtb_spec (level (transaction st) - 1) 0) as [Hlevel|Hlevel].
  { exists st0. split; [reflexivity|]. split; [exact Hf0|].
    split; [now apply current_ignore_level_ext|].
    split; [reflexivity|]. intros; lia. }
  destruct (is_dirty (transaction st)) eqn:Hdirty; cbn [negb].
  2:{ exists st0. split; [reflexivity|]. split; [exact Hf0|].
      split; [now apply current_ignore_level_ext|].
      split; [reflexivity|]. intros; discriminate. }
  set (st1 := gum_interceptor_ignore_current_thread st0).
  set (st2 := emit EvCodeAllocatorCommit st1).
  assert (Hf2 : commit_frame st st2).
  { eapply commit_frame_trans; [exact Hf0|].
    eapply commit_frame_trans; [apply commit_frame_ignore|].
    apply commit_frame_emit. }
  assert (Hi2 : interceptor st2 = interceptor st0).
  { unfold st2, st1, gum_interceptor_ignore_current_thread,
      get_interceptor_thread_context.
    destruct (thread_context st0); reflexivity. }
  assert (Hc2 : contexts st2 = contexts st).
  { unfold st2, st1, gum_interceptor_ignore_current_thread,
      get_interceptor_thread_context.
    destruct (thread_context st0); reflexivity. }
  assert (Ht2 : thread_context st2
                = thread_context (gum_interceptor_ignore_current_thread st)).
  { unfold st2, st1, gum_interceptor_ignore_current_thread,
      get_interceptor_thread_context.
    replace (thread_context st0) with (thread_context st) by reflexivity.
    destruct (thread_context st); reflexivity. }
  assert (Hr2 : released st2 = released st).
  { unfold st2. rewrite released_emit. cbn. rewrite app_nil_r.
    unfold released, st1, gum_interceptor_ignore_current_thread,
      get_interceptor_thread_context.
    destruct (thread_context st0); reflexivity. }
  assert (Hun : forall s,
            interceptor (gum_interceptor_unignore_current_thread s)
            = interceptor s
            /\ contexts (gum_interceptor_unignore_current_thread s)
               = contexts s
            /\ released (gum_interceptor_unignore_current_thread s)
               = released s).
  { intros s. unfold gum_interceptor_unignore_current_thread,
      get_interceptor_thread_context, released.
    destruct (thread_context s); repeat split; reflexivity. }
  clearbody st2. clear st1.
  unfold transaction in *. rewrite Hi2.
  replace (pending_destroy_tasks (current_transaction (interceptor st0)))
    with queue by reflexivity.
  replace (pending_update_tasks (current_transaction (interceptor st0)))
    with (pending_update_tasks (current_transaction (interceptor st)))
    by reflexivity.
  set (table := pending_update_tasks (current_transaction (interceptor st)))
    in *.
  destruct (g_queue_is_empty queue && (g_hash_table_size table =? 0)) eqn:He.
  { apply andb_true_iff in He. destruct He as [Hq Ht].
    assert (Hqueue : queue = []) by (destruct queue; [reflexivity|discriminate]).
    assert (Htable : table = []).
    { destruct table; [reflexivity|]. unfold g_hash_table_size in Ht.
      cbn in Ht. discriminate. }
    eexists. split; [reflexivity|].
    split.
    { eapply commit_frame_trans; [exact Hf2|].
      eapply commit_frame_trans;
        [apply commit_frame_set_current_transaction
        |apply commit_frame_unignore]. }
    split; [now apply ignore_unignore_level|].
    split; [intros [H|H]; [lia|discriminate]|].
    intros _ _. rewrite Hqueue. cbn [filter map g_queue_is_empty negb].
    rewrite app_nil_r.
    destruct (Hun (set_is_dirty false st2)) as (Hui & Huc & Hur).
    unfold transaction. rewrite Hui, Huc, Hur.
    unfold set_is_dirty, transaction. cbn. rewrite Hi2. cbn.
    fold queue. fold table. rewrite ?Hqueue, ?Htable, ?Hc2.
    repeat split; try reflexivity; try exact Hr2;
      [exact Hqueue | exact Htable]. }
  set (st3 := set_current_transaction gum_interceptor_transaction_init st2).
  destruct (updates_wf_apply st3 table Hkeys Hnd)
    as (st4 & Happly & Hf4 & Ho4).
  { unfold st3. cbn [contexts set_current_transaction set_interceptor].
    now rewrite Hc2. }
  rewrite Happly.
  destruct (drain_destroy_tasks_ok queue st4)
    as (st5 & Hdrain & Hf5 & Ht5 & Hr5 & Hq5 & Hu5 & Hl5 & Hd5 & Ho5).
  rewrite Hdrain. cbn [gum_interceptor_transaction_destroy].
  assert (Hf3 : commit_frame st st3).
  { eapply commit_frame_trans; [exact Hf2|].
    apply commit_frame_set_current_transaction. }
  assert (Hf4' : commit_frame st st4)
    by (eapply commit_frame_trans; [exact Hf3 | apply (uf_commit _ _ Hf4)]).
  assert (Hidle : forall t, idle st4 t = idle st t)
    by (intros t; now apply idle_frame).
  assert (Hwait : forall t, waiting st4 t = waiting st t)
    by (intros t; unfold waiting; now rewrite Hidle).
  rewrite (filter_ext _ _ Hidle) in Hr5.
  rewrite (filter_ext _ _ Hwait) in Hq5, Hd5.
  eexists. split; [reflexivity|].
  split.
  { eapply commit_frame_trans; [exact Hf4'|].
    eapply commit_frame_trans; [exact Hf5 | apply commit_frame_unignore]. }
  split.
  { apply ignore_unignore_level. rewrite Ht5, (uf_thread_context _ _ Hf4).
    exact Ht2. }
  split; [intros [H|H]; [lia|discriminate]|].
  intros _ _.
  assert (Htx : transaction st4 = gum_interceptor_transaction_init).
  { unfold transaction. rewrite (uf_interceptor _ _ Hf4). reflexivity. }
  unfold transaction in Htx. 
  destruct (Hun st5) as (Hui & Huc & Hur).
  rewrite Hui, Huc, Hur.
  unfold transaction in *. rewrite Htx in *.
  cbn [pending_destroy_tasks pending_update_tasks is_dirty level
       gum_interceptor_transaction_init app orb] in *.
  split; [rewrite Hr5, (uf_released _ _ Hf4); unfold st3; cbn;
          fold (released st2); now rewrite Hr2|].
  split; [exact Hq5|]. split; [exact Hu5|]. split; [exact Hd5|].
  intros q Hq.
  rewrite Ho5.
  2:{ intros t Hin Hi. apply Hq; [exact Hin|]. now rewrite <- Hidle. }
  destruct (uf_storage _ _ Hf4 q) as [Hs Hfin].
  rewrite Hs, Hfin. unfold st3. cbn. now rewrite Hc2.
Qed.

(** C1. A commit runs the release callbacks of queued destroy tasks only
    for contexts whose usage counter is zero; a context whose counter is not
    zero keeps its trampoline storage, is not finalized and keeps its
    counter; and when the commit is carried out (outermost level, dirty),
    exactly the idle tasks run, in queue order, the waiting ones make up the
    next transaction's destroy queue, and that transaction is dirty whenever
    one is waiting. *)
Theorem destroy_tasks_wait_for_idle_contexts st :
  updates_wf st ->
  destroy_tasks_wf st ->
  let queue := pending_destroy_tasks (transaction st) in
  exists st',
    gum_interceptor_transaction_end host st = Some st'
    /\ (exists ran,
          released st' = released st ++ map callback ran
          /\ forall t, In t ran ->
               In t queue
               /\ trampoline_usage_counter (contexts st (task_ctx t)) = 0)
    /\ (forall c,
          trampoline_usage_counter (contexts st c) <> 0 ->
          trampoline_slice (contexts st' c) = trampoline_slice (contexts st c)
          /\ finalized (contexts st' c) = finalized (contexts st c)
          /\ trampoline_usage_counter (contexts st' c)
             = trampoline_usage_counter (contexts st c))
    /\ (level (transaction st) <= 1 -> is_dirty (transaction st) = true ->
        released st' = released st ++ map callback (filter (idle st) queue)
        /\ pending_destroy_tasks (transaction st')
           = filter (waiting st) queue
        /\ (filter (waiting st) queue <> [] ->
            is_dirty (transaction st') = true)).
Proof.
  intros Hwf Hdwf queue.
  destruct (transaction_end_ok st Hwf)
    as (st' & Hend & Hf & _ & Hskip & Hcommit).
  fold queue in Hcommit.
  exists st'. split; [exact Hend|].
  assert (Hcounter : forall c,
            trampoline_usage_counter (contexts st' c)
            = trampoline_usage_counter (contexts st c))
    by (intros c; apply keeps_counter, (cf_contexts _ _ Hf)).
  destruct (Z.leb_spec (level (transaction st)) 1) as [Hl|Hl];
    [destruct (is_dirty (transaction st)) eqn:Hd|].
  - destruct (Hcommit Hl eq_refl) as (Hr & Hq & _ & Hdirty & Hstore).
    split; [|split].
    + exists (filter (idle st) queue). split; [exact Hr|].
      intros t Hin. apply filter_In in Hin. destruct Hin as [Hin Hi].
      split; [exact Hin|]. unfold idle in Hi. now apply Z.eqb_eq.
    + intros c Hc.
      destruct (Hstore c) as [Hs Hfin]; [|now rewrite Hs, Hfin, Hcounter].
      intros t Hin Hi Hn. unfold destroy_tasks_wf in Hdwf. fold queue in Hdwf.
      rewrite Forall_forall in Hdwf. rewrite (Hdwf t Hin Hn), Nat2Z.id.
      intros ->. unfold idle in Hi. apply Z.eqb_eq in Hi. contradiction.
    + intros _ _. split; [exact Hr|]. split; [exact Hq|].
      intros Hne. rewrite Hdirty.
      destruct (filter (waiting st) queue); [contradiction | reflexivity].
  - rewrite (Hskip (or_intror eq_refl)).
    split; [|split].
    + exists []. cbn. rewrite app_nil_r. split; [reflexivity|]. intros t [].
    + intros c _. repeat split; reflexivity.
    + intros _ H. discriminate.
  - assert (Hgt : level (transaction st) > 1) by lia.
    rewrite (Hskip (or_introl Hgt)).
    split; [|split].
    + exists []. cbn. rewrite app_nil_r. split; [reflexivity|]. intros t [].
    + intros c _. repeat split; reflexivity.
    + intros H. lia.
Qed.

(** C10. At a nonzero transaction level [gum_interceptor_flush] returns
    FALSE and leaves the whole state, pending tasks included, as it was; at
    level zero its result comes from one begin/end pair and is TRUE exactly
    when the destroy queue is empty afterwards, and it does return when the
    pending updates are well formed. *)
Theorem flush_only_at_top_level st :
  (level (transaction st) <> 0 ->
   gum_interceptor_flush host st = Some (false, st))
  /\ (level (transaction st) = 0 ->
      forall flushed st',
        gum_interceptor_flush host st = Some (flushed, st') ->
        gum_interceptor_transaction_end host
          (gum_interceptor_transaction_begin st) = Some st'
        /\ (flushed = true <-> pending_destroy_tasks (transaction st') = []))
  /\ (level (transaction st) = 0 -> updates_wf st ->
      exists flushed st',
        gum_interceptor_flush host st = Some (flushed, st')).
Proof.
  unfold gum_interceptor_flush. split; [|split].
  - intros Hl.
    destruct (Z.eqb_spec (level (transaction st)) 0); [contradiction|].
    reflexivity.
  - intros Hl flushed st'. rewrite Hl. cbn [Z.eqb].
    destruct (gum_interceptor_transaction_end host
                (gum_interceptor_transaction_begin st)) as [st1|];
      [|discriminate].
    intros H. injection H as <- <-. split; [reflexivity|].
    destruct (pending_destroy_tasks (transaction st1)); cbn;
      split; intros; congruence.
  - intros Hl Hwf. rewrite Hl. cbn [Z.eqb].
    destruct (transaction_end_ok (gum_interceptor_transaction_begin st) Hwf)
      as (st' & Hend & _).
    rewrite Hend. eexists. eexists. reflexivity.
Qed.

End Commit.

Lemma destroy_tasks_wait_for_idle_contexts_witness :
  updates_wf demo_detaching
  /\ destroy_tasks_wf demo_detaching
  /\ trampoline_usage_counter (contexts demo_detaching O) <> 0
  /\ exists st',
       gum_interceptor_transaction_end demo_host demo_detaching = Some st'
       /\ finalized (contexts st' O) = finalized (contexts demo_detaching O)
       /\ pending_destroy_tasks (transaction st')
          = pending_destroy_tasks (transaction demo_detaching).
Proof.
  assert (Hu : updates_wf demo_detaching).
  { unfold updates_wf. vm_compute.
    repeat split; repeat constructor; vm_compute; auto; lia. }
  assert (Hd : destroy_tasks_wf demo_detaching).
  { unfold destroy_tasks_wf. vm_compute.
    repeat constructor; vm_compute; auto; discriminate. }
  assert (Hc : trampoline_usage_counter (contexts demo_detaching O) <> 0)
    by (vm_compute; discriminate).
  assert (H1 : level (transaction demo_detaching) <= 1)
    by (vm_compute; discriminate).
  assert (H2 : is_dirty (transaction demo_detaching) = true)
    by (vm_compute; reflexivity).
  split; [exact Hu|]. split; [exact Hd|]. split; [exact Hc|].
  destruct (destroy_tasks_wait_for_idle_contexts demo_host demo_detaching
              Hu Hd) as (st' & Hend & _ & Hkeep & Hcommit).
  exists st'. split; [exact Hend|].
  split; [exact (proj1 (proj2 (Hkeep O Hc)))|].
  destruct (Hcommit H1 H2) as (_ & Hq & _).
  rewrite Hq. vm_compute. reflexivity.
Defined.

(** C1, outside a commit: [gum_interceptor_do_finalize] runs the callbacks
    that are still queued whatever the counters say; the context of a call
    still in flight (counter 1) is finalized and its trampoline storage
    freed. *)
Lemma teardown_releases_busy_context :
  gum_interceptor_do_dispose demo_host demo_waiting = Some demo_disposed
  /\ trampoline_usage_counter (contexts demo_disposed O) = 1
  /\ finalized (contexts demo_disposed O) = false
  /\ gum_interceptor_do_finalize demo_disposed = Some demo_finalized
  /\ trampoline_usage_counter (contexts demo_finalized O) = 1
  /\ finalized (contexts demo_finalized O) = true
  /\ trampoline_slice (contexts demo_finalized O) = NULL
  /\ released demo_finalized
     = released demo_disposed
       ++ [(g_object_unref, 1);
           (gum_function_context_perform_destroy_notify, 0)]
  /\ ~ (forall c,
         trampoline_usage_counter (contexts demo_disposed c) > 0 ->
         trampoline_slice (contexts demo_finalized c)
         = trampoline_slice (contexts demo_disposed c)).
Proof.
  split; [vm_compute; reflexivity|].
  split; [vm_compute; reflexivity|].
  split; [vm_compute; reflexivity|].
  split; [vm_compute; reflexivity|].
  split; [vm_compute; reflexivity|].
  split; [vm_compute; reflexivity|].
  split; [vm_compute; reflexivity|].
  split; [vm_compute; reflexivity|].
  intros H.
  assert (Hc : trampoline_usage_counter (contexts demo_disposed O) > 0)
    by (vm_compute; reflexivity).
  specialize (H O Hc). clear Hc. vm_compute in H. discriminate H.
Qed.

Lemma flush_only_at_top_level_witness :
  level (transaction demo_waiting) = 0
  /\ updates_wf demo_waiting
  /\ exists flushed st',
       gum_interceptor_flush demo_host demo_waiting = Some (flushed, st')
       /\ (flushed = true <-> pending_destroy_tasks (transaction st') = []).
Proof.
  assert (Hl : level (transaction demo_waiting) = 0)
    by (vm_compute; reflexivity).
  assert (Hu : updates_wf demo_waiting).
  { unfold updates_wf. vm_compute.
    split; [constructor|]. split; [constructor|]. split; constructor. }
  split; [exact Hl|]. split; [exact Hu|].
  pose proof (flush_only_at_top_level demo_host demo_waiting)
    as (_ & Hdrain & Hruns).
  destruct (Hruns Hl Hu) as (flushed & st' & Hflush).
  exists flushed, st'. split; [exact Hflush|].
  exact (proj2 (Hdrain Hl flushed st' Hflush)).
Defined.

(** ** Page order of a commit *)

Section PageOrder.
Variable host : Host.

(** Within a page, tasks are kept in scheduling order: a new task goes to
    the end of the array of its start page, and no other array changes. *)
Lemma schedule_update_appends ctx func st :
  let start_page :=
    gum_page_address_from_pointer host
      (backend_get_function_address host st ctx) in
  let table := pending_update_tasks (transaction st) in
  let table' :=
    pending_update_tasks
      (transaction
         (gum_interceptor_transaction_schedule_update host ctx func st)) in
  g_hash_table_lookup table' start_page
  = Some (match g_hash_table_lookup table start_page with
          | Some pending => pending
          | None => []
          end ++ [{| update_ctx := ctx; update_func := func |}])
  /\ forall page pending,
       page <> start_page ->
       g_hash_table_lookup table page = Some pending ->
       g_hash_table_lookup table' page = Some pending.
Proof.
  intros start_page table table'. subst table'.
  unfold gum_interceptor_transaction_schedule_update.
  fold start_page. fold table.
  cbn [transaction interceptor set_pending_update_tasks
       set_current_transaction set_interceptor current_transaction
       pending_update_tasks].
  set (end_page := gum_page_address_from_pointer host _).
  set (new := _ ++ [_]).
  assert (Hins_eq : forall (t : list (gpointer * list GumUpdateTask)) k v,
            g_hash_table_lookup (g_hash_table_insert t k v) k = Some v).
  { induction t as [|[k0 v0] t IH]; intros k v; cbn.
    - now rewrite Z.eqb_refl.
    - destruct (Z.eqb_spec k0 k) as [->|Hne]; cbn.
      + now rewrite Z.eqb_refl.
      + destruct (Z.eqb_spec k0 k); [contradiction | apply IH]. }
  assert (Hins_ne : forall (t : list (gpointer * list GumUpdateTask)) k v k',
            k' <> k ->
            g_hash_table_lookup (g_hash_table_insert t k v) k'
            = g_hash_table_lookup t k').
  { induction t as [|[k0 v0] t IH]; intros k v k' Hne; cbn.
    - destruct (Z.eqb_spec k k'); [congruence | reflexivity].
    - destruct (Z.eqb_spec k0 k) as [->|Hne0]; cbn.
      + destruct (Z.eqb_spec k k'); [congruence | reflexivity].
      + destruct (Z.eqb_spec k0 k'); [reflexivity | now apply IH]. }
  destruct (Z.eqb_spec end_page start_page) as [He|He]; cbn [negb].
  - split; [apply Hins_eq|].
    intros page pending Hne Hl. now rewrite Hins_ne.
  - destruct (g_hash_table_lookup
                (g_hash_table_insert table start_page new) end_page) eqn:El.
    + split; [apply Hins_eq|].
      intros page pending Hne Hl. now rewrite Hins_ne.
    + split.
      * rewrite Hins_ne by congruence. apply Hins_eq.
      * intros page pending Hne Hl.
        destruct (Z.eq_dec page end_page) as [->|Hne'].
        -- rewrite Hins_ne in El by exact Hne. congruence.
        -- now rewrite !Hins_ne.
Qed.

End PageOrder.

(** Whatever the sorting algorithm, an order of these two pages that agrees
    with [gum_page_address_compare] puts the higher page first. *)
Lemma far_apart_pages_compare :
  low_page < high_page
  /\ gum_page_address_compare low_page high_page > 0
  /\ gum_page_address_compare high_page low_page < 0
  /\ forall l,
       Permutation l [low_page; high_page] ->
       (forall a b rest, l = a :: b :: rest ->
          gum_page_address_compare a b <= 0) ->
       l = [high_page; low_page].
Proof.
  split; [reflexivity|]. split; [reflexivity|]. split; [reflexivity|].
  intros l Hperm Hsorted.
  pose proof (Permutation_length Hperm) as Hlen.
  destruct l as [|a [|b [|c l]]]; try discriminate.
  assert (Ha : In a [low_page; high_page])
    by (eapply Permutation_in; [exact Hperm | now left]).
  assert (Hb : In b [low_page; high_page])
    by (eapply Permutation_in; [exact Hperm | right; now left]).
  assert (Hnd : NoDup [a; b]).
  { eapply Permutation_NoDup; [apply Permutation_sym, Hperm|].
    repeat constructor; cbn; [intros [H|[]]; discriminate | tauto]. }
  specialize (Hsorted a b [] eq_refl).
  apply NoDup_cons_iff in Hnd. destruct Hnd as [Hab _].
  destruct Ha as [<-|[<-|[]]]; destruct Hb as [<-|[<-|[]]].
  - exfalso. apply Hab. now left.
  - exfalso. vm_compute in Hsorted. now apply Hsorted.
  - reflexivity.
  - exfalso. apply Hab. now left.
Qed.

(** C3, at two pages more than 2 GiB apart: the commit writes the prologue
    on the higher page before the one on the lower page. *)
Theorem page_order_far_apart :
  g_hash_table_get_keys (pending_update_tasks (transaction demo_far_apart))
  = [low_page; high_page]
  /\ low_page < high_page
  /\ g_list_sort gum_page_address_compare [low_page; high_page]
     = [high_page; low_page]
  /\ g_list_sort gum_page_address_compare [high_page; low_page]
     = [high_page; low_page]
  /\ exists st',
       gum_interceptor_end_transaction demo_host demo_far_apart = Some st'
       /\ update_events (new_events demo_far_apart st')
          = [EvActivateTrampoline 1%nat (high_page + 16);
             EvActivateTrampoline 0%nat (low_page + 64)].
Proof.
  split; [vm_compute; reflexivity|].
  split; [vm_compute; reflexivity|].
  split; [vm_compute; reflexivity|].
  split; [vm_compute; reflexivity|].
  eexists. split; vm_compute; reflexivity.
Qed.

(** ** Resolution *)

Section Resolve.
Variable host : Host.

Lemma resolve_frame n :
  forall address st ra st',
    gum_interceptor_resolve host n address st = Some (ra, st') ->
    quiet_frame st st'.
Proof.
  induction n as [|n IH]; intros address st ra st'; cbn [gum_interceptor_resolve];
    destruct (gum_interceptor_has st (gum_strip_code_pointer host address));
    cbn [negb];
    try (intros H; injection H as <- <-; apply quiet_frame_refl);
    destruct (gum_process_get_code_signing_policy host);
    try (intros H; injection H as <- <-; now apply quiet_frame_emit);
    destruct (gum_interceptor_backend_resolve_redirect host
                (gum_strip_code_pointer host address) =? NULL);
    cbn [negb];
    try (intros H; injection H as <- <-; now apply quiet_frame_emit);
    try discriminate.
  intros H. apply IH in H.
  eapply quiet_frame_trans; [|exact H]. now apply quiet_frame_emit.
Qed.

Lemma resolve_address_ext n :
  forall address st1 st2,
    function_by_address (interceptor st1)
    = function_by_address (interceptor st2) ->
    resolve_address host n address st1 = resolve_address host n address st2.
Proof.
  unfold resolve_address.
  induction n as [|n IH]; intros address st1 st2 Hfba;
    cbn [gum_interceptor_resolve]; unfold gum_interceptor_has; rewrite Hfba;
    destruct (is_some (g_hash_table_lookup
                (function_by_address (interceptor st2))
                (gum_strip_code_pointer host address)));
    cbn [negb]; try reflexivity;
    destruct (gum_process_get_code_signing_policy host); try reflexivity;
    destruct (gum_interceptor_backend_resolve_redirect host
                (gum_strip_code_pointer host address) =? NULL);
    cbn [negb]; try reflexivity.
  apply IH. exact Hfba.
Qed.

End Resolve.

(** ** Tables *)

Section Tables.
Context {V : Type}.

Lemma lookup_insert_eq (t : list (gpointer * V)) k v :
  g_hash_table_lookup (g_hash_table_insert t k v) k = Some v.
Proof.
  induction t as [|[k0 v0] t IH]; cbn.
  - now rewrite Z.eqb_refl.
  - destruct (Z.eqb_spec k0 k) as [->|Hne]; cbn.
    + now rewrite Z.eqb_refl.
    + destruct (Z.eqb_spec k0 k); [contradiction | apply IH].
Qed.

Lemma lookup_insert_ne (t : list (gpointer * V)) k v k' :
  k' <> k ->
  g_hash_table_lookup (g_hash_table_insert t k v) k'
  = g_hash_table_lookup t k'.
Proof.
  intros Hne. induction t as [|[k0 v0] t IH]; cbn.
  - destruct (Z.eqb_spec k k'); [congruence | reflexivity].
  - destruct (Z.eqb_spec k0 k) as [->|Hne0]; cbn.
    + destruct (Z.eqb_spec k k'); [congruence | reflexivity].
    + destruct (Z.eqb_spec k0 k'); [reflexivity | exact IH].
Qed.

Lemma lookup_none_keys (t : list (gpointer * V)) k :
  g_hash_table_lookup t k = None -> ~ In k (map fst t).
Proof.
  induction t as [|[k0 v0] t IH]; cbn; [tauto|].
  destruct (Z.eqb_spec k0 k); [discriminate|].
  intros H [E|Hin]; [contradiction | now apply IH].
Qed.

Lemma insert_keys (t : list (gpointer * V)) k v :
  map fst (g_hash_table_insert t k v)
  = match g_hash_table_lookup t k with
    | Some _ => map fst t
    | None => map fst t ++ [k]
    end.
Proof.
  induction t as [|[k0 v0] t IH]; cbn; [reflexivity|].
  destruct (Z.eqb_spec k0 k) as [->|Hne]; cbn; [reflexivity|].
  rewrite IH. destruct (g_hash_table_lookup t k); reflexivity.
Qed.

Lemma insert_keys_nodup (t : list (gpointer * V)) k v :
  NoDup (map fst t) -> NoDup (map fst (g_hash_table_insert t k v)).
Proof.
  intros Hnd. rewrite insert_keys.
  destruct (g_hash_table_lookup t k) eqn:El; [exact Hnd|].
  apply NoDup_app; [exact Hnd | repeat constructor; tauto |].
  intros a Hin [E|[]]. subst a. now apply (lookup_none_keys t k).
Qed.

Lemma insert_values_absent (t : list (gpointer * V)) k v :
  g_hash_table_lookup t k = None ->
  map snd (g_hash_table_insert t k v) = map snd t ++ [v].
Proof.
  induction t as [|[k0 v0] t IH]; cbn; [reflexivity|].
  destruct (Z.eqb_spec k0 k); [discriminate|].
  intros H. cbn. now rewrite IH.
Qed.

Lemma insert_values_present (t : list (gpointer * V)) k v0 v :
  g_hash_table_lookup t k = Some v0 ->
  exists before after,
    map snd t = before ++ v0 :: after
    /\ map snd (g_hash_table_insert t k v) = before ++ v :: after.
Proof.
  induction t as [|[k1 v1] t IH]; cbn; [discriminate|].
  destruct (Z.eqb_spec k1 k) as [->|Hne]; cbn.
  - intros H. injection H as ->. exists [], (map snd t). split; reflexivity.
  - intros H. destruct (IH H) as (before & after & E1 & E2).
    exists (v1 :: before), after. cbn. now rewrite E1, E2.
Qed.

Lemma lookup_remove_ne (t : list (gpointer * V)) k k' :
  k' <> k ->
  g_hash_table_lookup (g_hash_table_remove t k) k'
  = g_hash_table_lookup t k'.
Proof.
  intros Hne. induction t as [|[k0 v0] t IH]; cbn; [reflexivity|].
  destruct (Z.eqb_spec k0 k) as [->|Hne0]; cbn.
  - destruct (Z.eqb_spec k k'); [congruence | reflexivity].
  - destruct (Z.eqb_spec k0 k'); [reflexivity | exact IH].
Qed.

End Tables.

Lemma all_update_tasks_insert table k u :
  let pending :=
    match g_hash_table_lookup table k with
    | Some pending => pending
    | None => []
    end in
  Permutation
    (all_update_tasks (g_hash_table_insert table k (pending ++ [u])))
    (all_update_tasks table ++ [u]).
Proof.
  intros pending. subst pending. unfold all_update_tasks.
  destruct (g_hash_table_lookup table k) as [pending|] eqn:El.
  - destruct (insert_values_present table k pending (pending ++ [u]) El)
      as (before & after & E1 & E2).
    rewrite E1, E2, !concat_app. cbn [concat].
    rewrite <- !app_assoc. apply Permutation_app_head.
    apply Permutation_app_head. rewrite Permutation_app_comm.
    reflexivity.
  - rewrite (insert_values_absent table k _ El), concat_app. cbn.
    rewrite ?app_nil_r. reflexivity.
Qed.

Lemma all_update_tasks_insert_empty table k :
  g_hash_table_lookup table k = None ->
  all_update_tasks (g_hash_table_insert table k []) = all_update_tasks table.
Proof.
  intros El. unfold all_update_tasks.
  rewrite (insert_values_absent table k _ El), concat_app. cbn.
  now rewrite app_nil_r.
Qed.

(** ** Well-formed pending updates are preserved *)

Lemma updates_wf_ext st st' :
  pending_update_tasks (transaction st')
  = pending_update_tasks (transaction st) ->
  (next_context st <= next_context st')%nat ->
  (forall q, (q < next_context st)%nat ->
     activated (contexts st' q) = activated (contexts st q)
     /\ destroyed (contexts st' q) = destroyed (contexts st q)) ->
  updates_wf st -> updates_wf st'.
Proof.
  unfold updates_wf. cbv zeta. intros Ht Hn Hc (Hk & Hnd & Hr & Hb).
  rewrite Ht.
  split; [exact Hk|]. split; [exact Hnd|].
  pose proof (proj1 (Forall_forall _ _) Hr) as Hr'.
  pose proof (proj1 (Forall_forall _ _) Hb) as Hb'.
  split; apply Forall_forall; intros t Hin;
    specialize (Hr' t Hin); specialize (Hb' t Hin); cbv beta in *.
  - unfold update_task_ready in *.
    destruct (Hc _ Hb') as [-> ->]. exact Hr'.
  - lia.
Qed.

Section Schedule.
Variable host : Host.

Lemma schedule_update_tasks ctx func st :
  let st' := gum_interceptor_transaction_schedule_update host ctx func st in
  let table := pending_update_tasks (transaction st) in
  let table' := pending_update_tasks (transaction st') in
  (NoDup (map fst table) -> NoDup (map fst table'))
  /\ Permutation (all_update_tasks table')
       (all_update_tasks table
        ++ [{| update_ctx := ctx; update_func := func |}])
  /\ st' = set_pending_update_tasks table' st.
Proof.
  intros st' table table'. subst table' st'.
  unfold gum_interceptor_transaction_schedule_update. fold table.
  set (start_page :=
         gum_page_address_from_pointer host
           (backend_get_function_address host st ctx)).
  set (end_page :=
         gum_page_address_from_pointer host
           (backend_get_function_address host st ctx
            + overwritten_prologue_len (contexts st ctx) - 1)).
  set (u := {| update_ctx := ctx; update_func := func |}).
  set (table1 := g_hash_table_insert table start_page _).
  assert (H1 : (NoDup (map fst table) -> NoDup (map fst table1))
               /\ Permutation (all_update_tasks table1)
                    (all_update_tasks table ++ [u])).
  { split; [apply insert_keys_nodup | apply all_update_tasks_insert]. }
  destruct (negb (end_page =? start_page));
    [destruct (g_hash_table_lookup table1 end_page) eqn:El|];
    cbn [transaction interceptor set_pending_update_tasks
         set_current_transaction set_interceptor current_transaction
         pending_update_tasks];
    try (split; [apply H1 | split; [apply H1 | reflexivity]]).
  split; [|split; [|reflexivity]].
  - intros Hnd. apply insert_keys_nodup. now apply H1.
  - rewrite (all_update_tasks_insert_empty _ _ El). apply H1.
Qed.

Lemma updates_wf_schedule ctx func st :
  updates_wf st ->
  (ctx < next_context st)%nat ->
  ~ In ctx (map update_ctx
              (all_update_tasks (pending_update_tasks (transaction st)))) ->
  update_task_ready (contexts st)
    {| update_ctx := ctx; update_func := func |} ->
  updates_wf (gum_interceptor_transaction_schedule_update host ctx func st).
Proof.
  unfold updates_wf. cbv zeta.
  intros (Hk & Hnd & Hr & Hb) Hlt Hfresh Hready.
  destruct (schedule_update_tasks ctx func st) as (Hk' & Hperm & Hst).
  set (st' := gum_interceptor_transaction_schedule_update host ctx func st)
    in *.
  assert (Hc : contexts st' = contexts st) by (rewrite Hst; reflexivity).
  assert (Hn : next_context st' = next_context st)
    by (rewrite Hst; reflexivity).
  rewrite Hc, Hn.
  split; [now apply Hk'|]. split.
  - eapply Permutation_NoDup;
      [apply Permutation_map, Permutation_sym, Hperm|].
    rewrite map_app. cbn [map update_ctx].
    apply NoDup_app; [exact Hnd | repeat constructor; tauto |].
    intros a Hin [E|[]]. subst a. contradiction.
  - split;
      (eapply Permutation_Forall; [apply Permutation_sym, Hperm|]);
      apply Forall_app; (split; [assumption|]); repeat constructor;
      assumption.
Qed.

End Schedule.


(** ** Instrumentation *)

Section Instrument.
Variable host : Host.

Lemma instrument_found type_ fa st ctx :
  g_hash_table_lookup (function_by_address (interceptor st)) fa = Some ctx ->
  gum_interceptor_instrument host type_ fa st
  = Some (if GumInterceptorType_eqb (type (contexts st ctx)) type_
          then (Some ctx, GUM_INSTRUMENTATION_ERROR_NONE, st)
          else (None, GUM_INSTRUMENTATION_ERROR_WRONG_TYPE, st)).
Proof.
  intros Hl. unfold gum_interceptor_instrument. rewrite Hl.
  destruct (GumInterceptorType_eqb (type (contexts st ctx)) type_);
    reflexivity.
Qed.

Lemma instrument_new type_ fa st :
  g_hash_table_lookup (function_by_address (interceptor st)) fa = None ->
  let ctx := next_context st in
  exists st',
    gum_interceptor_instrument host type_ fa st
    = Some (match backend_build host type_ fa with
            | Some _ => (Some ctx, GUM_INSTRUMENTATION_ERROR_NONE, st')
            | None => (None, build_error host, st')
            end)
    /\ function_by_address (interceptor st')
       = match backend_build host type_ fa with
         | Some _ =>
             g_hash_table_insert (function_by_address (interceptor st)) fa ctx
         | None => function_by_address (interceptor st)
         end
    /\ (forall q, q <> ctx -> contexts st' q = contexts st q)
    /\ (forall a, a <> next_array st -> arrays st' a = arrays st a)
    /\ next_context st' = S (next_context st)
    /\ next_array st' = S (next_array st)
    /\ pending_destroy_tasks (transaction st')
       = pending_destroy_tasks (transaction st)
    /\ level (transaction st') = level (transaction st)
    /\ is_dirty (transaction st') = is_dirty (transaction st)
    /\ (updates_wf st -> updates_wf st')
    /\ (forall t, backend_build host type_ fa = Some t ->
          type (contexts st' ctx) = type_
          /\ listener_entries (contexts st' ctx) = next_array st
          /\ arrays st' (next_array st) = []
          /\ replacement_function (contexts st' ctx) = NULL
          /\ replacement_data (contexts st' ctx) = NULL
          /\ on_invoke_trampoline (contexts st' ctx) = on_invoke t
          /\ has_on_leave_listener (contexts st' ctx) = false
          /\ destroyed (contexts st' ctx) = false).
Proof.
  intros Hl ctx. unfold gum_interceptor_instrument. rewrite Hl.
  set (st0 := if backend (interceptor st) then st else set_backend true st).
  assert (Hst0 : contexts st0 = contexts st /\ arrays st0 = arrays st
                 /\ next_context st0 = next_context st
                 /\ next_array st0 = next_array st
                 /\ transaction st0 = transaction st
                 /\ function_by_address (interceptor st0)
                    = function_by_address (interceptor st)).
  { unfold st0. destruct (backend (interceptor st)); split_and; reflexivity. }
  destruct Hst0 as (Hc0 & Ha0 & Hnc0 & Hna0 & Ht0 & Hf0).
  pose proof (function_context_new_spec fa type_ st0) as Hnew.
  destruct (gum_function_context_new fa type_ st0) as [p st1].
  cbn [fst snd] in Hnew.
  destruct Hnew as (Hp & Hnc1 & Hna1 & Hle1 & He1 & Hol1 & Hty1 & Hfa1
                    & Hrep1 & Hact1 & Hdes1 & Hsl1 & Hq1 & Harr1 & Hi1
                    & Htr1 & Hth1 & Hrd1).
  rewrite Hnc0 in Hp, Hnc1, Hq1. rewrite Hna0 in Hna1, Hle1, Harr1.
  fold ctx in Hp, Hq1. subst p.
  unfold backend_build, build_error.
  assert (Hwf1 : updates_wf st -> updates_wf st1).
  { apply updates_wf_ext.
    - unfold transaction. rewrite Hi1. exact (f_equal _ Ht0).
    - lia.
    - intros q Hq. rewrite Hq1 by (unfold ctx; lia). now rewrite Hc0. }
  assert (Hfail :
    exists st',
      gum_function_context_finalize ctx st1 = Some st'
      /\ function_by_address (interceptor st')
         = function_by_address (interceptor st)
      /\ (forall q, q <> ctx -> contexts st' q = contexts st q)
      /\ (forall a, a <> next_array st -> arrays st' a = arrays st a)
      /\ next_context st' = S (next_context st)
      /\ next_array st' = S (next_array st)
      /\ pending_destroy_tasks (transaction st')
         = pending_destroy_tasks (transaction st)
      /\ level (transaction st') = level (transaction st)
      /\ is_dirty (transaction st') = is_dirty (transaction st)
      /\ (updates_wf st -> updates_wf st')).
  { unfold gum_function_context_finalize. rewrite Hsl1. cbn [Z.eqb NULL].
    eexists. split; [reflexivity|].
    unfold transaction.
    cbn [interceptor emit update_context set_contexts contexts arrays
         next_context next_array].
    rewrite Hi1. unfold transaction in Ht0. rewrite Ht0, Hf0.
    split_and; try assumption; try reflexivity.
    - intros q Hq. rewrite upd_ne by exact Hq. rewrite Hq1 by exact Hq.
      now rewrite Hc0.
    - intros a Ha. rewrite Harr1 by exact Ha. now rewrite Ha0.
    - intros Hwf. apply (updates_wf_ext st1); [reflexivity | cbn; lia | |
                                                now apply Hwf1].
      intros q Hq. cbn. unfold upd.
      destruct (Nat.eqb_spec q ctx) as [->|]; [|now split].
      destruct (contexts st1 ctx); now split. }
  assert (Hok : forall t,
    exists st',
      st' = gum_interceptor_transaction_schedule_update host ctx
              gum_interceptor_activate_func
              (set_function_by_address
                 (g_hash_table_insert (function_by_address (interceptor st1))
                    fa ctx)
                 (update_context ctx (set_trampoline t) st1))
      /\ function_by_address (interceptor st')
         = g_hash_table_insert (function_by_address (interceptor st)) fa ctx
      /\ (forall q, q <> ctx -> contexts st' q = contexts st q)
      /\ (forall a, a <> next_array st -> arrays st' a = arrays st a)
      /\ next_context st' = S (next_context st)
      /\ next_array st' = S (next_array st)
      /\ pending_destroy_tasks (transaction st')
         = pending_destroy_tasks (transaction st)
      /\ level (transaction st') = level (transaction st)
      /\ is_dirty (transaction st') = is_dirty (transaction st)
      /\ (updates_wf st -> updates_wf st')
      /\ (type (contexts st' ctx) = type_
          /\ listener_entries (contexts st' ctx) = next_array st
          /\ arrays st' (next_array st) = []
          /\ replacement_function (contexts st' ctx) = NULL
          /\ replacement_data (contexts st' ctx) = NULL
          /\ on_invoke_trampoline (contexts st' ctx) = on_invoke t
          /\ has_on_leave_listener (contexts st' ctx) = false
          /\ destroyed (contexts st' ctx) = false)).
  { intros t.
    set (st2 := set_function_by_address
                  (g_hash_table_insert (function_by_address (interceptor st1))
                     fa ctx)
                  (update_context ctx (set_trampoline t) st1)).
    destruct (schedule_update_tasks host ctx gum_interceptor_activate_func st2)
      as (_ & _ & Hst3).
    set (st3 := gum_interceptor_transaction_schedule_update host ctx
                  gum_interceptor_activate_func st2) in *.
    exists st3. split; [reflexivity|].
    assert (Hc2 : contexts st2 ctx = set_trampoline t (contexts st1 ctx)).
    { unfold st2, update_context. cbn. apply upd_eq. }
    assert (Hc3 : contexts st3 = contexts st2) by (rewrite Hst3; reflexivity).
    assert (Hwf3 : updates_wf st -> updates_wf st3).
    { intros Hwf. apply updates_wf_schedule.
      - apply (updates_wf_ext st1); [reflexivity | cbn; lia | |
                                     now apply Hwf1].
        intros q Hq. cbn. unfold upd.
        destruct (Nat.eqb_spec q ctx) as [->|]; [|now split].
        destruct (contexts st1 ctx); now split.
      - unfold st2. cbn. rewrite Hnc1. unfold ctx. lia.
      - destruct Hwf as (_ & _ & _ & Hb). rewrite Forall_forall in Hb.
        unfold st2, transaction. cbn. rewrite Hi1.
        unfold transaction in Ht0. rewrite Ht0. intros Hin.
        apply in_map_iff in Hin. destruct Hin as (u & Hu & Hin).
        specialize (Hb u Hin). cbv beta in Hb. unfold ctx in Hu. lia.
      - unfold update_task_ready. cbn [update_func update_ctx]. right.
        rewrite Hc2. destruct (contexts st1 ctx). exact Hact1. }
    assert (Hc3c : contexts st3 ctx = set_trampoline t (contexts st1 ctx))
      by (now rewrite Hc3).
    split.
    { rewrite Hst3. unfold st2. cbn. now rewrite Hi1, Hf0. }
    split.
    { intros q Hq. rewrite Hc3. unfold st2, update_context. cbn.
      rewrite upd_ne by exact Hq. rewrite Hq1 by exact Hq. now rewrite Hc0. }
    split.
    { intros a Ha. rewrite Hst3. unfold st2. cbn.
      rewrite Harr1 by exact Ha. now rewrite Ha0. }
    split; [rewrite Hst3; unfold st2; cbn; exact Hnc1|].
    split; [rewrite Hst3; unfold st2; cbn; exact Hna1|].
    split.
    { rewrite Hst3. unfold st2, transaction. cbn. rewrite Hi1.
      unfold transaction in Ht0. now rewrite Ht0. }
    split.
    { rewrite Hst3. unfold st2, transaction. cbn. rewrite Hi1.
      unfold transaction in Ht0. now rewrite Ht0. }
    split.
    { rewrite Hst3. unfold st2, transaction. cbn. rewrite Hi1.
      unfold transaction in Ht0. now rewrite Ht0. }
    split; [exact Hwf3|].
    assert (Harr3 : arrays st3 (next_array st) = []).
    { rewrite Hst3. unfold st2. cbn. unfold entries_of in He1.
      rewrite Hle1 in He1. exact He1. }
    rewrite !Hc3c. split_and.
    - rewrite <- Hty1. now destruct (contexts st1 ctx).
    - rewrite <- Hle1. now destruct (contexts st1 ctx).
    - exact Harr3.
    - rewrite <- Hrep1. now destruct (contexts st1 ctx).
    - rewrite <- Hrd1. now destruct (contexts st1 ctx).
    - now destruct (contexts st1 ctx).
    - rewrite <- Hol1. now destruct (contexts st1 ctx).
    - rewrite <- Hdes1. now destruct (contexts st1 ctx). }
  destruct (gum_process_get_code_signing_policy host).
  - destruct (gum_interceptor_backend_create_trampoline host type_ fa)
      as [t|].
    + destruct (Hok t) as (st' & -> & Hfba & Hq & Ha & Hnc & Hna & Hpd
                           & Hlv & Hd & Hwf & Hnew).
      eexists. split; [reflexivity|].
      split_and; try assumption.
      intros t' Ht'. injection Ht' as <-. exact Hnew.
    + destruct Hfail as (st' & -> & Hfba & Hq & Ha & Hnc & Hna & Hpd
                         & Hlv & Hd & Hwf).
      eexists. split; [reflexivity|].
      split_and; try assumption.
      intros t' Ht'. discriminate.
  - destruct (gum_interceptor_backend_claim_grafted_trampoline host type_ fa)
      as [t|].
    + destruct (Hok t) as (st' & -> & Hfba & Hq & Ha & Hnc & Hna & Hpd
                           & Hlv & Hd & Hwf & Hnew).
      eexists. split; [reflexivity|].
      split_and; try assumption.
      intros t' Ht'. injection Ht' as <-. exact Hnew.
    + destruct Hfail as (st' & -> & Hfba & Hq & Ha & Hnc & Hna & Hpd
                         & Hlv & Hd & Hwf).
      eexists. split; [reflexivity|].
      split_and; try assumption.
      intros t' Ht'. discriminate.
Qed.

End Instrument.

(** ** Attach *)

Section Attach.
Variable host : Host.

(** The state in which an operation opens its transaction. *)
Lemma operation_prologue st st_a :
  function_by_address (interceptor st_a)
  = function_by_address (interceptor st) ->
  pending_update_tasks (transaction st_a)
  = pending_update_tasks (transaction st) ->
  contexts st_a = contexts st ->
  next_context st_a = next_context st ->
  updates_wf st -> updates_wf st_a.
Proof.
  intros _ Ht Hc Hn. apply updates_wf_ext; [exact Ht | lia |].
  intros q _. now rewrite Hc.
Qed.

Lemma resolve_some n address st ra :
  resolve_address host n address st = Some ra ->
  forall st_a,
    function_by_address (interceptor st_a)
    = function_by_address (interceptor st) ->
    exists st_b,
      gum_interceptor_resolve host n address st_a = Some (ra, st_b)
      /\ quiet_frame st_a st_b.
Proof.
  intros Hr st_a Hfba.
  rewrite <- (resolve_address_ext host n address st_a st Hfba) in Hr.
  unfold resolve_address in Hr.
  destruct (gum_interceptor_resolve host n address st_a) as [[ra' st_b]|] eqn:E;
    [|discriminate].
  cbn in Hr. injection Hr as ->. exists st_b. split; [reflexivity|].
  eapply resolve_frame; eauto.
Qed.

Lemma quiet_frame_updates_wf st st' :
  quiet_frame st st' -> updates_wf st -> updates_wf st'.
Proof.
  intros [Hu Hc]. apply updates_wf_ext.
  - unfold transaction. now rewrite (uf_interceptor _ _ Hu).
  - rewrite (cf_next_context _ _ (uf_commit _ _ Hu)). lia.
  - intros q _. now rewrite Hc.
Qed.

Lemma entries_of_frame st st' ctx :
  commit_frame st st' -> entries_of st' ctx = entries_of st ctx.
Proof.
  intros Hf. unfold entries_of. rewrite (cf_arrays _ _ Hf).
  pose proof (cf_contexts _ _ Hf ctx) as Hk. rewrite Hk. reflexivity.
Qed.

Lemma has_listener_frame st st' ctx l :
  commit_frame st st' ->
  gum_function_context_has_listener st' ctx l
  = gum_function_context_has_listener st ctx l.
Proof.
  intros Hf. unfold gum_function_context_has_listener,
    gum_function_context_find_listener.
  now rewrite (entries_of_frame st st' ctx Hf).
Qed.

Lemma quiet_frame_commit st st' : quiet_frame st st' -> commit_frame st st'.
Proof. intros [Hu _]. apply (uf_commit _ _ Hu). Qed.

Lemma add_listener_frame p l d st :
  let st' := gum_function_context_add_listener host p l d st in
  activated (contexts st' p) = activated (contexts st p)
  /\ destroyed (contexts st' p) = destroyed (contexts st p)
  /\ type (contexts st' p) = type (contexts st p)
  /\ replacement_function (contexts st' p)
     = replacement_function (contexts st p)
  /\ replacement_data (contexts st' p) = replacement_data (contexts st p)
  /\ next_context st' = next_context st
  /\ pending_update_tasks (transaction st')
     = pending_update_tasks (transaction st)
  /\ level (transaction st') = level (transaction st)
  /\ is_dirty (transaction st') = is_dirty (transaction st).
Proof.
  intros st'. subst st'.
  unfold gum_function_context_add_listener, alloc_array.
  destruct (is_some
              (on_leave
                 (listener_interface
                    {| listener_interface :=
                         GUM_INVOCATION_LISTENER_GET_IFACE host l;
                       listener_instance := l; function_data := d |})));
    unfold gum_interceptor_transaction_schedule_destroy,
      set_pending_destroy_tasks, set_current_transaction, set_interceptor,
      update_context, set_contexts, transaction;
    cbn; rewrite ?upd_eq; cbn; rewrite ?upd_eq;
    destruct (contexts st p); split_and; reflexivity.
Qed.

Lemma add_listener_updates_wf p l d st :
  updates_wf st ->
  updates_wf (gum_function_context_add_listener host p l d st).
Proof.
  destruct (add_listener_frame p l d st)
    as (Ha & Hd & _ & _ & _ & Hn & Ht & _).
  destruct (add_listener_spec host p l d st)
    as (_ & _ & _ & _ & _ & _ & Hq & _).
  apply updates_wf_ext; [exact Ht | lia |].
  intros q _. destruct (Nat.eq_dec q p) as [->|Hne]; [now split|].
  now rewrite Hq.
Qed.

(** The common exit of the operations: the transaction is closed. *)
Lemma beach_ok st :
  updates_wf st ->
  exists st',
    gum_interceptor_transaction_end host st = Some st'
    /\ commit_frame st st'
    /\ commit_frame st (gum_interceptor_unignore_current_thread st').
Proof.
  intros Hwf.
  destruct (transaction_end_ok host st Hwf) as (st' & Hend & Hf & _).
  exists st'. split; [exact Hend|]. split; [exact Hf|].
  eapply commit_frame_trans; [exact Hf | apply commit_frame_unignore].
Qed.

Lemma attach_spec n address l d st ra :
  updates_wf st ->
  resolve_address host n address st = Some ra ->
  let found :=
    g_hash_table_lookup (function_by_address (interceptor st)) ra in
  let entry :=
    {| listener_interface := GUM_INVOCATION_LISTENER_GET_IFACE host l;
       listener_instance := l; function_data := d |} in
  exists st',
    gum_interceptor_attach host n address l d st
    = Some (attach_outcome host st ra l, st')
    /\ (forall ctx, found = Some ctx ->
          g_hash_table_lookup (function_by_address (interceptor st')) ra
          = Some ctx
          /\ entries_of st' ctx
             = match attach_outcome host st ra l with
               | GUM_ATTACH_OK =>
                   filter is_some (entries_of st ctx) ++ [Some entry]
               | _ => entries_of st ctx
               end)
    /\ (found = None ->
        forall t,
          backend_build host GUM_INTERCEPTOR_TYPE_DEFAULT ra = Some t ->
          g_hash_table_lookup (function_by_address (interceptor st')) ra
          = Some (next_context st)
          /\ entries_of st' (next_context st) = [Some entry]).
Proof.
  intros Hwf Hres found entry.
  unfold gum_interceptor_attach. cbv beta zeta.
  set (st_a := set_is_dirty true
                 (gum_interceptor_transaction_begin
                    (gum_interceptor_ignore_current_thread st))).
  assert (Hfa : commit_frame st st_a).
  { eapply commit_frame_trans; [apply commit_frame_ignore|].
    eapply commit_frame_trans; apply commit_frame_set_current_transaction. }
  assert (Hca : contexts st_a = contexts st
                /\ pending_update_tasks (transaction st_a)
                   = pending_update_tasks (transaction st)).
  { unfold st_a, gum_interceptor_ignore_current_thread,
      get_interceptor_thread_context.
    destruct (thread_context st); split; reflexivity. }
  destruct Hca as [Hca Hta].
  assert (Hwfa : updates_wf st_a).
  { apply (operation_prologue st);
      [apply (cf_function_by_address _ _ Hfa) | exact Hta | exact Hca
      | apply (cf_next_context _ _ Hfa) | exact Hwf]. }
  destruct (resolve_some n address st ra Hres st_a
              (cf_function_by_address _ _ Hfa)) as (st_b & Hrb & Hqb).
  rewrite Hrb.
  assert (Hfb : commit_frame st st_b)
    by (eapply commit_frame_trans; [exact Hfa | now apply quiet_frame_commit]).
  assert (Hwfb : updates_wf st_b)
    by (now apply (quiet_frame_updates_wf st_a)).
  assert (Hcb : contexts st_b = contexts st)
    by (rewrite (qf_contexts _ _ Hqb); exact Hca).
  assert (Hnb : next_context st_b = next_context st)
    by apply (cf_next_context _ _ Hfb).
  assert (Hlb : g_hash_table_lookup (function_by_address (interceptor st_b)) ra
                = found)
    by (unfold found; now rewrite (cf_function_by_address _ _ Hfb)).
  unfold attach_outcome. fold found.
  destruct found as [ctx|] eqn:Hfound.
  - rewrite (instrument_found host _ ra st_b ctx Hlb).
    rewrite Hcb.
    destruct (type (contexts st ctx)) eqn:Hty; cbn [GumInterceptorType_eqb].
    + rewrite (has_listener_frame st st_b ctx l Hfb).
      destruct (gum_function_context_has_listener st ctx l) eqn:Hhas.
      * destruct (beach_ok st_b Hwfb) as (st_c & Hend & _ & Hfc).
        rewrite Hend. eexists. split; [reflexivity|].
        assert (Hf : commit_frame st
                       (gum_interceptor_unignore_current_thread st_c))
          by (eapply commit_frame_trans; eauto).
        split; [|intros H; discriminate].
        intros ctx' E. injection E as <-.
        split; [rewrite (cf_function_by_address _ _ Hf); exact Hfound|].
        now apply entries_of_frame.
      * set (st_d := gum_function_context_add_listener host ctx l d st_b).
        destruct (beach_ok st_d) as (st_e & Hend & _ & Hfe);
          [now apply add_listener_updates_wf|].
        rewrite Hend. eexists. split; [reflexivity|].
        split; [|intros H; discriminate].
        intros ctx' E. injection E as <-.
        destruct (add_listener_spec host ctx l d st_b)
          as (_ & _ & He & _ & _ & _ & _ & Hfd).
        fold st_d in He, Hfd. fold entry in He.
        split.
        { rewrite (cf_function_by_address _ _ Hfe), Hfd. exact Hlb. }
        rewrite (entries_of_frame st_d _ ctx Hfe), He, copy_entries_filter.
        fold (entries_of st_b ctx).
        now rewrite (entries_of_frame st st_b ctx Hfb).
    + destruct (beach_ok st_b Hwfb) as (st_c & Hend & _ & Hfc).
      rewrite Hend. eexists. split; [reflexivity|].
      assert (Hf : commit_frame st
                     (gum_interceptor_unignore_current_thread st_c))
        by (eapply commit_frame_trans; eauto).
      split; [|intros H; discriminate].
      intros ctx' E. injection E as <-.
      split; [rewrite (cf_function_by_address _ _ Hf); exact Hfound|].
      now apply entries_of_frame.
  - destruct (instrument_new host GUM_INTERCEPTOR_TYPE_DEFAULT ra st_b Hlb)
      as (st_c & Hins & Hfba & Hq & Harr & Hnc & Hna & _ & _ & _ & Hwfc
          & Hnew).
    rewrite Hins. rewrite Hnb in *.
    destruct (backend_build host GUM_INTERCEPTOR_TYPE_DEFAULT ra) as [t|]
      eqn:Hbuild.
    + destruct (Hnew t eq_refl)
        as (Hty & Hle & Hempty & _ & _ & _ & _ & _).
      assert (Hhas : gum_function_context_has_listener st_c
                       (next_context st) l = false).
      { unfold gum_function_context_has_listener,
          gum_function_context_find_listener, entries_of.
        now rewrite Hle, Hempty. }
      rewrite Hhas.
      set (st_d := gum_function_context_add_listener host (next_context st)
                     l d st_c).
      destruct (beach_ok st_d) as (st_e & Hend & _ & Hfe);
        [now apply add_listener_updates_wf, Hwfc|].
      rewrite Hend. eexists. split; [reflexivity|].
      split; [intros ctx' E; discriminate|].
      intros _ t' Ht'.
      destruct (add_listener_spec host (next_context st) l d st_c)
        as (_ & _ & He & _ & _ & _ & _ & Hfd).
      fold st_d in He, Hfd. fold entry in He.
      split.
      { rewrite (cf_function_by_address _ _ Hfe), Hfd, Hfba.
        apply lookup_insert_eq. }
      rewrite (entries_of_frame st_d _ _ Hfe), He, Hle, Hempty.
      reflexivity.
    + unfold build_error.
      destruct (gum_process_get_code_signing_policy host);
        destruct (beach_ok st_c (Hwfc Hwfb)) as (st_e & Hend & _ & Hfe);
        rewrite Hend; eexists; (split; [reflexivity|]);
        (split; [intros ctx' E; discriminate | intros _ t' Ht'; discriminate]).
Qed.

End Attach.

Lemma find_listener_from_live entries l :
  forall i j,
    find_listener_from i entries l = Some j ->
    exists e, In (Some e) entries.
Proof.
  induction entries as [|slot entries IH]; intros i j H; [discriminate|].
  cbn in H. destruct slot as [e|].
  - exists e. now left.
  - destruct (IH _ _ H) as (e & Hin). exists e. now right.
Qed.

Lemma listeners_wf_default st a ctx l :
  listeners_wf st ->
  g_hash_table_lookup (function_by_address (interceptor st)) a = Some ctx ->
  gum_function_context_has_listener st ctx l = true ->
  type (contexts st ctx) = GUM_INTERCEPTOR_TYPE_DEFAULT.
Proof.
  intros Hwf Hl Hhas.
  destruct (type (contexts st ctx)) eqn:Hty; [reflexivity|].
  unfold gum_function_context_has_listener,
    gum_function_context_find_listener in Hhas.
  destruct (find_listener_from 0 (entries_of st ctx) l) as [j|] eqn:Hf;
    [|discriminate].
  destruct (find_listener_from_live _ _ _ _ Hf) as (e & Hin).
  specialize (Hwf a ctx (Some e) Hl Hty Hin). discriminate.
Qed.

Section AttachClaim.
Variable host : Host.

(** C4. [attach] on the resolved address [ra]: a listener already present
    on the context of [ra] gives already-attached and leaves the listener
    list as it was; otherwise, when instrumentation succeeds (a default
    context exists, or the backend builds one), the new entry is appended
    and the result is ok; wrong-type is returned exactly when [ra] has a
    context of the fast kind; wrong-signature when no context exists and
    the backend refuses to create a trampoline; policy-violation when no
    context exists, signed code is required and no grafted trampoline can
    be claimed. *)
Theorem attach_outcomes n address l d st ra :
  updates_wf st ->
  listeners_wf st ->
  resolve_address host n address st = Some ra ->
  let found :=
    g_hash_table_lookup (function_by_address (interceptor st)) ra in
  let entry :=
    {| listener_interface := GUM_INVOCATION_LISTENER_GET_IFACE host l;
       listener_instance := l; function_data := d |} in
  exists result st',
    gum_interceptor_attach host n address l d st = Some (result, st')
    /\ (forall ctx,
          found = Some ctx ->
          gum_function_context_has_listener st ctx l = true ->
          result = GUM_ATTACH_ALREADY_ATTACHED
          /\ entries_of st' ctx = entries_of st ctx)
    /\ (forall ctx,
          found = Some ctx ->
          type (contexts st ctx) = GUM_INTERCEPTOR_TYPE_DEFAULT ->
          gum_function_context_has_listener st ctx l = false ->
          result = GUM_ATTACH_OK
          /\ g_hash_table_lookup (function_by_address (interceptor st')) ra
             = Some ctx
          /\ entries_of st' ctx
             = filter is_some (entries_of st ctx) ++ [Some entry])
    /\ (found = None ->
        forall t,
          backend_build host GUM_INTERCEPTOR_TYPE_DEFAULT ra = Some t ->
          result = GUM_ATTACH_OK
          /\ exists ctx,
               g_hash_table_lookup (function_by_address (interceptor st')) ra
               = Some ctx
               /\ entries_of st' ctx = [Some entry])
    /\ (result = GUM_ATTACH_WRONG_TYPE
        <-> exists ctx,
              found = Some ctx
              /\ type (contexts st ctx) = GUM_INTERCEPTOR_TYPE_FAST)
    /\ (found = None ->
        gum_process_get_code_signing_policy host
        = GUM_CODE_SIGNING_OPTIONAL ->
        gum_interceptor_backend_create_trampoline host
          GUM_INTERCEPTOR_TYPE_DEFAULT ra = None ->
        result = GUM_ATTACH_WRONG_SIGNATURE)
    /\ (found = None ->
        gum_process_get_code_signing_policy host
        = GUM_CODE_SIGNING_REQUIRED ->
        gum_interceptor_backend_claim_grafted_trampoline host
          GUM_INTERCEPTOR_TYPE_DEFAULT ra = None ->
        result = GUM_ATTACH_POLICY_VIOLATION).
Proof.
  intros Hwf Hlwf Hres found entry.
  destruct (attach_spec host n address l d st ra Hwf Hres)
    as (st' & Hattach & Hfound & Hnew).
  fold found entry in Hfound, Hnew.
  exists (attach_outcome host st ra l), st'.
  split; [exact Hattach|].
  unfold attach_outcome in *. fold found in Hfound |- *.
  split.
  { intros ctx Hf Hhas.
    pose proof (listeners_wf_default st ra ctx l Hlwf Hf Hhas) as Hty.
    destruct (Hfound ctx Hf) as [_ He].
    rewrite Hf in *. rewrite Hty, Hhas in *. split; [reflexivity | exact He]. }
  split.
  { intros ctx Hf Hty Hhas.
    destruct (Hfound ctx Hf) as [Hl He].
    rewrite Hf in *. rewrite Hty, Hhas in *.
    split; [reflexivity|]. split; assumption. }
  split.
  { intros Hf t Ht. rewrite Hf, Ht. split; [reflexivity|].
    exists (next_context st). apply (Hnew Hf t Ht). }
  split.
  { split.
    - intros Hr. destruct found as [ctx|].
      + exists ctx. split; [reflexivity|].
        destruct (type (contexts st ctx)); [|reflexivity].
        destruct (gum_function_context_has_listener st ctx l); discriminate.
      + destruct (backend_build host GUM_INTERCEPTOR_TYPE_DEFAULT ra);
          [discriminate|].
        destruct (gum_process_get_code_signing_policy host); discriminate.
    - intros (ctx & Hf & Hty). rewrite Hf, Hty. reflexivity. }
  split.
  { intros Hf Hp Hc. rewrite Hf. unfold backend_build. rewrite Hp, Hc.
    reflexivity. }
  intros Hf Hp Hc. rewrite Hf. unfold backend_build. rewrite Hp, Hc.
  reflexivity.
Qed.

End AttachClaim.

Lemma demo_attached_updates_wf : updates_wf demo_attached.
Proof.
  unfold updates_wf. vm_compute.
  split; [constructor|]. split; [constructor|]. split; constructor.
Qed.

Lemma demo_attached_table :
  function_by_address (interceptor demo_attached) = [(4198400, O)].
Proof. vm_compute. reflexivity. Qed.

Lemma lookup_singleton {V} (k : gpointer) (v : V) a c :
  g_hash_table_lookup [(k, v)] a = Some c -> c = v.
Proof.
  cbn. destruct (k =? a); intros H; [now inversion H | discriminate].
Qed.

Lemma demo_attached_listeners_wf : listeners_wf demo_attached.
Proof.
  intros a ctx slot Hlook Hty Hin.
  rewrite demo_attached_table in Hlook.
  apply lookup_singleton in Hlook. clear Hin. subst ctx.
  assert (Hd : type (contexts demo_attached O) = GUM_INTERCEPTOR_TYPE_DEFAULT)
    by (vm_compute; reflexivity).
  rewrite Hd in Hty. discriminate Hty.
Qed.

Lemma attach_outcomes_witness :
  updates_wf demo_attached
  /\ listeners_wf demo_attached
  /\ resolve_address demo_host 0 4198400 demo_attached = Some 4198400
  /\ exists st',
       gum_interceptor_attach demo_host 0 4198400 1 0 demo_attached
       = Some (GUM_ATTACH_ALREADY_ATTACHED, st')
       /\ entries_of st' O = entries_of demo_attached O.
Proof.
  assert (Hr : resolve_address demo_host 0 4198400 demo_attached
               = Some 4198400) by (vm_compute; reflexivity).
  split; [exact demo_attached_updates_wf|].
  split; [exact demo_attached_listeners_wf|].
  split; [exact Hr|].
  destruct (attach_outcomes demo_host 0 4198400 1 0 demo_attached 4198400
              demo_attached_updates_wf demo_attached_listeners_wf Hr)
    as (result & st' & Hattach & Halready & _).
  assert (Hf : g_hash_table_lookup
                 (function_by_address (interceptor demo_attached)) 4198400
               = Some O) by (vm_compute; reflexivity).
  assert (Hh : gum_function_context_has_listener demo_attached O 1 = true)
    by (vm_compute; reflexivity).
  destruct (Halready O Hf Hh) as [Hres He].
  exists st'. split; [|exact He].
  rewrite <- Hres. exact Hattach.
Defined.

(** ** Replacing *)

Section Replace.
Variable host : Host.

Lemma keeps_replacement c c' :
  keeps c c' ->
  replacement_function c' = replacement_function c
  /\ replacement_data c' = replacement_data c
  /\ on_invoke_trampoline c' = on_invoke_trampoline c.
Proof. intros Hk. rewrite Hk. split_and; reflexivity. Qed.

Lemma set_replacement_updates_wf p f d st :
  updates_wf st -> updates_wf (update_context p (set_replacement f d) st).
Proof.
  apply updates_wf_ext; [reflexivity | cbn; lia |].
  intros q _. cbn. unfold upd.
  destruct (Nat.eqb q p) eqn:E; [|split; reflexivity].
  apply Nat.eqb_eq in E. subst q. split; reflexivity.
Qed.

Lemma replace_tail st result cell :
  updates_wf st ->
  exists st',
    match gum_interceptor_transaction_end host st with
    | None => None
    | Some st => Some (result, cell, st)
    end = Some (result : GumReplaceReturn, cell : option gpointer, st')
    /\ commit_frame st st'.
Proof.
  intros Hwf. destruct (beach_ok host st Hwf) as (st' & Hend & Hf & _).
  rewrite Hend. exists st'. split; [reflexivity | exact Hf].
Qed.

Lemma replace_spec n type_ address r rd cell st ra :
  updates_wf st ->
  resolve_address host n address st = Some ra ->
  let found :=
    g_hash_table_lookup (function_by_address (interceptor st)) ra in
  let outcome := replace_outcome host st ra type_ in
  exists cell' st',
    gum_interceptor_replace_with_type host n type_ address r rd cell st
    = Some (outcome, cell', st')
    /\ (forall ctx, found = Some ctx ->
          g_hash_table_lookup (function_by_address (interceptor st')) ra
          = Some ctx
          /\ match outcome with
             | GUM_REPLACE_OK =>
                 replacement_function (contexts st' ctx) = r
                 /\ replacement_data (contexts st' ctx) = rd
                 /\ cell' = option_map
                              (fun _ => on_invoke_trampoline (contexts st' ctx))
                              cell
             | _ =>
                 replacement_function (contexts st' ctx)
                 = replacement_function (contexts st ctx)
                 /\ replacement_data (contexts st' ctx)
                    = replacement_data (contexts st ctx)
                 /\ cell' = cell
             end)
    /\ (found = None ->
        forall t,
          backend_build host type_ ra = Some t ->
          g_hash_table_lookup (function_by_address (interceptor st')) ra
          = Some (next_context st)
          /\ replacement_function (contexts st' (next_context st)) = r
          /\ replacement_data (contexts st' (next_context st)) = rd
          /\ on_invoke_trampoline (contexts st' (next_context st))
             = on_invoke t
          /\ cell' = option_map (fun _ => on_invoke t) cell).
Proof.
  intros Hwf Hres found outcome.
  unfold gum_interceptor_replace_with_type. cbv beta zeta.
  set (st_a := set_is_dirty true (gum_interceptor_transaction_begin st)).
  assert (Hfa : commit_frame st st_a).
  { eapply commit_frame_trans; apply commit_frame_set_current_transaction. }
  assert (Hca : contexts st_a = contexts st) by reflexivity.
  assert (Hta : pending_update_tasks (transaction st_a)
                = pending_update_tasks (transaction st)) by reflexivity.
  assert (Hwfa : updates_wf st_a).
  { apply (operation_prologue st);
      [apply (cf_function_by_address _ _ Hfa) | exact Hta | exact Hca
      | apply (cf_next_context _ _ Hfa) | exact Hwf]. }
  destruct (resolve_some host n address st ra Hres st_a
              (cf_function_by_address _ _ Hfa)) as (st_b & Hrb & Hqb).
  rewrite Hrb.
  assert (Hfb : commit_frame st st_b)
    by (eapply commit_frame_trans; [exact Hfa | now apply quiet_frame_commit]).
  assert (Hwfb : updates_wf st_b)
    by (now apply (quiet_frame_updates_wf st_a)).
  assert (Hcb : contexts st_b = contexts st)
    by (rewrite (qf_contexts _ _ Hqb); exact Hca).
  assert (Hnb : next_context st_b = next_context st)
    by apply (cf_next_context _ _ Hfb).
  assert (Hlb : g_hash_table_lookup (function_by_address (interceptor st_b)) ra
                = found)
    by (unfold found; now rewrite (cf_function_by_address _ _ Hfb)).
  unfold outcome, replace_outcome. fold found.
  destruct found as [ctx|] eqn:Hfound.
  - rewrite (instrument_found host _ ra st_b ctx Hlb).
    rewrite Hcb.
    destruct (GumInterceptorType_eqb (type (contexts st ctx)) type_) eqn:Hty.
    + rewrite Hcb.
      destruct (replacement_function (contexts st ctx) =? NULL) eqn:Hnull;
        cbn [negb].
      * set (st_c := update_context ctx (set_replacement r rd) st_b).
        destruct (replace_tail st_c GUM_REPLACE_OK
                    (match cell with
                     | Some _ => Some (on_invoke_trampoline (contexts st_c ctx))
                     | None => None
                     end))
          as (st_d & Hend & Hfd);
          [now apply set_replacement_updates_wf|].
        rewrite Hend. eexists. eexists. split; [reflexivity|].
        split; [|intros H; discriminate].
        intros ctx' E. injection E as <-.
        destruct (keeps_replacement _ _ (cf_contexts _ _ Hfd ctx))
          as (Hrf & Hrd & Hoi).
        assert (Hc : contexts st_c ctx
                     = set_replacement r rd (contexts st_b ctx))
          by (unfold st_c, update_context; cbn; apply upd_eq).
        split.
        { rewrite (cf_function_by_address _ _ Hfd). exact Hlb. }
        rewrite Hrf, Hrd, Hoi, Hc.
        split; [reflexivity|]. split; [reflexivity|].
        destruct cell; reflexivity.
      * destruct (replace_tail st_b GUM_REPLACE_ALREADY_REPLACED cell Hwfb)
          as (st_d & Hend & Hfd).
        rewrite Hend. eexists. eexists. split; [reflexivity|].
        split; [|intros H; discriminate].
        intros ctx' E. injection E as <-.
        destruct (keeps_replacement _ _ (cf_contexts _ _ Hfd ctx))
          as (Hrf & Hrd & _).
        split.
        { rewrite (cf_function_by_address _ _ Hfd). exact Hlb. }
        rewrite Hrf, Hrd, Hcb. split_and; reflexivity.
    + destruct (replace_tail st_b GUM_REPLACE_WRONG_TYPE cell Hwfb)
        as (st_d & Hend & Hfd).
      rewrite Hend. eexists. eexists. split; [reflexivity|].
      split; [|intros H; discriminate].
      intros ctx' E. injection E as <-.
      destruct (keeps_replacement _ _ (cf_contexts _ _ Hfd ctx))
        as (Hrf & Hrd & _).
      split.
      { rewrite (cf_function_by_address _ _ Hfd). exact Hlb. }
      rewrite Hrf, Hrd, Hcb. split_and; reflexivity.
  - destruct (instrument_new host type_ ra st_b Hlb)
      as (st_c & Hins & Hfba & Hq & Harr & Hnc & Hna & _ & _ & _ & Hwfc
          & Hnew).
    rewrite Hins. rewrite Hnb in *.
    destruct (backend_build host type_ ra) as [t|] eqn:Hbuild.
    + destruct (Hnew t eq_refl)
        as (_ & _ & _ & Hrf0 & _ & Hoi0 & _ & _).
      rewrite Hrf0. cbn [Z.eqb NULL negb].
      set (st_d := update_context (next_context st) (set_replacement r rd)
                     st_c).
      destruct (replace_tail st_d GUM_REPLACE_OK
                  (match cell with
                   | Some _ =>
                       Some (on_invoke_trampoline
                               (contexts st_d (next_context st)))
                   | None => None
                   end))
        as (st_e & Hend & Hfe);
        [now apply set_replacement_updates_wf, Hwfc|].
      rewrite Hend. eexists. eexists. split; [reflexivity|].
      split; [intros ctx' E; discriminate|].
      intros _ t' Ht'. injection Ht' as <-.
      destruct (keeps_replacement _ _ (cf_contexts _ _ Hfe (next_context st)))
        as (Hrf & Hrd & Hoi).
      assert (Hc : contexts st_d (next_context st)
                   = set_replacement r rd (contexts st_c (next_context st)))
        by (unfold st_d, update_context; cbn; apply upd_eq).
      split.
      { rewrite (cf_function_by_address _ _ Hfe).
        change (function_by_address (interceptor st_d))
          with (function_by_address (interceptor st_c)).
        rewrite Hfba. apply lookup_insert_eq. }
      rewrite Hrf, Hrd, Hoi, Hc. split; [reflexivity|]. split; [reflexivity|].
      cbn [set_replacement on_invoke_trampoline]. rewrite Hoi0.
      split; [reflexivity|]. destruct cell; reflexivity.
    + unfold build_error.
      destruct (gum_process_get_code_signing_policy host).
      * destruct (replace_tail st_c GUM_REPLACE_WRONG_SIGNATURE cell
                    (Hwfc Hwfb)) as (st_e & Hend & Hfe).
        rewrite Hend. eexists. eexists. split; [reflexivity|].
        split; [intros ctx' E; discriminate | intros _ t' Ht'; discriminate].
      * destruct (replace_tail st_c GUM_REPLACE_POLICY_VIOLATION cell
                    (Hwfc Hwfb)) as (st_e & Hend & Hfe).
        rewrite Hend. eexists. eexists. split; [reflexivity|].
        split; [intros ctx' E; discriminate | intros _ t' Ht'; discriminate].
Qed.

(** C5. [replace] (kind default) and [replace_fast] (kind fast) on the
    resolved address [ra]: a context of the kind asked for that already has
    a replacement function gives already-replaced (one of the other kind
    gives wrong-type), and either way the replacement function and data stay
    as they were and the caller's cell is not written; a context of the kind
    asked for without a replacement, or a new context the backend builds,
    gives ok; and on ok the context of [ra] holds the given replacement
    function and data, and a non-null cell receives the context's on-invoke
    trampoline. *)
Theorem replace_outcomes n type_ address r rd cell st ra :
  updates_wf st ->
  resolve_address host n address st = Some ra ->
  let found :=
    g_hash_table_lookup (function_by_address (interceptor st)) ra in
  exists result cell' st',
    gum_interceptor_replace_with_type host n type_ address r rd cell st
    = Some (result, cell', st')
    /\ (forall ctx,
          found = Some ctx ->
          replacement_function (contexts st ctx) <> NULL ->
          result = (if GumInterceptorType_eqb (type (contexts st ctx)) type_
                    then GUM_REPLACE_ALREADY_REPLACED
                    else GUM_REPLACE_WRONG_TYPE)
          /\ replacement_function (contexts st' ctx)
             = replacement_function (contexts st ctx)
          /\ replacement_data (contexts st' ctx)
             = replacement_data (contexts st ctx)
          /\ cell' = cell)
    /\ (forall ctx,
          found = Some ctx ->
          type (contexts st ctx) = type_ ->
          replacement_function (contexts st ctx) = NULL ->
          result = GUM_REPLACE_OK)
    /\ (found = None ->
        forall t,
          backend_build host type_ ra = Some t ->
          result = GUM_REPLACE_OK)
    /\ (result = GUM_REPLACE_OK ->
        exists ctx,
          g_hash_table_lookup (function_by_address (interceptor st')) ra
          = Some ctx
          /\ replacement_function (contexts st' ctx) = r
          /\ replacement_data (contexts st' ctx) = rd
          /\ cell' = option_map
                       (fun _ => on_invoke_trampoline (contexts st' ctx))
                       cell).
Proof.
  intros Hwf Hres found.
  destruct (replace_spec n type_ address r rd cell st ra Hwf Hres)
    as (cell' & st' & Hrep & Hfound & Hnew).
  fold found in Hfound, Hnew.
  exists (replace_outcome host st ra type_), cell', st'.
  split; [exact Hrep|].
  unfold replace_outcome in *. fold found in Hfound |- *.
  split.
  { intros ctx Hf Hnn. destruct (Hfound ctx Hf) as [_ H].
    rewrite Hf in *.
    apply Z.eqb_neq in Hnn. rewrite Hnn in *.
    destruct (GumInterceptorType_eqb (type (contexts st ctx)) type_);
      (split; [reflexivity | exact H]). }
  split.
  { intros ctx Hf Hty Hn. rewrite Hf, Hty, Hn.
    destruct type_; reflexivity. }
  split.
  { intros Hf t Ht. rewrite Hf, Ht. reflexivity. }
  intros Hok. destruct found as [ctx|] eqn:Hf.
  - exists ctx. destruct (Hfound ctx eq_refl) as [Hl H].
    rewrite Hok in H. split; [exact Hl | exact H].
  - destruct (backend_build host type_ ra) as [t|] eqn:Hb.
    + exists (next_context st).
      destruct (Hnew eq_refl t eq_refl) as (Hl & Hrf & Hrd & Hoi & Hcell).
      rewrite Hoi. split_and; assumption.
    + destruct (gum_process_get_code_signing_policy host); discriminate.
Qed.

End Replace.

Lemma demo_replaced_updates_wf : updates_wf demo_replaced.
Proof. unfold updates_wf. vm_compute. split_and; constructor. Qed.

Lemma replace_outcomes_witness :
  updates_wf demo_replaced
  /\ resolve_address demo_host 0 4198400 demo_replaced = Some 4198400
  /\ exists cell' st',
       gum_interceptor_replace demo_host 0 4198400 12288 5 (Some 0)
         demo_replaced
       = Some (GUM_REPLACE_ALREADY_REPLACED, cell', st')
       /\ replacement_function (contexts st' O) = 8192
       /\ replacement_data (contexts st' O) = 77
       /\ cell' = Some 0.
Proof.
  assert (Hr : resolve_address demo_host 0 4198400 demo_replaced
               = Some 4198400) by (vm_compute; reflexivity).
  split; [exact demo_replaced_updates_wf|].
  split; [exact Hr|].
  destruct (replace_outcomes demo_host 0 GUM_INTERCEPTOR_TYPE_DEFAULT
              4198400 12288 5 (Some 0) demo_replaced 4198400
              demo_replaced_updates_wf Hr)
    as (result & cell' & st' & Hrep & Halready & _).
  assert (Hf : g_hash_table_lookup
                 (function_by_address (interceptor demo_replaced)) 4198400
               = Some O) by (vm_compute; reflexivity).
  assert (Hn : replacement_function (contexts demo_replaced O) <> NULL)
    by (vm_compute; discriminate).
  assert (Hty : type (contexts demo_replaced O)
                = GUM_INTERCEPTOR_TYPE_DEFAULT) by (vm_compute; reflexivity).
  assert (Hrf : replacement_function (contexts demo_replaced O) = 8192)
    by (vm_compute; reflexivity).
  assert (Hrd : replacement_data (contexts demo_replaced O) = 77)
    by (vm_compute; reflexivity).
  destruct (Halready O Hf Hn) as (Hres & H1 & H2 & H3).
  rewrite Hty in Hres. cbn [GumInterceptorType_eqb] in Hres.
  rewrite Hrf in H1. rewrite Hrd in H2.
  exists cell', st'.
  split; [rewrite <- Hres; exact Hrep|].
  split; [exact H1|]. split; [exact H2 | exact H3].
Defined.

(** C5, as the claim words it: the function at 0x401000 has a context with
    the replacement 0x2000, installed by [replace_fast]; [replace] on it
    returns wrong-type, not already-replaced. *)
Lemma replace_on_fast_context :
  resolve_address demo_host 0 4198400 demo_fast_replaced = Some 4198400
  /\ g_hash_table_lookup
       (function_by_address (interceptor demo_fast_replaced)) 4198400
     = Some O
  /\ replacement_function (contexts demo_fast_replaced O) = 8192
  /\ option_map (fun x => fst (fst x))
       (gum_interceptor_replace demo_host 0 4198400 12288 5 None
          demo_fast_replaced)
     = Some GUM_REPLACE_WRONG_TYPE
  /\ ~ (replacement_function (contexts demo_fast_replaced O) <> NULL ->
        option_map (fun x => fst (fst x))
          (gum_interceptor_replace demo_host 0 4198400 12288 5 None
             demo_fast_replaced)
        = Some GUM_REPLACE_ALREADY_REPLACED).
Proof.
  split; [vm_compute; reflexivity|].
  split; [vm_compute; reflexivity|].
  split; [vm_compute; reflexivity|].
  split; [vm_compute; reflexivity|].
  intros H.
  assert (Hn : replacement_function (contexts demo_fast_replaced O) <> NULL)
    by (vm_compute; discriminate).
  specialize (H Hn). clear Hn. vm_compute in H. discriminate H.
Qed.

Lemma begin_invocation_decisions_witness :
  bypassed demo_host O demo_attached = false
  /\ new_events demo_attached
       (snd (_gum_function_context_begin_invocation demo_host O demo_cpu 5000
               demo_attached))
     = map EvOnEnter (on_enter_listeners (entries_of demo_attached O)).
Proof.
  assert (Hb : bypassed demo_host O demo_attached = false)
    by (vm_compute; reflexivity).
  split; [exact Hb|].
  assert (Hs : selected_thread_id (interceptor demo_attached) = 0)
    by (vm_compute; reflexivity).
  assert (Hi : current_ignore_level demo_attached <= 0)
    by (vm_compute; discriminate).
  exact (proj1 (proj2 (begin_invocation_decisions demo_host O demo_cpu 5000
                         demo_attached Hb))
           (conj (or_introl Hs) Hi)).
Defined.

(** ** The invariant *)

Lemma lookup_In {V} (table : list (gpointer * V)) a v :
  g_hash_table_lookup table a = Some v -> In (a, v) table.
Proof.
  induction table as [|[k w] table IH]; cbn; [discriminate|].
  destruct (Z.eqb_spec k a) as [->|Hne].
  - intros H. injection H as ->. now left.
  - intros H. right. now apply IH.
Qed.

Lemma In_lookup {V} (table : list (gpointer * V)) a v :
  NoDup (map fst table) -> In (a, v) table ->
  g_hash_table_lookup table a = Some v.
Proof.
  induction table as [|[k w] table IH]; cbn; [intros _ []|].
  intros Hnd [H|H].
  - injection H as -> ->. now rewrite Z.eqb_refl.
  - apply NoDup_cons_iff in Hnd. destruct Hnd as [Hk Hnd].
    destruct (Z.eqb_spec k a) as [->|Hne].
    + exfalso. apply Hk. change a with (fst (a, v)). now apply in_map.
    + now apply IH.
Qed.

Lemma interceptor_wf_listeners st : interceptor_wf st -> listeners_wf st.
Proof.
  intros Hwf a ctx slot Hl. apply (wf_fast_contexts _ Hwf a).
  now apply lookup_In.
Qed.

Lemma gum_interceptor_init_wf : interceptor_wf gum_interceptor_init.
Proof.
  constructor.
  - unfold updates_wf. cbn. split_and; constructor.
  - constructor.
  - constructor.
  - unfold table_wf. cbn. split; [constructor|]. split; [constructor|].
    intros a ctx [].
  - intros a ctx slot [].
Qed.

Lemma same_shape_refl st : same_shape st st.
Proof.
  constructor; try reflexivity; try lia. intros q _. split_and; reflexivity.
Qed.

Lemma same_shape_trans st1 st2 st3 :
  same_shape st1 st2 -> same_shape st2 st3 -> same_shape st1 st3.
Proof.
  intros [] []. constructor; try congruence; try lia.
  - intros a Ha. rewrite ss_arrays1 by lia. now apply ss_arrays0.
  - intros q Hq.
    destruct (ss_contexts0 q Hq) as (? & ? & ? & ?).
    destruct (ss_contexts1 q ltac:(lia)) as (? & ? & ? & ?).
    split_and; congruence.
Qed.

Lemma updates_wf_allocated st t :
  updates_wf st ->
  In t (all_update_tasks (pending_update_tasks (transaction st))) ->
  (update_ctx t < next_context st)%nat.
Proof.
  intros (_ & _ & _ & Hb) Hin. rewrite Forall_forall in Hb. now apply Hb.
Qed.

Lemma same_shape_wf st st' :
  same_shape st st' -> interceptor_wf st -> interceptor_wf st'.
Proof.
  intros Hs [Hu Hd Hde Ht Hf].
  destruct Ht as (Hk & Hv & Hin).
  assert (He : forall a q,
            In (a, q) (function_by_address (interceptor st)) ->
            entries_of st' q = entries_of st q).
  { intros a q Hi. unfold entries_of.
    destruct (Hin a q Hi) as (Hq & _ & Hle).
    destruct (ss_contexts _ _ Hs q Hq) as (_ & -> & _).
    now apply (ss_arrays _ _ Hs). }
  constructor.
  - revert Hu. apply updates_wf_ext.
    + apply (ss_updates _ _ Hs).
    + apply (ss_next_context _ _ Hs).
    + intros q Hq. destruct (ss_contexts _ _ Hs q Hq) as (_ & _ & -> & ->).
      now split.
  - unfold destroy_tasks_wf. now rewrite (ss_destroy_tasks _ _ Hs).
  - unfold deactivations_wf in *. rewrite (ss_updates _ _ Hs).
    apply Forall_forall. intros t Hi Hfn.
    rewrite Forall_forall in Hde.
    destruct (ss_contexts _ _ Hs (update_ctx t)
                (updates_wf_allocated st t Hu Hi)) as (_ & _ & _ & ->).
    now apply Hde.
  - unfold table_wf. rewrite (ss_table _ _ Hs).
    split; [exact Hk|]. split; [exact Hv|].
    intros a ctx Hi. destruct (Hin a ctx Hi) as (H1 & H2 & H3).
    destruct (ss_contexts _ _ Hs ctx H1) as (_ & -> & _ & ->).
    pose proof (ss_next_context _ _ Hs). pose proof (ss_next_array _ _ Hs).
    split_and; [lia | assumption | lia].
  - intros a ctx slot Hi Hty Hslot.
    rewrite (ss_table _ _ Hs) in Hi.
    destruct (Hin a ctx Hi) as (H1 & _).
    destruct (ss_contexts _ _ Hs ctx H1) as (Hty' & _).
    rewrite Hty' in Hty. rewrite (He a ctx Hi) in Hslot.
    now apply (Hf a ctx slot).
Qed.

Lemma same_shape_thread_context t st :
  same_shape st (set_thread_context t st).
Proof. constructor; try reflexivity. intros q _. split_and; reflexivity. Qed.

Lemma same_shape_ignore st :
  same_shape st (gum_interceptor_ignore_current_thread st).
Proof.
  unfold gum_interceptor_ignore_current_thread,
    get_interceptor_thread_context.
  destruct (thread_context st); constructor; try reflexivity;
    intros q _; split_and; reflexivity.
Qed.

Lemma same_shape_unignore st :
  same_shape st (gum_interceptor_unignore_current_thread st).
Proof.
  unfold gum_interceptor_unignore_current_thread,
    get_interceptor_thread_context.
  destruct (thread_context st); constructor; try reflexivity;
    intros q _; split_and; reflexivity.
Qed.

Lemma same_shape_set_level l st : same_shape st (set_level l st).
Proof. constructor; try reflexivity. intros q _. split_and; reflexivity. Qed.

Lemma same_shape_set_is_dirty b st : same_shape st (set_is_dirty b st).
Proof. constructor; try reflexivity. intros q _. split_and; reflexivity. Qed.

Lemma same_shape_emit e st : same_shape st (emit e st).
Proof. constructor; try reflexivity. intros q _. split_and; reflexivity. Qed.

Lemma same_shape_quiet st st' : quiet_frame st st' -> same_shape st st'.
Proof.
  intros [Hu Hc]. pose proof (uf_commit _ _ Hu) as Hf.
  constructor.
  - apply (cf_function_by_address _ _ Hf).
  - unfold transaction. now rewrite (uf_interceptor _ _ Hu).
  - unfold transaction. now rewrite (uf_interceptor _ _ Hu).
  - rewrite (cf_next_context _ _ Hf). lia.
  - rewrite (cf_next_array _ _ Hf). lia.
  - intros a _. now rewrite (cf_arrays _ _ Hf).
  - intros q _. rewrite Hc. split_and; reflexivity.
Qed.

Lemma same_shape_update_context p f st :
  (forall c,
     type (f c) = type c /\ listener_entries (f c) = listener_entries c
     /\ activated (f c) = activated c /\ destroyed (f c) = destroyed c) ->
  same_shape st (update_context p f st).
Proof.
  intros Hf. constructor; try reflexivity.
  intros q _. cbn. unfold upd.
  destruct (Nat.eqb_spec q p) as [->|Hne]; [apply Hf|].
  split_and; reflexivity.
Qed.

Section TableEntries.
Context {V : Type}.

Lemma insert_absent (t : list (gpointer * V)) k v :
  g_hash_table_lookup t k = None ->
  g_hash_table_insert t k v = t ++ [(k, v)].
Proof.
  induction t as [|[k0 v0] t IH]; cbn; [reflexivity|].
  destruct (Z.eqb_spec k0 k); [discriminate|].
  intros H. now rewrite IH.
Qed.

Lemma remove_In (t : list (gpointer * V)) k e :
  In e (g_hash_table_remove t k) -> In e t.
Proof.
  induction t as [|[k0 v0] t IH]; cbn; [tauto|].
  destruct (k0 =? k); [now right|].
  intros [<-|H]; [now left | right; now apply IH].
Qed.

Lemma remove_keys_nodup (t : list (gpointer * V)) k :
  NoDup (map fst t) -> NoDup (map fst (g_hash_table_remove t k)).
Proof.
  induction t as [|[k0 v0] t IH]; cbn; [constructor|].
  intros Hnd. apply NoDup_cons_iff in Hnd. destruct Hnd as [Hk Hnd].
  destruct (k0 =? k); [exact Hnd|].
  cbn. constructor; [|now apply IH].
  intros Hin. apply Hk. apply in_map_iff in Hin.
  destruct Hin as (e & He & Hin). apply in_map_iff.
  exists e. split; [exact He | now apply (remove_In t k)].
Qed.

Lemma remove_values_nodup (t : list (gpointer * V)) k :
  NoDup (map snd t) -> NoDup (map snd (g_hash_table_remove t k)).
Proof.
  induction t as [|[k0 v0] t IH]; cbn; [constructor|].
  intros Hnd. apply NoDup_cons_iff in Hnd. destruct Hnd as [Hk Hnd].
  destruct (k0 =? k); [exact Hnd|].
  cbn. constructor; [|now apply IH].
  intros Hin. apply Hk. apply in_map_iff in Hin.
  destruct Hin as (e & He & Hin). apply in_map_iff.
  exists e. split; [exact He | now apply (remove_In t k)].
Qed.

Lemma remove_value_gone (t : list (gpointer * V)) k v :
  NoDup (map snd t) ->
  g_hash_table_lookup t k = Some v ->
  ~ In v (map snd (g_hash_table_remove t k)).
Proof.
  induction t as [|[k0 v0] t IH]; cbn; [discriminate|].
  intros Hnd. apply NoDup_cons_iff in Hnd. destruct Hnd as [Hk Hnd].
  destruct (k0 =? k).
  - intros H. injection H as <-. exact Hk.
  - intros H. cbn. intros [<-|Hin].
    + apply Hk. apply lookup_In in H.
      change v0 with (snd (k, v0)). now apply in_map.
    + now apply (IH Hnd H).
Qed.

End TableEntries.

Section Invariant.
Variable host : Host.

Lemma transaction_begin_wf st :
  interceptor_wf st -> interceptor_wf (gum_interceptor_transaction_begin st).
Proof. apply same_shape_wf, same_shape_set_level. Qed.

Lemma keeps_shape c c' :
  keeps c c' ->
  type c' = type c /\ listener_entries c' = listener_entries c
  /\ destroyed c' = destroyed c.
Proof. intros Hk. rewrite Hk. split_and; reflexivity. Qed.

Lemma transaction_end_wf st st' :
  interceptor_wf st ->
  gum_interceptor_transaction_end host st = Some st' ->
  interceptor_wf st'.
Proof.
  intros Hwf Hend.
  destruct (transaction_end_ok host st (wf_updates _ Hwf))
    as (st1 & Hend1 & Hf & _ & Hskip & Hcommit).
  rewrite Hend in Hend1. injection Hend1 as <-.
  destruct (Z.leb_spec (level (transaction st)) 1) as [Hl|Hl];
    [destruct (is_dirty (transaction st)) eqn:Hd|].
  - destruct (Hcommit Hl eq_refl) as (_ & Hq & Hu & _).
    destruct Hwf as [Hwu Hwd Hwde Hwt Hwf].
    assert (He : forall q, entries_of st' q = entries_of st q)
      by (intros q; now apply entries_of_frame).
    constructor.
    + unfold updates_wf. rewrite Hu. cbn. split_and; constructor.
    + unfold destroy_tasks_wf in *. rewrite Hq.
      apply Forall_forall. intros t Hin. apply filter_In in Hin.
      rewrite Forall_forall in Hwd. now apply Hwd.
    + unfold deactivations_wf. rewrite Hu. constructor.
    + unfold table_wf in *. rewrite (cf_function_by_address _ _ Hf).
      destruct Hwt as (Hk & Hv & Hin). split; [exact Hk|]. split; [exact Hv|].
      intros a ctx Hi. destruct (Hin a ctx Hi) as (H1 & H2 & H3).
      destruct (keeps_shape _ _ (cf_contexts _ _ Hf ctx)) as (_ & -> & ->).
      rewrite (cf_next_context _ _ Hf), (cf_next_array _ _ Hf).
      split_and; assumption.
    + intros a ctx slot Hi Hty Hslot.
      rewrite (cf_function_by_address _ _ Hf) in Hi.
      destruct (keeps_shape _ _ (cf_contexts _ _ Hf ctx)) as (Hty' & _).
      rewrite Hty' in Hty. rewrite He in Hslot.
      now apply (Hwf a ctx slot).
  - rewrite (Hskip (or_intror eq_refl)).
    revert Hwf. apply same_shape_wf, same_shape_set_level.
  - assert (Hgt : level (transaction st) > 1) by lia.
    rewrite (Hskip (or_introl Hgt)).
    revert Hwf. apply same_shape_wf, same_shape_set_level.
Qed.

Lemma schedule_destroy_wf ctx notify data st :
  (notify = gum_function_context_perform_destroy_notify ->
   data = Z.of_nat ctx) ->
  interceptor_wf st ->
  interceptor_wf
    (gum_interceptor_transaction_schedule_destroy ctx notify data st).
Proof.
  intros Hn [Hu Hd Hde Ht Hf]. constructor.
  - exact Hu.
  - unfold destroy_tasks_wf in *.
    unfold gum_interceptor_transaction_schedule_destroy. cbn.
    apply Forall_app. split; [exact Hd|]. constructor; [exact Hn|constructor].
  - exact Hde.
  - exact Ht.
  - exact Hf.
Qed.

Lemma add_listener_wf p l d st :
  type (contexts st p) = GUM_INTERCEPTOR_TYPE_DEFAULT ->
  interceptor_wf st ->
  interceptor_wf (gum_function_context_add_listener host p l d st).
Proof.
  intros Hty [Hu Hd Hde Ht Hf].
  destruct (add_listener_frame host p l d st)
    as (Ha & Hdes & Htype & _ & _ & Hnc & Hpu & _).
  destruct (add_listener_spec host p l d st)
    as (Hle & Hna & _ & Harr & Hpd & _ & Hq & Htab).
  set (st' := gum_function_context_add_listener host p l d st) in *.
  assert (Hdes' : forall q,
            destroyed (contexts st' q) = destroyed (contexts st q)).
  { intros q. destruct (Nat.eq_dec q p) as [->|Hne]; [exact Hdes|].
    now rewrite Hq. }
  destruct Ht as (Hk & Hv & Hin).
  constructor.
  - now apply add_listener_updates_wf.
  - unfold destroy_tasks_wf in *. rewrite Hpd.
    apply Forall_app. split; [exact Hd|].
    constructor; [|constructor]. cbn. discriminate.
  - unfold deactivations_wf in *. rewrite Hpu.
    eapply Forall_impl; [|exact Hde]. cbv beta. intros t H Hfn.
    rewrite Hdes'. now apply H.
  - unfold table_wf. rewrite Htab.
    split; [exact Hk|]. split; [exact Hv|].
    intros a ctx Hi. destruct (Hin a ctx Hi) as (H1 & H2 & H3).
    rewrite Hnc, Hna, Hdes'. split; [exact H1|]. split; [exact H2|].
    destruct (Nat.eq_dec ctx p) as [->|Hne]; [rewrite Hle; lia|].
    rewrite Hq by exact Hne. lia.
  - intros a ctx slot Hi Hfast Hslot. rewrite Htab in Hi.
    destruct (Nat.eq_dec ctx p) as [->|Hne]; [congruence|].
    destruct (Hin a ctx Hi) as (_ & _ & H3).
    unfold entries_of in Hslot. rewrite Hq in Hfast, Hslot by exact Hne.
    rewrite Harr in Hslot by lia.
    now apply (Hf a ctx slot).
Qed.

Lemma clear_slot_In i :
  forall entries (slot : option ListenerEntry),
    In slot (clear_slot i entries) -> slot = None \/ In slot entries.
Proof.
  induction i as [|i IH]; intros [|e entries] slot; cbn; try tauto.
  - intros [<-|H]; [now left | right; now right].
  - intros [<-|H]; [right; now left|].
    destruct (IH _ _ H) as [->|Hin]; [now left | right; now right].
Qed.

Lemma remove_listener_wf p l st st' :
  gum_function_context_remove_listener p l st = Some st' ->
  interceptor_wf st -> interceptor_wf st'.
Proof.
  unfold gum_function_context_remove_listener.
  destruct (gum_function_context_find_listener st p l) as [i|];
    [|discriminate].
  intros H. injection H as <-.
  set (entries := listener_entries (contexts st p)).
  set (st1 := set_array entries (clear_slot i (arrays st entries)) st).
  intros [Hu Hd Hde Ht Hf].
  assert (Hs : forall q,
            type (contexts
                    (update_context p
                       (set_has_on_leave_listener
                          (scan_on_leave (entries_of st1 p))) st1) q)
            = type (contexts st q)
            /\ listener_entries
                 (contexts
                    (update_context p
                       (set_has_on_leave_listener
                          (scan_on_leave (entries_of st1 p))) st1) q)
               = listener_entries (contexts st q)
            /\ activated
                 (contexts
                    (update_context p
                       (set_has_on_leave_listener
                          (scan_on_leave (entries_of st1 p))) st1) q)
               = activated (contexts st q)
            /\ destroyed
                 (contexts
                    (update_context p
                       (set_has_on_leave_listener
                          (scan_on_leave (entries_of st1 p))) st1) q)
               = destroyed (contexts st q)).
  { intros q. cbn. unfold upd.
    destruct (Nat.eqb_spec q p) as [->|Hne]; split_and; reflexivity. }
  constructor.
  - revert Hu. apply updates_wf_ext; [reflexivity | cbn; lia |].
    intros q _. destruct (Hs q) as (_ & _ & Ha & Hb).
    split; [exact Ha | exact Hb].
  - exact Hd.
  - unfold deactivations_wf in *.
    eapply Forall_impl; [|exact Hde]. cbv beta. intros t H Hfn.
    destruct (Hs (update_ctx t)) as (_ & _ & _ & Hb).
    etransitivity; [exact Hb | now apply H].
  - destruct Ht as (Hk & Hv & Hin).
    split; [exact Hk|]. split; [exact Hv|].
    intros a ctx Hi. destruct (Hin a ctx Hi) as (H1 & H2 & H3).
    destruct (Hs ctx) as (_ & Hle & _ & Hb).
    split; [exact H1|].
    split; [etransitivity; [exact Hb | exact H2]|].
    replace (listener_entries (contexts _ ctx))
      with (listener_entries (contexts st ctx)) by (symmetry; exact Hle).
    exact H3.
  - intros a ctx slot Hi Hfast Hslot.
    destruct (Hs ctx) as (Hty & Hle & _).
    assert (Hfast' : type (contexts st ctx) = GUM_INTERCEPTOR_TYPE_FAST)
      by (etransitivity; [symmetry; exact Hty | exact Hfast]).
    clear Hfast. rename Hfast' into Hfast.
    unfold entries_of in Hslot.
    replace (listener_entries (contexts _ ctx))
      with (listener_entries (contexts st ctx)) in Hslot
      by (symmetry; exact Hle).
    cbn in Hslot. unfold upd in Hslot.
    destruct (Nat.eqb_spec (listener_entries (contexts st ctx)) entries)
      as [Heq|Hne].
    + apply clear_slot_In in Hslot. destruct Hslot as [->|Hslot];
        [reflexivity|].
      apply (Hf a ctx slot Hi Hfast). unfold entries_of. now rewrite Heq.
    + now apply (Hf a ctx slot Hi Hfast).
Qed.

Lemma schedule_update_contexts ctx func st :
  contexts (gum_interceptor_transaction_schedule_update host ctx func st)
  = contexts st.
Proof.
  destruct (schedule_update_tasks host ctx func st) as (_ & _ & Hst).
  rewrite Hst. reflexivity.
Qed.

(** A new context, with its trampoline, enters the table and an activation
    is scheduled for it. *)
Lemma register_wf fa ctx st :
  interceptor_wf st ->
  g_hash_table_lookup (function_by_address (interceptor st)) fa = None ->
  (ctx < next_context st)%nat ->
  ~ In ctx (map snd (function_by_address (interceptor st))) ->
  ~ In ctx (map update_ctx
              (all_update_tasks (pending_update_tasks (transaction st)))) ->
  destroyed (contexts st ctx) = false ->
  activated (contexts st ctx) = false ->
  (listener_entries (contexts st ctx) < next_array st)%nat ->
  entries_of st ctx = [] ->
  interceptor_wf
    (gum_interceptor_transaction_schedule_update host ctx
       gum_interceptor_activate_func
       (set_function_by_address
          (g_hash_table_insert (function_by_address (interceptor st)) fa ctx)
          st)).
Proof.
  intros [Hu Hd Hde Ht Hf] Hnone Hlt Hval Htask Hdes Hact Hle Hent.
  set (st1 := set_function_by_address
                (g_hash_table_insert (function_by_address (interceptor st))
                   fa ctx) st).
  destruct (schedule_update_tasks host ctx gum_interceptor_activate_func st1)
    as (_ & Hperm & Hst).
  set (st2 := gum_interceptor_transaction_schedule_update host ctx
                gum_interceptor_activate_func st1) in *.
  assert (Hc : contexts st2 = contexts st) by (rewrite Hst; reflexivity).
  assert (Harr : arrays st2 = arrays st) by (rewrite Hst; reflexivity).
  assert (Htab : function_by_address (interceptor st2)
                 = function_by_address (interceptor st) ++ [(fa, ctx)]).
  { rewrite Hst. cbn. now apply insert_absent. }
  assert (Hnc : next_context st2 = next_context st)
    by (rewrite Hst; reflexivity).
  assert (Hna : next_array st2 = next_array st)
    by (rewrite Hst; reflexivity).
  destruct Ht as (Hk & Hv & Hin).
  constructor.
  - apply (updates_wf_schedule host ctx gum_interceptor_activate_func st1).
    + exact Hu.
    + exact Hlt.
    + exact Htask.
    + right. exact Hact.
  - unfold destroy_tasks_wf. rewrite Hst. exact Hd.
  - unfold deactivations_wf in *. rewrite Hc.
    eapply Permutation_Forall; [apply Permutation_sym, Hperm|].
    apply Forall_app. split; [exact Hde|].
    constructor; [discriminate | constructor].
  - unfold table_wf. rewrite Htab, Hc, Hnc, Hna, !map_app. cbn [map fst snd].
    split.
    { apply NoDup_app; [exact Hk | repeat constructor; tauto|].
      intros k Hin1 [<-|[]]. now apply (lookup_none_keys _ _ Hnone). }
    split.
    { apply NoDup_app; [exact Hv | repeat constructor; tauto|].
      intros k Hin1 [<-|[]]. contradiction. }
    intros a q Hi. apply in_app_or in Hi. destruct Hi as [Hi|[Hi|[]]].
    + now apply (Hin a q).
    + injection Hi as <- <-. split_and; assumption.
  - intros a q slot Hi Hfast Hslot. rewrite Htab in Hi. rewrite Hc in Hfast.
    unfold entries_of in Hslot. rewrite Hc, Harr in Hslot.
    apply in_app_or in Hi. destruct Hi as [Hi|[Hi|[]]].
    + now apply (Hf a q slot).
    + injection Hi as <- <-. unfold entries_of in Hent.
      rewrite Hent in Hslot. destruct Hslot.
Qed.

Lemma GumInterceptorType_eqb_eq a b :
  GumInterceptorType_eqb a b = true <-> a = b.
Proof. destruct a, b; cbn; split; intros H; congruence. Qed.

Lemma instrument_wf type_ fa st r e st' :
  interceptor_wf st ->
  gum_interceptor_instrument host type_ fa st = Some (r, e, st') ->
  interceptor_wf st'
  /\ forall ctx, r = Some ctx -> type (contexts st' ctx) = type_.
Proof.
  intros Hwf. revert r e st'. unfold gum_interceptor_instrument.
  destruct (g_hash_table_lookup (function_by_address (interceptor st)) fa)
    as [found|] eqn:Hl; intros r e st'.
  { destruct (GumInterceptorType_eqb (type (contexts st found)) type_)
      eqn:Hty; cbn [negb]; intros H; injection H as <- <- <-.
    - split; [exact Hwf|]. intros ctx E. injection E as <-.
      now apply GumInterceptorType_eqb_eq.
    - split; [exact Hwf|]. intros ctx E. discriminate. }
  revert r e st'.
  set (st0 := if backend (interceptor st) then st else set_backend true st).
  assert (Hs0 : same_shape st st0).
  { unfold st0. destruct (backend (interceptor st));
      [apply same_shape_refl|].
    constructor; try reflexivity. intros q _. split_and; reflexivity. }
  pose proof (function_context_new_spec fa type_ st0) as Hnew.
  destruct (gum_function_context_new fa type_ st0) as [p st1].
  cbn [fst snd] in Hnew.
  destruct Hnew as (Hp & Hnc1 & Hna1 & Hle1 & He1 & _ & Hty1 & _
                    & _ & Hact1 & Hdes1 & Hsl1 & Hq1 & Harr1 & Hi1 & _).
  assert (Hs1 : same_shape st0 st1).
  { constructor; unfold transaction; rewrite ?Hi1; try reflexivity;
      try lia.
    - intros a Ha. apply Harr1. lia.
    - intros q Hq. rewrite Hq1 by lia. split_and; reflexivity. }
  assert (Hwf1 : interceptor_wf st1).
  { apply (same_shape_wf st0); [exact Hs1|].
    now apply (same_shape_wf st). }
  assert (Hnc0 : next_context st0 = next_context st)
    by (unfold st0; destruct (backend (interceptor st)); reflexivity).
  assert (Htab1 : function_by_address (interceptor st1)
                  = function_by_address (interceptor st)).
  { rewrite Hi1. unfold st0. destruct (backend (interceptor st));
      reflexivity. }
  assert (Hup1 : pending_update_tasks (transaction st1)
                 = pending_update_tasks (transaction st)).
  { unfold transaction. rewrite Hi1. unfold st0.
    destruct (backend (interceptor st)); reflexivity. }
  assert (Hfail : forall err (r : option ctx_ptr)
                     (e : GumInstrumentationError) (st' : State),
            match gum_function_context_finalize p st1 with
            | Some st2 => Some (@None ctx_ptr, err, st2)
            | None => None
            end = Some (r, e, st') ->
            interceptor_wf st'
            /\ forall ctx, r = Some ctx -> type (contexts st' ctx) = type_).
  { intros err r e st'. unfold gum_function_context_finalize.
    rewrite Hsl1. cbn [Z.eqb NULL].
    intros H. injection H as <- <- <-.
    split; [|intros ctx E; discriminate].
    apply (same_shape_wf st1); [|exact Hwf1].
    eapply same_shape_trans; [apply same_shape_emit|].
    eapply same_shape_trans; [|apply same_shape_emit].
    apply same_shape_update_context. intros c. split_and; reflexivity. }
  assert (Hok : forall t (r : option ctx_ptr)
                   (e : GumInstrumentationError) (st' : State),
            Some (Some p, GUM_INSTRUMENTATION_ERROR_NONE,
                  gum_interceptor_transaction_schedule_update host p
                    gum_interceptor_activate_func
                    (set_function_by_address
                       (g_hash_table_insert
                          (function_by_address
                             (interceptor
                                (update_context p (set_trampoline t) st1)))
                          fa p)
                       (update_context p (set_trampoline t) st1)))
            = Some (r, e, st') ->
            interceptor_wf st'
            /\ forall ctx, r = Some ctx -> type (contexts st' ctx) = type_).
  { intros t r e st' H. injection H as <- <- <-.
    set (st2 := update_context p (set_trampoline t) st1).
    assert (Hwf2 : interceptor_wf st2).
    { apply (same_shape_wf st1); [|exact Hwf1].
      apply same_shape_update_context. intros c. split_and; reflexivity. }
    assert (Hc2 : contexts st2 p = set_trampoline t (contexts st1 p))
      by (unfold st2, update_context; cbn; apply upd_eq).
    split.
    - apply (register_wf fa p st2).
      + exact Hwf2.
      + change (function_by_address (interceptor st2))
          with (function_by_address (interceptor st1)).
        now rewrite Htab1.
      + change (next_context st2) with (next_context st1). lia.
      + change (function_by_address (interceptor st2))
          with (function_by_address (interceptor st1)).
        rewrite Htab1. intros Hin. apply in_map_iff in Hin.
        destruct Hin as ([a q] & Hq & Hin). cbn in Hq. subst q.
        destruct (wf_table _ Hwf) as (_ & _ & Hall).
        destruct (Hall a p Hin) as (Hlt & _). lia.
      + change (pending_update_tasks (transaction st2))
          with (pending_update_tasks (transaction st1)).
        rewrite Hup1. intros Hin. apply in_map_iff in Hin.
        destruct Hin as (u & Hu & Hin).
        pose proof (updates_wf_allocated st u (wf_updates _ Hwf) Hin). lia.
      + rewrite Hc2. exact Hdes1.
      + rewrite Hc2. exact Hact1.
      + rewrite Hc2. change (next_array st2) with (next_array st1).
        cbn [set_trampoline listener_entries]. lia.
      + unfold entries_of. rewrite Hc2.
        cbn [set_trampoline listener_entries]. exact He1.
    - intros ctx E. injection E as <-.
      rewrite schedule_update_contexts.
      change (type (contexts st2 p) = type_).
      rewrite Hc2. exact Hty1. }
  intros r e st'.
  destruct (gum_process_get_code_signing_policy host).
  - destruct (gum_interceptor_backend_create_trampoline host type_ fa)
      as [t|]; [apply Hok | apply Hfail].
  - destruct (gum_interceptor_backend_claim_grafted_trampoline host type_ fa)
      as [t|]; [apply Hok | apply Hfail].
Qed.

Lemma schedule_deactivate_wf ctx st :
  interceptor_wf st ->
  (ctx < next_context st)%nat ->
  ~ In ctx (map update_ctx
              (all_update_tasks (pending_update_tasks (transaction st)))) ->
  activated (contexts st ctx) = true ->
  destroyed (contexts st ctx) = true ->
  interceptor_wf
    (gum_interceptor_transaction_schedule_update host ctx
       gum_interceptor_deactivate_func st).
Proof.
  intros [Hu Hd Hde Ht Hf] Hlt Hfresh Hact Hdes.
  destruct (schedule_update_tasks host ctx gum_interceptor_deactivate_func st)
    as (_ & Hperm & Hst).
  set (st' := gum_interceptor_transaction_schedule_update host ctx
                gum_interceptor_deactivate_func st) in *.
  assert (Hc : contexts st' = contexts st) by (rewrite Hst; reflexivity).
  constructor.
  - now apply updates_wf_schedule.
  - unfold destroy_tasks_wf. rewrite Hst. exact Hd.
  - unfold deactivations_wf in *. rewrite Hc.
    eapply Permutation_Forall; [apply Permutation_sym, Hperm|].
    apply Forall_app. split; [exact Hde|].
    constructor; [intros _; exact Hdes | constructor].
  - unfold table_wf. rewrite Hst. exact Ht.
  - unfold fast_contexts_wf. rewrite Hst. exact Hf.
Qed.

Lemma function_by_address_remove_wf key st st' :
  interceptor_wf st ->
  function_by_address_remove host key st = Some st' ->
  interceptor_wf st'.
Proof.
  intros Hwf. unfold function_by_address_remove.
  destruct (g_hash_table_lookup (function_by_address (interceptor st)) key)
    as [ctx|] eqn:Hl; [|intros H; injection H as <-; exact Hwf].
  pose proof (lookup_In _ _ _ Hl) as Hin.
  destruct Hwf as [Hu Hd Hde Ht Hf].
  destruct Ht as (Hk & Hv & Hall).
  destruct (Hall key ctx Hin) as (Hlt & Hdes & Hle).
  set (st1 := set_function_by_address
                (g_hash_table_remove (function_by_address (interceptor st))
                   key) st).
  unfold gum_function_context_destroy.
  change (destroyed (contexts st1 ctx)) with (destroyed (contexts st ctx)).
  rewrite Hdes.
  set (st2 := update_context ctx (set_destroyed true) st1).
  assert (Hc2 : contexts st2 ctx = set_destroyed true (contexts st ctx))
    by (unfold st2, update_context; cbn; apply upd_eq).
  assert (Hq2 : forall q, q <> ctx -> contexts st2 q = contexts st q)
    by (intros q Hq; unfold st2, update_context; cbn; now apply upd_ne).
  assert (Hshape : forall q,
            type (contexts st2 q) = type (contexts st q)
            /\ listener_entries (contexts st2 q)
               = listener_entries (contexts st q)
            /\ activated (contexts st2 q) = activated (contexts st q)).
  { intros q. destruct (Nat.eq_dec q ctx) as [->|Hne].
    - rewrite Hc2. split_and; reflexivity.
    - rewrite Hq2 by exact Hne. split_and; reflexivity. }
  assert (Hno_deact : forall t,
            In t (all_update_tasks (pending_update_tasks (transaction st))) ->
            update_ctx t = ctx ->
            update_func t = gum_interceptor_activate_func).
  { intros t Hi Hctx. destruct (update_func t) eqn:Hfn; [reflexivity|].
    unfold deactivations_wf in Hde. rewrite Forall_forall in Hde.
    specialize (Hde t Hi Hfn). rewrite Hctx in Hde. congruence. }
  assert (Hwf2 : interceptor_wf st2).
  { constructor.
    - destruct Hu as (Hk' & Hnd & Hr & Hb).
      split; [exact Hk'|]. split; [exact Hnd|]. split; [|exact Hb].
      apply Forall_forall. intros t Hi.
      rewrite Forall_forall in Hr. specialize (Hr t Hi).
      unfold update_task_ready in *.
      destruct (Nat.eq_dec (update_ctx t) ctx) as [Heq|Hne].
      + rewrite (Hno_deact t Hi Heq). left. rewrite Heq, Hc2. reflexivity.
      + rewrite Hq2 by exact Hne. exact Hr.
    - exact Hd.
    - unfold deactivations_wf in *.
      apply Forall_forall. intros t Hi Hfn.
      rewrite Forall_forall in Hde. specialize (Hde t Hi Hfn).
      destruct (Nat.eq_dec (update_ctx t) ctx) as [Heq|Hne].
      + rewrite Heq, Hc2. reflexivity.
      + rewrite Hq2 by exact Hne. exact Hde.
    - split; [now apply remove_keys_nodup|].
      split; [now apply remove_values_nodup|].
      intros a q Hi.
      assert (Hne : q <> ctx).
      { intros ->. apply (remove_value_gone _ _ _ Hv Hl).
        change ctx with (snd (a, ctx)). now apply in_map. }
      apply remove_In in Hi. destruct (Hall a q Hi) as (H1 & H2 & H3).
      rewrite Hq2 by exact Hne. split_and; assumption.
    - intros a q slot Hi Hfast Hslot. apply remove_In in Hi.
      destruct (Hshape q) as (Hty & Hle' & _).
      rewrite Hty in Hfast. unfold entries_of in Hslot.
      rewrite Hle' in Hslot. now apply (Hf a q slot). }
  assert (Hfresh : activated (contexts st ctx) = true ->
            ~ In ctx (map update_ctx
                        (all_update_tasks
                           (pending_update_tasks (transaction st))))).
  { intros Hact Hi. apply in_map_iff in Hi. destruct Hi as (t & Hctx & Hi).
    pose proof (Hno_deact t Hi Hctx) as Hfn.
    destruct Hu as (_ & _ & Hr & _). rewrite Forall_forall in Hr.
    specialize (Hr t Hi). unfold update_task_ready in Hr.
    rewrite Hfn, Hctx in Hr. destruct Hr; congruence. }
  destruct (Hshape ctx) as (_ & _ & Hact2). rewrite Hact2.
  intros H. injection H as <-.
  apply schedule_destroy_wf; [intros _; reflexivity|].
  destruct (activated (contexts st ctx)) eqn:Hact; [|exact Hwf2].
  apply schedule_deactivate_wf.
  - exact Hwf2.
  - exact Hlt.
  - now apply Hfresh.
  - now rewrite Hact2.
  - rewrite Hc2. reflexivity.
Qed.

Lemma detach_loop_wf l entries :
  forall st st',
    interceptor_wf st ->
    detach_loop host entries l st = Some st' ->
    interceptor_wf st'.
Proof.
  induction entries as [|[key ctx] entries IH]; intros st st' Hwf;
    cbn [detach_loop]; [intros H; injection H as <-; exact Hwf|].
  destruct (gum_function_context_has_listener st ctx l);
    [|now apply IH].
  destruct (gum_function_context_remove_listener ctx l st) as [st1|] eqn:E1;
    [|discriminate].
  pose proof (remove_listener_wf ctx l st st1 E1 Hwf) as Hwf1.
  set (st2 := gum_interceptor_transaction_schedule_destroy ctx g_object_unref
                l st1).
  assert (Hwf2 : interceptor_wf st2)
    by (apply schedule_destroy_wf; [discriminate | exact Hwf1]).
  destruct (gum_function_context_is_empty st2 ctx); [|now apply IH].
  destruct (function_by_address_remove host key st2) as [st3|] eqn:E3;
    [|discriminate].
  apply IH. now apply (function_by_address_remove_wf key st2).
Qed.

Lemma prologue_wf st :
  interceptor_wf st ->
  interceptor_wf (set_is_dirty true (gum_interceptor_transaction_begin st)).
Proof.
  apply same_shape_wf.
  eapply same_shape_trans; [apply same_shape_set_level|].
  apply same_shape_set_is_dirty.
Qed.

Lemma resolve_wf n address st ra st' :
  interceptor_wf st ->
  gum_interceptor_resolve host n address st = Some (ra, st') ->
  interceptor_wf st'.
Proof.
  intros Hwf H. apply (same_shape_wf st); [|exact Hwf].
  apply same_shape_quiet. eapply resolve_frame; eauto.
Qed.

Lemma set_replacement_wf p f d st :
  interceptor_wf st ->
  interceptor_wf (update_context p (set_replacement f d) st).
Proof.
  apply same_shape_wf, same_shape_update_context.
  intros c. split_and; reflexivity.
Qed.

Theorem attach_wf n address l d st r st' :
  interceptor_wf st ->
  gum_interceptor_attach host n address l d st = Some (r, st') ->
  interceptor_wf st'.
Proof.
  intros Hwf. unfold gum_interceptor_attach. cbv beta zeta.
  assert (Hwf0 : interceptor_wf
                   (set_is_dirty true
                      (gum_interceptor_transaction_begin
                         (gum_interceptor_ignore_current_thread st)))).
  { apply prologue_wf. revert Hwf. apply same_shape_wf, same_shape_ignore. }
  destruct (gum_interceptor_resolve host n address _) as [[ra st1]|] eqn:Er;
    [|discriminate].
  pose proof (resolve_wf _ _ _ _ _ Hwf0 Er) as Hwf1.
  destruct (gum_interceptor_instrument host GUM_INTERCEPTOR_TYPE_DEFAULT ra
              st1) as [[[found e] st2]|] eqn:Ei; [|discriminate].
  destruct (instrument_wf _ _ _ _ _ _ Hwf1 Ei) as [Hwf2 Hty].
  assert (Hbeach : forall (res : GumAttachReturn) s,
            interceptor_wf s ->
            match gum_interceptor_transaction_end host s with
            | Some s' =>
                Some (res, gum_interceptor_unignore_current_thread s')
            | None => None
            end = Some (r, st') ->
            interceptor_wf st').
  { intros res s Hs.
    destruct (gum_interceptor_transaction_end host s) as [s'|] eqn:Ee;
      [|discriminate].
    intros H. injection H as <- <-.
    apply (same_shape_wf s'); [apply same_shape_unignore|].
    now apply (transaction_end_wf s). }
  destruct found as [ctx|].
  - destruct (gum_function_context_has_listener st2 ctx l).
    + now apply Hbeach.
    + apply Hbeach. apply add_listener_wf; [now apply Hty | exact Hwf2].
  - destruct e; try discriminate; now apply Hbeach.
Qed.

Theorem detach_wf l st st' :
  interceptor_wf st ->
  gum_interceptor_detach host l st = Some st' ->
  interceptor_wf st'.
Proof.
  intros Hwf. unfold gum_interceptor_detach. cbv beta zeta.
  assert (Hwf0 : interceptor_wf
                   (set_is_dirty true
                      (gum_interceptor_transaction_begin
                         (gum_interceptor_ignore_current_thread st)))).
  { apply prologue_wf. revert Hwf. apply same_shape_wf, same_shape_ignore. }
  destruct (detach_loop host _ l _) as [st1|] eqn:El; [|discriminate].
  pose proof (detach_loop_wf _ _ _ _ Hwf0 El) as Hwf1.
  destruct (gum_interceptor_transaction_end host st1) as [st2|] eqn:Ee;
    [|discriminate].
  intros H. injection H as <-.
  apply (same_shape_wf st2); [apply same_shape_unignore|].
  now apply (transaction_end_wf st1).
Qed.

Theorem replace_with_type_wf n type_ address f d cell st r cell' st' :
  interceptor_wf st ->
  gum_interceptor_replace_with_type host n type_ address f d cell st
  = Some (r, cell', st') ->
  interceptor_wf st'.
Proof.
  intros Hwf. unfold gum_interceptor_replace_with_type. cbv beta zeta.
  pose proof (prologue_wf st Hwf) as Hwf0.
  destruct (gum_interceptor_resolve host n address _) as [[ra st1]|] eqn:Er;
    [|discriminate].
  pose proof (resolve_wf _ _ _ _ _ Hwf0 Er) as Hwf1.
  destruct (gum_interceptor_instrument host type_ ra st1)
    as [[[found e] st2]|] eqn:Ei; [|discriminate].
  destruct (instrument_wf _ _ _ _ _ _ Hwf1 Ei) as [Hwf2 _].
  assert (Hbeach : forall (res : GumReplaceReturn) (c : option gpointer) s,
            interceptor_wf s ->
            match gum_interceptor_transaction_end host s with
            | Some s' => Some (res, c, s')
            | None => None
            end = Some (r, cell', st') ->
            interceptor_wf st').
  { intros res c s Hs.
    destruct (gum_interceptor_transaction_end host s) as [s'|] eqn:Ee;
      [|discriminate].
    intros H. injection H as <- <- <-.
    now apply (transaction_end_wf s). }
  destruct found as [ctx|].
  - destruct (negb (replacement_function (contexts st2 ctx) =? NULL)).
    + now apply Hbeach.
    + apply Hbeach. now apply set_replacement_wf.
  - destruct e; try discriminate; now apply Hbeach.
Qed.

Theorem revert_wf n address st st' :
  interceptor_wf st ->
  gum_interceptor_revert host n address st = Some st' ->
  interceptor_wf st'.
Proof.
  intros Hwf. unfold gum_interceptor_revert. cbv beta zeta.
  pose proof (prologue_wf st Hwf) as Hwf0.
  destruct (gum_interceptor_resolve host n address _) as [[ra st1]|] eqn:Er;
    [|discriminate].
  pose proof (resolve_wf _ _ _ _ _ Hwf0 Er) as Hwf1.
  destruct (g_hash_table_lookup (function_by_address (interceptor st1)) ra)
    as [ctx|]; [|now apply transaction_end_wf].
  pose proof (set_replacement_wf ctx NULL NULL st1 Hwf1) as Hwf2.
  destruct (gum_function_context_is_empty _ ctx);
    [|now apply transaction_end_wf].
  destruct (function_by_address_remove host ra _) as [st3|] eqn:E3;
    [|discriminate].
  apply transaction_end_wf.
  now apply (function_by_address_remove_wf ra _ st3) in Hwf2.
Qed.

Theorem flush_wf st flushed st' :
  interceptor_wf st ->
  gum_interceptor_flush host st = Some (flushed, st') ->
  interceptor_wf st'.
Proof.
  intros Hwf. unfold gum_interceptor_flush.
  destruct (level (transaction st) =? 0);
    [|intros H; injection H as <- <-; exact Hwf].
  destruct (gum_interceptor_transaction_end host
              (gum_interceptor_transaction_begin st)) as [st1|] eqn:Ee;
    [|discriminate].
  intros H. injection H as <- <-.
  apply (transaction_end_wf _ _ (transaction_begin_wf st Hwf) Ee).
Qed.

Lemma same_shape_set_guard g st : same_shape st (set_guard g st).
Proof. constructor; try reflexivity. intros q _. split_and; reflexivity. Qed.

Lemma same_shape_set_system_error e st :
  same_shape st (set_system_error e st).
Proof. constructor; try reflexivity. intros q _. split_and; reflexivity. Qed.

Lemma same_shape_set_selected_thread_id id st :
  same_shape st (set_selected_thread_id id st).
Proof. constructor; try reflexivity. intros q _. split_and; reflexivity. Qed.

Lemma same_shape_add_usage p d st :
  same_shape st (update_context p (add_usage d) st).
Proof.
  apply same_shape_update_context. intros c. split_and; reflexivity.
Qed.

Lemma same_shape_dispatch entries :
  forall e st, same_shape st (snd (dispatch_on_enter entries e st)).
Proof.
  induction entries as [|slot rest IH]; intros e st; cbn;
    [apply same_shape_refl|].
  destruct slot as [le|]; [|apply IH].
  destruct (on_enter (listener_interface le)) as [cb|]; [|apply IH].
  eapply same_shape_trans; [apply same_shape_emit | apply IH].
Qed.

Ltac shape :=
  repeat first
    [ apply same_shape_refl
    | eassumption
    | eapply same_shape_trans;
      [|first [ apply same_shape_set_guard
              | apply same_shape_set_system_error
              | apply same_shape_thread_context
              | apply same_shape_add_usage
              | apply same_shape_emit
              | eassumption ]] ].

Lemma begin_invocation_shape f cpu ra st :
  same_shape st
    (snd (_gum_function_context_begin_invocation host f cpu ra st)).
Proof.
  unfold _gum_function_context_begin_invocation, g_atomic_int_inc,
    g_atomic_int_dec_and_test, get_interceptor_thread_context.
  cbn [guard update_context set_contexts thread_context set_guard].
  destruct (guard st); cbn [snd]; [shape|].
  destruct (thread_context st) as [tc|].
  - destruct (replacement_reentry host (stack tc) _); cbn [snd]; [shape|].
    destruct (entry_invoke_listeners host _ tc).
    + destruct (dispatch_on_enter _ _ _) as [e2 st2] eqn:Ed.
      match type of Ed with
      | dispatch_on_enter ?a ?b ?c = _ =>
          pose proof (same_shape_dispatch a b c) as Hd
      end.
      rewrite Ed in Hd. cbn [snd] in Hd.
      destruct (entry_will_trap_on_leave _ true);
        destruct (negb (replacement_function _ =? NULL));
        cbn [snd negb andb]; shape.
    + destruct (entry_will_trap_on_leave _ false);
        destruct (negb (replacement_function _ =? NULL));
        cbn [snd negb andb]; shape.
  - destruct (replacement_reentry host _ _); cbn [snd]; [shape|].
    destruct (entry_invoke_listeners host _ _).
    + destruct (dispatch_on_enter _ _ _) as [e2 st2] eqn:Ed.
      match type of Ed with
      | dispatch_on_enter ?a ?b ?c = _ =>
          pose proof (same_shape_dispatch a b c) as Hd
      end.
      rewrite Ed in Hd. cbn [snd] in Hd.
      destruct (entry_will_trap_on_leave _ true);
        destruct (negb (replacement_function _ =? NULL));
        cbn [snd negb andb]; shape.
    + destruct (entry_will_trap_on_leave _ false);
        destruct (negb (replacement_function _ =? NULL));
        cbn [snd negb andb]; shape.
Qed.

Lemma restore_loop_shape n stack :
  forall i new_depth st st',
    restore_loop n stack i new_depth st = Some st' -> same_shape st st'.
Proof.
  induction n as [|n IH]; intros i new_depth st st'; cbn [restore_loop];
    destruct (i =? new_depth);
    try (intros H; injection H as <-; apply same_shape_refl);
    try discriminate.
  destruct (i <? 0); [discriminate|].
  destruct (nth_error stack (Z.to_nat i)) as [entry|]; [|discriminate].
  intros H. apply IH in H.
  eapply same_shape_trans; [|exact H].
  apply same_shape_add_usage.
Qed.

Lemma restore_shape s st st' :
  gum_interceptor_restore s st = Some st' -> same_shape st st'.
Proof.
  unfold gum_interceptor_restore. cbv zeta.
  destruct (_ =? s); [intros H; injection H as <-; apply same_shape_refl|].
  destruct (restore_loop _ _ _ _ st) as [st1|] eqn:El; [|discriminate].
  apply restore_loop_shape in El.
  destruct (thread_context st1); [|discriminate].
  intros H. injection H as <-.
  eapply same_shape_trans; [exact El|].
  apply same_shape_thread_context.
Qed.

Lemma same_shape_maybe_unignore st :
  same_shape st (snd (gum_interceptor_maybe_unignore_current_thread st)).
Proof.
  unfold gum_interceptor_maybe_unignore_current_thread,
    get_interceptor_thread_context.
  destruct (thread_context st) as [tc|]; cbn [ignore_level].
  - destruct (ignore_level tc <=? 0); cbn [snd];
      [apply same_shape_refl | apply same_shape_thread_context].
  - cbn. apply same_shape_thread_context.
Qed.

(** Every reachable state satisfies the invariant. *)
Theorem reachable_wf st : reachable host st -> interceptor_wf st.
Proof.
  induction 1 as
    [ | n address l d st r st' _ IH H
      | l st st' _ IH H
      | n address f d cell st r cell' st' _ IH H
      | n address f cell st r cell' st' _ IH H
      | n address st st' _ IH H
      | st _ IH
      | st st' _ IH H
      | st flushed st' _ IH H
      | st _ IH | st _ IH | st _ IH | st _ IH
      | st st' _ IH H
      | id st _ IH
      | f cpu ra st _ IH Hf
      | s st st' _ IH H ].
  - apply gum_interceptor_init_wf.
  - now apply (attach_wf _ _ _ _ _ _ _ IH H).
  - now apply (detach_wf _ _ _ IH H).
  - now apply (replace_with_type_wf _ _ _ _ _ _ _ _ _ _ IH H).
  - now apply (replace_with_type_wf _ _ _ _ _ _ _ _ _ _ IH H).
  - now apply (revert_wf _ _ _ _ IH H).
  - now apply transaction_begin_wf.
  - now apply (transaction_end_wf _ _ IH H).
  - now apply (flush_wf _ _ _ IH H).
  - revert IH. apply same_shape_wf, same_shape_ignore.
  - revert IH. apply same_shape_wf, same_shape_unignore.
  - revert IH. apply same_shape_wf, same_shape_maybe_unignore.
  - revert IH. apply same_shape_wf, same_shape_set_selected_thread_id.
  - unfold gum_interceptor_unignore_other_threads in H.
    destruct (_ =? _); [|discriminate]. injection H as <-.
    revert IH. apply same_shape_wf, same_shape_set_selected_thread_id.
  - revert IH. apply same_shape_wf, same_shape_set_selected_thread_id.
  - revert IH. apply same_shape_wf, begin_invocation_shape.
  - revert IH. apply same_shape_wf. now apply restore_shape in H.
Qed.

(** In particular the hypotheses under which the operations are specified
    hold in every reachable state. *)
Corollary reachable_tasks_wf st :
  reachable host st ->
  updates_wf st /\ destroy_tasks_wf st /\ listeners_wf st.
Proof.
  intros H. apply reachable_wf in H.
  split; [apply (wf_updates _ H)|].
  split; [apply (wf_destroy_tasks _ H) | now apply interceptor_wf_listeners].
Qed.

(** ** No assertion fails in a well-formed state *)

Lemma function_by_address_remove_total key st :
  interceptor_wf st ->
  exists st', function_by_address_remove host key st = Some st'.
Proof.
  intros Hwf. unfold function_by_address_remove.
  destruct (g_hash_table_lookup (function_by_address (interceptor st)) key)
    as [ctx|] eqn:Hl; [|now exists st].
  destruct (wf_table _ Hwf) as (_ & _ & Hall).
  destruct (Hall key ctx (lookup_In _ _ _ Hl)) as (_ & Hdes & _).
  unfold gum_function_context_destroy.
  cbn [contexts set_function_by_address set_interceptor].
  rewrite Hdes. eexists. reflexivity.
Qed.

Lemma detach_loop_total l entries :
  forall st,
    interceptor_wf st ->
    exists st', detach_loop host entries l st = Some st'.
Proof.
  induction entries as [|[key ctx] entries IH]; intros st Hwf;
    cbn [detach_loop]; [now exists st|].
  destruct (gum_function_context_has_listener st ctx l) eqn:Hhas;
    [|now apply IH].
  assert (Hrm : exists st1,
            gum_function_context_remove_listener ctx l st = Some st1).
  { unfold gum_function_context_has_listener in Hhas.
    unfold gum_function_context_remove_listener.
    destruct (gum_function_context_find_listener st ctx l);
      [eexists; reflexivity | discriminate]. }
  destruct Hrm as (st1 & E1). rewrite E1.
  pose proof (remove_listener_wf ctx l st st1 E1 Hwf) as Hwf1.
  set (st2 := gum_interceptor_transaction_schedule_destroy ctx g_object_unref
                l st1).
  assert (Hwf2 : interceptor_wf st2)
    by (apply schedule_destroy_wf; [discriminate | exact Hwf1]).
  destruct (gum_function_context_is_empty st2 ctx); [|now apply IH].
  destruct (function_by_address_remove_total key st2 Hwf2) as (st3 & E3).
  rewrite E3. apply IH.
  now apply (function_by_address_remove_wf key st2).
Qed.

Theorem detach_total l st :
  interceptor_wf st ->
  exists st', gum_interceptor_detach host l st = Some st'.
Proof.
  intros Hwf. unfold gum_interceptor_detach. cbv beta zeta.
  assert (Hwf0 : interceptor_wf
                   (set_is_dirty true
                      (gum_interceptor_transaction_begin
                         (gum_interceptor_ignore_current_thread st)))).
  { apply prologue_wf. revert Hwf. apply same_shape_wf, same_shape_ignore. }
  match goal with
  | |- context [detach_loop host ?entries l ?s] =>
      destruct (detach_loop_total l entries s Hwf0) as (st1 & El)
  end.
  rewrite El.
  pose proof (detach_loop_wf _ _ _ _ Hwf0 El) as Hwf1.
  destruct (transaction_end_ok host st1 (wf_updates _ Hwf1))
    as (st2 & Ee & _).
  rewrite Ee. eexists. reflexivity.
Qed.

Theorem revert_total n address st ra :
  interceptor_wf st ->
  resolve_address host n address st = Some ra ->
  exists st', gum_interceptor_revert host n address st = Some st'.
Proof.
  intros Hwf Hres. unfold gum_interceptor_revert. cbv beta zeta.
  pose proof (prologue_wf st Hwf) as Hwf0.
  destruct (resolve_some host n address st ra Hres
              (set_is_dirty true (gum_interceptor_transaction_begin st))
              eq_refl) as (st1 & Er & _).
  rewrite Er.
  pose proof (resolve_wf _ _ _ _ _ Hwf0 Er) as Hwf1.
  assert (Hend : forall s,
            interceptor_wf s ->
            exists st', gum_interceptor_transaction_end host s = Some st').
  { intros s Hs.
    destruct (transaction_end_ok host s (wf_updates _ Hs)) as (s' & E & _).
    now exists s'. }
  destruct (g_hash_table_lookup (function_by_address (interceptor st1)) ra)
    as [ctx|]; [|now apply Hend].
  pose proof (set_replacement_wf ctx NULL NULL st1 Hwf1) as Hwf2.
  destruct (gum_function_context_is_empty _ ctx); [|now apply Hend].
  destruct (function_by_address_remove_total ra _ Hwf2) as (st3 & E3).
  rewrite E3. apply Hend.
  now apply (function_by_address_remove_wf ra _ st3) in Hwf2.
Qed.

End Invariant.

(** ** The example states are reachable *)

Lemma demo_attached_reachable : reachable demo_host demo_attached.
Proof.
  apply (reach_attach demo_host 0 4198400 1 0 gum_interceptor_init
           GUM_ATTACH_OK); [apply reach_init | vm_compute; reflexivity].
Qed.

Lemma demo_other_selected_reachable :
  reachable demo_host demo_other_selected.
Proof. apply reach_other_thread_selected, demo_attached_reachable. Qed.

Lemma demo_entered_reachable : reachable demo_host demo_entered.
Proof.
  apply reach_begin_invocation; [apply demo_attached_reachable|].
  vm_compute. lia.
Qed.

Lemma demo_waiting_reachable : reachable demo_host demo_waiting.
Proof.
  apply (reach_end_transaction demo_host demo_detaching);
    [|vm_compute; reflexivity].
  apply (reach_detach demo_host 1
           (gum_interceptor_begin_transaction demo_entered));
    [|vm_compute; reflexivity].
  apply reach_begin_transaction, demo_entered_reachable.
Qed.


Lemma demo_replaced_reachable : reachable demo_host demo_replaced.
Proof.
  apply (reach_replace demo_host 0 4198400 8192 77 None gum_interceptor_init
           GUM_REPLACE_OK None); [apply reach_init | vm_compute; reflexivity].
Qed.

Lemma demo_fast_replaced_reachable : reachable demo_host demo_fast_replaced.
Proof.
  apply (reach_replace_fast demo_host 0 4198400 8192 None
           gum_interceptor_init GUM_REPLACE_OK None);
    [apply reach_init | vm_compute; reflexivity].
Qed.

(** ** Pages less than 2 GiB apart are sorted in ascending order *)

Lemma page_address_compare_close a b :
  0 <= a < 2 ^ 64 -> 0 <= b < 2 ^ 64 -> - 2 ^ 31 <= a - b < 2 ^ 31 ->
  gum_page_address_compare a b = a - b.
Proof.
  intros Ha Hb Hd.
  unfold gum_page_address_compare, gsize_to_gint, gsize_sub, GPOINTER_TO_SIZE.
  rewrite (Z.mod_small a), (Z.mod_small b) by assumption.
  change (2 ^ 64) with (2 ^ 32 * 2 ^ 32) in *.
  change (2 ^ 31) with 2147483648 in *.
  change (2 ^ 32) with 4294967296 in *.
  destruct (Z.le_gt_cases 0 (a - b)) as [Hpos|Hneg].
  - rewrite (Z.mod_small (a - b)) by lia.
    rewrite Z.mod_small by lia. lia.
  - replace ((a - b) mod (4294967296 * 4294967296))
      with (a - b + 4294967296 * 4294967296).
    2:{ apply Z.mod_unique with (q := -1); lia. }
    replace (a - b + 4294967296 * 4294967296 + 2147483648)
      with (a - b + 2147483648 + 4294967296 * 4294967296) by lia.
    rewrite Z.mod_add by lia.
    rewrite Z.mod_small by lia. lia.
Qed.

Section SortAscending.
Variable compare_func : gpointer -> gpointer -> gint.

Lemma g_list_sort_merge_sorted (l1 : list gpointer) :
  forall l2,
    (forall a b, In a (l1 ++ l2) -> In b (l1 ++ l2) ->
       (compare_func a b <= 0 <-> a <= b)) ->
    StronglySorted Z.le l1 -> StronglySorted Z.le l2 ->
    StronglySorted Z.le (g_list_sort_merge compare_func l1 l2).
Proof.
  induction l1 as [|a1 l1 IH1]; intros l2 Hcmp H1 H2.
  - destruct l2; exact H2.
  - induction l2 as [|a2 l2 IH2].
    + exact H1.
    + cbn [g_list_sort_merge].
      apply StronglySorted_inv in H1. destruct H1 as [H1 Ha1].
      apply StronglySorted_inv in H2. destruct H2 as [H2 Ha2].
      assert (Hc : compare_func a1 a2 <= 0 <-> a1 <= a2).
      { apply Hcmp; [now left | apply in_or_app; right; now left]. }
      destruct (Z.leb_spec (compare_func a1 a2) 0) as [Hle|Hgt].
      * constructor.
        -- apply IH1; [|exact H1 | now constructor].
           intros a b Ha Hb. apply Hcmp; now right.
        -- apply Forall_forall. intros x Hx.
           apply (Permutation_in _ (g_list_sort_merge_perm compare_func
                                      l1 (a2 :: l2))) in Hx.
           apply in_app_or in Hx. rewrite Forall_forall in Ha1, Ha2.
           destruct Hx as [Hx|[<-|Hx]];
             [now apply Ha1 | now apply Hc |].
           specialize (Ha2 x Hx). apply Hc in Hle. lia.
      * constructor.
        -- apply IH2; [|exact H2].
           intros a b Ha Hb. apply Hcmp.
           ++ apply in_app_or in Ha. apply in_or_app.
              destruct Ha as [Ha|Ha]; [now left | right; now right].
           ++ apply in_app_or in Hb. apply in_or_app.
              destruct Hb as [Hb|Hb]; [now left | right; now right].
        -- apply Forall_forall. intros x Hx.
           assert (Hx' : In x ((a1 :: l1) ++ l2)).
           { eapply Permutation_in;
               [apply (g_list_sort_merge_perm compare_func (a1 :: l1) l2)|].
             exact Hx. }
           assert (Hlt : a2 < a1) by (destruct (Z.le_gt_cases a1 a2);
                                       [apply Hc in H; lia | lia]).
           rewrite Forall_forall in Ha1, Ha2.
           apply in_app_or in Hx'. destruct Hx' as [[<-|Hx']|Hx'].
           ++ lia.
           ++ specialize (Ha1 x Hx'). lia.
           ++ now apply Ha2.
Qed.

Lemma g_list_sort_real_sorted n :
  forall l,
    (length l <= S n)%nat ->
    (forall a b, In a l -> In b l -> (compare_func a b <= 0 <-> a <= b)) ->
    StronglySorted Z.le (g_list_sort_real compare_func n l).
Proof.
  induction n as [|n IH]; intros l Hlen Hcmp; cbn [g_list_sort_real].
  - destruct l as [|x [|y l]]; [constructor | repeat constructor|].
    cbn in Hlen. lia.
  - destruct l as [|x [|y l]]; [constructor | repeat constructor|].
    set (l0 := x :: y :: l) in *.
    set (half := (length l0 / 2)%nat).
    assert (Hhalf : (1 <= half /\ half < length l0)%nat).
    { unfold half. cbn [length l0].
      split; [apply Nat.div_le_lower_bound; lia|].
      apply Nat.Div0.div_lt_upper_bound; lia. }
    assert (Hin : forall a, In a (firstn half l0) \/ In a (skipn half l0) ->
                       In a l0).
    { intros a H. rewrite <- (firstn_skipn half l0). now apply in_or_app. }
    apply g_list_sort_merge_sorted.
    + intros a b Ha Hb. apply Hcmp; apply Hin; apply in_app_or.
      * eapply Permutation_in; [|exact Ha].
        apply Permutation_app; apply g_list_sort_real_perm.
      * eapply Permutation_in; [|exact Hb].
        apply Permutation_app; apply g_list_sort_real_perm.
    + apply IH.
      * rewrite length_firstn. lia.
      * intros a b Ha Hb. apply Hcmp; apply Hin; now left.
    + apply IH.
      * rewrite length_skipn. lia.
      * intros a b Ha Hb. apply Hcmp; apply Hin; now right.
Qed.

End SortAscending.

(** The commit's page list is in ascending order when the pending pages
    lie less than 2 GiB apart. *)
Lemma close_pages_sorted pages :
  close_pages pages ->
  StronglySorted Z.le (g_list_sort gum_page_address_compare pages).
Proof.
  intros Hclose. apply g_list_sort_real_sorted; [lia|].
  intros a b Ha Hb. destruct (Hclose a b Ha Hb) as (Ha' & Hb' & Hd).
  rewrite page_address_compare_close by assumption. lia.
Qed.

(** An instance of the order within a page: the two tasks filed under page
    0x401000 run in the order they were scheduled. *)
Lemma same_page_order :
  pending_update_tasks (transaction demo_same_page)
  = [(4198400,
      [{| update_ctx := 0%nat; update_func := gum_interceptor_activate_func |};
       {| update_ctx := 1%nat;
          update_func := gum_interceptor_activate_func |}])]
  /\ exists st',
       gum_interceptor_end_transaction demo_host demo_same_page = Some st'
       /\ update_events (new_events demo_same_page st')
          = [EvActivateTrampoline 0%nat 4198400;
             EvActivateTrampoline 1%nat 4198656].
Proof.
  split; [vm_compute; reflexivity|].
  eexists. split; vm_compute; reflexivity.
Qed.

(** ** Hook leave *)

Lemma dispatch_on_leave_frame entries :
  forall e st,
    let r := dispatch_on_leave entries e st in
    fst r = on_leave_effect entries e
    /\ trace (snd r) = trace st ++ map EvOnLeave (on_leave_listeners entries)
    /\ interceptor (snd r) = interceptor st
    /\ contexts (snd r) = contexts st
    /\ arrays (snd r) = arrays st
    /\ thread_context (snd r) = thread_context st
    /\ guard (snd r) = guard st
    /\ next_context (snd r) = next_context st
    /\ next_array (snd r) = next_array st.
Proof.
  induction entries as [|slot rest IH]; intros e st; cbn.
  - rewrite app_nil_r. split_and; reflexivity.
  - destruct slot as [le|]; [|apply IH].
    destruct (on_leave (listener_interface le)) as [cb|]; cbn; [|apply IH].
    destruct (IH (cb e) (emit (EvOnLeave (listener_instance le)) st))
      as (H0 & H1 & H2 & H3 & H4 & H5 & H6 & H7 & H8).
    split_and; try assumption.
    rewrite H1. cbn. now rewrite <- app_assoc.
Qed.

Lemma dispatch_on_enter_alloc entries :
  forall e st,
    next_context (snd (dispatch_on_enter entries e st)) = next_context st
    /\ next_array (snd (dispatch_on_enter entries e st)) = next_array st.
Proof.
  induction entries as [|slot rest IH]; intros e st; cbn; [now split|].
  destruct slot as [le|]; [|apply IH].
  destruct (on_enter (listener_interface le)) as [cb|]; [|apply IH].
  apply (IH (cb e) (emit (EvOnEnter (listener_instance le)) st)).
Qed.

Section HookLeave.
Variable host : Host.

(** The state a trapping hook entry leaves behind. *)
Lemma begin_invocation_trap f cpu ra st :
  bypassed host f st = false ->
  let c := contexts st f in
  entry_will_trap_on_leave c
    (thread_selected host st && (current_ignore_level st <=? 0)) = true ->
  let r := _gum_function_context_begin_invocation host f cpu ra st in
  (exists e,
     gum_interceptor_get_current_stack (snd r)
     = gum_interceptor_get_current_stack st ++ [e]
     /\ function_ctx e = f
     /\ caller_ret_addr e = ra
     /\ invocation_function e
        = gum_sign_code_pointer host (function_address c)
     /\ calling_replacement e = negb (replacement_function c =? NULL))
  /\ thread_context (snd r) <> None
  /\ current_ignore_level (snd r) = current_ignore_level st
  /\ contexts (snd r) = upd (contexts st) f (add_usage 1 c)
  /\ arrays (snd r) = arrays st
  /\ interceptor (snd r) = interceptor st
  /\ guard (snd r) = false
  /\ next_context (snd r) = next_context st
  /\ next_array (snd r) = next_array st.
Proof.
  intros Hb c Hwt r. unfold bypassed in Hb. apply orb_false_elim in Hb.
  destruct Hb as [Hg Hre]. subst r.
  assert (Hil : thread_selected host st && (current_ignore_level st <=? 0)
                = entry_invoke_listeners host (interceptor st)
                    (fst (get_interceptor_thread_context st))).
  { rewrite entry_invoke_listeners_eq. reflexivity. }
  rewrite Hil in Hwt.
  unfold _gum_function_context_begin_invocation.
  assert (Hc : contexts (g_atomic_int_inc f st) f = add_usage 1 c).
  { unfold g_atomic_int_inc, update_context. cbn. apply upd_eq. }
  rewrite Hc.
  cbn [guard g_atomic_int_inc update_context set_contexts].
  rewrite Hg.
  assert (Hre' : replacement_reentry host
                   (stack (fst (get_interceptor_thread_context st)))
                   (add_usage 1 c) = false).
  { rewrite <- Hre. unfold c, get_interceptor_thread_context,
      gum_interceptor_get_current_stack.
    destruct (thread_context st); reflexivity. }
  unfold current_ignore_level, get_interceptor_thread_context in *.
  replace (thread_context (set_guard true (g_atomic_int_inc f st)))
    with (thread_context st) by reflexivity.
  replace (entry_will_trap_on_leave (add_usage 1 c))
    with (entry_will_trap_on_leave c) by reflexivity.
  replace (replacement_function (add_usage 1 c))
    with (replacement_function c) by reflexivity.
  replace (function_address (add_usage 1 c))
    with (function_address c) by reflexivity.
  replace (listener_entries (add_usage 1 c))
    with (listener_entries c) by reflexivity.
  destruct (thread_context st) as [tc|] eqn:Htc; cbn [fst snd] in *;
    cbv beta iota;
    rewrite Hre';
    cbn [interceptor set_guard set_thread_context g_atomic_int_inc
         update_context set_contexts arrays system_error];
    rewrite Hwt;
    destruct (entry_invoke_listeners host (interceptor st) _) eqn:Hinv;
    destruct (negb (replacement_function c =? NULL)) eqn:Hrep;
    cbn [orb andb negb].
  all: try match goal with
    | |- context [dispatch_on_enter ?a ?b ?s] =>
        pose proof (dispatch_on_enter_frame a b s) as Hd;
        pose proof (dispatch_on_enter_alloc a b s) as Hal;
        destruct (dispatch_on_enter a b s) as [e' st'];
        cbn [fst snd] in Hd, Hal;
        destruct Hd as (Ht & Hi & Hcx & Ha & Hth & Hgd);
        destruct Hal as (Hnc & Hna)
    end.
  all: cbn [fst snd].
  all: unfold gum_invocation_stack_push; rewrite ?update_top_snoc;
       unfold gum_invocation_stack_pop; rewrite ?update_top_snoc.
  all: unfold gum_interceptor_get_current_stack, current_ignore_level,
         get_interceptor_thread_context.
  all: cbn [trace contexts thread_context set_thread_context set_guard
            set_system_error set_contexts set_stack stack ignore_level
            fst snd arrays interceptor guard next_context next_array].
  all: rewrite ?Htc.
  all: cbn [stack interceptor_thread_context_new app].
  all: split; [eexists; split; [reflexivity|]; cbn; split_and; reflexivity|].
  all: rewrite ?Hcx, ?Ha, ?Hi, ?Hnc, ?Hna.
  all: split_and; try reflexivity; try discriminate.
Qed.

(** What a hook leave does, on a stack whose top frame is [top]. *)
Lemma end_invocation_run f cpu st below top :
  gum_interceptor_get_current_stack st = below ++ [top] ->
  exists l st',
    _gum_function_context_end_invocation host f cpu st = Some (l, st')
    /\ leave_next_hop l = gum_sign_code_pointer host (caller_ret_addr top)
    /\ leave_cpu_context l
       = gum_function_context_fixup_cpu_context (contexts st f) cpu
    /\ gum_interceptor_get_current_stack st' = below
    /\ current_ignore_level st' = current_ignore_level st
    /\ contexts st' = upd (contexts st) f (add_usage (-1) (contexts st f))
    /\ trace st'
       = trace st ++ map EvOnLeave (on_leave_listeners (entries_of st f))
    /\ system_error st'
       = on_leave_effect (entries_of st f)
           (if calling_replacement top
               && negb (invocation_system_error top
                        =? original_system_error top)
            then invocation_system_error top
            else system_error st)
    /\ guard st' = false
    /\ arrays st' = arrays st
    /\ interceptor st' = interceptor st
    /\ next_context st' = next_context st
    /\ next_array st' = next_array st.
Proof.
  intros Hstack.
  unfold _gum_function_context_end_invocation, get_interceptor_thread_context,
    gum_interceptor_get_current_stack, current_ignore_level,
    get_interceptor_thread_context in *.
  cbn [thread_context set_guard system_error].
  destruct (thread_context st) as [tc|] eqn:Htc;
    [|destruct below; discriminate].
  rewrite Hstack, peek_top_snoc.
  cbn [contexts set_guard arrays].
  match goal with
  | |- context [dispatch_on_leave ?a ?b ?s] =>
      pose proof (dispatch_on_leave_frame a b s) as Hd;
      destruct (dispatch_on_leave a b s) as [e' st1]; cbn [fst snd] in Hd;
      destruct Hd as (He & Ht & Hi & Hcx & Ha & Hth & Hgd & Hnc & Hna)
  end.
  eexists. eexists. split; [reflexivity|].
  rewrite !update_top_snoc. unfold gum_invocation_stack_pop.
  rewrite removelast_last.
  unfold g_atomic_int_dec_and_test, update_context, entries_of.
  cbn [leave_next_hop leave_cpu_context thread_context set_thread_context
       set_guard set_system_error set_contexts contexts stack set_stack
       ignore_level trace system_error guard arrays interceptor
       next_context next_array fst].
  rewrite Hcx, Ht, Ha, Hi, Hnc, Hna, He.
  cbn [contexts set_guard trace arrays interceptor next_context next_array].
  split_and; reflexivity.
Qed.

Lemma add_usage_cancel c : add_usage (-1) (add_usage 1 c) = c.
Proof. destruct c. unfold add_usage. cbn. f_equal. lia. Qed.

(** X1. A hook entry that installs the on-leave trap, followed by the hook
    leave of the same context: the leave hands back the caller's return
    address (signed), the shadow stack, the ignore level and every context
    (usage counters included) are as before the entry, the guard is
    released, and the leave has called the [on_leave] callbacks of the live
    entries in slot order. *)
Theorem begin_end_invocation f cpu cpu' ra st :
  bypassed host f st = false ->
  entry_will_trap_on_leave (contexts st f)
    (thread_selected host st && (current_ignore_level st <=? 0)) = true ->
  let entered :=
    snd (_gum_function_context_begin_invocation host f cpu ra st) in
  exists l st',
    _gum_function_context_end_invocation host f cpu' entered = Some (l, st')
    /\ leave_next_hop l = gum_sign_code_pointer host ra
    /\ gum_interceptor_get_current_stack st'
       = gum_interceptor_get_current_stack st
    /\ current_ignore_level st' = current_ignore_level st
    /\ (forall q, contexts st' q = contexts st q)
    /\ guard st' = false
    /\ new_events entered st'
       = map EvOnLeave (on_leave_listeners (entries_of st f)).
Proof.
  intros Hb Hwt entered.
  destruct (begin_invocation_trap f cpu ra st Hb Hwt)
    as ((e & Hstack & Hf & Hra & _ & _) & _ & Hlevel & Hc & Ha & _).
  fold entered in Hstack, Hlevel, Hc, Ha.
  destruct (end_invocation_run f cpu' entered _ e Hstack)
    as (l & st' & Hend & Hhop & _ & Hs' & Hl' & Hc' & Ht' & _ & Hg' & _).
  exists l, st'. split; [exact Hend|].
  assert (He : entries_of entered f = entries_of st f).
  { unfold entries_of. rewrite Hc, Ha, upd_eq. reflexivity. }
  split; [now rewrite Hhop, Hra|].
  split; [exact Hs'|].
  split; [now rewrite Hl'|].
  split.
  { intros q. rewrite Hc', Hc. unfold upd.
    destruct (Nat.eqb_spec q f) as [->|Hne]; [|reflexivity].
    rewrite Nat.eqb_refl. apply add_usage_cancel. }
  split; [exact Hg'|].
  apply new_events_app. now rewrite Ht', He.
Qed.

(** X2. The hook leave does not consult the ignore level or the selected
    thread: whatever they are, it calls the [on_leave] callback of every
    live entry that has one, in slot order, pops the top frame and returns
    its caller's return address; the thread's system error becomes what the
    callbacks make of the replacement's error when a replacement changed
    it, and of the thread's own error otherwise. *)
Theorem end_invocation_dispatch f cpu st below top lvl id :
  gum_interceptor_get_current_stack st = below ++ [top] ->
  let st0 := with_ignore_level lvl (set_selected_thread_id id st) in
  exists l st',
    _gum_function_context_end_invocation host f cpu st0 = Some (l, st')
    /\ new_events st0 st'
       = map EvOnLeave (on_leave_listeners (entries_of st f))
    /\ leave_next_hop l = gum_sign_code_pointer host (caller_ret_addr top)
    /\ gum_interceptor_get_current_stack st' = below
    /\ current_ignore_level st' = lvl
    /\ system_error st'
       = on_leave_effect (entries_of st f)
           (if calling_replacement top
               && negb (invocation_system_error top
                        =? original_system_error top)
            then invocation_system_error top
            else system_error st)
    /\ trampoline_usage_counter (contexts st' f)
       = trampoline_usage_counter (contexts st f) - 1.
Proof.
  intros Hstack st0.
  assert (Hstack0 : gum_interceptor_get_current_stack st0 = below ++ [top]).
  { rewrite <- Hstack. unfold st0, with_ignore_level,
      gum_interceptor_get_current_stack, get_interceptor_thread_context.
    cbn. destruct (thread_context st); reflexivity. }
  assert (Hl0 : current_ignore_level st0 = lvl).
  { unfold st0, with_ignore_level, current_ignore_level,
      get_interceptor_thread_context. reflexivity. }
  destruct (end_invocation_run f cpu st0 below top Hstack0)
    as (l & st' & Hend & Hhop & _ & Hs' & Hl' & Hc' & Ht' & He' & _).
  exists l, st'. split; [exact Hend|].
  split; [apply new_events_app; exact Ht'|].
  split; [exact Hhop|]. split; [exact Hs'|].
  split; [now rewrite Hl'|].
  split; [exact He'|].
  rewrite Hc', upd_eq. cbn. lia.
Qed.

End HookLeave.

Lemma begin_end_invocation_witness :
  bypassed demo_host O demo_attached = false
  /\ exists l st',
       _gum_function_context_end_invocation demo_host O demo_cpu demo_entered
       = Some (l, st')
       /\ leave_next_hop l = 5000
       /\ gum_interceptor_get_current_stack st' = []
       /\ new_events demo_entered st' = [EvOnLeave 1].
Proof.
  assert (Hb : bypassed demo_host O demo_attached = false)
    by (vm_compute; reflexivity).
  assert (Hwt : entry_will_trap_on_leave (contexts demo_attached O)
                  (thread_selected demo_host demo_attached
                   && (current_ignore_level demo_attached <=? 0)) = true)
    by (vm_compute; reflexivity).
  split; [exact Hb|].
  destruct (begin_end_invocation demo_host O demo_cpu demo_cpu 5000
              demo_attached Hb Hwt)
    as (l & st' & Hend & Hhop & Hs & _ & _ & _ & Hev).
  exists l, st'. split; [exact Hend|]. split; [exact Hhop|].
  split; [exact Hs|]. exact Hev.
Defined.

Lemma end_invocation_dispatch_witness :
  gum_interceptor_get_current_stack demo_in_flight
  = [demo_frame O 1000] ++ [demo_frame O 2000]
  /\ exists l st',
       _gum_function_context_end_invocation demo_host O demo_cpu
         (with_ignore_level 3 (set_selected_thread_id 5 demo_in_flight))
       = Some (l, st')
       /\ new_events
            (with_ignore_level 3 (set_selected_thread_id 5 demo_in_flight))
            st'
          = [EvOnLeave 1]
       /\ leave_next_hop l = 2000.
Proof.
  assert (Hs : gum_interceptor_get_current_stack demo_in_flight
               = [demo_frame O 1000] ++ [demo_frame O 2000])
    by (vm_compute; reflexivity).
  split; [exact Hs|].
  destruct (end_invocation_dispatch demo_host O demo_cpu demo_in_flight
              [demo_frame O 1000] (demo_frame O 2000) 3 5 Hs)
    as (l & st' & Hend & Hev & Hhop & _).
  exists l, st'. split; [exact Hend|]. split; [exact Hev | exact Hhop].
Defined.

(** ** Listener data slots of a thread *)

Lemma set_listener_data_slot_nth i x :
  forall slots j,
    nth_error (set_listener_data_slot i x slots) j
    = if Nat.eqb j i
      then match nth_error slots j with Some _ => Some x | None => None end
      else nth_error slots j.
Proof.
  induction i as [|i IH]; intros [|s slots] [|j]; cbn; try reflexivity.
  - now destruct (Nat.eqb j i).
  - apply IH.
Qed.

Lemma set_listener_data_slot_length i x :
  forall slots, length (set_listener_data_slot i x slots) = length slots.
Proof.
  induction i as [|i IH]; intros [|s slots]; cbn; try reflexivity.
  now rewrite IH.
Qed.

(** The scan stops at the first slot of [listener]. *)
Lemma find_listener_data_slot_first listener :
  forall slots i k available_slot slot,
    nth_error slots k = Some slot ->
    owner slot = listener ->
    (forall k' s, (k' < k)%nat -> nth_error slots k' = Some s ->
       owner s <> listener) ->
    find_listener_data_slot slots i listener available_slot
    = inl (i + k)%nat.
Proof.
  induction slots as [|s slots IH]; intros i k av slot Hn Ho Hfirst;
    [destruct k; discriminate|].
  cbn [find_listener_data_slot]. destruct k as [|k].
  - cbn in Hn. injection Hn as ->. rewrite Ho, Z.eqb_refl.
    now rewrite Nat.add_0_r.
  - destruct (Z.eqb_spec (owner s) listener) as [E|_].
    + exfalso. apply (Hfirst O s); [lia | reflexivity | exact E].
    + replace (i + S k)%nat with (S i + k)%nat by lia.
      destruct (owner s =? NULL); apply (IH _ _ _ slot); try assumption;
        intros k' s' Hk' Hn'; apply (Hfirst (S k') s'); try lia; exact Hn'.
Qed.

Lemma find_listener_data_slot_inl listener :
  forall slots i available_slot j,
    find_listener_data_slot slots i listener available_slot = inl j ->
    exists k slot,
      j = (i + k)%nat /\ nth_error slots k = Some slot
      /\ owner slot = listener
      /\ forall k' s, (k' < k)%nat -> nth_error slots k' = Some s ->
           owner s <> listener.
Proof.
  induction slots as [|s slots IH]; intros i av j; cbn; [discriminate|].
  destruct (Z.eqb_spec (owner s) listener) as [E|Hne].
  - intros H. injection H as <-. exists O, s.
    split; [lia|]. split; [reflexivity|]. split; [exact E|].
    intros k' s' Hk'. lia.
  - intros H.
    assert (Hr : exists k slot,
              j = (S i + k)%nat /\ nth_error slots k = Some slot
              /\ owner slot = listener
              /\ forall k' s, (k' < k)%nat -> nth_error slots k' = Some s ->
                   owner s <> listener)
      by (destruct (owner s =? NULL); eapply IH; eauto).
    destruct Hr as (k & slot & -> & Hn & Ho & Hfirst).
    exists (S k), slot. split; [lia|]. split; [exact Hn|].
    split; [exact Ho|].
    intros [|k'] s' Hk'; cbn; [intros E; now injection E as <-|].
    apply Hfirst. lia.
Qed.

Lemma find_listener_data_slot_inr listener :
  forall slots i available_slot r,
    find_listener_data_slot slots i listener available_slot = inr r ->
    (forall k s, nth_error slots k = Some s -> owner s <> listener)
    /\ ((r = available_slot
         /\ forall k s, nth_error slots k = Some s -> owner s <> NULL)
        \/ exists k s,
             r = Some (i + k)%nat /\ nth_error slots k = Some s
             /\ owner s = NULL).
Proof.
  induction slots as [|s slots IH]; intros i av r; cbn.
  - intros H. injection H as <-. split.
    + intros [|k] s'; discriminate.
    + left. split; [reflexivity|]. intros [|k] s'; discriminate.
  - destruct (Z.eqb_spec (owner s) listener) as [E|Hne]; [discriminate|].
    destruct (Z.eqb_spec (owner s) NULL) as [Hfree|Hne0]; intros H;
      destruct (IH _ _ _ H) as (Hnone & Hr).
    + split.
      * intros [|k] s'; cbn; [intros E; now injection E as <-|apply Hnone].
      * right. destruct Hr as [[-> _]|(k & s' & -> & Hn & Ho)].
        -- exists O, s. split; [f_equal; lia|]. now split.
        -- exists (S k), s'. split; [f_equal; lia|]. now split.
    + split.
      * intros [|k] s'; cbn; [intros E; now injection E as <-|apply Hnone].
      * destruct Hr as [[-> Hall]|(k & s' & -> & Hn & Ho)].
        -- left. split; [reflexivity|].
           intros [|k] s'; cbn; [intros E; now injection E as <-|apply Hall].
        -- right. exists (S k), s'. split; [f_equal; lia|]. now split.
Qed.

Section ListenerData.
Variable GUM_MAX_LISTENER_DATA : Z.

(** What a request of admissible size does. *)
Lemma get_listener_data_run self listener required_size :
  required_size <= GUM_MAX_LISTENER_DATA ->
  let r := interceptor_thread_context_get_listener_data
             GUM_MAX_LISTENER_DATA self listener required_size in
  exists i slot,
    fst r = Some i
    /\ nth_error (snd r) i = Some slot
    /\ owner slot = listener
    /\ (forall k s, (k < i)%nat -> nth_error (snd r) k = Some s ->
          owner s <> listener)
    /\ (owns self listener -> snd r = self)
    /\ (~ owns self listener ->
        slot = {| owner := listener;
                  data := zeroed_data GUM_MAX_LISTENER_DATA |}
        /\ (((forall k s, nth_error self k = Some s -> owner s <> NULL)
             /\ i = length self /\ snd r = self ++ [slot])
            \/ (exists old,
                  nth_error self i = Some old /\ owner old = NULL
                  /\ snd r = set_listener_data_slot i slot self))).
Proof.
  intros Hsize r. subst r.
  unfold interceptor_thread_context_get_listener_data.
  destruct (Z.gtb_spec required_size GUM_MAX_LISTENER_DATA) as [Hgt|_];
    [lia|].
  destruct (find_listener_data_slot self 0 listener None) as [j|r] eqn:Hfind.
  - destruct (find_listener_data_slot_inl _ _ _ _ _ Hfind)
      as (k & slot & -> & Hn & Ho & Hfirst).
    exists k, slot. cbn [fst snd Nat.add].
    split_and; try assumption; try reflexivity.
    intros Hnot. exfalso. apply Hnot. now exists k, slot.
  - destruct (find_listener_data_slot_inr _ _ _ _ _ Hfind) as (Hnone & Hr).
    set (fresh := {| owner := listener;
                     data := zeroed_data GUM_MAX_LISTENER_DATA |}).
    assert (Hown : owns self listener -> False).
    { intros (j & s & Hn & Ho). now apply (Hnone j s). }
    destruct Hr as [[-> Hfull]|(k & old & -> & Hn & Hfree)].
    + exists (length self), fresh. cbn [fst snd].
      split; [reflexivity|].
      split; [rewrite nth_error_app2, Nat.sub_diag by lia; reflexivity|].
      split; [reflexivity|].
      split.
      { intros k s Hk. rewrite nth_error_app1 by exact Hk. apply Hnone. }
      split; [intros H; destruct (Hown H)|].
      intros _. split; [reflexivity|]. left. now split_and.
    + cbn [Nat.add]. exists k, fresh. cbn [fst snd].
      split; [reflexivity|].
      split; [rewrite set_listener_data_slot_nth, Nat.eqb_refl, Hn;
              reflexivity|].
      split; [reflexivity|].
      split.
      { intros k' s Hk. rewrite set_listener_data_slot_nth.
        destruct (Nat.eqb_spec k' k); [lia|]. apply Hnone. }
      split; [intros H; destruct (Hown H)|].
      intros _. split; [reflexivity|]. right. now exists old.
Qed.

Lemma forget_listener_data_run listener :
  forall self,
    (~ owns self listener
     /\ interceptor_thread_context_forget_listener_data self listener = self)
    \/ (exists i slot,
          nth_error self i = Some slot /\ owner slot = listener
          /\ (forall k s, (k < i)%nat -> nth_error self k = Some s ->
                owner s <> listener)
          /\ interceptor_thread_context_forget_listener_data self listener
             = set_listener_data_slot i
                 {| owner := NULL; data := data slot |} self).
Proof.
  induction self as [|s self IH]; cbn.
  - left. split; [|reflexivity]. intros ([|j] & slot & Hn & _); discriminate.
  - destruct (Z.eqb_spec (owner s) listener) as [E|Hne].
    + right. exists O, s. split; [reflexivity|]. split; [exact E|].
      split; [intros k s' Hk; lia | reflexivity].
    + destruct IH as [[Hnot ->]|(i & slot & Hn & Ho & Hfirst & ->)].
      * left. split; [|reflexivity].
        intros ([|j] & slot & Hn & Ho); cbn in Hn.
        -- injection Hn as <-. contradiction.
        -- apply Hnot. now exists j, slot.
      * right. exists (S i), slot. split; [exact Hn|]. split; [exact Ho|].
        split; [|reflexivity].
        intros [|k] s' Hk; cbn; [intros E; now injection E as <-|].
        apply Hfirst. lia.
Qed.

(** X3. A request of admissible size returns a slot that [listener] owns;
    asking again returns the same slot and changes nothing; the array grows
    by at most one slot, and only when the listener had no slot and no slot
    was free. *)
Theorem listener_data_idempotent self listener required_size again :
  required_size <= GUM_MAX_LISTENER_DATA ->
  again <= GUM_MAX_LISTENER_DATA ->
  let r := interceptor_thread_context_get_listener_data
             GUM_MAX_LISTENER_DATA self listener required_size in
  exists i slot,
    fst r = Some i
    /\ nth_error (snd r) i = Some slot
    /\ owner slot = listener
    /\ interceptor_thread_context_get_listener_data GUM_MAX_LISTENER_DATA
         (snd r) listener again
       = (Some i, snd r)
    /\ (length self <= length (snd r) <= S (length self))%nat
    /\ (length (snd r) = S (length self) ->
        ~ owns self listener
        /\ forall k s, nth_error self k = Some s -> owner s <> NULL).
Proof.
  intros Hsize Hagain r.
  destruct (get_listener_data_run self listener required_size Hsize)
    as (i & slot & Hi & Hn & Ho & Hfirst & Hkeep & Hnew).
  fold r in Hi, Hn, Hfirst, Hkeep, Hnew.
  exists i, slot. split; [exact Hi|]. split; [exact Hn|]. split; [exact Ho|].
  split.
  { unfold interceptor_thread_context_get_listener_data at 1.
    destruct (Z.gtb_spec again GUM_MAX_LISTENER_DATA); [lia|].
    rewrite (find_listener_data_slot_first listener (snd r) 0 i None slot
               Hn Ho Hfirst).
    reflexivity. }
  assert (Hcases : owns self listener \/ ~ owns self listener).
  { destruct (find_listener_data_slot self 0 listener None) as [j|o] eqn:E.
    - left. destruct (find_listener_data_slot_inl _ _ _ _ _ E)
        as (k & s & _ & Hk & Hs & _). now exists k, s.
    - right. intros (k & s & Hk & Hs).
      destruct (find_listener_data_slot_inr _ _ _ _ _ E) as (Hnone & _).
      now apply (Hnone k s). }
  destruct Hcases as [Hown|Hnot].
  - rewrite (Hkeep Hown). split; [lia|]. intros H. lia.
  - destruct (Hnew Hnot) as (_ & [(Hfull & _ & Hr)|(old & Hold & _ & Hr)]);
      rewrite Hr.
    + rewrite length_app. cbn [length]. split; [lia|].
      intros _. now split.
    + rewrite set_listener_data_slot_length. split; [lia|]. intros H. lia.
Qed.

(** X4. A request never touches a slot another listener owns: every slot
    with an owner stays where it is with its bytes, and no listener comes to
    own two slots; so two distinct listeners never get the same slot. *)
Theorem listener_data_isolated self listener required_size :
  owners_unique self ->
  let r := interceptor_thread_context_get_listener_data
             GUM_MAX_LISTENER_DATA self listener required_size in
  owners_unique (snd r)
  /\ (forall j s,
        nth_error self j = Some s -> owner s <> NULL ->
        nth_error (snd r) j = Some s)
  /\ (forall other size i,
        listener <> NULL -> other <> listener ->
        fst r = Some i ->
        fst (interceptor_thread_context_get_listener_data
               GUM_MAX_LISTENER_DATA (snd r) other size) <> Some i).
Proof.
  intros Hu r.
  assert (Hcases :
            snd r = self
            \/ (~ owns self listener
                /\ snd r
                   = self ++ [{| owner := listener;
                                 data := zeroed_data GUM_MAX_LISTENER_DATA |}])
            \/ (~ owns self listener
                /\ exists i old,
                     nth_error self i = Some old /\ owner old = NULL
                     /\ snd r
                        = set_listener_data_slot i
                            {| owner := listener;
                               data := zeroed_data GUM_MAX_LISTENER_DATA |}
                            self)).
  { subst r. unfold interceptor_thread_context_get_listener_data.
    destruct (required_size >? GUM_MAX_LISTENER_DATA); [now left|].
    destruct (find_listener_data_slot self 0 listener None) as [j|o] eqn:E;
      [now left|].
    destruct (find_listener_data_slot_inr _ _ _ _ _ E) as (Hnone & Hr).
    assert (Hnot : ~ owns self listener)
      by (intros (k & s & Hk & Hs); now apply (Hnone k s)).
    destruct Hr as [[-> _]|(k & old & -> & Hk & Hfree)].
    - right. left. now split.
    - right. right. split; [exact Hnot|]. now exists k, old. }
  assert (Hkeep : forall j s,
            nth_error self j = Some s -> owner s <> NULL ->
            nth_error (snd r) j = Some s).
  { intros j s Hj Hs.
    destruct Hcases as [->|[(_ & ->)|(_ & i & old & Hi & Hfree & ->)]].
    - exact Hj.
    - rewrite nth_error_app1; [exact Hj|].
      apply nth_error_Some. congruence.
    - rewrite set_listener_data_slot_nth.
      destruct (Nat.eqb_spec j i) as [->|]; [congruence | exact Hj]. }
  assert (Hu' : owners_unique (snd r)).
  { destruct Hcases as [->|[(Hnot & ->)|(Hnot & i & old & Hi & Hfree & ->)]].
    - exact Hu.
    - intros j k sj sk Hj Hk Heq Hnn.
      destruct (Nat.lt_ge_cases j (length self)) as [Hjl|Hjl];
        destruct (Nat.lt_ge_cases k (length self)) as [Hkl|Hkl].
      + rewrite nth_error_app1 in Hj, Hk by assumption.
        now apply (Hu j k sj sk).
      + rewrite nth_error_app1 in Hj by assumption.
        rewrite nth_error_app2 in Hk by assumption.
        destruct (k - length self)%nat as [|d]; [|destruct d; discriminate].
        injection Hk as <-. cbn in Heq.
        exfalso. apply Hnot. now exists j, sj.
      + rewrite nth_error_app1 in Hk by assumption.
        rewrite nth_error_app2 in Hj by assumption.
        destruct (j - length self)%nat as [|d]; [|destruct d; discriminate].
        injection Hj as <-. cbn in Heq.
        exfalso. apply Hnot. now exists k, sk.
      + rewrite nth_error_app2 in Hj, Hk by assumption.
        destruct (j - length self)%nat as [|d] eqn:Ej;
          [|destruct d; discriminate].
        destruct (k - length self)%nat as [|d] eqn:Ek;
          [|destruct d; discriminate].
        lia.
    - intros j k sj sk Hj Hk Heq Hnn.
      rewrite set_listener_data_slot_nth in Hj, Hk.
      destruct (Nat.eqb_spec j i) as [->|Hji];
        destruct (Nat.eqb_spec k i) as [->|Hki].
      + reflexivity.
      + rewrite Hi in Hj. injection Hj as <-. cbn in Heq.
        exfalso. apply Hnot. now exists k, sk.
      + rewrite Hi in Hk. injection Hk as <-. cbn in Heq.
        exfalso. apply Hnot. now exists j, sj.
      + now apply (Hu j k sj sk). }
  split; [exact Hu'|]. split; [exact Hkeep|].
  intros other size i Hnn Hother Hi Hsame.
  set (r' := interceptor_thread_context_get_listener_data
               GUM_MAX_LISTENER_DATA (snd r) other size) in *.
  assert (Hslot : exists s, nth_error (snd r) i = Some s
                            /\ owner s = listener).
  { subst r. unfold interceptor_thread_context_get_listener_data in Hi |- *.
    destruct (required_size >? GUM_MAX_LISTENER_DATA); [discriminate|].
    destruct (find_listener_data_slot self 0 listener None) as [j|o] eqn:E.
    - cbn in Hi. injection Hi as ->.
      destruct (find_listener_data_slot_inl _ _ _ _ _ E)
        as (k & s & -> & Hk & Hs & _). now exists s.
    - destruct o as [a|]; cbn in Hi; injection Hi as <-; cbn [snd].
      + destruct (find_listener_data_slot_inr _ _ _ _ _ E)
          as (_ & [[Ho _]|(k & old & Ho & Hk & _)]); [discriminate|].
        injection Ho as ->. cbn [Nat.add].
        eexists. rewrite set_listener_data_slot_nth, Nat.eqb_refl, Hk.
        split; reflexivity.
      + eexists. rewrite nth_error_app2, Nat.sub_diag by lia.
        split; reflexivity. }
  destruct Hslot as (s & Hs & Hos).
  subst r'. unfold interceptor_thread_context_get_listener_data in Hsame.
  destruct (size >? GUM_MAX_LISTENER_DATA); [discriminate|].
  destruct (find_listener_data_slot (snd r) 0 other None) as [j|o] eqn:E.
  - cbn in Hsame. injection Hsame as ->.
    destruct (find_listener_data_slot_inl _ _ _ _ _ E)
      as (k & s' & -> & Hk & Hs' & _). cbn [Nat.add] in Hs. congruence.
  - destruct (find_listener_data_slot_inr _ _ _ _ _ E) as (_ & Hr).
    destruct Hr as [[-> _]|(k & old & -> & Hk & Hfree)];
      cbn [fst snd Nat.add] in Hsame.
    + injection Hsame as <-.
      assert (Hlt : (length (snd r) < length (snd r))%nat)
        by (apply nth_error_Some; congruence).
      lia.
    + injection Hsame as ->. congruence.
Qed.

(** X5. A request larger than [GUM_MAX_LISTENER_DATA] returns the null
    pointer and changes nothing.  A listener that owns no slot of the thread
    gets a slot whose bytes are all zero, whatever the slot held before. *)
Theorem listener_data_zeroed self listener required_size :
  (required_size > GUM_MAX_LISTENER_DATA ->
   interceptor_thread_context_get_listener_data GUM_MAX_LISTENER_DATA self
     listener required_size
   = (None, self))
  /\ (required_size <= GUM_MAX_LISTENER_DATA ->
      ~ owns self listener ->
      exists i slot,
        interceptor_thread_context_get_listener_data GUM_MAX_LISTENER_DATA
          self listener required_size
        = (Some i,
           snd (interceptor_thread_context_get_listener_data
                  GUM_MAX_LISTENER_DATA self listener required_size))
        /\ nth_error
             (snd (interceptor_thread_context_get_listener_data
                     GUM_MAX_LISTENER_DATA self listener required_size)) i
           = Some slot
        /\ owner slot = listener
        /\ data slot = repeat 0 (Z.to_nat GUM_MAX_LISTENER_DATA)).
Proof.
  split.
  - intros Hgt. unfold interceptor_thread_context_get_listener_data.
    destruct (Z.gtb_spec required_size GUM_MAX_LISTENER_DATA); [reflexivity|].
    lia.
  - intros Hsize Hnot.
    destruct (get_listener_data_run self listener required_size Hsize)
      as (i & slot & Hi & Hn & Ho & _ & _ & Hnew).
    destruct (Hnew Hnot) as (Hslot & _).
    exists i, slot. split.
    { rewrite <- Hi. now destruct (interceptor_thread_context_get_listener_data
                                    _ _ _ _). }
    split; [exact Hn|]. split; [exact Ho|]. rewrite Hslot. reflexivity.
Qed.

Lemma forget_listener_data_kept self listener :
  owners_unique self ->
  listener <> NULL ->
  let self' :=
    interceptor_thread_context_forget_listener_data self listener in
  ~ owns self' listener
  /\ length self' = length self
  /\ owners_unique self'
  /\ (forall j s,
        nth_error self j = Some s -> owner s <> listener ->
        nth_error self' j = Some s)
  /\ (owns self listener ->
      exists k s, nth_error self' k = Some s /\ owner s = NULL).
Proof.
  intros Hu Hnn self'. subst self'.
  destruct (forget_listener_data_run listener self)
    as [[Hnot ->]|(i & slot & Hi & Ho & _ & ->)].
  - split_and; try assumption; try reflexivity.
    + intros j s Hj _. exact Hj.
    + intros H. contradiction.
  - split_and.
    + intros (j & s & Hj & Hs). rewrite set_listener_data_slot_nth in Hj.
      destruct (Nat.eqb_spec j i) as [->|Hne].
      * rewrite Hi in Hj. injection Hj as <-. cbn in Hs. congruence.
      * apply Hne. apply (Hu j i s slot Hj Hi); congruence.
    + apply set_listener_data_slot_length.
    + intros j k sj sk Hj Hk Heq Hn0.
      rewrite set_listener_data_slot_nth in Hj, Hk.
      destruct (Nat.eqb_spec j i) as [->|Hji].
      { rewrite Hi in Hj. injection Hj as <-. cbn in Hn0. congruence. }
      destruct (Nat.eqb_spec k i) as [->|Hki].
      { rewrite Hi in Hk. injection Hk as <-. cbn in Heq. congruence. }
      now apply (Hu j k sj sk).
    + intros j s Hj Hs. rewrite set_listener_data_slot_nth.
      destruct (Nat.eqb_spec j i) as [->|]; [congruence | exact Hj].
    + intros _. eexists i, _.
      rewrite set_listener_data_slot_nth, Nat.eqb_refl, Hi.
      split; reflexivity.
Qed.

(** X6. Where no listener owns two slots, forgetting a listener leaves no
    slot of the thread in its name; the array keeps its length and every
    slot of another owner; and the next request of the listener reuses a
    freed slot, zeroed, so nothing of the old bytes is handed back. *)
Theorem listener_data_forgotten self listener required_size :
  owners_unique self ->
  listener <> NULL ->
  required_size <= GUM_MAX_LISTENER_DATA ->
  let self' :=
    interceptor_thread_context_forget_listener_data self listener in
  let r := interceptor_thread_context_get_listener_data
             GUM_MAX_LISTENER_DATA self' listener required_size in
  ~ owns self' listener
  /\ length self' = length self
  /\ owners_unique self'
  /\ (forall j s,
        nth_error self j = Some s -> owner s <> listener ->
        nth_error self' j = Some s)
  /\ (exists i slot,
        fst r = Some i /\ nth_error (snd r) i = Some slot
        /\ owner slot = listener
        /\ data slot = repeat 0 (Z.to_nat GUM_MAX_LISTENER_DATA))
  /\ (owns self listener -> length (snd r) = length self).
Proof.
  intros Hu Hnn Hsize self' r.
  destruct (forget_listener_data_kept self listener Hu Hnn)
    as (Hnot & Hlen & Hu' & Hkeep & Hfree).
  fold self' in Hnot, Hlen, Hu', Hkeep, Hfree.
  split; [exact Hnot|]. split; [exact Hlen|]. split; [exact Hu'|].
  split; [exact Hkeep|].
  destruct (get_listener_data_run self' listener required_size Hsize)
    as (i & slot & Hi & Hn & Ho & _ & _ & Hnew).
  fold r in Hi, Hn, Hnew.
  destruct (Hnew Hnot) as (Hslot & Hhow).
  split.
  { exists i, slot. split; [exact Hi|]. split; [exact Hn|].
    split; [exact Ho|]. rewrite Hslot. reflexivity. }
  intros Hown. destruct (Hfree Hown) as (k & s & Hk & Hs).
  destruct Hhow as [(Hfull & _)|(old & _ & _ & ->)].
  - exfalso. now apply (Hfull k s).
  - rewrite set_listener_data_slot_length. exact Hlen.
Qed.

End ListenerData.

(** X7. The second loop of [gum_interceptor_detach]: afterwards no thread
    context has a data slot in the listener's name, and every slot array
    keeps its length. *)
Theorem detach_forgets_listener_data thread_contexts listener :
  Forall owners_unique thread_contexts ->
  listener <> NULL ->
  Forall (fun self => ~ owns self listener)
    (forget_listener_data_everywhere thread_contexts listener)
  /\ map (@length _)
       (forget_listener_data_everywhere thread_contexts listener)
     = map (@length _) thread_contexts.
Proof.
  intros Hall Hnn. unfold forget_listener_data_everywhere.
  induction Hall as [|self rest Hu _ IH]; cbn; [split; constructor|].
  destruct IH as [IH1 IH2].
  destruct (forget_listener_data_kept self listener Hu Hnn)
    as (Hnot & Hlen & _).
  split; [constructor; assumption|]. now rewrite Hlen, IH2.
Qed.

Lemma demo_slots_unique : owners_unique demo_slots.
Proof.
  intros [|[|j]] [|[|k]] sj sk Hj Hk Heq Hnn; cbn in Hj, Hk;
    try reflexivity; try (destruct j; discriminate);
    try (destruct k; discriminate);
    injection Hj as <-; injection Hk as <-; cbn in *; congruence.
Qed.

Lemma demo_slots_not_owned : ~ owns demo_slots 3.
Proof.
  intros ([|[|j]] & s & Hj & Hs); cbn in Hj;
    try (destruct j; discriminate); injection Hj as <-; discriminate.
Qed.

Lemma listener_data_idempotent_witness :
  exists i,
    interceptor_thread_context_get_listener_data 2
      (snd (interceptor_thread_context_get_listener_data 2 demo_slots 3 1))
      3 2
    = (Some i,
       snd (interceptor_thread_context_get_listener_data 2 demo_slots 3 1)).
Proof.
  destruct (listener_data_idempotent 2 demo_slots 3 1 2
              ltac:(lia) ltac:(lia)) as (i & slot & _ & _ & _ & H & _).
  exists i. exact H.
Defined.

Lemma listener_data_isolated_witness :
  owners_unique demo_slots
  /\ nth_error (snd (interceptor_thread_context_get_listener_data 2
                       demo_slots 3 1)) 0
     = Some {| owner := 1; data := [7; 7] |}.
Proof.
  split; [exact demo_slots_unique|].
  apply (proj1 (proj2 (listener_data_isolated 2 demo_slots 3 1
                         demo_slots_unique)));
    [reflexivity | discriminate].
Defined.

Lemma listener_data_zeroed_witness :
  ~ owns demo_slots 3
  /\ exists i slot,
       nth_error (snd (interceptor_thread_context_get_listener_data 2
                         demo_slots 3 1)) i = Some slot
       /\ data slot = [0; 0].
Proof.
  split; [exact demo_slots_not_owned|].
  destruct (proj2 (listener_data_zeroed 2 demo_slots 3 1) ltac:(lia)
              demo_slots_not_owned) as (i & slot & _ & Hn & _ & Hd).
  exists i, slot. split; [exact Hn | exact Hd].
Defined.

Lemma listener_data_forgotten_witness :
  owners_unique demo_slots
  /\ ~ owns (interceptor_thread_context_forget_listener_data demo_slots 1) 1.
Proof.
  split; [exact demo_slots_unique|].
  apply (listener_data_forgotten 2 demo_slots 1 1 demo_slots_unique);
    [discriminate | lia].
Defined.

Lemma detach_forgets_listener_data_witness :
  Forall owners_unique [demo_slots; []]
  /\ Forall (fun self => ~ owns self 1)
       (forget_listener_data_everywhere [demo_slots; []] 1).
Proof.
  assert (H : Forall owners_unique [demo_slots; []]).
  { constructor; [exact demo_slots_unique|]. constructor; [|constructor].
    intros [|j] k sj sk Hj; discriminate. }
  split; [exact H|].
  apply (detach_forgets_listener_data [demo_slots; []] 1 H). discriminate.
Defined.

(** ** Reachable states *)

(** X8. In every state reached from [gum_interceptor_init] through the
    operations of the model: the address table has distinct keys and
    distinct contexts; its contexts are allocated and not destroyed; a
    context of the fast kind has no listener; at most one update is pending
    for a context, the assertion of each pending update holds, and a pending
    deactivation is for a destroyed context; a queued context destruction
    names its own context. *)
Theorem reachable_invariant host st :
  reachable host st ->
  let table := function_by_address (interceptor st) in
  let pending := all_update_tasks (pending_update_tasks (transaction st)) in
  NoDup (map fst table)
  /\ NoDup (map snd table)
  /\ (forall a ctx,
        In (a, ctx) table ->
        (ctx < next_context st)%nat /\ destroyed (contexts st ctx) = false)
  /\ (forall a ctx l,
        g_hash_table_lookup table a = Some ctx ->
        type (contexts st ctx) = GUM_INTERCEPTOR_TYPE_FAST ->
        gum_function_context_has_listener st ctx l = false)
  /\ NoDup (map update_ctx pending)
  /\ Forall (update_task_ready (contexts st)) pending
  /\ Forall
       (fun t =>
          update_func t = gum_interceptor_deactivate_func ->
          destroyed (contexts st (update_ctx t)) = true) pending
  /\ Forall
       (fun t =>
          task_notify t = gum_function_context_perform_destroy_notify ->
          task_data t = Z.of_nat (task_ctx t))
       (pending_destroy_tasks (transaction st)).
Proof.
  intros Hr table pending. apply reachable_wf in Hr.
  destruct Hr as [Hu Hd Hde Ht Hf].
  destruct Ht as (Hk & Hv & Hall). destruct Hu as (_ & Hnd & Hready & _).
  split; [exact Hk|]. split; [exact Hv|].
  split.
  { intros a ctx Hin. destruct (Hall a ctx Hin) as (H1 & H2 & _).
    now split. }
  split.
  { intros a ctx l Hl Hty.
    destruct (gum_function_context_has_listener st ctx l) eqn:Hhas;
      [|reflexivity].
    unfold gum_function_context_has_listener,
      gum_function_context_find_listener in Hhas.
    destruct (find_listener_from 0 (entries_of st ctx) l) as [j|] eqn:E;
      [|discriminate].
    destruct (find_listener_from_live _ _ _ _ E) as (e & Hin).
    specialize (Hf a ctx (Some e) (lookup_In _ _ _ Hl) Hty Hin).
    discriminate. }
  split; [exact Hnd|]. split; [exact Hready|]. split; [exact Hde|].
  exact Hd.
Qed.

(** X9. In a reachable state no assertion on the paths of the public
    operations fails: [detach], [end_transaction] and [flush] run to
    completion, and so do [attach], [replace], [replace_fast] and [revert]
    on an address that resolves. *)
Theorem reachable_runs_to_completion host st :
  reachable host st ->
  (forall l, exists st', gum_interceptor_detach host l st = Some st')
  /\ (exists st', gum_interceptor_end_transaction host st = Some st')
  /\ (exists flushed st', gum_interceptor_flush host st = Some (flushed, st'))
  /\ (forall n address ra,
        resolve_address host n address st = Some ra ->
        (forall l d,
           exists r st',
             gum_interceptor_attach host n address l d st = Some (r, st'))
        /\ (forall f d cell,
              exists r cell' st',
                gum_interceptor_replace host n address f d cell st
                = Some (r, cell', st'))
        /\ (forall f cell,
              exists r cell' st',
                gum_interceptor_replace_fast host n address f cell st
                = Some (r, cell', st'))
        /\ (exists st', gum_interceptor_revert host n address st = Some st')).
Proof.
  intros Hr. apply reachable_wf in Hr.
  pose proof (wf_updates _ Hr) as Hu.
  split; [intros l; now apply detach_total|].
  split.
  { destruct (transaction_end_ok host st Hu) as (st' & He & _).
    now exists st'. }
  split.
  { unfold gum_interceptor_flush.
    destruct (level (transaction st) =? 0); [|now exists false, st].
    destruct (transaction_end_ok host (gum_interceptor_transaction_begin st)
                (wf_updates _ (transaction_begin_wf st Hr)))
      as (st' & He & _).
    rewrite He. eexists. eexists. reflexivity. }
  intros n address ra Hres.
  split.
  { intros l d.
    destruct (attach_spec host n address l d st ra Hu Hres) as (st' & H & _).
    eexists. eexists. exact H. }
  split.
  { intros f d cell.
    destruct (replace_spec host n GUM_INTERCEPTOR_TYPE_DEFAULT address f d
                cell st ra Hu Hres) as (cell' & st' & H & _).
    eexists. eexists. eexists. exact H. }
  split.
  { intros f cell.
    destruct (replace_spec host n GUM_INTERCEPTOR_TYPE_FAST address f NULL
                cell st ra Hu Hres) as (cell' & st' & H & _).
    eexists. eexists. eexists. exact H. }
  now apply (revert_total host n address st ra).
Qed.

Lemma reachable_invariant_witness :
  reachable demo_host demo_waiting
  /\ NoDup (map fst (function_by_address (interceptor demo_waiting))).
Proof.
  split; [exact demo_waiting_reachable|].
  exact (proj1 (reachable_invariant demo_host demo_waiting
                  demo_waiting_reachable)).
Defined.

Lemma reachable_runs_to_completion_witness :
  reachable demo_host demo_entered
  /\ exists st', gum_interceptor_detach demo_host 1 demo_entered = Some st'.
Proof.
  split; [exact demo_entered_reachable|].
  exact (proj1 (reachable_runs_to_completion demo_host demo_entered
                  demo_entered_reachable) 1).
Defined.

(** ** Hook entry cut short *)

(** X10. A hook entry cut short by the guard or by the re-entry test of a
    replacement changes nothing: the call continues at the on-invoke
    trampoline (the original function, not the replacement), with the
    caller's return address and the CPU context as they came in; no callback
    runs, and the shadow stack, the ignore level, the guard and every
    context (usage counters included) are as before. *)
Theorem begin_invocation_cut_short host f cpu ra st :
  bypassed host f st = true ->
  let r := _gum_function_context_begin_invocation host f cpu ra st in
  out_next_hop (fst r) = on_invoke_trampoline (contexts st f)
  /\ out_caller_ret_addr (fst r) = ra
  /\ out_cpu_context (fst r) = cpu
  /\ new_events st (snd r) = []
  /\ gum_interceptor_get_current_stack (snd r)
     = gum_interceptor_get_current_stack st
  /\ current_ignore_level (snd r) = current_ignore_level st
  /\ guard (snd r) = guard st
  /\ (forall q, contexts (snd r) q = contexts st q)
  /\ interceptor (snd r) = interceptor st.
Proof.
  intros Hb r. subst r. unfold bypassed in Hb.
  unfold _gum_function_context_begin_invocation.
  assert (Hc : contexts (g_atomic_int_inc f st) f
               = add_usage 1 (contexts st f)).
  { unfold g_atomic_int_inc, update_context. cbn. apply upd_eq. }
  rewrite Hc.
  assert (Hq : forall q,
            upd (upd (contexts st) f (add_usage 1 (contexts st f))) f
              (add_usage (-1)
                 (upd (contexts st) f (add_usage 1 (contexts st f)) f)) q
            = contexts st q).
  { intros q. destruct (Nat.eq_dec q f) as [->|Hne].
    - rewrite !upd_eq. apply add_usage_cancel.
    - now rewrite !upd_ne by exact Hne. }
  replace (guard (g_atomic_int_inc f st)) with (guard st) by reflexivity.
  destruct (guard st) eqn:Hg.
  - cbn [fst snd out_next_hop out_caller_ret_addr out_cpu_context].
    split; [reflexivity|]. split; [reflexivity|]. split; [reflexivity|].
    split; [apply new_events_app; cbn; now rewrite app_nil_r|].
    split; [reflexivity|].
    split; [unfold current_ignore_level, get_interceptor_thread_context;
            cbn; now destruct (thread_context st)|].
    split; [cbn; now rewrite Hg|]. split; [exact Hq|reflexivity].
  - cbn [orb] in Hb.
    unfold get_interceptor_thread_context,
      gum_interceptor_get_current_stack in *.
    replace (thread_context (set_guard true (g_atomic_int_inc f st)))
      with (thread_context st) by reflexivity.
    destruct (thread_context st) as [tc|] eqn:Htc; cbv beta iota.
    + replace (replacement_reentry host (stack tc)
                 (add_usage 1 (contexts st f)))
        with (replacement_reentry host (stack tc) (contexts st f))
        by reflexivity.
      rewrite Hb. cbn [fst snd out_next_hop out_caller_ret_addr
                       out_cpu_context].
      split; [reflexivity|]. split; [reflexivity|]. split; [reflexivity|].
      split; [apply new_events_app; cbn; now rewrite app_nil_r|].
      split; [cbn; now rewrite Htc|].
      split; [unfold current_ignore_level, get_interceptor_thread_context;
              cbn; now rewrite Htc|].
      split; [reflexivity|]. split; [exact Hq|reflexivity].
    + cbn in Hb. discriminate.
Qed.

Lemma begin_invocation_cut_short_witness :
  bypassed demo_host O (set_guard true demo_attached) = true
  /\ out_caller_ret_addr
       (fst (_gum_function_context_begin_invocation demo_host O demo_cpu 5000
               (set_guard true demo_attached))) = 5000.
Proof.
  assert (Hb : bypassed demo_host O (set_guard true demo_attached) = true)
    by reflexivity.
  split; [exact Hb|].
  exact (proj1 (proj2 (begin_invocation_cut_short demo_host O demo_cpu 5000
                         (set_guard true demo_attached) Hb))).
Defined.

(** ** Pages *)

Lemma page_address_round_down page_size k ptr :
  0 <= k -> page_size = 2 ^ k -> 0 <= ptr < 2 ^ 64 ->
  page_address_from_pointer page_size ptr = ptr / 2 ^ k * 2 ^ k.
Proof.
  intros Hk -> Hp. unfold page_address_from_pointer, GPOINTER_TO_SIZE.
  rewrite Z.mod_small by exact Hp.
  rewrite <- Z.ldiff_land.
  replace (2 ^ k - 1) with (Z.ones k) by (rewrite Z.ones_equiv; lia).
  rewrite Z.ldiff_ones_r by exact Hk.
  rewrite Z.shiftr_div_pow2, Z.shiftl_mul_pow2 by exact Hk. reflexivity.
Qed.

(** X11. With a page size that is a power of two, the page address of a
    pointer is the pointer rounded down to a multiple of the page size: it
    is aligned, the pointer lies inside the page that starts there, and the
    page address of a page address is itself. *)
Theorem page_address_rounds_down host k ptr :
  0 <= k ->
  gum_query_page_size host = 2 ^ k ->
  0 <= ptr < 2 ^ 64 ->
  let page := gum_page_address_from_pointer host ptr in
  page = ptr - ptr mod 2 ^ k
  /\ page mod 2 ^ k = 0
  /\ page <= ptr < page + 2 ^ k
  /\ gum_page_address_from_pointer host page = page.
Proof.
  intros Hk Hps Hp page. subst page. unfold gum_page_address_from_pointer.
  rewrite (page_address_round_down _ k ptr Hk Hps Hp).
  assert (Hpos : 0 < 2 ^ k) by (apply Z.pow_pos_nonneg; lia).
  pose proof (Z.div_mod ptr (2 ^ k) ltac:(lia)) as Hdm.
  pose proof (Z.mod_pos_bound ptr (2 ^ k) Hpos) as Hm.
  assert (Hd : 0 <= ptr / 2 ^ k) by (apply Z.div_pos; lia).
  split; [lia|]. split; [apply Z.mod_mul; lia|]. split; [lia|].
  rewrite (page_address_round_down _ k _ Hk Hps) by nia.
  rewrite Z.div_mul by lia. reflexivity.
Qed.

Lemma page_address_rounds_down_witness :
  let page := gum_page_address_from_pointer demo_host 4198405 in
  page = 4198405 - 4198405 mod 2 ^ 12
  /\ page mod 2 ^ 12 = 0
  /\ page <= 4198405 < page + 2 ^ 12
  /\ gum_page_address_from_pointer demo_host page = page.
Proof.
  apply (page_address_rounds_down demo_host 12 4198405);
    [lia | reflexivity | lia].
Defined.

(** X12. Scheduling an update for a context keeps every page that was a key
    of the pending table and makes the page of every byte of the context's
    overwritten prologue a key, when the page size is a power of two and the
    prologue is no longer than a page: the commit, which goes through the
    keys, reaches each page the prologue touches. *)
Theorem schedule_update_covers_prologue host k ctx func st b :
  0 <= k ->
  gum_query_page_size host = 2 ^ k ->
  let function_address := backend_get_function_address host st ctx in
  let len := overwritten_prologue_len (contexts st ctx) in
  let table := pending_update_tasks (transaction st) in
  let table' :=
    pending_update_tasks
      (transaction
         (gum_interceptor_transaction_schedule_update host ctx func st)) in
  0 <= function_address ->
  function_address + len <= 2 ^ 64 ->
  1 <= len <= 2 ^ k ->
  function_address <= b < function_address + len ->
  g_hash_table_lookup table' (gum_page_address_from_pointer host b) <> None
  /\ forall page,
       g_hash_table_lookup table page <> None ->
       g_hash_table_lookup table' page <> None.
Proof.
  intros Hk Hps fa len table table' Hfa Hend Hlen Hb. subst table'.
  unfold gum_interceptor_transaction_schedule_update.
  fold fa. fold len. fold table.
  cbn [transaction interceptor set_pending_update_tasks
       set_current_transaction set_interceptor current_transaction
       pending_update_tasks].
  unfold gum_page_address_from_pointer.
  rewrite (page_address_round_down _ k fa Hk Hps) by lia.
  rewrite (page_address_round_down _ k (fa + len - 1) Hk Hps) by lia.
  rewrite (page_address_round_down _ k b Hk Hps) by lia.
  assert (Hpos : 0 < 2 ^ k) by (apply Z.pow_pos_nonneg; lia).
  assert (Hlo : fa / 2 ^ k <= b / 2 ^ k) by (apply Z.div_le_mono; lia).
  assert (Hhi : b / 2 ^ k <= (fa + len - 1) / 2 ^ k)
    by (apply Z.div_le_mono; lia).
  assert (Hspan : (fa + len - 1) / 2 ^ k <= fa / 2 ^ k + 1).
  { replace (fa / 2 ^ k + 1) with ((fa + 1 * 2 ^ k) / 2 ^ k)
      by (rewrite Z.div_add by lia; reflexivity).
    apply Z.div_le_mono; lia. }
  set (s := fa / 2 ^ k) in *. set (e := (fa + len - 1) / 2 ^ k) in *.
  set (new := _ ++ [_]).
  assert (Hcase : b / 2 ^ k = s \/ b / 2 ^ k = e) by lia.
  assert (Hstart : forall t : list (gpointer * list GumUpdateTask),
            g_hash_table_lookup
              (if negb (e * 2 ^ k =? s * 2 ^ k)
               then match g_hash_table_lookup
                            (g_hash_table_insert t (s * 2 ^ k) new)
                            (e * 2 ^ k) with
                    | Some _ => g_hash_table_insert t (s * 2 ^ k) new
                    | None =>
                        g_hash_table_insert
                          (g_hash_table_insert t (s * 2 ^ k) new)
                          (e * 2 ^ k) []
                    end
               else g_hash_table_insert t (s * 2 ^ k) new) (s * 2 ^ k)
            <> None).
  { intros t. destruct (Z.eqb_spec (e * 2 ^ k) (s * 2 ^ k)) as [E|E];
      cbn [negb].
    - now rewrite lookup_insert_eq.
    - destruct (g_hash_table_lookup
                  (g_hash_table_insert t (s * 2 ^ k) new) (e * 2 ^ k))
        eqn:El.
      + now rewrite lookup_insert_eq.
      + rewrite lookup_insert_ne by congruence.
        now rewrite lookup_insert_eq. }
  split.
  - destruct Hcase as [-> | ->]; [apply Hstart|].
    destruct (Z.eqb_spec (e * 2 ^ k) (s * 2 ^ k)) as [E|E]; cbn [negb].
    + rewrite E. now rewrite lookup_insert_eq.
    + destruct (g_hash_table_lookup
                  (g_hash_table_insert table (s * 2 ^ k) new) (e * 2 ^ k))
        eqn:El.
      * now rewrite El.
      * now rewrite lookup_insert_eq.
  - intros page Hin.
    assert (Hkeep : g_hash_table_lookup
                      (g_hash_table_insert table (s * 2 ^ k) new) page
                    <> None).
    { destruct (Z.eq_dec page (s * 2 ^ k)) as [->|Hne].
      - now rewrite lookup_insert_eq.
      - now rewrite lookup_insert_ne. }
    destruct (Z.eqb_spec (e * 2 ^ k) (s * 2 ^ k)) as [E|E]; cbn [negb];
      [exact Hkeep|].
    destruct (g_hash_table_lookup
                (g_hash_table_insert table (s * 2 ^ k) new) (e * 2 ^ k))
      eqn:El; [exact Hkeep|].
    destruct (Z.eq_dec page (e * 2 ^ k)) as [->|Hne].
    + now rewrite lookup_insert_eq.
    + now rewrite lookup_insert_ne.
Qed.

Lemma schedule_update_covers_prologue_witness :
  g_hash_table_lookup
    (pending_update_tasks
       (transaction
          (gum_interceptor_transaction_schedule_update demo_host O
             gum_interceptor_activate_func demo_attached)))
    (gum_page_address_from_pointer demo_host 4198410) <> None.
Proof.
  assert (Ea : backend_get_function_address demo_host demo_attached O
               = 4198400) by (vm_compute; reflexivity).
  assert (El : overwritten_prologue_len (contexts demo_attached O) = 16)
    by (vm_compute; reflexivity).
  refine (proj1 (schedule_update_covers_prologue demo_host 12 O
                   gum_interceptor_activate_func demo_attached 4198410
                   _ _ _ _ _ _)); cbv zeta; rewrite ?Ea, ?El;
    [lia | reflexivity | lia | lia | lia | lia].
Defined.

(** ** Ignoring other threads *)



(** ** Nested transactions *)

(** X14. A [begin_transaction] directly followed by [end_transaction] gives
    the state back unchanged, with no commit, when a transaction is already
    open or nothing has been marked dirty. *)
Theorem nested_transaction_round_trip host st :
  0 < level (transaction st) \/ is_dirty (transaction st) = false ->
  gum_interceptor_end_transaction host (gum_interceptor_begin_transaction st)
  = Some st.
Proof.
  intros Hopen.
  unfold gum_interceptor_end_transaction, gum_interceptor_begin_transaction,
    gum_interceptor_transaction_end, gum_interceptor_transaction_begin.
  assert (Hst : set_level
                  (level (transaction
                            (set_level (level (transaction st) + 1) st)) - 1)
                  (set_level (level (transaction st) + 1) st) = st).
  { destruct st as [[t b s [d l q u]] c nc a na tc g e tr].
    unfold set_level, set_current_transaction, set_interceptor, transaction.
    cbn. replace (l + 1 - 1) with l by lia. reflexivity. }
  cbv zeta. rewrite Hst.
  destruct (Z.gtb_spec (level (transaction st)) 0) as [Hgt|Hle];
    [reflexivity|].
  destruct Hopen as [Hopen|Hclean]; [lia|]. now rewrite Hclean.
Qed.

Lemma nested_transaction_round_trip_witness :
  gum_interceptor_end_transaction demo_host
    (gum_interceptor_begin_transaction demo_attached)
  = Some demo_attached.
Proof.
  apply (nested_transaction_round_trip demo_host demo_attached).
  right. vm_compute. reflexivity.
Defined.

(** ** What a commit does to the prologues *)

Lemma extends_refl st : extends st st.
Proof. exists []. now rewrite app_nil_r. Qed.

Lemma extends_trans st1 st2 st3 :
  extends st1 st2 -> extends st2 st3 -> extends st1 st3.
Proof.
  intros [a Ha] [b Hb]. exists (a ++ b). now rewrite Hb, Ha, app_assoc.
Qed.

Lemma extends_emit e st : extends st (emit e st).
Proof. now exists [e]. Qed.

Lemma extends_same st st' : trace st' = trace st -> extends st st'.
Proof. intros H. exists []. now rewrite app_nil_r. Qed.

Lemma new_events_widen st0 st1 st2 st3 e :
  extends st0 st1 -> extends st2 st3 -> extends st1 st2 ->
  In e (new_events st1 st2) -> In e (new_events st0 st3).
Proof.
  intros [a Ha] [c Hc] [b Hb] Hin.
  rewrite (new_events_app st1 st2 b Hb) in Hin.
  rewrite (new_events_app st0 st3 (a ++ b ++ c)).
  - apply in_or_app. right. apply in_or_app. now left.
  - rewrite Hc, Hb, Ha. now rewrite !app_assoc.
Qed.

Lemma applied_widen st0 st1 st2 st3 t :
  extends st0 st1 -> extends st1 st2 -> extends st2 st3 ->
  destroyed (contexts st1 (update_ctx t))
  = destroyed (contexts st0 (update_ctx t)) ->
  activated (contexts st1 (update_ctx t))
  = activated (contexts st0 (update_ctx t)) ->
  activated (contexts st3 (update_ctx t))
  = activated (contexts st2 (update_ctx t)) ->
  applied st1 st2 t -> applied st0 st3 t.
Proof.
  intros H01 H12 H23 Hd Ha0 Ha. unfold applied.
  destruct (update_func t).
  - intros [H Hskip]. split.
    + intros Hnd. rewrite <- Hd in Hnd. destruct (H Hnd) as (Hact & p & Hin).
      split; [now rewrite Ha|]. exists p.
      now apply (new_events_widen st0 st1 st2 st3).
    + intros Hdes. rewrite <- Hd in Hdes. now rewrite Ha, (Hskip Hdes).
  - intros (Hact & p & Hin). split; [now rewrite Ha|]. exists p.
    now apply (new_events_widen st0 st1 st2 st3).
Qed.

Section CommitEffect.
Variable host : Host.

Lemma call_update_func_applied t prologue st st' :
  call_update_func (update_func t) (update_ctx t) prologue st = Some st' ->
  extends st st'
  /\ applied st st' t
  /\ (forall q, q <> update_ctx t -> contexts st' q = contexts st q)
  /\ (forall q, destroyed (contexts st' q) = destroyed (contexts st q)).
Proof.
  unfold applied, call_update_func, gum_interceptor_activate,
    gum_interceptor_deactivate.
  assert (Hstep : forall e b,
            let st1 := emit e (update_context (update_ctx t)
                                 (set_activated b) st) in
            extends st st1
            /\ activated (contexts st1 (update_ctx t)) = b
            /\ In e (new_events st st1)
            /\ (forall q, q <> update_ctx t -> contexts st1 q = contexts st q)
            /\ (forall q,
                  destroyed (contexts st1 q) = destroyed (contexts st q))).
  { intros e b st1.
    assert (Htr : trace st1 = trace st ++ [e]) by reflexivity.
    split; [now exists [e]|].
    split; [cbn; now rewrite upd_eq|].
    split; [rewrite (new_events_app st st1 [e] Htr); now left|].
    split; [intros q Hq; cbn; now apply upd_ne|].
    intros q. cbn. destruct (Nat.eq_dec q (update_ctx t)) as [->|Hne].
    - now rewrite upd_eq.
    - now rewrite upd_ne. }
  destruct (update_func t).
  - destruct (destroyed (contexts st (update_ctx t))) eqn:Hd.
    + intros [= <-]. split; [apply extends_refl|].
      split; [split; [intros H; discriminate H | reflexivity]|].
      split; reflexivity.
    + destruct (activated (contexts st (update_ctx t))); [discriminate|].
      intros [= <-].
      destruct (Hstep (EvActivateTrampoline (update_ctx t) prologue) true)
        as (H1 & H2 & H3 & H4 & H5).
      split; [exact H1|]. split; [|split; assumption].
      split; [|intros H; discriminate H].
      intros _. split; [exact H2|]. now exists prologue.
  - destruct (activated (contexts st (update_ctx t))); [|discriminate].
    intros [= <-].
    destruct (Hstep (EvDeactivateTrampoline (update_ctx t) prologue) false)
      as (H1 & H2 & H3 & H4 & H5).
    split; [exact H1|]. split; [|split; assumption].
    split; [exact H2|]. now exists prologue.
Qed.

Lemma run_pending_applied pending prologue_of :
  forall st st',
    NoDup (map update_ctx pending) ->
    run_pending host pending prologue_of st = Some st' ->
    extends st st'
    /\ (forall t, In t pending -> applied st st' t)
    /\ (forall q, ~ In q (map update_ctx pending) ->
          contexts st' q = contexts st q)
    /\ (forall q, destroyed (contexts st' q) = destroyed (contexts st q)).
Proof.
  induction pending as [|t pending IH]; intros st st' Hnd Hrun.
  - cbn in Hrun. injection Hrun as <-.
    split; [apply extends_refl|]. split; [intros t []|]. split; reflexivity.
  - cbn [run_pending] in Hrun. cbn [map] in Hnd.
    apply NoDup_cons_iff in Hnd. destruct Hnd as [Hnotin Hnd].
    destruct (call_update_func (update_func t) (update_ctx t) _ st)
      as [st1|] eqn:Hcall; [|discriminate].
    destruct (call_update_func_applied _ _ _ _ Hcall)
      as (He1 & Ha1 & Ho1 & Hd1).
    destruct (IH st1 st' Hnd Hrun) as (He2 & Ha2 & Ho2 & Hd2).
    split; [now apply (extends_trans st st1 st')|].
    split; [|split].
    + intros t' [<-|Hin].
      * apply (applied_widen st st st1 st');
          [apply extends_refl | exact He1 | exact He2 | reflexivity
          | reflexivity | now rewrite (Ho2 _ Hnotin) | exact Ha1].
      * apply (applied_widen st st1 st' st');
          [exact He1 | exact He2 | apply extends_refl | apply Hd1
          | | reflexivity | now apply Ha2].
        rewrite Ho1; [reflexivity|]. intros E. apply Hnotin. rewrite <- E.
        now apply in_map.
    + intros q Hq. cbn [map] in Hq.
      rewrite Ho2, Ho1; [reflexivity | |]; intros E; apply Hq;
        [now left | now right].
    + intros q. now rewrite Hd2, Hd1.
Qed.

Lemma run_updates_applied table addresses :
  forall source_page st st',
    NoDup (map update_ctx (scheduled table addresses)) ->
    run_updates host table addresses source_page st = Some st' ->
    extends st st'
    /\ (forall t, In t (scheduled table addresses) -> applied st st' t)
    /\ (forall q, ~ In q (map update_ctx (scheduled table addresses)) ->
          contexts st' q = contexts st q)
    /\ (forall q, destroyed (contexts st' q) = destroyed (contexts st q)).
Proof.
  induction addresses as [|a addresses IH];
    intros source_page st st' Hnd Hrun.
  - cbn in Hrun. injection Hrun as <-.
    split; [apply extends_refl|]. split; [intros t []|]. split; reflexivity.
  - cbn [run_updates] in Hrun. unfold scheduled in *. cbn [flat_map] in *.
    destruct (g_hash_table_lookup table a) as [pending|] eqn:El;
      [|discriminate].
    rewrite map_app in Hnd.
    pose proof (NoDup_app_remove_r _ _ Hnd) as Hnd1.
    pose proof (NoDup_app_remove_l _ _ Hnd) as Hnd2.
    destruct (run_pending host pending _ st) as [st1|] eqn:Hrun1;
      [|discriminate].
    destruct (run_pending_applied _ _ _ _ Hnd1 Hrun1)
      as (He1 & Ha1 & Ho1 & Hd1).
    destruct (IH _ st1 st' Hnd2 Hrun) as (He2 & Ha2 & Ho2 & Hd2).
    split; [now apply (extends_trans st st1 st')|].
    split; [|split].
    + intros t Hin. apply in_app_or in Hin. destruct Hin as [Hin|Hin].
      * apply (applied_widen st st st1 st');
          [apply extends_refl | exact He1 | exact He2 | reflexivity
          | reflexivity | | now apply Ha1].
        rewrite Ho2; [reflexivity|]. intros Hin2.
        apply (NoDup_app_disjoint _ _ Hnd (update_ctx t));
          [now apply in_map | exact Hin2].
      * apply (applied_widen st st1 st' st');
          [exact He1 | exact He2 | apply extends_refl | apply Hd1
          | | reflexivity | now apply Ha2].
        rewrite Ho1; [reflexivity|]. intros Hin1.
        apply (NoDup_app_disjoint _ _ Hnd (update_ctx t));
          [exact Hin1 | now apply in_map].
    + intros q Hq. rewrite map_app, in_app_iff in Hq.
      rewrite Ho2, Ho1; [reflexivity | |]; intros E; apply Hq;
        [now left | now right].
    + intros q. now rewrite Hd2, Hd1.
Qed.

Lemma only_events_refl st : only_events st st.
Proof. split; [apply extends_refl | reflexivity]. Qed.

Lemma only_events_trans st1 st2 st3 :
  only_events st1 st2 -> only_events st2 st3 -> only_events st1 st3.
Proof.
  intros [E1 C1] [E2 C2]. split; [now apply (extends_trans st1 st2)|].
  now rewrite C2.
Qed.

Lemma only_events_emit e st : only_events st (emit e st).
Proof. split; [apply extends_emit | reflexivity]. Qed.

Lemma for_each_page_events f addresses :
  forall st, only_events st (for_each_page f addresses st).
Proof.
  unfold for_each_page.
  induction addresses as [|a addresses IH]; intros st; cbn.
  - apply only_events_refl.
  - eapply only_events_trans; [apply only_events_emit | apply IH].
Qed.

Lemma suspend_threads_events threads current :
  forall suspended st,
    only_events st (snd (suspend_threads host threads current suspended st)).
Proof.
  induction threads as [|id threads IH]; intros suspended st; cbn.
  - apply only_events_refl.
  - destruct (id =? current); [apply IH|].
    destruct (gum_thread_suspend host id); cbn; [|apply IH].
    eapply only_events_trans; [|apply IH]. apply only_events_emit.
Qed.

Lemma resume_threads_events reversed :
  forall st, only_events st (resume_threads reversed st).
Proof.
  induction reversed as [|id reversed IH]; intros st; cbn.
  - apply only_events_refl.
  - destruct (id =? 0); [apply only_events_refl|].
    eapply only_events_trans; [apply only_events_emit | apply IH].
Qed.

Lemma copy_pages_events addresses :
  forall current_page st,
    only_events st (copy_pages host addresses current_page st).
Proof.
  induction addresses as [|a addresses IH]; intros current_page st; cbn.
  - apply only_events_refl.
  - eapply only_events_trans; [apply only_events_emit | apply IH].
Qed.

Lemma map_pages_events addresses :
  forall source_offset st,
    only_events st (map_pages host addresses source_offset st).
Proof.
  induction addresses as [|a addresses IH]; intros source_offset st; cbn.
  - apply only_events_refl.
  - eapply only_events_trans; [|apply IH].
    eapply only_events_trans; apply only_events_emit.
Qed.

(** The result of a run between two stretches that only add events. *)
Lemma applied_between table addresses st0 st1 st2 st3 :
  only_events st0 st1 -> only_events st2 st3 ->
  extends st1 st2
  /\ (forall t, In t (scheduled table addresses) -> applied st1 st2 t)
  /\ (forall q, ~ In q (map update_ctx (scheduled table addresses)) ->
        contexts st2 q = contexts st1 q)
  /\ (forall q, destroyed (contexts st2 q) = destroyed (contexts st1 q)) ->
  extends st0 st3
  /\ (forall t, In t (scheduled table addresses) -> applied st0 st3 t)
  /\ (forall q, ~ In q (map update_ctx (scheduled table addresses)) ->
        contexts st3 q = contexts st0 q)
  /\ (forall q, destroyed (contexts st3 q) = destroyed (contexts st0 q)).
Proof.
  intros [E01 C01] [E23 C23] (E12 & Ha & Ho & Hd).
  split; [apply (extends_trans st0 st1); [exact E01|];
          now apply (extends_trans st1 st2)|].
  split; [|split].
  - intros t Hin.
    apply (applied_widen st0 st1 st2 st3);
      [exact E01 | exact E12 | exact E23 | now rewrite C01
      | now rewrite C01 | now rewrite C23 | now apply Ha].
  - intros q Hq. rewrite C23, (Ho q Hq). now rewrite C01.
  - intros q. rewrite C23, Hd. now rewrite C01.
Qed.

Lemma apply_updates_applied table addresses st st' :
  NoDup (map update_ctx (scheduled table addresses)) ->
  apply_updates host table addresses st = Some st' ->
  extends st st'
  /\ (forall t, In t (scheduled table addresses) -> applied st st' t)
  /\ (forall q, ~ In q (map update_ctx (scheduled table addresses)) ->
        contexts st' q = contexts st q)
  /\ (forall q, destroyed (contexts st' q) = destroyed (contexts st q)).
Proof.
  intros Hnd. unfold apply_updates.
  destruct (gum_process_get_code_signing_policy host).
  - destruct (gum_query_is_rwx_supported host
              || negb (gum_code_segment_is_supported host)).
    + destruct (gum_query_is_rwx_supported host); cbn [negb].
      * match goal with
        | |- context [run_updates host table addresses None ?s] =>
            destruct (run_updates host table addresses None s)
              as [st1|] eqn:Hrun; [|discriminate];
            pose proof (run_updates_applied table addresses None s st1
                          Hnd Hrun) as Hres
        end.
        intros [= <-].
        eapply applied_between; [| |exact Hres];
          apply for_each_page_events.
      * destruct (suspend_threads host (gum_process_enumerate_threads host)
                    (gum_process_get_current_thread_id host) [] st)
          as [suspended st0] eqn:Hs.
        assert (Hs0 : only_events st st0).
        { pose proof (suspend_threads_events
                        (gum_process_enumerate_threads host)
                        (gum_process_get_current_thread_id host) [] st) as H.
          now rewrite Hs in H. }
        match goal with
        | |- context [run_updates host table addresses None ?s] =>
            destruct (run_updates host table addresses None s)
              as [st1|] eqn:Hrun; [|discriminate];
            pose proof (run_updates_applied table addresses None s st1
                          Hnd Hrun) as Hres
        end.
        intros [= <-].
        eapply applied_between; [| |exact Hres].
        -- eapply only_events_trans; [exact Hs0|].
           apply for_each_page_events.
        -- eapply only_events_trans; [|apply resume_threads_events].
           eapply only_events_trans; apply for_each_page_events.
    + match goal with
      | |- context [run_updates host table addresses (Some ?p) ?s] =>
          destruct (run_updates host table addresses (Some p) s)
            as [st1|] eqn:Hrun; [|discriminate];
          pose proof (run_updates_applied table addresses (Some p) s st1
                        Hnd Hrun) as Hres
      end.
      intros [= <-].
      eapply applied_between; [| |exact Hres].
      * eapply only_events_trans; [apply only_events_emit|].
        apply copy_pages_events.
      * eapply only_events_trans; [|apply only_events_emit].
        eapply only_events_trans; [apply only_events_emit|].
        apply map_pages_events.
  - intros Hrun. now apply (run_updates_applied table addresses None).
Qed.

Lemma settled_refl st : settled st st.
Proof. split; [apply extends_refl | reflexivity]. Qed.

Lemma settled_trans st1 st2 st3 :
  settled st1 st2 -> settled st2 st3 -> settled st1 st3.
Proof.
  intros [E1 A1] [E2 A2]. split; [now apply (extends_trans st1 st2)|].
  intros q. now rewrite A2.
Qed.

Lemma settled_same st st' :
  trace st' = trace st -> contexts st' = contexts st -> settled st st'.
Proof.
  intros Ht Hc. split; [now apply extends_same|]. intros q. now rewrite Hc.
Qed.

Lemma settled_ignore st :
  settled st (gum_interceptor_ignore_current_thread st).
Proof.
  unfold gum_interceptor_ignore_current_thread,
    get_interceptor_thread_context.
  destruct (thread_context st); now apply settled_same.
Qed.

Lemma settled_unignore st :
  settled st (gum_interceptor_unignore_current_thread st).
Proof.
  unfold gum_interceptor_unignore_current_thread,
    get_interceptor_thread_context.
  destruct (thread_context st); now apply settled_same.
Qed.

Lemma call_notify_settled task st st' :
  call_notify task st = Some st' -> settled st st'.
Proof.
  unfold call_notify, gum_function_context_perform_destroy,
    gum_function_context_finalize.
  destruct (task_notify task); cbv zeta;
    try (intros [= <-]; split; [apply extends_emit | reflexivity]).
  match goal with
  | |- (if ?c then _ else _) = _ -> _ => destruct c; [|discriminate]
  end.
  intros [= <-]. split.
  - eexists. cbn. rewrite <- !app_assoc. reflexivity.
  - intros q. cbn.
    destruct (Nat.eq_dec q (Z.to_nat (task_data task))) as [->|Hne].
    + now rewrite !upd_eq.
    + now rewrite !upd_ne.
Qed.

Lemma drain_destroy_tasks_settled queue :
  forall st st', drain_destroy_tasks queue st = Some st' -> settled st st'.
Proof.
  induction queue as [|task queue IH]; intros st st' H; cbn in H.
  - injection H as <-. apply settled_refl.
  - destruct (trampoline_usage_counter (contexts st (task_ctx task)) =? 0).
    + destruct (call_notify task st) as [st1|] eqn:Hn; [|discriminate].
      eapply settled_trans; [eapply call_notify_settled; exact Hn|].
      now apply IH.
    + apply IH in H. eapply settled_trans; [|exact H].
      now apply settled_same.
Qed.

Lemma transaction_end_applied st st' :
  NoDup (map fst (pending_update_tasks (transaction st))) ->
  NoDup (map update_ctx
           (all_update_tasks (pending_update_tasks (transaction st)))) ->
  level (transaction st) <= 1 ->
  is_dirty (transaction st) = true ->
  gum_interceptor_transaction_end host st = Some st' ->
  (forall t,
     In t (all_update_tasks (pending_update_tasks (transaction st))) ->
     applied st st' t)
  /\ (forall q,
        ~ In q (map update_ctx
                  (all_update_tasks (pending_update_tasks (transaction st)))) ->
        activated (contexts st' q) = activated (contexts st q)).
Proof.
  intros Hk Hnd Hlevel Hdirty.
  set (table := pending_update_tasks (transaction st)) in *.
  unfold gum_interceptor_transaction_end.
  set (st0 := set_level (level (transaction st) - 1) st).
  replace (level (transaction st0)) with (level (transaction st) - 1)
    by reflexivity.
  replace (is_dirty (transaction st0)) with (is_dirty (transaction st))
    by reflexivity.
  destruct (Z.gtb_spec (level (transaction st) - 1) 0) as [Hgt|_]; [lia|].
  rewrite Hdirty. cbn [negb].
  set (st1 := emit EvCodeAllocatorCommit
                (gum_interceptor_ignore_current_thread st0)).
  assert (H01 : settled st st1).
  { eapply settled_trans; [|split; [apply extends_emit | reflexivity]].
    eapply settled_trans; [|apply settled_ignore].
    now apply settled_same. }
  assert (Hig : forall s,
            contexts (gum_interceptor_ignore_current_thread s) = contexts s
            /\ interceptor (gum_interceptor_ignore_current_thread s)
               = interceptor s).
  { intros s. unfold gum_interceptor_ignore_current_thread,
      get_interceptor_thread_context.
    destruct (thread_context s); split; reflexivity. }
  assert (Hc1 : contexts st1 = contexts st).
  { unfold st1. cbn [contexts emit]. now rewrite (proj1 (Hig st0)). }
  assert (Ht1 : pending_update_tasks (transaction st1) = table).
  { unfold st1, transaction. cbn [interceptor emit].
    now rewrite (proj2 (Hig st0)). }
  cbv zeta. fold st0. fold st1. rewrite Ht1.
  destruct (g_queue_is_empty (pending_destroy_tasks (transaction st1))
            && (g_hash_table_size table =? 0)) eqn:Hempty.
  - intros [= <-].
    apply andb_prop in Hempty. destruct Hempty as [_ Hsize].
    assert (Hnil : table = []).
    { unfold g_hash_table_size in Hsize. apply Z.eqb_eq in Hsize.
      destruct table; [reflexivity | cbn in Hsize; lia]. }
    rewrite Hnil. split; [intros t []|]. intros q _.
    destruct (settled_unignore (set_is_dirty false st1)) as [_ Hu].
    rewrite Hu.
    change (contexts (set_is_dirty false st1)) with (contexts st1).
    now rewrite Hc1.
  - replace (pending_update_tasks (transaction st1)) with table.
    set (st2 := set_current_transaction gum_interceptor_transaction_init st1).
    set (addresses := g_list_sort gum_page_address_compare
                        (g_hash_table_get_keys table)).
    pose proof (scheduled_sorted_perm table Hk) as Hperm.
    fold addresses in Hperm.
    assert (Hnd' : NoDup (map update_ctx (scheduled table addresses))).
    { eapply Permutation_NoDup; [|exact Hnd].
      apply Permutation_map, Permutation_sym, Hperm. }
    destruct (apply_updates host table addresses st2) as [st3|] eqn:Ha;
      [|discriminate].
    destruct (apply_updates_applied table addresses st2 st3 Hnd' Ha)
      as (He & Happ & Ho & Hd).
    destruct (drain_destroy_tasks _ st3) as [st4|] eqn:Hdr; [|discriminate].
    apply drain_destroy_tasks_settled in Hdr.
    cbn [gum_interceptor_transaction_destroy].
    intros [= <-].
    assert (H45 : settled st3 (gum_interceptor_unignore_current_thread st4)).
    { eapply settled_trans; [exact Hdr | apply settled_unignore]. }
    assert (H02 : settled st st2)
      by (eapply settled_trans; [exact H01 | now apply settled_same]).
    assert (Hc2 : contexts st2 = contexts st) by exact Hc1.
    split.
    + intros t Hin.
      apply (applied_widen st st2 st3 _);
        [apply H02 | exact He | apply H45 | now rewrite Hc2
        | now rewrite Hc2 | apply H45 |].
      apply Happ. eapply Permutation_in; [apply Permutation_sym, Hperm|].
      exact Hin.
    + intros q Hq. destruct H45 as [_ H45]. rewrite H45.
      rewrite Ho; [now rewrite Hc2|].
      intros Hin. apply Hq.
      eapply Permutation_in; [apply Permutation_map, Hperm | exact Hin].
Qed.


End CommitEffect.


(** ** The page list of a commit *)

(** X16. When the pending pages fit in 64 bits and lie less than 2 GiB
    apart, the list the commit goes through, the keys sorted with
    [gum_page_address_compare], holds the same pages in ascending order. *)
Theorem commit_pages_ascending pages :
  close_pages pages ->
  let addresses := g_list_sort gum_page_address_compare pages in
  StronglySorted Z.le addresses /\ Permutation addresses pages.
Proof.
  intros Hclose addresses. split; [|apply g_list_sort_perm].
  apply g_list_sort_real_sorted; [lia|].
  intros a b Ha Hb. destruct (Hclose a b Ha Hb) as (Ha' & Hb' & Hd).
  rewrite page_address_compare_close by assumption. lia.
Qed.

Lemma commit_pages_ascending_witness :
  StronglySorted Z.le
    (g_list_sort gum_page_address_compare [4210688; 4198400; 4202496]).
Proof.
  refine (proj1 (commit_pages_ascending [4210688; 4198400; 4202496] _)).
  intros a b [<-|[<-|[<-|[]]]] [<-|[<-|[<-|[]]]]; lia.
Defined.

(** ** Resolving an address *)

(** X17. The address [gum_interceptor_resolve] returns is a stripped
    address that is already instrumented, or for which the backend reports
    no redirect, or, under a required code-signing policy, the stripped
    input itself.  An input that is instrumented once stripped is returned
    as it is, with no event.  The call changes nothing but the trace, and
    following more redirects than needed gives the same result. *)
Theorem resolve_outcome host n address st ra st' :
  gum_interceptor_resolve host n address st = Some (ra, st') ->
  (gum_interceptor_has st ra = true
   \/ gum_process_get_code_signing_policy host = GUM_CODE_SIGNING_REQUIRED
   \/ gum_interceptor_backend_resolve_redirect host ra = NULL)
  /\ (exists x, ra = gum_strip_code_pointer host x)
  /\ (gum_interceptor_has st (gum_strip_code_pointer host address) = true ->
      ra = gum_strip_code_pointer host address /\ st' = st)
  /\ (gum_process_get_code_signing_policy host = GUM_CODE_SIGNING_REQUIRED ->
      ra = gum_strip_code_pointer host address)
  /\ interceptor st' = interceptor st
  /\ contexts st' = contexts st
  /\ arrays st' = arrays st
  /\ thread_context st' = thread_context st
  /\ (forall m, (n <= m)%nat ->
        gum_interceptor_resolve host m address st = Some (ra, st')).
Proof.
  revert address st.
  induction n as [|n IH]; intros address st.
  - cbn [gum_interceptor_resolve].
    destruct (gum_interceptor_has st (gum_strip_code_pointer host address))
      eqn:Hhas; cbn [negb].
    + intros [= <- <-].
      split; [now left|]. split; [now eexists|]. split; [now split|].
      split; [reflexivity|].
      split; [reflexivity|]. split; [reflexivity|]. split; [reflexivity|].
      split; [reflexivity|].
      intros m _. destruct m; cbn [gum_interceptor_resolve];
        now rewrite Hhas.
    + destruct (gum_process_get_code_signing_policy host) eqn:Hpol.
      * destruct (Z.eqb_spec
                    (gum_interceptor_backend_resolve_redirect host
                       (gum_strip_code_pointer host address)) NULL)
          as [Hnull|Hnn]; cbn [negb]; [|discriminate].
        intros [= <- <-].
        split; [now right; right|]. split; [now eexists|].
        split; [intros H; discriminate H|].
        split; [intros H; discriminate H|].
        split; [reflexivity|]. split; [reflexivity|]. split; [reflexivity|].
        split; [reflexivity|].
        intros m _. destruct m; cbn [gum_interceptor_resolve];
          rewrite Hhas, Hpol; cbn [negb]; rewrite Hnull; reflexivity.
      * intros [= <- <-].
        split; [now right; left|]. split; [now eexists|].
        split; [intros H; discriminate H|].
        split; [reflexivity|].
        split; [reflexivity|]. split; [reflexivity|]. split; [reflexivity|].
        split; [reflexivity|].
        intros m _. destruct m; cbn [gum_interceptor_resolve];
          rewrite Hhas, Hpol; reflexivity.
  - cbn [gum_interceptor_resolve].
    destruct (gum_interceptor_has st (gum_strip_code_pointer host address))
      eqn:Hhas; cbn [negb].
    + intros [= <- <-].
      split; [now left|]. split; [now eexists|]. split; [now split|].
      split; [reflexivity|].
      split; [reflexivity|]. split; [reflexivity|]. split; [reflexivity|].
      split; [reflexivity|].
      intros m _. destruct m; cbn [gum_interceptor_resolve];
        now rewrite Hhas.
    + destruct (gum_process_get_code_signing_policy host) eqn:Hpol.
      * destruct (Z.eqb_spec
                    (gum_interceptor_backend_resolve_redirect host
                       (gum_strip_code_pointer host address)) NULL)
          as [Hnull|Hnn]; cbn [negb].
        -- intros [= <- <-].
           split; [now right; right|]. split; [now eexists|].
           split; [intros H; discriminate H|].
           split; [intros H; discriminate H|].
           split; [reflexivity|]. split; [reflexivity|].
           split; [reflexivity|]. split; [reflexivity|].
           intros m _. destruct m; cbn [gum_interceptor_resolve];
             rewrite Hhas, Hpol; cbn [negb]; rewrite Hnull; reflexivity.
        -- intros Hrec.
           destruct (IH _ _ Hrec)
             as (H1 & H2 & _ & _ & H5 & H6 & H7 & H8 & H9).
           split.
           { destruct H1 as [H1|H1]; [left | right; exact H1].
             exact H1. }
           split; [exact H2|].
           split; [intros H; discriminate H|].
           split; [intros H; discriminate H|].
           split; [exact H5|]. split; [exact H6|]. split; [exact H7|].
           split; [exact H8|].
           intros m Hm. destruct m as [|m]; [lia|].
           cbn [gum_interceptor_resolve]. rewrite Hhas, Hpol. cbn [negb].
           destruct (Z.eqb_spec
                       (gum_interceptor_backend_resolve_redirect host
                          (gum_strip_code_pointer host address)) NULL);
             [contradiction|]. cbn [negb].
           apply H9. lia.
      * intros [= <- <-].
        split; [now right; left|]. split; [now eexists|].
        split; [intros H; discriminate H|].
        split; [reflexivity|].
        split; [reflexivity|]. split; [reflexivity|]. split; [reflexivity|].
        split; [reflexivity|].
        intros m _. destruct m; cbn [gum_interceptor_resolve];
          rewrite Hhas, Hpol; reflexivity.
Qed.

Lemma resolve_outcome_witness :
  gum_interceptor_resolve demo_host 3 4198400 demo_attached
  = Some (4198400, demo_attached).
Proof.
  assert (Hr : gum_interceptor_resolve demo_host 0 4198400 demo_attached
               = Some (4198400, demo_attached)) by (vm_compute; reflexivity).
  destruct (resolve_outcome demo_host 0 4198400 demo_attached
              4198400 demo_attached Hr)
    as (_ & _ & _ & _ & _ & _ & _ & _ & H).
  exact (H 3%nat (Nat.le_0_l 3)).
Defined.

(** ** Hook entries and the shadow stack *)

Section HookEntryStack.
Variable host : Host.

Lemma begin_invocation_no_trap f cpu ra st :
  bypassed host f st = false ->
  let c := contexts st f in
  entry_will_trap_on_leave c
    (thread_selected host st && (current_ignore_level st <=? 0)) = false ->
  let r := _gum_function_context_begin_invocation host f cpu ra st in
  gum_interceptor_get_current_stack (snd r)
  = gum_interceptor_get_current_stack st
  /\ (forall q, contexts (snd r) q = contexts st q)
  /\ arrays (snd r) = arrays st
  /\ interceptor (snd r) = interceptor st.
Proof.
  intros Hb c Hwt r. unfold bypassed in Hb. apply orb_false_elim in Hb.
  destruct Hb as [Hg Hre]. subst r.
  assert (Hil : thread_selected host st && (current_ignore_level st <=? 0)
                = entry_invoke_listeners host (interceptor st)
                    (fst (get_interceptor_thread_context st))).
  { rewrite entry_invoke_listeners_eq. reflexivity. }
  rewrite Hil in Hwt.
  assert (Hq : forall q,
            upd (upd (contexts st) f (add_usage 1 c)) f
              (add_usage (-1) (upd (contexts st) f (add_usage 1 c) f)) q
            = contexts st q).
  { intros q. destruct (Nat.eq_dec q f) as [->|Hne].
    - rewrite !upd_eq. apply add_usage_cancel.
    - now rewrite !upd_ne by exact Hne. }
  unfold _gum_function_context_begin_invocation.
  assert (Hc : contexts (g_atomic_int_inc f st) f = add_usage 1 c).
  { unfold g_atomic_int_inc, update_context. cbn. apply upd_eq. }
  rewrite Hc.
  cbn [guard g_atomic_int_inc update_context set_contexts].
  rewrite Hg.
  assert (Hre' : replacement_reentry host
                   (stack (fst (get_interceptor_thread_context st)))
                   (add_usage 1 c) = false).
  { rewrite <- Hre. unfold c, get_interceptor_thread_context,
      gum_interceptor_get_current_stack.
    destruct (thread_context st); reflexivity. }
  unfold current_ignore_level, get_interceptor_thread_context in *.
  replace (thread_context (set_guard true (g_atomic_int_inc f st)))
    with (thread_context st) by reflexivity.
  replace (entry_will_trap_on_leave (add_usage 1 c))
    with (entry_will_trap_on_leave c) by reflexivity.
  replace (replacement_function (add_usage 1 c))
    with (replacement_function c) by reflexivity.
  replace (function_address (add_usage 1 c))
    with (function_address c) by reflexivity.
  replace (listener_entries (add_usage 1 c))
    with (listener_entries c) by reflexivity.
  assert (Hrep : negb (replacement_function c =? NULL) = false).
  { unfold entry_will_trap_on_leave in Hwt.
    now apply orb_false_elim in Hwt. }
  destruct (thread_context st) as [tc|] eqn:Htc; cbn [fst snd] in *;
    cbv beta iota;
    rewrite Hre';
    cbn [interceptor set_guard set_thread_context g_atomic_int_inc
         update_context set_contexts arrays system_error];
    rewrite Hwt, Hrep;
    destruct (entry_invoke_listeners host (interceptor st) _) eqn:Hinv;
    cbn [orb andb negb].
  all: try match goal with
    | |- context [dispatch_on_enter ?a ?b ?s] =>
        pose proof (dispatch_on_enter_frame a b s) as Hd;
        destruct (dispatch_on_enter a b s) as [e' st'];
        cbn [fst snd] in Hd;
        destruct Hd as (Ht & Hi & Hcx & Ha & Hth & Hgd)
    end.
  all: cbn [fst snd].
  all: unfold gum_invocation_stack_push; rewrite ?update_top_snoc;
       unfold gum_invocation_stack_pop; rewrite ?update_top_snoc;
       rewrite ?removelast_last.
  all: unfold gum_interceptor_get_current_stack, g_atomic_int_dec_and_test,
         update_context.
  all: cbn [trace contexts thread_context set_thread_context set_guard
            set_system_error set_contexts set_stack stack ignore_level
            fst snd arrays interceptor guard next_context next_array].
  all: rewrite ?Htc.
  all: cbn [stack interceptor_thread_context_new app].
  all: rewrite ?Hcx, ?Ha, ?Hi.
  all: cbn [contexts set_guard set_contexts arrays interceptor].
  all: split; [reflexivity|]; split; [exact Hq|]; split; reflexivity.
Qed.

Lemma begin_invocation_bypass_state f cpu ra st :
  bypassed host f st = true ->
  let r := _gum_function_context_begin_invocation host f cpu ra st in
  gum_interceptor_get_current_stack (snd r)
  = gum_interceptor_get_current_stack st
  /\ (forall q, contexts (snd r) q = contexts st q)
  /\ arrays (snd r) = arrays st
  /\ interceptor (snd r) = interceptor st.
Proof.
  intros Hb r. subst r. unfold bypassed in Hb.
  unfold _gum_function_context_begin_invocation.
  assert (Hc : contexts (g_atomic_int_inc f st) f
               = add_usage 1 (contexts st f)).
  { unfold g_atomic_int_inc, update_context. cbn. apply upd_eq. }
  rewrite Hc.
  assert (Hq : forall q,
            upd (upd (contexts st) f (add_usage 1 (contexts st f))) f
              (add_usage (-1)
                 (upd (contexts st) f (add_usage 1 (contexts st f)) f)) q
            = contexts st q).
  { intros q. destruct (Nat.eq_dec q f) as [->|Hne].
    - rewrite !upd_eq. apply add_usage_cancel.
    - now rewrite !upd_ne by exact Hne. }
  replace (guard (g_atomic_int_inc f st)) with (guard st) by reflexivity.
  destruct (guard st) eqn:Hg.
  - cbn [snd]. split; [reflexivity|]. split; [exact Hq|]. now split.
  - cbn [orb] in Hb.
    unfold get_interceptor_thread_context,
      gum_interceptor_get_current_stack in *.
    replace (thread_context (set_guard true (g_atomic_int_inc f st)))
      with (thread_context st) by reflexivity.
    destruct (thread_context st) as [tc|] eqn:Htc; cbv beta iota.
    + replace (replacement_reentry host (stack tc)
                 (add_usage 1 (contexts st f)))
        with (replacement_reentry host (stack tc) (contexts st f))
        by reflexivity.
      rewrite Hb. cbn [snd].
      split; [cbn; now rewrite Htc|]. split; [exact Hq|]. now split.
    + cbn in Hb. discriminate.
Qed.

(** Every hook entry pushes at most one frame, a frame of its context, and
    raises the usage counters by the frames pushed. *)
Lemma begin_invocation_frames f cpu ra st :
  let r := _gum_function_context_begin_invocation host f cpu ra st in
  exists extra,
    gum_interceptor_get_current_stack (snd r)
    = gum_interceptor_get_current_stack st ++ extra
    /\ (forall q,
          contexts (snd r) q = add_usage (frames_of q extra) (contexts st q))
    /\ arrays (snd r) = arrays st
    /\ interceptor (snd r) = interceptor st.
Proof.
  intros r. subst r.
  destruct (bypassed host f st) eqn:Hb.
  - destruct (begin_invocation_bypass_state f cpu ra st Hb)
      as (Hs & Hc & Ha & Hi).
    exists []. rewrite app_nil_r. split; [exact Hs|].
    split; [|now split]. intros q. cbn. now rewrite add_usage_0.
  - destruct (entry_will_trap_on_leave (contexts st f)
                (thread_selected host st && (current_ignore_level st <=? 0)))
      eqn:Hwt.
    + destruct (begin_invocation_trap host f cpu ra st Hb Hwt)
        as ((e & Hs & Hf & _) & _ & _ & Hc & Ha & Hi & _).
      exists [e]. split; [exact Hs|]. split; [|now split].
      intros q. rewrite Hc. cbn [frames_of]. rewrite Hf.
      destruct (Nat.eqb_spec f q) as [->|Hne].
      * rewrite upd_eq. reflexivity.
      * rewrite upd_ne by congruence. cbn. now rewrite add_usage_0.
    + destruct (begin_invocation_no_trap f cpu ra st Hb Hwt)
        as (Hs & Hc & Ha & Hi).
      exists []. rewrite app_nil_r. split; [exact Hs|].
      split; [|now split]. intros q. cbn. now rewrite add_usage_0.
Qed.

Lemma frames_of_app q (a b : GumInvocationStack) :
  frames_of q (a ++ b) = frames_of q a + frames_of q b.
Proof. induction a as [|e a IH]; cbn; [reflexivity | rewrite IH; lia]. Qed.

Lemma hooks_entered_frames st st' :
  hooks_entered host st st' ->
  exists extra,
    gum_interceptor_get_current_stack st'
    = gum_interceptor_get_current_stack st ++ extra
    /\ (forall q,
          contexts st' q = add_usage (frames_of q extra) (contexts st q))
    /\ arrays st' = arrays st
    /\ interceptor st' = interceptor st.
Proof.
  induction 1 as [|st1 f cpu ra _ (extra & Hs & Hc & Ha & Hi)].
  - exists []. rewrite app_nil_r. split; [reflexivity|].
    split; [|now split]. intros q. cbn. now rewrite add_usage_0.
  - destruct (begin_invocation_frames f cpu ra st1)
      as (more & Hs' & Hc' & Ha' & Hi').
    exists (extra ++ more). rewrite Hs', Hs, app_assoc.
    split; [reflexivity|].
    split; [|split; congruence].
    intros q. rewrite Hc', Hc, add_usage_add, frames_of_app. reflexivity.
Qed.

(** What [gum_interceptor_restore] does with a saved depth that the stack
    has not gone below. *)
Lemma restore_run below discarded st :
  gum_interceptor_get_current_stack st = below ++ discarded ->
  exists st',
    gum_interceptor_restore (Z.of_nat (length below)) st = Some st'
    /\ gum_interceptor_get_current_stack st' = below
    /\ (forall q,
          contexts st' q = add_usage (- frames_of q discarded) (contexts st q))
    /\ arrays st' = arrays st
    /\ interceptor st' = interceptor st
    /\ trace st' = trace st.
Proof.
  intros Hs. unfold gum_interceptor_restore. rewrite Hs.
  destruct discarded as [|d discarded].
  - rewrite app_nil_r in *. rewrite Z.eqb_refl. exists st.
    split; [reflexivity|]. split; [exact Hs|].
    split; [|repeat split]. intros q. cbn. now rewrite add_usage_0.
  - destruct (Z.eqb_spec (Z.of_nat (length (below ++ d :: discarded)))
                (Z.of_nat (length below))) as [E|_].
    { rewrite length_app in E. cbn in E. lia. }
    rewrite (restore_loop_spec (below ++ d :: discarded) (d :: discarded)
               below st _ eq_refl).
    2:{ rewrite length_app. lia. }
    destruct (discard_frames_frame (d :: discarded) st)
      as (Ht & Hi & Ha & Htr & Hc).
    rewrite Ht.
    destruct (thread_context st) as [tc|] eqn:Htc.
    + eexists. split; [reflexivity|].
      unfold gum_interceptor_get_current_stack, g_array_set_size in *.
      rewrite Htc in Hs.
      cbn [thread_context set_thread_context set_stack stack contexts
           arrays interceptor trace].
      rewrite Nat2Z.id, firstn_app, firstn_all, Nat.sub_diag.
      cbn [firstn]. rewrite app_nil_r.
      split; [reflexivity|]. split; [exact Hc|]. now repeat split.
    + exfalso. unfold gum_interceptor_get_current_stack in Hs.
      rewrite Htc in Hs. destruct below; discriminate.
Qed.

(** X18. Unwinding past hooked calls: [gum_interceptor_restore] of the depth
    that [gum_interceptor_save] took, after any number of hook entries that
    have not been left, gives back the shadow stack and every function
    context (usage counters included) of the time of the save; listener
    arrays and the interceptor are untouched, and no callback runs. *)
Theorem save_restore_unwinds st st' :
  hooks_entered host st st' ->
  exists st'',
    gum_interceptor_restore (gum_interceptor_save st) st' = Some st''
    /\ gum_interceptor_get_current_stack st''
       = gum_interceptor_get_current_stack st
    /\ (forall q, contexts st'' q = contexts st q)
    /\ arrays st'' = arrays st
    /\ interceptor st'' = interceptor st
    /\ new_events st' st'' = [].
Proof.
  intros He.
  destruct (hooks_entered_frames st st' He) as (extra & Hs & Hc & Ha & Hi).
  destruct (restore_run _ extra st' Hs)
    as (st'' & Hr & Hs' & Hc' & Ha' & Hi' & Htr).
  exists st''. unfold gum_interceptor_save.
  split; [exact Hr|]. split; [exact Hs'|].
  split; [|split; [congruence | split; [congruence|]]].
  - intros q. rewrite Hc', Hc, add_usage_add.
    replace (frames_of q extra + - frames_of q extra) with 0 by lia.
    apply add_usage_0.
  - apply new_events_app. rewrite Htr. now rewrite app_nil_r.
Qed.

(** X19. After a hook entry that installs the on-leave trap, the return
    address the caller now has on its stack, the on-leave trampoline,
    translates back to the caller's own return address through the top
    frame, [_gum_interceptor_peek_top_caller_return_address] gives that
    address too, and the current invocation is the new frame, for the
    function of the context. *)
Theorem entry_return_address_recoverable f cpu ra st :
  bypassed host f st = false ->
  entry_will_trap_on_leave (contexts st f)
    (thread_selected host st && (current_ignore_level st <=? 0)) = true ->
  let r := _gum_function_context_begin_invocation host f cpu ra st in
  out_caller_ret_addr (fst r) = on_leave_trampoline (contexts st f)
  /\ _gum_interceptor_translate_top_return_address (snd r)
       (out_caller_ret_addr (fst r)) = ra
  /\ _gum_interceptor_peek_top_caller_return_address (snd r) = ra
  /\ exists e,
       fst (gum_interceptor_get_current_invocation (snd r)) = Some e
       /\ function_ctx e = f
       /\ invocation_function e
          = gum_sign_code_pointer host (function_address (contexts st f)).
Proof.
  intros Hb Hwt r.
  destruct (begin_invocation_spec host f cpu ra st Hb) as (Hret & _).
  fold r in Hret. unfold entry_will_trap_on_leave in Hwt.
  rewrite Hwt in Hret.
  destruct (begin_invocation_trap host f cpu ra st Hb Hwt)
    as ((e & Hs & Hf & Hra & Hfn & _) & Htc & _ & Hc & _).
  fold r in Hs, Htc, Hc.
  split; [exact Hret|].
  assert (Hol : on_leave_trampoline (contexts (snd r) f)
                = on_leave_trampoline (contexts st f)).
  { rewrite Hc, upd_eq. reflexivity. }
  split; [|split].
  - unfold _gum_interceptor_translate_top_return_address.
    rewrite Hs, peek_top_snoc, Hf, Hol, Hret, Z.eqb_refl. exact Hra.
  - unfold _gum_interceptor_peek_top_caller_return_address.
    rewrite Hs, peek_top_snoc. exact Hra.
  - exists e. unfold gum_interceptor_get_current_invocation,
      get_interceptor_thread_context.
    unfold gum_interceptor_get_current_stack in Hs.
    destruct (thread_context (snd r)) as [tc|]; [|contradiction].
    cbn [fst]. rewrite Hs, peek_top_snoc. now repeat split.
Qed.

End HookEntryStack.

Lemma save_restore_unwinds_witness :
  exists st'',
    gum_interceptor_restore (gum_interceptor_save demo_attached) demo_entered
    = Some st''
    /\ gum_interceptor_get_current_stack st''
       = gum_interceptor_get_current_stack demo_attached.
Proof.
  destruct (save_restore_unwinds demo_host demo_attached demo_entered
              (entered_call demo_host demo_attached demo_attached O demo_cpu
                 5000 (entered_none demo_host demo_attached)))
    as (st'' & Hr & Hs & _).
  exists st''. split; assumption.
Defined.

Lemma entry_return_address_recoverable_witness :
  _gum_interceptor_peek_top_caller_return_address demo_entered = 5000.
Proof.
  assert (Hb : bypassed demo_host O demo_attached = false)
    by (vm_compute; reflexivity).
  assert (Hwt : entry_will_trap_on_leave (contexts demo_attached O)
                  (thread_selected demo_host demo_attached
                   && (current_ignore_level demo_attached <=? 0)) = true)
    by (vm_compute; reflexivity).
  exact (proj1 (proj2 (proj2
           (entry_return_address_recoverable demo_host O demo_cpu 5000
              demo_attached Hb Hwt)))).
Defined.

(** ** Calls after attach and replace *)

Lemma on_enter_listeners_app a b :
  on_enter_listeners (a ++ b) = on_enter_listeners a ++ on_enter_listeners b.
Proof.
  induction a as [|[e|] a IH]; cbn; [reflexivity | | exact IH].
  destruct (is_some (on_enter (listener_interface e))); cbn; now rewrite IH.
Qed.

Lemma on_enter_listeners_filter a :
  on_enter_listeners (filter is_some a) = on_enter_listeners a.
Proof.
  induction a as [|[e|] a IH]; cbn; [reflexivity | | exact IH].
  now rewrite IH.
Qed.

Lemma find_listener_from_last entries e l :
  listener_instance e = l ->
  forall i, find_listener_from i (entries ++ [Some e]) l <> None.
Proof.
  intros He. induction entries as [|[e0|] entries IH]; intros i; cbn.
  - rewrite He, Z.eqb_refl. discriminate.
  - destruct (listener_instance e0 =? l); [discriminate | apply IH].
  - apply IH.
Qed.

Section AfterAttach.
Variable host : Host.

(** X20. After [gum_interceptor_attach] has returned OK, the resolved
    address has a context that holds the listener, and a hook entry of that
    context that is not cut short, on a thread that passes the filter and
    does not ignore, calls the [on_enter] callbacks of the listeners
    attached earlier, in their order, and then the new listener's, if it
    has one. *)
Theorem attached_listener_runs n address l d st ra st' :
  updates_wf st ->
  resolve_address host n address st = Some ra ->
  gum_interceptor_attach host n address l d st = Some (GUM_ATTACH_OK, st') ->
  let earlier :=
    match g_hash_table_lookup (function_by_address (interceptor st)) ra with
    | Some ctx => on_enter_listeners (entries_of st ctx)
    | None => []
    end in
  exists f,
    g_hash_table_lookup (function_by_address (interceptor st')) ra = Some f
    /\ gum_function_context_has_listener st' f l = true
    /\ forall cpu ret,
         bypassed host f st' = false ->
         thread_selected host st' = true ->
         current_ignore_level st' <= 0 ->
         new_events st'
           (snd (_gum_function_context_begin_invocation host f cpu ret st'))
         = map EvOnEnter earlier
           ++ (if is_some (on_enter (GUM_INVOCATION_LISTENER_GET_IFACE host l))
               then [EvOnEnter l] else []).
Proof.
  intros Hwf Hres Hatt earlier.
  destruct (attach_spec host n address l d st ra Hwf Hres)
    as (st1 & Hrun & Hfound & Hnew).
  rewrite Hatt in Hrun. injection Hrun as Hout <-.
  set (entry := {| listener_interface :=
                     GUM_INVOCATION_LISTENER_GET_IFACE host l;
                   listener_instance := l; function_data := d |}) in *.
  assert (Hcall : forall f old,
            entries_of st' f = filter is_some old ++ [Some entry] ->
            gum_function_context_has_listener st' f l = true
            /\ forall cpu ret,
                 bypassed host f st' = false ->
                 thread_selected host st' = true ->
                 current_ignore_level st' <= 0 ->
                 new_events st'
                   (snd (_gum_function_context_begin_invocation host f cpu
                           ret st'))
                 = map EvOnEnter (on_enter_listeners old)
                   ++ (if is_some (on_enter
                                     (GUM_INVOCATION_LISTENER_GET_IFACE host
                                        l))
                       then [EvOnEnter l] else [])).
  { intros f old He. split.
    - unfold gum_function_context_has_listener,
        gum_function_context_find_listener. rewrite He.
      pose proof (find_listener_from_last (filter is_some old) entry l
                    eq_refl O) as Hf.
      destruct (find_listener_from 0 _ l); [reflexivity | contradiction].
    - intros cpu ret Hb Hsel Hlvl.
      destruct (begin_invocation_spec host f cpu ret st' Hb)
        as (_ & _ & Hev & _).
      rewrite Hev, Hsel. apply Z.leb_le in Hlvl. rewrite Hlvl. cbn [andb].
      rewrite He, on_enter_listeners_app, on_enter_listeners_filter, map_app.
      f_equal. cbn.
      destruct (is_some (on_enter (GUM_INVOCATION_LISTENER_GET_IFACE host l)));
        reflexivity. }
  unfold attach_outcome in Hout. subst earlier.
  destruct (g_hash_table_lookup (function_by_address (interceptor st)) ra)
    as [ctx|] eqn:Hl.
  - destruct (Hfound ctx eq_refl) as (Hl' & He).
    unfold attach_outcome in He. rewrite Hl in He.
    destruct (type (contexts st ctx)); [|discriminate Hout].
    destruct (gum_function_context_has_listener st ctx l);
      [discriminate Hout|].
    exists ctx. split; [exact Hl'|]. now apply Hcall.
  - destruct (backend_build host GUM_INTERCEPTOR_TYPE_DEFAULT ra) as [t|]
      eqn:Hbuild.
    + destruct (Hnew eq_refl t eq_refl) as (Hl' & He).
      exists (next_context st). split; [exact Hl'|].
      apply (Hcall (next_context st) []). exact He.
    + destruct (gum_process_get_code_signing_policy host);
        discriminate Hout.
Qed.

(** X21. After [gum_interceptor_replace_with_type] has returned OK for a
    replacement that is not NULL, the resolved address has a context; the
    cell for the original function, when given, holds the context's
    on-invoke trampoline; and every hook entry of that context that is not
    cut short continues at the replacement and installs the on-leave trap,
    whatever the ignore level and the selected thread. *)
Theorem replacement_is_called n type_ address r rd cell st ra cell' st' :
  updates_wf st ->
  resolve_address host n address st = Some ra ->
  r <> NULL ->
  gum_interceptor_replace_with_type host n type_ address r rd cell st
  = Some (GUM_REPLACE_OK, cell', st') ->
  exists f,
    g_hash_table_lookup (function_by_address (interceptor st')) ra = Some f
    /\ cell' = option_map (fun _ => on_invoke_trampoline (contexts st' f)) cell
    /\ forall cpu ret,
         bypassed host f st' = false ->
         let res := _gum_function_context_begin_invocation host f cpu ret st' in
         out_next_hop (fst res) = r
         /\ out_caller_ret_addr (fst res)
            = on_leave_trampoline (contexts st' f)
         /\ length (gum_interceptor_get_current_stack (snd res))
            = S (length (gum_interceptor_get_current_stack st')).
Proof.
  intros Hwf Hres Hr Hrep.
  destruct (replace_spec host n type_ address r rd cell st ra Hwf Hres)
    as (cell1 & st1 & Hrun & Hfound & Hnew).
  rewrite Hrep in Hrun. injection Hrun as Hout <- <-.
  assert (Hcall : forall f,
            replacement_function (contexts st' f) = r ->
            forall cpu ret,
              bypassed host f st' = false ->
              let res :=
                _gum_function_context_begin_invocation host f cpu ret st' in
              out_next_hop (fst res) = r
              /\ out_caller_ret_addr (fst res)
                 = on_leave_trampoline (contexts st' f)
              /\ length (gum_interceptor_get_current_stack (snd res))
                 = S (length (gum_interceptor_get_current_stack st'))).
  { intros f Hf cpu ret Hb res.
    destruct (begin_invocation_spec host f cpu ret st' Hb)
      as (Hret & Hhop & _ & _ & Hlen).
    fold res in Hret, Hhop, Hlen. rewrite Hf in Hret, Hhop, Hlen.
    destruct (Z.eqb_spec r NULL) as [E|_]; [contradiction|].
    cbn [negb orb] in Hret, Hhop, Hlen.
    split; [exact Hhop|]. split; [exact Hret|]. rewrite Hlen. lia. }
  unfold replace_outcome in Hout.
  destruct (g_hash_table_lookup (function_by_address (interceptor st)) ra)
    as [ctx|] eqn:Hl.
  - destruct (Hfound ctx eq_refl) as (Hl' & He).
    unfold replace_outcome in He. rewrite Hl in He.
    destruct (GumInterceptorType_eqb (type (contexts st ctx)) type_);
      [|discriminate Hout].
    destruct (replacement_function (contexts st ctx) =? NULL);
      [|discriminate Hout].
    destruct He as (Hf & _ & Hcell).
    exists ctx. split; [exact Hl'|]. split; [exact Hcell|].
    now apply Hcall.
  - destruct (backend_build host type_ ra) as [t|] eqn:Hbuild.
    + destruct (Hnew eq_refl t eq_refl) as (Hl' & Hf & _ & Hoi & Hcell).
      exists (next_context st). split; [exact Hl'|].
      split; [now rewrite Hoi|]. now apply Hcall.
    + destruct (gum_process_get_code_signing_policy host);
        discriminate Hout.
Qed.

(** X22. The re-entry test: while the replacement of a context runs, a
    call of the same function on that thread is cut short and reaches the
    original function through the on-invoke trampoline, with no trap, no
    callback and no new frame, provided stripping a signed code pointer of
    the function gives its address back. *)
Theorem replacement_reentry_guard f cpu ra cpu2 ra2 st :
  bypassed host f st = false ->
  replacement_function (contexts st f) <> NULL ->
  gum_strip_code_pointer host
    (gum_sign_code_pointer host (function_address (contexts st f)))
  = function_address (contexts st f) ->
  let first := _gum_function_context_begin_invocation host f cpu ra st in
  let again :=
    _gum_function_context_begin_invocation host f cpu2 ra2 (snd first) in
  out_next_hop (fst first) = replacement_function (contexts st f)
  /\ bypassed host f (snd first) = true
  /\ out_next_hop (fst again) = on_invoke_trampoline (contexts st f)
  /\ out_caller_ret_addr (fst again) = ra2
  /\ new_events (snd first) (snd again) = []
  /\ gum_interceptor_get_current_stack (snd again)
     = gum_interceptor_get_current_stack (snd first)
  /\ (forall q, contexts (snd again) q = contexts (snd first) q).
Proof.
  intros Hb Hrep Hstrip first again.
  assert (Hnn : negb (replacement_function (contexts st f) =? NULL) = true).
  { destruct (Z.eqb_spec (replacement_function (contexts st f)) NULL);
      [contradiction | reflexivity]. }
  assert (Hwt : entry_will_trap_on_leave (contexts st f)
                  (thread_selected host st
                   && (current_ignore_level st <=? 0)) = true).
  { unfold entry_will_trap_on_leave. now rewrite Hnn. }
  destruct (begin_invocation_spec host f cpu ra st Hb) as (_ & Hhop & _).
  fold first in Hhop. rewrite Hnn in Hhop.
  destruct (begin_invocation_trap host f cpu ra st Hb Hwt)
    as ((e & Hs & Hf & _ & Hfn & Hcr) & _ & _ & Hc & _).
  fold first in Hs, Hc.
  assert (Hcf : contexts (snd first) f = add_usage 1 (contexts st f)).
  { rewrite Hc. apply upd_eq. }
  assert (Hb2 : bypassed host f (snd first) = true).
  { unfold bypassed, replacement_reentry. rewrite Hs, peek_top_snoc.
    rewrite Hcr, Hnn, Hfn, Hcf. cbn [andb function_address add_usage].
    rewrite Hstrip, Z.eqb_refl. apply orb_true_r. }
  destruct (begin_invocation_bypass host f cpu2 ra2 (snd first) Hb2)
    as (H1 & H2 & H3).
  destruct (begin_invocation_bypass_state host f cpu2 ra2 (snd first) Hb2)
    as (H4 & H5 & _).
  fold again in H1, H2, H3, H4, H5.
  split; [exact Hhop|]. split; [exact Hb2|].
  split; [rewrite H1, Hcf; reflexivity|].
  split; [exact H2|]. split; [exact H3|]. split; [exact H4 | exact H5].
Qed.

End AfterAttach.

Lemma attached_listener_runs_witness :
  exists f,
    g_hash_table_lookup (function_by_address (interceptor demo_attached))
      4198400 = Some f
    /\ gum_function_context_has_listener demo_attached f 1 = true.
Proof.
  assert (Hres : resolve_address demo_host 0 4198400 gum_interceptor_init
                 = Some 4198400) by (vm_compute; reflexivity).
  assert (Hatt : gum_interceptor_attach demo_host 0 4198400 1 0
                   gum_interceptor_init
                 = Some (GUM_ATTACH_OK, demo_attached))
    by (vm_compute; reflexivity).
  destruct (attached_listener_runs demo_host 0 4198400 1 0
              gum_interceptor_init 4198400 demo_attached
              (wf_updates _ gum_interceptor_init_wf) Hres Hatt)
    as (f & Hl & Hhas & _).
  exists f. split; assumption.
Defined.

Lemma replacement_is_called_witness :
  exists f,
    g_hash_table_lookup (function_by_address (interceptor demo_replaced))
      4198400 = Some f.
Proof.
  assert (Hres : resolve_address demo_host 0 4198400 gum_interceptor_init
                 = Some 4198400) by (vm_compute; reflexivity).
  assert (Hrep : gum_interceptor_replace_with_type demo_host 0
                   GUM_INTERCEPTOR_TYPE_DEFAULT 4198400 8192 77 None
                   gum_interceptor_init
                 = Some (GUM_REPLACE_OK, None, demo_replaced))
    by (vm_compute; reflexivity).
  assert (Hr : 8192 <> NULL) by (intros H; discriminate H).
  destruct (replacement_is_called demo_host 0 GUM_INTERCEPTOR_TYPE_DEFAULT
              4198400 8192 77 None gum_interceptor_init 4198400 None
              demo_replaced (wf_updates _ gum_interceptor_init_wf) Hres Hr
              Hrep)
    as (f & Hl & _).
  exists f. exact Hl.
Defined.

Lemma replacement_reentry_guard_witness :
  bypassed demo_host O
    (snd (_gum_function_context_begin_invocation demo_host O demo_cpu 5000
            demo_replaced)) = true.
Proof.
  assert (Hb : bypassed demo_host O demo_replaced = false)
    by (vm_compute; reflexivity).
  assert (Hrep : replacement_function (contexts demo_replaced O) <> NULL)
    by (vm_compute; intros H; discriminate H).
  assert (Hstrip : gum_strip_code_pointer demo_host
                     (gum_sign_code_pointer demo_host
                        (function_address (contexts demo_replaced O)))
                   = function_address (contexts demo_replaced O))
    by reflexivity.
  exact (proj1 (proj2
           (replacement_reentry_guard demo_host O demo_cpu 5000 demo_cpu 6000
              demo_replaced Hb Hrep Hstrip))).
Defined.

(** ** Hooks in place: the invariant *)

Lemma hooks_frame_refl st : hooks_frame st st.
Proof. constructor; try reflexivity; intros; [assumption | now split_and]. Qed.

Lemma hooks_mid_frame st st' :
  hooks_frame st st' -> interceptor_wf st' -> hooks_mid st -> hooks_mid st'.
Proof.
  intros [Ht Hk Hc Ha] Hwf' [Hwf Hl Hg Har Hli].
  assert (He : forall a c,
            In (a, c) (function_by_address (interceptor st)) ->
            entries_of st' c = entries_of st c).
  { intros a c Hin. unfold entries_of.
    destruct (Hc c) as (_ & _ & ->). apply Ha.
    destruct (wf_table _ Hwf) as (_ & _ & Hall).
    now destruct (Hall a c Hin) as (_ & _ & H). }
  constructor.
  - exact Hwf'.
  - intros a c Hin. rewrite Ht in Hin.
    destruct (Hc c) as (-> & _).
    destruct (Hl a c Hin) as [H|H]; [now left | right; now apply Hk].
  - intros c Hd.
    destruct (Hc c) as (-> & Hd' & _). rewrite Hd' in Hd.
    destruct (Hg c Hd) as [H|H]; [now left | right; now apply Hk].
  - intros a1 c1 a2 c2 H1 H2. rewrite Ht in H1, H2.
    destruct (Hc c1) as (_ & _ & ->). destruct (Hc c2) as (_ & _ & ->).
    now apply (Har a1 c1 a2 c2).
  - intros a c Hin. rewrite Ht in Hin. rewrite (He a c Hin).
    now apply (Hli a c).
Qed.

Lemma hooks_wf_frame st st' :
  hooks_frame st st' -> interceptor_wf st' ->
  transaction st' = transaction st ->
  hooks_wf st -> hooks_wf st'.
Proof.
  intros Hf Hwf' Ht [Hm Hs]. constructor.
  - now apply (hooks_mid_frame st).
  - unfold transaction_settled in *. now rewrite Ht.
Qed.

Lemma hooks_wf_init : hooks_wf gum_interceptor_init.
Proof.
  constructor; [constructor|].
  - apply gum_interceptor_init_wf.
  - intros a c [].
  - intros c H. discriminate H.
  - intros a1 c1 a2 c2 [].
  - intros a c [].
  - intros H. now contradiction H.
Qed.

(** *** Live listeners of an array *)

Lemma live_listeners_app a b :
  live_listeners (a ++ b) = live_listeners a ++ live_listeners b.
Proof.
  induction a as [|[e|] a IH]; cbn; [reflexivity | now rewrite IH | exact IH].
Qed.

Lemma live_listeners_copy a :
  live_listeners (copy_entries a) = live_listeners a.
Proof.
  induction a as [|[e|] a IH]; cbn; [reflexivity | now rewrite IH | exact IH].
Qed.

Lemma find_listener_from_none entries l :
  forall i,
    find_listener_from i entries l = None <-> ~ In l (live_listeners entries).
Proof.
  induction entries as [|[e|] entries IH]; intros i; cbn.
  - tauto.
  - destruct (Z.eqb_spec (listener_instance e) l) as [E|E].
    + split; [discriminate | intros H; exfalso; apply H; now left].
    + rewrite IH. tauto.
  - apply IH.
Qed.

Lemma has_listener_live st c l :
  gum_function_context_has_listener st c l = true
  <-> In l (live_listeners (entries_of st c)).
Proof.
  unfold gum_function_context_has_listener,
    gum_function_context_find_listener.
  pose proof (find_listener_from_none (entries_of st c) l O) as H.
  destruct (find_listener_from 0 (entries_of st c) l).
  - split; [intros _|reflexivity].
    destruct (in_dec Z.eq_dec l (live_listeners (entries_of st c)))
      as [Hin|Hn]; [exact Hin|].
    apply H in Hn. discriminate Hn.
  - split; [discriminate|]. intros Hin. exfalso.
    now apply (proj1 H eq_refl).
Qed.

(** Clearing the first slot of a listener takes it out of the live
    listeners and leaves the others. *)
Lemma clear_found_slot entries l :
  forall i s,
    find_listener_from i entries l = Some s ->
    (i <= s)%nat
    /\ forall x,
         In x (live_listeners (clear_slot (s - i) entries))
         -> In x (live_listeners entries).
Proof.
  induction entries as [|[e|] entries IH]; intros i s; cbn; [discriminate| |].
  - destruct (Z.eqb_spec (listener_instance e) l) as [E|E].
    + intros [= <-]. split; [lia|]. rewrite Nat.sub_diag. cbn.
      intros x Hx. now right.
    + intros H. destruct (IH _ _ H) as [Hle Hsub]. split; [lia|].
      replace (s - i)%nat with (S (s - S i)) by lia. cbn.
      intros x [Hx|Hx]; [now left | right; now apply Hsub].
  - intros H. destruct (IH _ _ H) as [Hle Hsub]. split; [lia|].
    replace (s - i)%nat with (S (s - S i)) by lia. cbn. exact Hsub.
Qed.

Lemma clear_found_slot_nodup entries l :
  forall i s,
    find_listener_from i entries l = Some s ->
    NoDup (live_listeners entries) ->
    NoDup (live_listeners (clear_slot (s - i) entries))
    /\ ~ In l (live_listeners (clear_slot (s - i) entries))
    /\ forall x,
         x <> l -> In x (live_listeners entries) ->
         In x (live_listeners (clear_slot (s - i) entries)).
Proof.
  induction entries as [|[e|] entries IH]; intros i s; cbn; [discriminate| |].
  - destruct (Z.eqb_spec (listener_instance e) l) as [E|E].
    + intros [= <-] Hnd. rewrite Nat.sub_diag. cbn.
      apply NoDup_cons_iff in Hnd. destruct Hnd as [Hn Hnd].
      split; [exact Hnd|]. split; [now rewrite <- E|].
      intros x Hx [Hin|Hin]; [congruence | exact Hin].
    + intros H Hnd. apply NoDup_cons_iff in Hnd. destruct Hnd as [Hn Hnd].
      destruct (clear_found_slot _ _ _ _ H) as [Hle Hsub].
      destruct (IH _ _ H Hnd) as (Hnd' & Hnl & Hkeep).
      replace (s - i)%nat with (S (s - S i)) by lia. cbn.
      split; [constructor; [intros Hin; apply Hn; now apply Hsub | exact Hnd']|].
      split; [intros [Hin|Hin]; [contradiction | contradiction]|].
      intros x Hx [Hin|Hin]; [now left | right; now apply Hkeep].
  - intros H Hnd. destruct (clear_found_slot _ _ _ _ H) as [Hle _].
    replace (s - i)%nat with (S (s - S i)) by lia. cbn. now apply IH.
Qed.

Lemma find_taken_slot_none entries :
  forall i,
    find_taken_slot_from i entries = None <-> live_listeners entries = [].
Proof.
  induction entries as [|[e|] entries IH]; intros i; cbn.
  - tauto.
  - split; discriminate.
  - apply IH.
Qed.

Section Hooks.
Variable host : Host.

Lemma hooks_frame_trans st1 st2 st3 :
  next_array st1 = next_array st2 \/ (next_array st1 <= next_array st2)%nat ->
  hooks_frame st1 st2 -> hooks_frame st2 st3 -> hooks_frame st1 st3.
Proof.
  intros Hna [T1 K1 C1 A1] [T2 K2 C2 A2]. constructor.
  - congruence.
  - intros t Hin. now apply K2, K1.
  - intros q. destruct (C1 q) as (a1 & d1 & l1).
    destruct (C2 q) as (a2 & d2 & l2). split_and; congruence.
  - intros a Ha. rewrite A2 by (destruct Hna; lia). now apply A1.
Qed.

Lemma hooks_frame_interceptor st st' :
  interceptor st' = interceptor st ->
  (forall q,
     activated (contexts st' q) = activated (contexts st q)
     /\ destroyed (contexts st' q) = destroyed (contexts st q)
     /\ listener_entries (contexts st' q) = listener_entries (contexts st q)) ->
  (forall a, (a < next_array st)%nat -> arrays st' a = arrays st a) ->
  hooks_frame st st'.
Proof.
  intros Hi Hc Ha. constructor; try assumption.
  - now rewrite Hi.
  - unfold pending_tasks, transaction. now rewrite Hi.
Qed.

Lemma hooks_frame_ignore st :
  hooks_frame st (gum_interceptor_ignore_current_thread st).
Proof.
  unfold gum_interceptor_ignore_current_thread,
    get_interceptor_thread_context.
  destruct (thread_context st); apply hooks_frame_interceptor;
    try reflexivity; intros; now split_and.
Qed.

Lemma hooks_frame_unignore st :
  hooks_frame st (gum_interceptor_unignore_current_thread st).
Proof.
  unfold gum_interceptor_unignore_current_thread,
    get_interceptor_thread_context.
  destruct (thread_context st); apply hooks_frame_interceptor;
    try reflexivity; intros; now split_and.
Qed.

Lemma hooks_frame_maybe_unignore st :
  hooks_frame st (snd (gum_interceptor_maybe_unignore_current_thread st)).
Proof.
  unfold gum_interceptor_maybe_unignore_current_thread,
    get_interceptor_thread_context.
  destruct (thread_context st) as [tc|]; cbn [ignore_level];
    [destruct (ignore_level tc <=? 0)|
     destruct (ignore_level interceptor_thread_context_new <=? 0)];
    apply hooks_frame_interceptor; try reflexivity; intros; now split_and.
Qed.

Lemma hooks_frame_transaction t st :
  pending_update_tasks t = pending_update_tasks (transaction st) ->
  hooks_frame st (set_current_transaction t st).
Proof.
  intros Hp. constructor; try reflexivity.
  - unfold pending_tasks, transaction. cbn. rewrite Hp. tauto.
  - intros; now split_and.
Qed.

Lemma hooks_frame_selected id st :
  hooks_frame st (set_selected_thread_id id st).
Proof. constructor; try reflexivity; intros; [assumption | now split_and]. Qed.

Lemma hooks_frame_quiet st st' : quiet_frame st st' -> hooks_frame st st'.
Proof.
  intros [[Hc Hi _ _ _] Hq]. apply hooks_frame_interceptor.
  - exact Hi.
  - intros q. rewrite Hq. now split_and.
  - intros a _. now rewrite (cf_arrays _ _ Hc).
Qed.

Lemma hooks_frame_schedule_destroy ctx notify data st :
  hooks_frame st
    (gum_interceptor_transaction_schedule_destroy ctx notify data st).
Proof. constructor; try reflexivity; intros; [assumption | now split_and]. Qed.

Lemma hooks_frame_schedule_update ctx func st :
  hooks_frame st
    (gum_interceptor_transaction_schedule_update host ctx func st).
Proof.
  destruct (schedule_update_tasks host ctx func st) as (_ & Hperm & Hst).
  constructor; try (rewrite Hst; reflexivity).
  - intros t Hin. unfold pending_tasks.
    eapply Permutation_in; [apply Permutation_sym, Hperm|].
    apply in_or_app. now left.
  - intros q. rewrite Hst. now split_and.
Qed.

Lemma hooks_frame_update_context p f st :
  (forall c,
     activated (f c) = activated c /\ destroyed (f c) = destroyed c
     /\ listener_entries (f c) = listener_entries c) ->
  hooks_frame st (update_context p f st).
Proof.
  intros Hf. apply hooks_frame_interceptor; try reflexivity.
  intros q. cbn. unfold upd.
  destruct (Nat.eqb_spec q p) as [->|Hne]; [apply Hf | now split_and].
Qed.

Lemma hooks_mid_prologue st :
  hooks_mid st ->
  hooks_mid (set_is_dirty true (gum_interceptor_transaction_begin st))
  /\ is_dirty
       (transaction (set_is_dirty true (gum_interceptor_transaction_begin st)))
     = true.
Proof.
  intros Hm. split; [|reflexivity].
  apply (hooks_mid_frame st); [| apply prologue_wf, Hm | exact Hm].
  apply (hooks_frame_trans _ (gum_interceptor_transaction_begin st));
    [now left | |]; now apply hooks_frame_transaction.
Qed.

(** *** Instrumentation *)

Lemma instrument_new_extra type_ fa st r e st' :
  g_hash_table_lookup (function_by_address (interceptor st)) fa = None ->
  gum_interceptor_instrument host type_ fa st = Some (r, e, st') ->
  (forall t, In t (pending_tasks st) -> In t (pending_tasks st'))
  /\ (r <> None -> In (activation (next_context st)) (pending_tasks st'))
  /\ destroyed (contexts st' (next_context st)) = false.
Proof.
  intros Hl. unfold gum_interceptor_instrument. rewrite Hl.
  set (st0 := if backend (interceptor st) then st else set_backend true st).
  assert (Hst0 : next_context st0 = next_context st
                 /\ pending_tasks st0 = pending_tasks st).
  { unfold st0. destruct (backend (interceptor st)); split; reflexivity. }
  destruct Hst0 as (Hnc0 & Hp0).
  pose proof (function_context_new_spec fa type_ st0) as Hnew.
  destruct (gum_function_context_new fa type_ st0) as [p st1].
  cbn [fst snd] in Hnew.
  destruct Hnew as (Hp & _ & _ & _ & _ & _ & _ & _ & _ & _ & Hdes1 & Hsl1
                    & _ & _ & Hi1 & _).
  rewrite Hnc0 in Hp. subst p.
  assert (Hp1 : pending_tasks st1 = pending_tasks st).
  { unfold pending_tasks, transaction in *. now rewrite Hi1. }
  assert (Hok : forall t,
            let st3 :=
              gum_interceptor_transaction_schedule_update host
                (next_context st) gum_interceptor_activate_func
                (set_function_by_address
                   (g_hash_table_insert
                      (function_by_address
                         (interceptor
                            (update_context (next_context st)
                               (set_trampoline t) st1)))
                      fa (next_context st))
                   (update_context (next_context st) (set_trampoline t)
                      st1)) in
            Some (Some (next_context st), GUM_INSTRUMENTATION_ERROR_NONE, st3)
            = Some (r, e, st') ->
            (forall t, In t (pending_tasks st) -> In t (pending_tasks st'))
            /\ (r <> None ->
                In (activation (next_context st)) (pending_tasks st'))
            /\ destroyed (contexts st' (next_context st)) = false).
  { intros t st3 H. injection H as <- <- <-.
    match goal with
    | st3 := gum_interceptor_transaction_schedule_update host ?c ?f ?s |- _ =>
        destruct (schedule_update_tasks host c f s) as (_ & Hperm & Hst);
        fold st3 in Hperm, Hst
    end.
    assert (Hin : forall u,
              In u (pending_tasks st ++ [activation (next_context st)]) ->
              In u (pending_tasks st3)).
    { intros u Hu. rewrite <- Hp1 in Hu.
      eapply Permutation_in; [apply Permutation_sym, Hperm|]. exact Hu. }
    split; [intros u Hu; apply Hin, in_or_app; now left|].
    split; [intros _; apply Hin, in_or_app; right; now left|].
    rewrite Hst. cbn. rewrite upd_eq. exact Hdes1. }
  assert (Hfail : forall err,
            match gum_function_context_finalize (next_context st) st1 with
            | Some s => Some (None, err, s)
            | None => None
            end = Some (r, e, st') ->
            (forall t, In t (pending_tasks st) -> In t (pending_tasks st'))
            /\ (r <> None ->
                In (activation (next_context st)) (pending_tasks st'))
            /\ destroyed (contexts st' (next_context st)) = false).
  { intros err. unfold gum_function_context_finalize. rewrite Hsl1.
    cbn [Z.eqb NULL]. intros H. injection H as <- <- <-.
    split; [intros u Hu; rewrite <- Hp1 in Hu; exact Hu|].
    split; [intros H; now contradiction H|].
    cbn. rewrite upd_eq. exact Hdes1. }
  destruct (gum_process_get_code_signing_policy host).
  - destruct (gum_interceptor_backend_create_trampoline host type_ fa)
      as [t|]; [apply Hok | apply Hfail].
  - destruct (gum_interceptor_backend_claim_grafted_trampoline host type_ fa)
      as [t|]; [apply Hok | apply Hfail].
Qed.

Lemma instrument_hooks type_ fa st r e st' :
  hooks_mid st ->
  gum_interceptor_instrument host type_ fa st = Some (r, e, st') ->
  hooks_mid st'
  /\ is_dirty (transaction st') = is_dirty (transaction st)
  /\ forall ctx,
       r = Some ctx ->
       In (fa, ctx) (function_by_address (interceptor st'))
       /\ type (contexts st' ctx) = type_.
Proof.
  intros Hm Hi.
  destruct (instrument_wf host type_ fa st r e st' (hm_wf _ Hm) Hi)
    as [Hwf' Hty].
  destruct (g_hash_table_lookup (function_by_address (interceptor st)) fa)
    as [found|] eqn:Hl.
  { rewrite (instrument_found host type_ fa st found Hl) in Hi.
    destruct (GumInterceptorType_eqb (type (contexts st found)) type_);
      injection Hi as <- <- <-.
    - split; [exact Hm|]. split; [reflexivity|].
      intros ctx [= <-]. split; [now apply lookup_In | now apply Hty].
    - split; [exact Hm|]. split; [reflexivity|]. intros ctx H.
      discriminate H. }
  destruct (instrument_new_extra type_ fa st r e st' Hl Hi)
    as (Hk & Hact & Hdes).
  destruct (instrument_new host type_ fa st Hl)
    as (st1 & Hins & Hfba & Hq & Harr & Hnc & Hna & _ & _ & Hdirty & _
        & Hnew).
  rewrite Hi in Hins.
  assert (Hst : st1 = st'
                /\ r = match backend_build host type_ fa with
                       | Some _ => Some (next_context st)
                       | None => None
                       end).
  { destruct (backend_build host type_ fa); injection Hins as H1 H2 H3;
      split; congruence. }
  clear Hins. destruct Hst as [-> Hr].
  destruct Hm as [Hwf Hlive Hgone Har Hli].
  destruct (wf_table _ Hwf) as (_ & _ & Hall).
  assert (Hold : forall a c,
            In (a, c) (function_by_address (interceptor st)) ->
            contexts st' c = contexts st c
            /\ entries_of st' c = entries_of st c
            /\ (listener_entries (contexts st c) < next_array st)%nat).
  { intros a c Hin. destruct (Hall a c Hin) as (H1 & _ & H3).
    assert (Hc : contexts st' c = contexts st c) by (apply Hq; lia).
    split; [exact Hc|]. split; [|exact H3].
    unfold entries_of. rewrite Hc. apply Harr. lia. }
  assert (Hkeep : (forall a c,
                     In (a, c) (function_by_address (interceptor st)) ->
                     activated (contexts st' c) = true
                     \/ In (activation c) (pending_tasks st'))
                  /\ (forall c,
                        destroyed (contexts st' c) = true ->
                        activated (contexts st' c) = false
                        \/ In (deactivation c) (pending_tasks st'))).
  { split.
    - intros a c Hin. destruct (Hold a c Hin) as (-> & _).
      destruct (Hlive a c Hin) as [H|H]; [now left | right; now apply Hk].
    - intros c Hd.
      destruct (Nat.eq_dec c (next_context st)) as [->|Hne];
        [rewrite Hdes in Hd; discriminate Hd|].
      assert (Hc : contexts st' c = contexts st c) by now apply Hq.
      rewrite Hc in *.
      destruct (Hgone c Hd) as [H|H];
        [now left | right; now apply Hk]. }
  destruct Hkeep as [Hlive' Hgone'].
  split; [|split].
  2:{ exact Hdirty. }
  2:{ intros ctx Hc. split; [|now apply Hty]. rewrite Hc in Hr.
      destruct (backend_build host type_ fa) as [t|]; [|discriminate Hr].
      injection Hr as ->. rewrite Hfba, (insert_absent _ _ _ Hl).
      apply in_or_app. right. now left. }
  destruct (backend_build host type_ fa) as [t|] eqn:Hbuild.
  - destruct (Hnew t eq_refl) as (_ & Hle & Hempty & _).
    rewrite (insert_absent _ _ _ Hl) in Hfba.
    assert (Hin' : forall a c,
              In (a, c) (function_by_address (interceptor st')) ->
              In (a, c) (function_by_address (interceptor st))
              \/ c = next_context st).
    { intros a c Hin. rewrite Hfba in Hin. apply in_app_or in Hin.
      destruct Hin as [Hin|[[= _ <-]|[]]]; [now left | now right]. }
    constructor.
    + exact Hwf'.
    + intros a c Hin. destruct (Hin' a c Hin) as [Ho| ->];
        [now apply (Hlive' a) | right; apply Hact; now rewrite Hr].
    + exact Hgone'.
    + intros a1 c1 a2 c2 H1 H2 Heq.
      destruct (Hin' a1 c1 H1) as [O1| ->], (Hin' a2 c2 H2) as [O2| ->].
      * destruct (Hold a1 c1 O1) as (E1 & _). destruct (Hold a2 c2 O2) as (E2 & _).
        rewrite E1, E2 in Heq. now apply (Har a1 c1 a2 c2).
      * destruct (Hold a1 c1 O1) as (E1 & _ & B1). rewrite E1, Hle in Heq. lia.
      * destruct (Hold a2 c2 O2) as (E2 & _ & B2). rewrite E2, Hle in Heq. lia.
      * reflexivity.
    + intros a c Hin. destruct (Hin' a c Hin) as [Ho| ->].
      * destruct (Hold a c Ho) as (_ & -> & _). now apply (Hli a).
      * unfold entries_of. rewrite Hle, Hempty. constructor.
  - constructor.
    + exact Hwf'.
    + intros a c Hin. rewrite Hfba in Hin. now apply (Hlive' a).
    + exact Hgone'.
    + intros a1 c1 a2 c2 H1 H2 Heq. rewrite Hfba in H1, H2.
      destruct (Hold a1 c1 H1) as (E1 & _). destruct (Hold a2 c2 H2) as (E2 & _).
      rewrite E1, E2 in Heq. now apply (Har a1 c1 a2 c2).
    + intros a c Hin. rewrite Hfba in Hin.
      destruct (Hold a c Hin) as (_ & -> & _). now apply (Hli a).
Qed.

(** *** Listeners *)

Lemma add_listener_hooks a p l d st :
  hooks_mid st ->
  In (a, p) (function_by_address (interceptor st)) ->
  type (contexts st p) = GUM_INTERCEPTOR_TYPE_DEFAULT ->
  gum_function_context_has_listener st p l = false ->
  hooks_mid (gum_function_context_add_listener host p l d st)
  /\ is_dirty (transaction (gum_function_context_add_listener host p l d st))
     = is_dirty (transaction st).
Proof.
  intros [Hwf Hlive Hgone Har Hli] Hin Hty Hhas.
  pose proof (add_listener_wf host p l d st Hty Hwf) as Hwf'.
  destruct (add_listener_spec host p l d st)
    as (Hle & _ & He & Harr & _ & _ & Hq & Hfba).
  destruct (add_listener_frame host p l d st)
    as (Hact & Hdes & _ & _ & _ & Hnc & Hpend & _ & Hdirty).
  set (st' := gum_function_context_add_listener host p l d st) in *.
  split; [|exact Hdirty].
  destruct (wf_table _ Hwf) as (_ & _ & Hall).
  assert (Hp : pending_tasks st' = pending_tasks st)
    by (unfold pending_tasks; now rewrite Hpend).
  assert (Hother : forall b c,
            In (b, c) (function_by_address (interceptor st)) -> c <> p ->
            contexts st' c = contexts st c
            /\ entries_of st' c = entries_of st c).
  { intros b c Hc Hne. rewrite (Hq c Hne). split; [reflexivity|].
    unfold entries_of. rewrite (Hq c Hne). apply Harr.
    destruct (Hall b c Hc) as (_ & _ & H). lia. }
  constructor.
  - exact Hwf'.
  - intros b c Hc. rewrite Hfba in Hc. rewrite Hp.
    destruct (Nat.eq_dec c p) as [->|Hne].
    + rewrite Hact. now apply (Hlive b).
    + destruct (Hother b c Hc Hne) as (-> & _). now apply (Hlive b).
  - intros c Hd. rewrite Hp.
    destruct (Nat.eq_dec c p) as [->|Hne].
    + rewrite Hact. rewrite Hdes in Hd. now apply Hgone.
    + rewrite (Hq c Hne) in *. now apply Hgone.
  - intros a1 c1 a2 c2 H1 H2 Heq. rewrite Hfba in H1, H2.
    destruct (Nat.eq_dec c1 p) as [->|N1], (Nat.eq_dec c2 p) as [->|N2].
    + reflexivity.
    + rewrite Hle, (Hq c2 N2) in Heq.
      destruct (Hall a2 c2 H2) as (_ & _ & H). lia.
    + rewrite Hle, (Hq c1 N1) in Heq.
      destruct (Hall a1 c1 H1) as (_ & _ & H). lia.
    + rewrite (Hq c1 N1), (Hq c2 N2) in Heq. now apply (Har a1 c1 a2 c2).
  - intros b c Hc. rewrite Hfba in Hc.
    destruct (Nat.eq_dec c p) as [->|Hne].
    + rewrite He, live_listeners_app, live_listeners_copy. cbn.
      fold (entries_of st p).
      apply NoDup_app; [now apply (Hli b) | repeat constructor; tauto |].
      intros x Hx [E|[]]. subst x.
      assert (Ht : gum_function_context_has_listener st p l = true)
        by now apply has_listener_live.
      rewrite Hhas in Ht. discriminate Ht.
    + destruct (Hother b c Hc Hne) as (_ & ->). now apply (Hli b).
Qed.

Lemma remove_listener_flags p l st st' :
  gum_function_context_remove_listener p l st = Some st' ->
  next_context st' = next_context st
  /\ forall q,
       activated (contexts st' q) = activated (contexts st q)
       /\ destroyed (contexts st' q) = destroyed (contexts st q)
       /\ replacement_function (contexts st' q)
          = replacement_function (contexts st q).
Proof.
  unfold gum_function_context_remove_listener.
  destruct (gum_function_context_find_listener st p l); [|discriminate].
  intros [= <-]. split; [reflexivity|].
  intros q. cbn. unfold upd.
  destruct (Nat.eqb_spec q p) as [->|Hne]; split_and; reflexivity.
Qed.

Lemma remove_listener_hooks a p l st st' :
  hooks_mid st ->
  In (a, p) (function_by_address (interceptor st)) ->
  gum_function_context_remove_listener p l st = Some st' ->
  hooks_mid st'
  /\ interceptor st' = interceptor st
  /\ ~ In l (live_listeners (entries_of st' p))
  /\ (forall x, x <> l ->
        In x (live_listeners (entries_of st p)) ->
        In x (live_listeners (entries_of st' p)))
  /\ (forall x,
        In x (live_listeners (entries_of st' p)) ->
        In x (live_listeners (entries_of st p)))
  /\ (forall b c,
        In (b, c) (function_by_address (interceptor st)) -> c <> p ->
        entries_of st' c = entries_of st c).
Proof.
  intros [Hwf Hlive Hgone Har Hli] Hin Hrm.
  pose proof (remove_listener_wf p l st st' Hrm Hwf) as Hwf'.
  destruct (remove_listener_flags p l st st' Hrm) as (Hnc & Hfl).
  destruct (remove_listener_spec p l st st' Hrm)
    as (slot & Hfind & He & _ & Hle & _ & Harr & Hq & Hi).
  unfold gum_function_context_find_listener in Hfind.
  destruct (clear_found_slot_nodup _ _ _ _ Hfind (Hli a p Hin))
    as (Hnd & Hnl & Hkeep).
  destruct (clear_found_slot _ _ _ _ Hfind) as (_ & Hsub).
  rewrite Nat.sub_0_r in Hnd, Hnl, Hkeep, Hsub. rewrite <- He in *.
  assert (Hp : pending_tasks st' = pending_tasks st)
    by (unfold pending_tasks, transaction; now rewrite Hi).
  assert (Hother : forall b c,
            In (b, c) (function_by_address (interceptor st)) -> c <> p ->
            entries_of st' c = entries_of st c).
  { intros b c Hc Hne. unfold entries_of. rewrite (Hq c Hne). apply Harr.
    intros Heq. apply Hne. now apply (Har b c a p). }
  split; [|split_and; assumption].
  constructor.
  - exact Hwf'.
  - intros b c Hc. rewrite Hi in Hc. rewrite Hp.
    destruct (Hfl c) as (-> & _). now apply (Hlive b).
  - intros c Hd. rewrite Hp.
    destruct (Hfl c) as (-> & Hd' & _). rewrite Hd' in Hd. now apply Hgone.
  - intros a1 c1 a2 c2 H1 H2 Heq. rewrite Hi in H1, H2.
    assert (Hl : forall c, listener_entries (contexts st' c)
                           = listener_entries (contexts st c)).
    { intros c. destruct (Nat.eq_dec c p) as [->|Hne];
        [exact Hle | now rewrite (Hq c Hne)]. }
    rewrite !Hl in Heq. now apply (Har a1 c1 a2 c2).
  - intros b c Hc. rewrite Hi in Hc.
    destruct (Nat.eq_dec c p) as [->|Hne]; [exact Hnd|].
    rewrite (Hother b c Hc Hne). now apply (Hli b).
Qed.

(** *** Removing a context from the table *)

Lemma remove_absent {V} (t : list (gpointer * V)) k :
  g_hash_table_lookup t k = None -> g_hash_table_remove t k = t.
Proof.
  induction t as [|[k0 v0] t IH]; cbn; [reflexivity|].
  destruct (k0 =? k); [discriminate|]. intros H. now rewrite IH.
Qed.

Lemma function_by_address_remove_hooks key st st' :
  hooks_mid st ->
  function_by_address_remove host key st = Some st' ->
  hooks_mid st'
  /\ is_dirty (transaction st') = is_dirty (transaction st)
  /\ function_by_address (interceptor st')
     = g_hash_table_remove (function_by_address (interceptor st)) key
  /\ arrays st' = arrays st
  /\ next_context st' = next_context st
  /\ (forall q,
        listener_entries (contexts st' q) = listener_entries (contexts st q)
        /\ replacement_function (contexts st' q)
           = replacement_function (contexts st q)
        /\ (destroyed (contexts st q) = true ->
            destroyed (contexts st' q) = true))
  /\ (forall ctx,
        g_hash_table_lookup (function_by_address (interceptor st)) key
        = Some ctx ->
        destroyed (contexts st' ctx) = true).
Proof.
  intros Hm Hrm.
  pose proof (function_by_address_remove_wf host key st st' (hm_wf _ Hm) Hrm)
    as Hwf'.
  revert Hrm. unfold function_by_address_remove.
  destruct (g_hash_table_lookup (function_by_address (interceptor st)) key)
    as [ctx|] eqn:Hl.
  2:{ intros [= <-]. split; [exact Hm|]. split; [reflexivity|].
      split; [now rewrite remove_absent|].
      split; [reflexivity|]. split; [reflexivity|].
      split; [intros q; now split_and | intros ctx H; discriminate H]. }
  destruct Hm as [Hwf Hlive Hgone Har Hli].
  destruct (wf_table _ Hwf) as (Hk & Hv & Hall).
  pose proof (lookup_In _ _ _ Hl) as Hin.
  destruct (Hall key ctx Hin) as (Hlt & Hdes & _).
  set (st1 := set_function_by_address
                (g_hash_table_remove (function_by_address (interceptor st))
                   key) st).
  unfold gum_function_context_destroy.
  change (destroyed (contexts st1 ctx)) with (destroyed (contexts st ctx)).
  rewrite Hdes.
  set (st2 := update_context ctx (set_destroyed true) st1).
  assert (Hc2 : contexts st2 ctx = set_destroyed true (contexts st ctx))
    by (unfold st2, update_context; cbn; apply upd_eq).
  assert (Hq2 : forall q, q <> ctx -> contexts st2 q = contexts st q)
    by (intros q Hq; unfold st2, update_context; cbn; now apply upd_ne).
  assert (Hp2 : pending_tasks st2 = pending_tasks st) by reflexivity.
  set (st3 := if activated (contexts st2 ctx)
              then gum_interceptor_transaction_schedule_update host ctx
                     gum_interceptor_deactivate_func st2
              else st2).
  assert (H23 : contexts st3 = contexts st2
                /\ arrays st3 = arrays st2
                /\ next_context st3 = next_context st2
                /\ function_by_address (interceptor st3)
                   = function_by_address (interceptor st2)
                /\ is_dirty (transaction st3) = is_dirty (transaction st2)
                /\ (forall t, In t (pending_tasks st2) ->
                      In t (pending_tasks st3))
                /\ (activated (contexts st2 ctx) = true ->
                    In (deactivation ctx) (pending_tasks st3))).
  { unfold st3. destruct (activated (contexts st2 ctx)).
    - destruct (schedule_update_tasks host ctx
                  gum_interceptor_deactivate_func st2) as (_ & Hperm & Hst).
      rewrite Hst.
      split; [reflexivity|]. split; [reflexivity|]. split; [reflexivity|].
      split; [reflexivity|]. split; [reflexivity|].
      rewrite <- Hst.
      split; intros; unfold pending_tasks;
        (eapply Permutation_in; [apply Permutation_sym, Hperm|]);
        apply in_or_app; [now left | right; now left].
    - split_and; try reflexivity; [tauto | intros H; discriminate H]. }
  destruct H23 as (Hc3 & Ha3 & Hn3 & Ht3 & Hd3 & Hk3 & Hde3).
  intros [= <-].
  set (st4 := gum_interceptor_transaction_schedule_destroy _ _ _ st3) in *.
  assert (Hc4 : contexts st4 = contexts st2) by exact Hc3.
  assert (Hp4 : pending_tasks st4 = pending_tasks st3) by reflexivity.
  assert (Ht4 : function_by_address (interceptor st4)
                = g_hash_table_remove (function_by_address (interceptor st))
                    key) by exact Ht3.
  assert (Hsub : forall b c,
            In (b, c) (function_by_address (interceptor st4)) ->
            In (b, c) (function_by_address (interceptor st)) /\ c <> ctx).
  { intros b c Hc. rewrite Ht4 in Hc. split; [now apply (remove_In _ key)|].
    intros ->. apply (remove_value_gone _ key ctx Hv Hl).
    change ctx with (snd (b, ctx)). now apply in_map. }
  assert (Hle : forall q, listener_entries (contexts st4 q)
                          = listener_entries (contexts st q)).
  { intros q. rewrite Hc4. destruct (Nat.eq_dec q ctx) as [->|Hne];
      [now rewrite Hc2 | now rewrite Hq2]. }
  split; [|split; [exact Hd3|]; split; [exact Ht4|]; split; [exact Ha3|];
           split; [exact Hn3|]; split].
  - constructor.
    + exact Hwf'.
    + intros b c Hc. destruct (Hsub b c Hc) as [Ho Hne].
      rewrite Hc4, (Hq2 c Hne), Hp4.
      destruct (Hlive b c Ho) as [H|H]; [now left | right].
      apply Hk3. now rewrite Hp2.
    + intros c Hd. rewrite Hp4. rewrite Hc4 in Hd |- *.
      destruct (Nat.eq_dec c ctx) as [->|Hne].
      * destruct (activated (contexts st2 ctx)) eqn:Hact;
          [right; now apply Hde3 | now left].
      * rewrite (Hq2 c Hne) in Hd |- *.
        destruct (Hgone c Hd) as [H|H]; [now left | right].
        apply Hk3. now rewrite Hp2.
    + intros a1 c1 a2 c2 H1 H2 Heq. rewrite !Hle in Heq.
      destruct (Hsub a1 c1 H1) as [O1 _]. destruct (Hsub a2 c2 H2) as [O2 _].
      now apply (Har a1 c1 a2 c2).
    + intros b c Hc. destruct (Hsub b c Hc) as [Ho _].
      unfold entries_of. rewrite Hle.
      change (arrays st4) with (arrays st3). rewrite Ha3.
      now apply (Hli b).
  - intros q. split; [apply Hle|]. rewrite Hc4.
    destruct (Nat.eq_dec q ctx) as [->|Hne];
      [rewrite Hc2; now split | rewrite Hq2 by exact Hne; now split].
  - intros c [= <-]. rewrite Hc4, Hc2. reflexivity.
Qed.

Lemma nodup_map_inj {A B} (f : A -> B) (l : list A) x y :
  NoDup (map f l) -> In x l -> In y l -> f x = f y -> x = y.
Proof.
  induction l as [|z l IH]; cbn; [tauto|].
  intros Hnd. apply NoDup_cons_iff in Hnd. destruct Hnd as [Hn Hnd].
  intros [->|Hx] [->|Hy] E.
  - reflexivity.
  - exfalso. apply Hn. rewrite E. now apply in_map.
  - exfalso. apply Hn. rewrite <- E. now apply in_map.
  - now apply IH.
Qed.

Lemma remove_other_In {V} (t : list (gpointer * V)) k k' v :
  In (k', v) t -> k' <> k -> In (k', v) (g_hash_table_remove t k).
Proof.
  induction t as [|[k0 v0] t IH]; cbn; [tauto|].
  intros [E|Hin] Hne.
  - injection E as -> ->.
    destruct (Z.eqb_spec k' k); [contradiction | now left].
  - destruct (k0 =? k); [exact Hin | right; now apply IH].
Qed.

Lemma is_empty_live st c :
  gum_function_context_is_empty st c = true
  <-> replacement_function (contexts st c) = NULL
      /\ live_listeners (entries_of st c) = [].
Proof.
  unfold gum_function_context_is_empty,
    gum_function_context_find_taken_listener_slot.
  pose proof (find_taken_slot_none (entries_of st c) O) as H.
  destruct (Z.eqb_spec (replacement_function (contexts st c)) NULL)
    as [E|E]; cbn [negb].
  - destruct (find_taken_slot_from 0 (entries_of st c)).
    + split; [discriminate|]. intros [_ Hn]. apply H in Hn. discriminate Hn.
    + split; [intros _; split; [exact E | now apply H] | reflexivity].
  - split; [discriminate | intros [Hn _]; contradiction].
Qed.

(** *** The loop of detach *)

Lemma detach_loop_hooks l entries :
  forall st st',
    hooks_mid st ->
    NoDup (map fst entries) ->
    (forall e, In e entries -> In e (function_by_address (interceptor st))) ->
    detach_loop host entries l st = Some st' ->
    hooks_mid st'
    /\ is_dirty (transaction st') = is_dirty (transaction st)
    /\ detached l entries st st'.
Proof.
  induction entries as [|[key ctx] entries IH]; intros st st' Hm Hnd Hsub;
    cbn [detach_loop].
  { intros [= <-]. split; [exact Hm|]. split; [reflexivity|].
    constructor.
    - tauto.
    - intros a c _ [].
    - reflexivity.
    - reflexivity.
    - intros a c H Hn. contradiction.
    - intros a c _ [].
    - intros q. split; [reflexivity | tauto]. }
  cbn [map] in Hnd. apply NoDup_cons_iff in Hnd. destruct Hnd as [Hkey Hnd].
  assert (Hhead : In (key, ctx) (function_by_address (interceptor st)))
    by (apply Hsub; now left).
  assert (Hrest : forall e, In e entries ->
                    In e (function_by_address (interceptor st)))
    by (intros e He; apply Hsub; now right).
  assert (Hnothead : ~ In (key, ctx) entries).
  { intros Hin. apply Hkey. exact (in_map fst entries (key, ctx) Hin). }
  destruct (wf_table _ (hm_wf _ Hm)) as (Hk & Hv & _).
  assert (Hsamectx : forall a, In (a, ctx)
                                 (function_by_address (interceptor st)) ->
                               a = key).
  { intros a Hin.
    pose proof (nodup_map_inj snd _ (a, ctx) (key, ctx) Hv Hin Hhead eq_refl)
      as E. now injection E. }
  assert (Hsamekey : forall c, In (key, c)
                                 (function_by_address (interceptor st)) ->
                               c = ctx).
  { intros c Hin.
    pose proof (nodup_map_inj fst _ (key, c) (key, ctx) Hk Hin Hhead eq_refl)
      as E. now injection E. }
  destruct (gum_function_context_has_listener st ctx l) eqn:Hhas.
  2:{ (* the context does not hold the listener *)
    intros Hloop.
    destruct (IH st st' Hm Hnd Hrest Hloop) as (Hm' & Hd' & D).
    assert (Hnl : ~ In l (live_listeners (entries_of st ctx))).
    { intros Hin. apply has_listener_live in Hin. rewrite Hhas in Hin.
      discriminate Hin. }
    split; [exact Hm'|]. split; [exact Hd'|].
    destruct D as [Dt Dv Do Dk Dr Du Dc].
    constructor.
    - exact Dt.
    - intros a c Hin [E|He]; [|now apply (Dv a)].
      injection E as <- <-. rewrite (Do key ctx Hin Hnothead). exact Hnl.
    - intros a c Hin Hn. apply (Do a c Hin). intros He. apply Hn. now right.
    - exact Dk.
    - intros a c Hin Hn. destruct (Dr a c Hin Hn) as (He & R).
      split; [now right | exact R].
    - intros a c Hin [E|He] Hl; [|now apply (Du a)].
      injection E as <- <-. contradiction.
    - exact Dc. }
  destruct (gum_function_context_remove_listener ctx l st) as [st1|] eqn:E1;
    [|discriminate].
  destruct (remove_listener_hooks key ctx l st st1 Hm Hhead E1)
    as (Hm1 & Hi1 & Hnl1 & Hkeep1 & Hsub1 & Hother1).
  destruct (remove_listener_flags ctx l st st1 E1) as (_ & Hfl1).
  set (st2 := gum_interceptor_transaction_schedule_destroy ctx g_object_unref
                l st1).
  assert (Hm2 : hooks_mid st2).
  { apply (hooks_mid_frame st1);
      [apply hooks_frame_schedule_destroy | | exact Hm1].
    apply schedule_destroy_wf; [discriminate | apply Hm1]. }
  assert (Ht2 : function_by_address (interceptor st2)
                = function_by_address (interceptor st))
    by (rewrite <- Hi1; reflexivity).
  assert (Hd2 : is_dirty (transaction st2) = is_dirty (transaction st))
    by (unfold transaction; rewrite <- Hi1; reflexivity).
  assert (He2 : forall c, entries_of st2 c = entries_of st1 c)
    by reflexivity.
  assert (Hc2 : contexts st2 = contexts st1) by reflexivity.
  assert (Hl : In l (live_listeners (entries_of st ctx)))
    by now apply has_listener_live.
  assert (Hlive2 : forall a c x,
            In (a, c) (function_by_address (interceptor st)) -> x <> l ->
            (In x (live_listeners (entries_of st2 c))
             <-> In x (live_listeners (entries_of st c)))).
  { intros a c x Hin Hx. rewrite He2.
    destruct (Nat.eq_dec c ctx) as [->|Hne].
    - split; [apply Hsub1 | now apply Hkeep1].
    - now rewrite (Hother1 a c Hin Hne). }
  assert (Hrepl2 : forall q, replacement_function (contexts st2 q)
                             = replacement_function (contexts st q)).
  { intros q. rewrite Hc2. now destruct (Hfl1 q) as (_ & _ & ->). }
  assert (Hdes2 : forall q, destroyed (contexts st2 q)
                            = destroyed (contexts st q)).
  { intros q. rewrite Hc2. now destruct (Hfl1 q) as (_ & -> & _). }
  destruct (gum_function_context_is_empty st2 ctx) eqn:Hempty.
  - (* the listener was the last user: the context goes *)
    apply is_empty_live in Hempty. destruct Hempty as [Hrn Hln].
    destruct (function_by_address_remove host key st2) as [st3|] eqn:E3;
      [|discriminate].
    destruct (function_by_address_remove_hooks key st2 st3 Hm2 E3)
      as (Hm3 & Hd3 & Ht3 & Ha3 & _ & Hq3 & Hdes3).
    rewrite Ht2 in Ht3.
    assert (Hrest3 : forall e, In e entries ->
                       In e (function_by_address (interceptor st3))).
    { intros [k c] He. rewrite Ht3. apply remove_other_In;
        [now apply Hrest|].
      intros E. subst k. apply Hkey.
      exact (in_map fst entries (key, c) He). }
    intros Hloop.
    destruct (IH st3 st' Hm3 Hnd Hrest3 Hloop) as (Hm' & Hd' & D).
    split; [exact Hm'|]. split; [congruence|].
    destruct D as [Dt Dv Do Dk Dr Du Dc].
    assert (Hin3 : forall a c,
              In (a, c) (function_by_address (interceptor st3)) ->
              In (a, c) (function_by_address (interceptor st)) /\ c <> ctx).
    { intros a c Hin. rewrite Ht3 in Hin.
      split; [now apply (remove_In _ key)|].
      intros ->. apply (remove_value_gone _ key ctx Hv).
      - now apply In_lookup.
      - change ctx with (snd (a, ctx)). now apply in_map. }
    assert (He3 : forall a c,
              In (a, c) (function_by_address (interceptor st3)) ->
              entries_of st3 c = entries_of st c).
    { intros a c Hin. destruct (Hin3 a c Hin) as [Ho Hne].
      unfold entries_of. rewrite Ha3. destruct (Hq3 c) as (-> & _).
      fold (entries_of st2 c). rewrite He2. now apply (Hother1 a). }
    assert (Hgone : ~ In (key, ctx) (function_by_address (interceptor st'))).
    { intros Hin. apply Dt in Hin. now destruct (Hin3 _ _ Hin). }
    constructor.
    + intros a c Hin. now apply Hin3, Dt.
    + intros a c Hin [E|He]; [|now apply (Dv a)].
      injection E as <- <-. contradiction.
    + intros a c Hin Hn. rewrite (Do a c Hin);
        [apply (He3 a), Dt, Hin | intros He; apply Hn; now right].
    + intros a c x Hin Hx. rewrite (Dk a c x Hin Hx).
      now rewrite (He3 a c (Dt a c Hin)).
    + intros a c Hin Hn.
      destruct (Z.eq_dec a key) as [->|Hne].
      * rewrite (Hsamekey c Hin) in *. split; [now left|].
        split; [apply Dc, Hdes3; rewrite Ht2; now apply In_lookup|].
        split; [now rewrite <- Hrepl2|]. split; [exact Hl|].
        intros x Hx. destruct (Z.eq_dec x l) as [E|E]; [exact E|].
        exfalso. apply (Hlive2 key ctx x Hhead E) in Hx.
        rewrite Hln in Hx. destruct Hx.
      * assert (Hin' : In (a, c) (function_by_address (interceptor st3)))
          by (rewrite Ht3; now apply remove_other_In).
        destruct (Dr a c Hin' Hn) as (He & Hdes & Hr & Hl' & Hall').
        rewrite (He3 a c Hin') in Hl', Hall'.
        split; [now right|]. split; [exact Hdes|].
        split; [|split; assumption].
        destruct (Hq3 c) as (_ & Er & _). rewrite Er, Hrepl2 in Hr. exact Hr.
    + intros a c Hin [E|He] Hlc.
      * injection E as <- <-. contradiction.
      * pose proof (Dt a c Hin) as Hin'.
        rewrite <- (He3 a c Hin') in Hlc.
        destruct (Du a c Hin He Hlc) as [Hr|(x & Hx & Hxin)].
        -- left. destruct (Hq3 c) as (_ & Er & _).
           rewrite Er, Hrepl2 in Hr. exact Hr.
        -- right. exists x. split; [exact Hx|].
           now rewrite <- (He3 a c Hin').
    + intros q. destruct (Dc q) as (Er & Ed). destruct (Hq3 q) as (_ & Er3 & Ed3).
      split; [now rewrite Er, Er3, Hrepl2|].
      intros H. apply Ed, Ed3. now rewrite Hdes2.
  - (* the context is still in use *)
    assert (Hrest2 : forall e, In e entries ->
                       In e (function_by_address (interceptor st2)))
      by (intros e He; rewrite Ht2; now apply Hrest).
    intros Hloop.
    destruct (IH st2 st' Hm2 Hnd Hrest2 Hloop) as (Hm' & Hd' & D).
    split; [exact Hm'|]. split; [congruence|].
    destruct D as [Dt Dv Do Dk Dr Du Dc].
    rewrite Ht2 in Dt, Dr.
    assert (Hne2 : forall a c,
              In (a, c) (function_by_address (interceptor st)) ->
              (a, c) <> (key, ctx) -> c <> ctx).
    { intros a c Hin Hn ->. apply Hn. now rewrite (Hsamectx a Hin). }
    constructor.
    + exact Dt.
    + intros a c Hin [E|He]; [|now apply (Dv a)].
      injection E as <- <-.
      rewrite (Do key ctx Hin Hnothead), He2. exact Hnl1.
    + intros a c Hin Hn.
      rewrite (Do a c Hin) by (intros He; apply Hn; now right).
      rewrite He2. apply (Hother1 a); [now apply Dt|].
      apply (Hne2 a); [now apply Dt|]. intros E. apply Hn. now left.
    + intros a c x Hin Hx. rewrite (Dk a c x Hin Hx).
      apply (Hlive2 a); [now apply Dt | exact Hx].
    + intros a c Hin Hn.
      destruct (Dr a c Hin Hn) as (He & Hdes & Hr & Hl' & Hall').
      assert (Hc : c <> ctx).
      { intros ->. rewrite He2 in Hl'. contradiction. }
      rewrite He2, (Hother1 a c Hin Hc) in Hl', Hall'.
      split; [now right|]. split; [exact Hdes|].
      split; [now rewrite <- Hrepl2 | split; assumption].
    + intros a c Hin [E|He] Hlc.
      * injection E as <- <-.
        destruct (Z.eq_dec (replacement_function (contexts st ctx)) NULL)
          as [Hr|Hr]; [|now left].
        right.
        destruct (live_listeners (entries_of st2 ctx)) as [|x xs] eqn:Hlv.
        -- exfalso.
           assert (Ht : gum_function_context_is_empty st2 ctx = true).
           { apply is_empty_live. split; [now rewrite Hrepl2 | exact Hlv]. }
           rewrite Hempty in Ht. discriminate Ht.
        -- exists x.
           assert (Hx : In x (live_listeners (entries_of st2 ctx)))
             by (rewrite Hlv; now left).
           rewrite He2 in Hx.
           split; [intros ->; contradiction | now apply Hsub1].
      * assert (Hc : c <> ctx).
        { apply (Hne2 a); [now apply Dt|]. intros E. injection E as -> ->.
          contradiction. }
        pose proof (Dt a c Hin) as Hin'.
        rewrite <- (Hother1 a c Hin' Hc), <- He2 in Hlc.
        destruct (Du a c Hin He Hlc) as [Hr|(x & Hx & Hxin)].
        -- left. now rewrite <- Hrepl2.
        -- right. exists x. split; [exact Hx|].
           rewrite He2, (Hother1 a c Hin' Hc) in Hxin. exact Hxin.
    + intros q. destruct (Dc q) as (Er & Ed).
      split; [now rewrite Er, Hrepl2|].
      intros H. apply Ed. now rewrite Hdes2.
Qed.

(** *** The commit *)

Lemma transaction_end_hooks st st' :
  hooks_mid st ->
  is_dirty (transaction st) = true \/ transaction_settled st ->
  gum_interceptor_transaction_end host st = Some st' ->
  hooks_wf st' /\ commit_frame st st'.
Proof.
  intros Hm Hopen Hend.
  pose proof (transaction_end_wf host st st' (hm_wf _ Hm) Hend) as Hwf'.
  destruct (transaction_end_ok host st (wf_updates _ (hm_wf _ Hm)))
    as (st1 & Hend1 & Hf & _ & Hskip & Hcommit).
  rewrite Hend in Hend1. injection Hend1 as <-.
  split; [|exact Hf].
  assert (Hplain : level (transaction st) > 1
                   \/ is_dirty (transaction st) = false ->
                   hooks_wf st').
  { intros Hcase. rewrite (Hskip Hcase). constructor.
    - apply (hooks_mid_frame st); [| now rewrite <- (Hskip Hcase) | exact Hm].
      now apply hooks_frame_transaction.
    - intros Hp.
      change (pending_update_tasks (transaction st) <> []) in Hp.
      change (is_dirty (transaction st) = true
              /\ 1 <= level (transaction st) - 1).
      destruct Hcase as [Hgt|Hclean].
      + destruct Hopen as [Hd|Hs]; [split; [exact Hd | lia]|].
        destruct (Hs Hp) as [Hd _]. split; [exact Hd | lia].
      + destruct Hopen as [Hd|Hs]; [congruence|].
        destruct (Hs Hp) as [Hd _]. congruence. }
  destruct (Z.leb_spec (level (transaction st)) 1) as [Hl|Hl];
    [|apply Hplain; left; lia].
  destruct (is_dirty (transaction st)) eqn:Hd;
    [|apply Hplain; now right].
  clear Hplain Hskip.
  destruct (Hcommit Hl eq_refl) as (_ & _ & Hnone & _).
  destruct Hm as [Hwf Hlive Hgone Har Hli].
  destruct (wf_updates _ Hwf) as (Hk & Hnd & _).
  destruct (transaction_end_applied host st st' Hk Hnd Hl Hd Hend)
    as (Happ & Hother).
  fold (pending_tasks st) in Happ, Hother.
  pose proof (wf_deactivations _ Hwf) as Hde.
  unfold deactivations_wf in Hde. rewrite Forall_forall in Hde.
  destruct (wf_table _ Hwf) as (_ & _ & Hall).
  assert (Hshape : forall q,
            listener_entries (contexts st' q)
            = listener_entries (contexts st q)
            /\ destroyed (contexts st' q) = destroyed (contexts st q)).
  { intros q.
    destruct (keeps_shape _ _ (cf_contexts _ _ Hf q)) as (_ & H1 & H2).
    now split. }
  assert (Htask : forall c,
            In c (map update_ctx (pending_tasks st)) ->
            In (activation c) (pending_tasks st)
            \/ In (deactivation c) (pending_tasks st)).
  { intros c Hin. apply in_map_iff in Hin. destruct Hin as ([c' f] & E & Hin).
    cbn in E. subst c'. destruct f; [now left | now right]. }
  assert (Hact : forall c,
            In (activation c) (pending_tasks st) ->
            (destroyed (contexts st c) = false ->
             activated (contexts st' c) = true)
            /\ (destroyed (contexts st c) = true ->
                activated (contexts st' c) = activated (contexts st c))).
  { intros c Hin. destruct (Happ _ Hin) as [H1 H2]. cbn in H1, H2.
    split; [intros H; now apply H1 | exact H2]. }
  assert (Hdeact : forall c,
            In (deactivation c) (pending_tasks st) ->
            activated (contexts st' c) = false
            /\ destroyed (contexts st c) = true).
  { intros c Hin. destruct (Happ _ Hin) as [H1 _]. cbn in H1.
    split; [exact H1|]. now apply (Hde _ Hin). }
  constructor; [constructor|].
  - exact Hwf'.
  - intros a c Hin. left. rewrite (cf_function_by_address _ _ Hf) in Hin.
    destruct (Hall a c Hin) as (_ & Hdes & _).
    destruct (Hlive a c Hin) as [Ht|Ht]; [|now apply (Hact c)].
    destruct (in_dec Nat.eq_dec c (map update_ctx (pending_tasks st)))
      as [Hc|Hc]; [|now rewrite (Hother c Hc)].
    destruct (Htask c Hc) as [H|H]; [now apply (Hact c)|].
    destruct (Hdeact c H) as [_ Hd']. congruence.
  - intros c Hdes. left.
    destruct (Hshape c) as (_ & Hd'). rewrite Hd' in Hdes.
    destruct (Hgone c Hdes) as [Ht|Ht]; [|now apply (Hdeact c)].
    destruct (in_dec Nat.eq_dec c (map update_ctx (pending_tasks st)))
      as [Hc|Hc]; [|now rewrite (Hother c Hc)].
    destruct (Htask c Hc) as [H|H]; [|now apply (Hdeact c)].
    destruct (Hact c H) as [_ H2]. now rewrite (H2 Hdes).
  - intros a1 c1 a2 c2 H1 H2 Heq.
    rewrite (cf_function_by_address _ _ Hf) in H1, H2.
    destruct (Hshape c1) as (E1 & _). destruct (Hshape c2) as (E2 & _).
    rewrite E1, E2 in Heq. now apply (Har a1 c1 a2 c2).
  - intros a c Hin. rewrite (cf_function_by_address _ _ Hf) in Hin.
    unfold entries_of. destruct (Hshape c) as (-> & _).
    rewrite (cf_arrays _ _ Hf). now apply (Hli a).
  - intros Hp. now contradiction Hp.
Qed.

(** *** The operations *)

Lemma ignore_transaction st :
  interceptor (gum_interceptor_ignore_current_thread st) = interceptor st.
Proof.
  unfold gum_interceptor_ignore_current_thread,
    get_interceptor_thread_context.
  destruct (thread_context st); reflexivity.
Qed.

Lemma unignore_transaction st :
  interceptor (gum_interceptor_unignore_current_thread st) = interceptor st.
Proof.
  unfold gum_interceptor_unignore_current_thread,
    get_interceptor_thread_context.
  destruct (thread_context st); reflexivity.
Qed.

Lemma hooks_wf_ignore st :
  hooks_wf st -> hooks_wf (gum_interceptor_ignore_current_thread st).
Proof.
  intros Hw. apply (hooks_wf_frame st); [apply hooks_frame_ignore | | | exact Hw].
  - apply (same_shape_wf st); [apply same_shape_ignore | apply Hw].
  - unfold transaction. now rewrite ignore_transaction.
Qed.

Lemma hooks_wf_unignore st :
  hooks_wf st -> hooks_wf (gum_interceptor_unignore_current_thread st).
Proof.
  intros Hw.
  apply (hooks_wf_frame st); [apply hooks_frame_unignore | | | exact Hw].
  - apply (same_shape_wf st); [apply same_shape_unignore | apply Hw].
  - unfold transaction. now rewrite unignore_transaction.
Qed.

Lemma resolve_hooks n address st ra st' :
  hooks_mid st ->
  gum_interceptor_resolve host n address st = Some (ra, st') ->
  hooks_mid st' /\ interceptor st' = interceptor st.
Proof.
  intros Hm Hr. pose proof (resolve_frame host n _ _ _ _ Hr) as Hq.
  split; [|apply Hq].
  apply (hooks_mid_frame st); [now apply hooks_frame_quiet | | exact Hm].
  apply (resolve_wf host n address st ra st'); [apply Hm | exact Hr].
Qed.

Theorem attach_hooks n address l d st r st' :
  hooks_wf st ->
  gum_interceptor_attach host n address l d st = Some (r, st') ->
  hooks_wf st'.
Proof.
  intros Hw. unfold gum_interceptor_attach. cbv beta zeta.
  destruct (hooks_mid_prologue (gum_interceptor_ignore_current_thread st)
              (hw_mid _ (hooks_wf_ignore st Hw))) as [Hm0 Hd0].
  destruct (gum_interceptor_resolve host n address _) as [[ra st1]|] eqn:Er;
    [|discriminate].
  destruct (resolve_hooks _ _ _ _ _ Hm0 Er) as [Hm1 Hi1].
  assert (Hd1 : is_dirty (transaction st1) = true)
    by (unfold transaction; rewrite Hi1; exact Hd0).
  destruct (gum_interceptor_instrument host GUM_INTERCEPTOR_TYPE_DEFAULT ra
              st1) as [[[found e] st2]|] eqn:Ei; [|discriminate].
  destruct (instrument_hooks _ _ _ _ _ _ Hm1 Ei) as (Hm2 & Hd2 & Hfound).
  rewrite Hd1 in Hd2.
  assert (Hbeach : forall (res : GumAttachReturn) s,
            hooks_mid s -> is_dirty (transaction s) = true ->
            match gum_interceptor_transaction_end host s with
            | Some s' =>
                Some (res, gum_interceptor_unignore_current_thread s')
            | None => None
            end = Some (r, st') ->
            hooks_wf st').
  { intros res s Hs Hd.
    destruct (gum_interceptor_transaction_end host s) as [s'|] eqn:Ee;
      [|discriminate].
    intros H. injection H as <- <-.
    apply hooks_wf_unignore.
    now apply (transaction_end_hooks s s' Hs (or_introl Hd) Ee). }
  destruct found as [ctx|].
  - destruct (Hfound ctx eq_refl) as [Hin Hty].
    destruct (gum_function_context_has_listener st2 ctx l) eqn:Hhas.
    + now apply Hbeach.
    + destruct (add_listener_hooks ra ctx l d st2 Hm2 Hin Hty Hhas)
        as [Hm3 Hd3].
      apply Hbeach; [exact Hm3 | congruence].
  - destruct e; try discriminate; now apply Hbeach.
Qed.

Theorem replace_with_type_hooks n type_ address f d cell st r cell' st' :
  hooks_wf st ->
  gum_interceptor_replace_with_type host n type_ address f d cell st
  = Some (r, cell', st') ->
  hooks_wf st'.
Proof.
  intros Hw. unfold gum_interceptor_replace_with_type. cbv beta zeta.
  destruct (hooks_mid_prologue st (hw_mid _ Hw)) as [Hm0 Hd0].
  destruct (gum_interceptor_resolve host n address _) as [[ra st1]|] eqn:Er;
    [|discriminate].
  destruct (resolve_hooks _ _ _ _ _ Hm0 Er) as [Hm1 Hi1].
  assert (Hd1 : is_dirty (transaction st1) = true)
    by (unfold transaction; rewrite Hi1; exact Hd0).
  destruct (gum_interceptor_instrument host type_ ra st1)
    as [[[found e] st2]|] eqn:Ei; [|discriminate].
  destruct (instrument_hooks _ _ _ _ _ _ Hm1 Ei) as (Hm2 & Hd2 & _).
  rewrite Hd1 in Hd2.
  assert (Hbeach : forall (res : GumReplaceReturn) (c : option gpointer) s,
            hooks_mid s -> is_dirty (transaction s) = true ->
            match gum_interceptor_transaction_end host s with
            | Some s' => Some (res, c, s')
            | None => None
            end = Some (r, cell', st') ->
            hooks_wf st').
  { intros res c s Hs Hd.
    destruct (gum_interceptor_transaction_end host s) as [s'|] eqn:Ee;
      [|discriminate].
    intros H. injection H as <- <- <-.
    now apply (transaction_end_hooks s s' Hs (or_introl Hd) Ee). }
  destruct found as [ctx|].
  - destruct (negb (replacement_function (contexts st2 ctx) =? NULL)).
    + now apply Hbeach.
    + apply Hbeach; [|exact Hd2].
      apply (hooks_mid_frame st2);
        [| apply set_replacement_wf, Hm2 | exact Hm2].
      apply hooks_frame_update_context. intros c. now split_and.
  - destruct e; try discriminate; now apply Hbeach.
Qed.

Theorem revert_hooks n address st st' :
  hooks_wf st ->
  gum_interceptor_revert host n address st = Some st' ->
  hooks_wf st'.
Proof.
  intros Hw. unfold gum_interceptor_revert. cbv beta zeta.
  destruct (hooks_mid_prologue st (hw_mid _ Hw)) as [Hm0 Hd0].
  destruct (gum_interceptor_resolve host n address _) as [[ra st1]|] eqn:Er;
    [|discriminate].
  destruct (resolve_hooks _ _ _ _ _ Hm0 Er) as [Hm1 Hi1].
  assert (Hd1 : is_dirty (transaction st1) = true)
    by (unfold transaction; rewrite Hi1; exact Hd0).
  assert (Hbeach : forall s,
            hooks_mid s -> is_dirty (transaction s) = true ->
            gum_interceptor_transaction_end host s = Some st' ->
            hooks_wf st').
  { intros s Hs Hd Ee.
    now apply (transaction_end_hooks s st' Hs (or_introl Hd) Ee). }
  destruct (g_hash_table_lookup (function_by_address (interceptor st1)) ra)
    as [ctx|]; [|now apply Hbeach].
  set (st2 := update_context ctx (set_replacement NULL NULL) st1).
  assert (Hm2 : hooks_mid st2).
  { apply (hooks_mid_frame st1);
      [| apply set_replacement_wf, Hm1 | exact Hm1].
    apply hooks_frame_update_context. intros c. now split_and. }
  destruct (gum_function_context_is_empty st2 ctx);
    [|now apply Hbeach].
  destruct (function_by_address_remove host ra st2) as [st3|] eqn:E3;
    [|discriminate].
  destruct (function_by_address_remove_hooks ra st2 st3 Hm2 E3)
    as (Hm3 & Hd3 & _).
  apply Hbeach; [exact Hm3|]. rewrite Hd3. exact Hd1.
Qed.

Theorem end_transaction_hooks st st' :
  hooks_wf st ->
  gum_interceptor_end_transaction host st = Some st' ->
  hooks_wf st'.
Proof.
  intros [Hm Hs] He.
  now apply (transaction_end_hooks st st' Hm (or_intror Hs) He).
Qed.

Lemma begin_transaction_hooks st :
  hooks_wf st -> hooks_wf (gum_interceptor_begin_transaction st).
Proof.
  intros [Hm Hs]. constructor.
  - apply (hooks_mid_frame st); [| apply transaction_begin_wf, Hm | exact Hm].
    now apply hooks_frame_transaction.
  - intros Hp. destruct (Hs Hp) as [Hd Hl]. split; [exact Hd|].
    change (1 <= level (transaction st) + 1). lia.
Qed.

Theorem flush_hooks st flushed st' :
  hooks_wf st ->
  gum_interceptor_flush host st = Some (flushed, st') ->
  hooks_wf st'.
Proof.
  intros Hw. unfold gum_interceptor_flush.
  destruct (level (transaction st) =? 0);
    [|intros H; injection H as <- <-; exact Hw].
  destruct (gum_interceptor_transaction_end host
              (gum_interceptor_transaction_begin st)) as [st1|] eqn:Ee;
    [|discriminate].
  intros H. injection H as <- <-.
  apply (end_transaction_hooks _ _ (begin_transaction_hooks st Hw) Ee).
Qed.

(** *** Detach *)

Lemma same_listeners_commit st st' :
  commit_frame st st' -> same_listeners st st'.
Proof.
  intros Hf. split; [apply (cf_function_by_address _ _ Hf)|]. split.
  - intros c. unfold entries_of. rewrite (cf_arrays _ _ Hf).
    now destruct (keeps_shape _ _ (cf_contexts _ _ Hf c)) as (_ & -> & _).
  - intros q. pose proof (cf_contexts _ _ Hf q) as Hk. rewrite Hk.
    now split.
Qed.

Lemma same_listeners_trans st1 st2 st3 :
  same_listeners st1 st2 -> same_listeners st2 st3 -> same_listeners st1 st3.
Proof.
  intros (T1 & E1 & C1) (T2 & E2 & C2). split; [congruence|]. split.
  - intros c. now rewrite E2.
  - intros q. destruct (C1 q), (C2 q). split; congruence.
Qed.

Lemma detached_ext l entries st0 st1 st st' :
  same_listeners st st0 -> same_listeners st1 st' ->
  detached l entries st0 st1 -> detached l entries st st'.
Proof.
  intros (T0 & E0 & C0) (T1 & E1 & C1) [Dt Dv Do Dk Dr Du Dc].
  constructor.
  - intros a c. rewrite T1, <- T0. apply Dt.
  - intros a c. rewrite T1, E1. apply Dv.
  - intros a c. rewrite T1, E1, <- E0. apply Do.
  - intros a c x. rewrite T1, E1, <- E0. apply Dk.
  - intros a c. rewrite T1, <- T0, <- E0.
    destruct (C0 c) as (<- & _). destruct (C1 c) as (_ & ->). apply Dr.
  - intros a c. rewrite T1, <- E0. destruct (C0 c) as (<- & _). apply Du.
  - intros q. destruct (C0 q) as (<- & <-). destruct (C1 q) as (-> & ->).
    apply Dc.
Qed.

Lemma detach_run l st st' :
  hooks_wf st ->
  gum_interceptor_detach host l st = Some st' ->
  hooks_wf st'
  /\ detached l (function_by_address (interceptor st)) st st'.
Proof.
  intros Hw. unfold gum_interceptor_detach. cbv beta zeta.
  destruct (hooks_mid_prologue (gum_interceptor_ignore_current_thread st)
              (hw_mid _ (hooks_wf_ignore st Hw))) as [Hm0 Hd0].
  set (st0 := set_is_dirty true
                (gum_interceptor_transaction_begin
                   (gum_interceptor_ignore_current_thread st))) in *.
  assert (Hs0 : same_listeners st st0).
  { unfold st0, gum_interceptor_ignore_current_thread,
      get_interceptor_thread_context.
    destruct (thread_context st); split_and; try reflexivity;
      intros; now split. }
  destruct Hs0 as (T0 & E0 & C0).
  destruct (detach_loop host _ l st0) as [st1|] eqn:El; [|discriminate].
  destruct (wf_table _ (hm_wf _ Hm0)) as (Hk & _).
  destruct (detach_loop_hooks l _ st0 st1 Hm0 Hk (fun e H => H) El)
    as (Hm1 & Hd1 & D).
  destruct (gum_interceptor_transaction_end host st1) as [st2|] eqn:Ee;
    [|discriminate].
  intros H. injection H as <-.
  assert (Hd : is_dirty (transaction st1) = true) by congruence.
  destruct (transaction_end_hooks st1 st2 Hm1 (or_introl Hd) Ee)
    as [Hw2 Hf2].
  split; [now apply hooks_wf_unignore|].
  rewrite <- T0.
  apply (detached_ext l _ st0 st1); [now split_and | | exact D].
  apply (same_listeners_trans _ st2); [now apply same_listeners_commit|].
  unfold gum_interceptor_unignore_current_thread,
    get_interceptor_thread_context.
  destruct (thread_context st2); split_and; try reflexivity;
    intros; now split.
Qed.

Theorem reachable_hooks st : reachable host st -> hooks_wf st.
Proof.
  induction 1 as
    [ | n address l d st r st' _ IH H
      | l st st' _ IH H
      | n address f d cell st r cell' st' _ IH H
      | n address f cell st r cell' st' _ IH H
      | n address st st' _ IH H
      | st _ IH
      | st st' _ IH H
      | st flushed st' _ IH H
      | st _ IH | st _ IH | st _ IH | st _ IH
      | st st' _ IH H
      | id st _ IH
      | f cpu ra st _ IH Hf
      | s st st' Hr IH H ].
  - apply hooks_wf_init.
  - now apply (attach_hooks _ _ _ _ _ _ _ IH H).
  - now apply (detach_run _ _ _ IH H).
  - now apply (replace_with_type_hooks _ _ _ _ _ _ _ _ _ _ IH H).
  - now apply (replace_with_type_hooks _ _ _ _ _ _ _ _ _ _ IH H).
  - now apply (revert_hooks _ _ _ _ IH H).
  - now apply begin_transaction_hooks.
  - now apply (end_transaction_hooks _ _ IH H).
  - now apply (flush_hooks _ _ _ IH H).
  - now apply hooks_wf_ignore.
  - now apply hooks_wf_unignore.
  - apply (hooks_wf_frame st);
      [apply hooks_frame_maybe_unignore | | | exact IH].
    + apply (same_shape_wf st); [apply same_shape_maybe_unignore | apply IH].
    + unfold gum_interceptor_maybe_unignore_current_thread,
        get_interceptor_thread_context.
      destruct (thread_context st) as [tc|]; cbn [ignore_level];
        [destruct (ignore_level tc <=? 0)|]; reflexivity.
  - apply (hooks_wf_frame st); [apply hooks_frame_selected | | | exact IH].
    + apply (same_shape_wf st);
        [apply same_shape_set_selected_thread_id | apply IH].
    + reflexivity.
  - unfold gum_interceptor_unignore_other_threads in H.
    destruct (_ =? _); [|discriminate]. injection H as <-.
    apply (hooks_wf_frame st); [apply hooks_frame_selected | | | exact IH].
    + apply (same_shape_wf st);
        [apply same_shape_set_selected_thread_id | apply IH].
    + reflexivity.
  - apply (hooks_wf_frame st); [apply hooks_frame_selected | | | exact IH].
    + apply (same_shape_wf st);
        [apply same_shape_set_selected_thread_id | apply IH].
    + reflexivity.
  - destruct (begin_invocation_frames host f cpu ra st)
      as (extra & _ & Hc & Ha & Hi).
    apply (hooks_wf_frame st); [| | | exact IH].
    + apply hooks_frame_interceptor; [exact Hi | | intros a _; now rewrite Ha].
      intros q. rewrite Hc. now split_and.
    + apply (same_shape_wf st); [apply begin_invocation_shape | apply IH].
    + unfold transaction. now rewrite Hi.
  - pose proof (reachable_wf host _ (reach_restore host s st st' Hr H)) as Hwf'.
    revert H. unfold gum_interceptor_restore. cbv zeta.
    destruct (_ =? s); [intros H; injection H as <-; exact IH|].
    destruct (restore_loop _ _ _ _ st) as [st1|] eqn:El; [|discriminate].
    destruct (thread_context st1) eqn:Htc; [|discriminate].
    intros H. injection H as <-.
    assert (Hloop : forall n stack i d s0 s1,
              restore_loop n stack i d s0 = Some s1 ->
              interceptor s1 = interceptor s0
              /\ arrays s1 = arrays s0
              /\ forall q,
                   activated (contexts s1 q) = activated (contexts s0 q)
                   /\ destroyed (contexts s1 q) = destroyed (contexts s0 q)
                   /\ listener_entries (contexts s1 q)
                      = listener_entries (contexts s0 q)).
    { clear. induction n as [|n IHn]; intros stack i d s0 s1;
        cbn [restore_loop]; destruct (i =? d);
        try (intros H; injection H as <-; split_and; try reflexivity;
             intros; now split_and);
        try discriminate.
      destruct (i <? 0); [discriminate|].
      destruct (nth_error stack (Z.to_nat i)) as [entry|]; [|discriminate].
      intros H. apply IHn in H. destruct H as (Hi & Ha & Hc).
      split; [exact Hi|]. split; [exact Ha|].
      intros q. destruct (Hc q) as (-> & -> & ->). cbn. unfold upd.
      destruct (Nat.eqb_spec q (function_ctx entry)) as [->|Hne];
        now split_and. }
    destruct (Hloop _ _ _ _ _ _ El) as (Hi & Ha & Hc).
    apply (hooks_wf_frame st); [| exact Hwf' | | exact IH].
    + apply hooks_frame_interceptor; [exact Hi | exact Hc |].
      intros a _. cbn. now rewrite Ha.
    + unfold transaction. cbn. now rewrite Hi.
Qed.

End Hooks.

Lemma on_enter_listeners_live entries x :
  In x (on_enter_listeners entries) -> In x (live_listeners entries).
Proof.
  induction entries as [|[e|] entries IH]; cbn; [tauto | | exact IH].
  destruct (is_some (on_enter (listener_interface e)));
    [intros [H|H]; [now left | right; now apply IH]
    | intros H; right; now apply IH].
Qed.

(** X23. In every reachable state no two contexts of the table share a
    listener array and no listener occurs twice among the live entries of a
    context; a context of the table is activated or its activation is
    pending.  Outside transactions (level at most zero) no update is
    pending, so every instrumented function has its hook in place, and no
    destroyed context is still activated. *)
Theorem hooks_in_place host st :
  reachable host st ->
  let table := function_by_address (interceptor st) in
  (level (transaction st) <= 0 ->
   pending_update_tasks (transaction st) = []
   /\ (forall a c, In (a, c) table -> activated (contexts st c) = true)
   /\ (forall c,
         destroyed (contexts st c) = true ->
         activated (contexts st c) = false))
  /\ (forall a c,
        In (a, c) table ->
        activated (contexts st c) = true
        \/ In {| update_ctx := c;
                 update_func := gum_interceptor_activate_func |}
             (all_update_tasks (pending_update_tasks (transaction st))))
  /\ (forall a1 c1 a2 c2,
        In (a1, c1) table -> In (a2, c2) table ->
        listener_entries (contexts st c1) = listener_entries (contexts st c2) ->
        c1 = c2)
  /\ (forall a c,
        In (a, c) table -> NoDup (live_listeners (entries_of st c))).
Proof.
  intros Hr table.
  destruct (reachable_hooks host st Hr) as [[Hwf Hlive Hgone Har Hli] Hs].
  split; [|split; [exact Hlive | split; [exact Har | exact Hli]]].
  intros Hlevel.
  assert (Hnone : pending_update_tasks (transaction st) = []).
  { destruct (pending_update_tasks (transaction st)) eqn:E; [reflexivity|].
    assert (Hne : pending_update_tasks (transaction st) <> [])
      by (rewrite E; discriminate).
    destruct (Hs Hne) as [_ Hl]. lia. }
  assert (Hp : pending_tasks st = [])
    by (unfold pending_tasks; now rewrite Hnone).
  split; [exact Hnone|]. split.
  - intros a c Hin. destruct (Hlive a c Hin) as [H|H]; [exact H|].
    rewrite Hp in H. destruct H.
  - intros c Hd. destruct (Hgone c Hd) as [H|H]; [exact H|].
    rewrite Hp in H. destruct H.
Qed.

(** X24. [gum_interceptor_detach] in a reachable state: no context left in
    the table holds the listener, so no hook entry calls it any more; the
    other listeners of those contexts are where they were; replacements
    are untouched; a context leaves the table exactly when the listener was
    its only user (no replacement, no other listener), and is then
    destroyed. *)
Theorem detach_removes_listener host l st st' :
  reachable host st ->
  gum_interceptor_detach host l st = Some st' ->
  let table := function_by_address (interceptor st) in
  let table' := function_by_address (interceptor st') in
  (forall a c,
     In (a, c) table' ->
     In (a, c) table
     /\ gum_function_context_has_listener st' c l = false
     /\ (forall x, x <> l ->
           gum_function_context_has_listener st' c x
           = gum_function_context_has_listener st c x)
     /\ (forall cpu ret,
           bypassed host c st' = false ->
           ~ In (EvOnEnter l)
               (new_events st'
                  (snd (_gum_function_context_begin_invocation host c cpu ret
                          st'))))
     /\ (gum_function_context_has_listener st c l = true ->
         replacement_function (contexts st c) <> NULL
         \/ exists x,
              x <> l /\ gum_function_context_has_listener st c x = true))
  /\ (forall a c,
        In (a, c) table -> ~ In (a, c) table' ->
        destroyed (contexts st' c) = true
        /\ gum_function_context_has_listener st c l = true
        /\ replacement_function (contexts st c) = NULL
        /\ forall x, gum_function_context_has_listener st c x = true -> x = l)
  /\ (forall q,
        replacement_function (contexts st' q)
        = replacement_function (contexts st q)).
Proof.
  intros Hr Hd table table'.
  destruct (detach_run host l st st' (reachable_hooks host st Hr) Hd)
    as (_ & [Dt Dv Do Dk Dr Du Dc]).
  split; [|split].
  - intros a c Hin. pose proof (Dt a c Hin) as Hin0.
    assert (Hnl : ~ In l (live_listeners (entries_of st' c)))
      by now apply (Dv a).
    assert (Hno : gum_function_context_has_listener st' c l = false).
    { destruct (gum_function_context_has_listener st' c l) eqn:E;
        [|reflexivity].
      apply has_listener_live in E. contradiction. }
    split; [exact Hin0|]. split; [exact Hno|]. split; [|split].
    + intros x Hx. apply Bool.eq_iff_eq_true.
      rewrite !has_listener_live. now apply (Dk a).
    + intros cpu ret Hb Hev.
      destruct (begin_invocation_spec host c cpu ret st' Hb)
        as (_ & _ & Hevs & _).
      rewrite Hevs in Hev.
      destruct (thread_selected host st' && (current_ignore_level st' <=? 0));
        [|destruct Hev].
      apply in_map_iff in Hev. destruct Hev as (x & E & Hx).
      injection E as ->. apply Hnl. now apply on_enter_listeners_live.
    + intros Hl. apply has_listener_live in Hl.
      destruct (Du a c Hin Hin0 Hl) as [H|(x & Hx & Hxin)]; [now left|].
      right. exists x. split; [exact Hx | now apply has_listener_live].
  - intros a c Hin Hn.
    destruct (Dr a c Hin Hn) as (_ & Hdes & Hrep & Hl & Hall).
    split; [exact Hdes|]. split; [now apply has_listener_live|].
    split; [exact Hrep|].
    intros x Hx. apply Hall. now apply has_listener_live.
  - intros q. apply Dc.
Qed.

Lemma hooks_in_place_witness :
  activated (contexts demo_attached O) = true.
Proof.
  assert (Hl : level (transaction demo_attached) <= 0)
    by (vm_compute; intros H; discriminate H).
  assert (Hin : In (4198400, O)
                  (function_by_address (interceptor demo_attached)))
    by (vm_compute; left; reflexivity).
  exact (proj1 (proj2 (proj1 (hooks_in_place demo_host demo_attached
                                demo_attached_reachable) Hl))
           4198400 O Hin).
Defined.

Lemma detach_removes_listener_witness :
  destroyed (contexts demo_detached O) = true.
Proof.
  assert (Hd : gum_interceptor_detach demo_host 1 demo_attached
               = Some demo_detached) by (vm_compute; reflexivity).
  assert (Hin : In (4198400, O)
                  (function_by_address (interceptor demo_attached)))
    by (vm_compute; left; reflexivity).
  assert (Hn : ~ In (4198400, O)
                 (function_by_address (interceptor demo_detached)))
    by (intros H; vm_compute in H; exact H).
  exact (proj1 (proj1 (proj2 (detach_removes_listener demo_host 1
                                demo_attached demo_detached
                                demo_attached_reachable Hd))
                  4198400 O Hin Hn)).
Defined.

(** ** Tear-down and revert *)

Section TearDown.
Variable host : Host.

Lemma function_by_address_remove_level key st st' :
  function_by_address_remove host key st = Some st' ->
  level (transaction st') = level (transaction st).
Proof.
  unfold function_by_address_remove.
  destruct (g_hash_table_lookup (function_by_address (interceptor st)) key)
    as [ctx|]; [|intros [= <-]; reflexivity].
  unfold gum_function_context_destroy.
  match goal with
  | |- (if ?c then _ else _) = _ -> _ => destruct c; [discriminate|]
  end.
  intros [= <-].
  match goal with
  | |- context [if ?c then _ else _] => destruct c
  end; [|reflexivity].
  match goal with
  | |- context [gum_interceptor_transaction_schedule_update host ?c ?f ?s] =>
      destruct (schedule_update_tasks host c f s) as (_ & _ & Hst)
  end.
  unfold gum_interceptor_transaction_schedule_destroy,
    set_pending_destroy_tasks, transaction at 1. cbn [level interceptor
      set_current_transaction set_interceptor current_transaction].
  fold (transaction
          (gum_interceptor_transaction_schedule_update host ctx
             gum_interceptor_deactivate_func
             (update_context ctx (set_destroyed true)
                (set_function_by_address
                   (g_hash_table_remove
                      (function_by_address (interceptor st)) key) st)))).
  rewrite Hst. reflexivity.
Qed.

Lemma function_by_address_remove_contexts key st st' :
  function_by_address_remove host key st = Some st' ->
  forall q,
    contexts st' q = contexts st q
    \/ contexts st' q = set_destroyed true (contexts st q).
Proof.
  unfold function_by_address_remove.
  destruct (g_hash_table_lookup (function_by_address (interceptor st)) key)
    as [ctx|]; [|intros [= <-] q; now left].
  unfold gum_function_context_destroy.
  match goal with
  | |- (if ?c then _ else _) = _ -> _ => destruct c; [discriminate|]
  end.
  intros [= <-] q.
  set (st2 := update_context ctx (set_destroyed true)
                (set_function_by_address
                   (g_hash_table_remove
                      (function_by_address (interceptor st)) key) st)).
  assert (H2 : contexts st2 q = contexts st q
               \/ contexts st2 q = set_destroyed true (contexts st q)).
  { unfold st2. cbn. unfold upd.
    destruct (Nat.eqb_spec q ctx) as [->|Hne]; [now right | now left]. }
  match goal with
  | |- context [if ?c then _ else _] => destruct c
  end; [|exact H2].
  destruct (schedule_update_tasks host ctx gum_interceptor_deactivate_func
              st2) as (_ & _ & Hst).
  replace (contexts
             (gum_interceptor_transaction_schedule_destroy ctx
                gum_function_context_perform_destroy_notify (Z.of_nat ctx)
                (gum_interceptor_transaction_schedule_update host ctx
                   gum_interceptor_deactivate_func st2)))
    with (contexts st2); [exact H2|].
  rewrite Hst. reflexivity.
Qed.

Lemma remove_all_run entries :
  forall st,
    hooks_mid st ->
    function_by_address (interceptor st) = entries ->
    exists st',
      remove_all host entries st = Some st'
      /\ hooks_mid st'
      /\ is_dirty (transaction st') = is_dirty (transaction st)
      /\ level (transaction st') = level (transaction st)
      /\ function_by_address (interceptor st') = []
      /\ (forall a c, In (a, c) entries -> destroyed (contexts st' c) = true)
      /\ (forall q,
            destroyed (contexts st q) = true ->
            destroyed (contexts st' q) = true).
Proof.
  induction entries as [|[key ctx] entries IH]; intros st Hm Ht;
    cbn [remove_all].
  - exists st. split; [reflexivity|]. split; [exact Hm|].
    split; [reflexivity|]. split; [reflexivity|]. split; [exact Ht|].
    split; [intros a c [] | tauto].
  - destruct (function_by_address_remove_total host key st (hm_wf _ Hm))
      as (st1 & E1).
    rewrite E1.
    destruct (function_by_address_remove_hooks host key st st1 Hm E1)
      as (Hm1 & Hd1 & Ht1 & _ & _ & Hq1 & Hdes1).
    pose proof (function_by_address_remove_level key st st1 E1) as Hl1.
    rewrite Ht in Ht1, Hdes1. cbn in Ht1, Hdes1.
    rewrite Z.eqb_refl in Ht1, Hdes1.
    destruct (IH st1 Hm1 Ht1) as (st' & Hr & Hm' & Hd' & Hl' & Ht' & Hdes' & Hmono).
    exists st'. split; [exact Hr|]. split; [exact Hm'|].
    split; [congruence|]. split; [congruence|]. split; [exact Ht'|].
    split.
    + intros a c [E|Hin]; [|now apply (Hdes' a)].
      injection E as <- <-. apply Hmono. now apply Hdes1.
    + intros q Hq. apply Hmono. now apply (Hq1 q).
Qed.

(** X25. [gum_interceptor_do_dispose] in a reachable state runs to
    completion, leaves the table empty and every context it held
    destroyed; outside a transaction its commit also leaves no update
    pending and no destroyed context activated: every prologue has been
    written back. *)
Theorem dispose_tears_down st :
  reachable host st ->
  exists st',
    gum_interceptor_do_dispose host st = Some st'
    /\ function_by_address (interceptor st') = []
    /\ (forall a c,
          In (a, c) (function_by_address (interceptor st)) ->
          destroyed (contexts st' c) = true)
    /\ (level (transaction st) <= 0 ->
        pending_update_tasks (transaction st') = []
        /\ forall c,
             destroyed (contexts st' c) = true ->
             activated (contexts st' c) = false).
Proof.
  intros Hr. pose proof (reachable_hooks host st Hr) as [Hm Hs].
  unfold gum_interceptor_do_dispose. cbv zeta.
  destruct (hooks_mid_prologue st Hm) as [Hm0 Hd0].
  set (st0 := set_is_dirty true (gum_interceptor_transaction_begin st)) in *.
  destruct (remove_all_run _ st0 Hm0 eq_refl)
    as (st1 & Hrun & Hm1 & Hd1 & Hl1 & Ht1 & Hdes1 & _).
  rewrite Hrun.
  destruct (transaction_end_ok host st1 (wf_updates _ (hm_wf _ Hm1)))
    as (st' & Hend & Hf & _ & _ & Hcommit).
  rewrite Hd0 in Hd1.
  destruct (transaction_end_hooks host st1 st' Hm1 (or_introl Hd1) Hend)
    as [[Hm' _] _].
  exists st'. split; [exact Hend|].
  assert (Hkeep : forall q, destroyed (contexts st' q)
                            = destroyed (contexts st1 q)).
  { intros q.
    now destruct (keeps_shape _ _ (cf_contexts _ _ Hf q)) as (_ & _ & ->). }
  split; [now rewrite (cf_function_by_address _ _ Hf)|].
  split; [intros a c Hin; rewrite Hkeep; now apply (Hdes1 a)|].
  intros Hlevel.
  assert (Hl : level (transaction st1) <= 1).
  { rewrite Hl1. change (level (transaction st) + 1 <= 1). lia. }
  destruct (Hcommit Hl Hd1) as (_ & _ & Hnone & _).
  split; [exact Hnone|].
  intros c Hd. destruct (hm_gone _ Hm' c Hd) as [H|H]; [exact H|].
  unfold pending_tasks in H. rewrite Hnone in H. destruct H.
Qed.

Lemma lookup_remove_eq {V} (t : list (gpointer * V)) k :
  NoDup (map fst t) -> g_hash_table_lookup (g_hash_table_remove t k) k = None.
Proof.
  induction t as [|[k0 v0] t IH]; cbn; [reflexivity|].
  intros Hnd. apply NoDup_cons_iff in Hnd. destruct Hnd as [Hn Hnd].
  destruct (Z.eqb_spec k0 k) as [->|Hne].
  - destruct (g_hash_table_lookup t k) eqn:E; [|reflexivity].
    exfalso. apply Hn. apply lookup_In in E.
    exact (in_map fst t (k, v) E).
  - cbn. destruct (Z.eqb_spec k0 k); [contradiction | now apply IH].
Qed.

(** X26. [gum_interceptor_revert] in a reachable state, on an address that
    resolves: with no context at the address nothing changes in the table;
    otherwise the context loses its replacement and keeps its listeners.
    A context with listeners stays in the table and its hook entries
    continue at the on-invoke trampoline, the original function; a context
    without listeners leaves the table and is destroyed. *)
Theorem revert_restores_original n address st ra st' :
  reachable host st ->
  resolve_address host n address st = Some ra ->
  gum_interceptor_revert host n address st = Some st' ->
  match g_hash_table_lookup (function_by_address (interceptor st)) ra with
  | None =>
      function_by_address (interceptor st')
      = function_by_address (interceptor st)
  | Some ctx =>
      replacement_function (contexts st' ctx) = NULL
      /\ replacement_data (contexts st' ctx) = NULL
      /\ (forall x,
            gum_function_context_has_listener st' ctx x
            = gum_function_context_has_listener st ctx x)
      /\ ((exists x, gum_function_context_has_listener st ctx x = true) ->
          g_hash_table_lookup (function_by_address (interceptor st')) ra
          = Some ctx
          /\ forall cpu ret,
               bypassed host ctx st' = false ->
               out_next_hop
                 (fst (_gum_function_context_begin_invocation host ctx cpu
                         ret st'))
               = on_invoke_trampoline (contexts st' ctx))
      /\ ((forall x, gum_function_context_has_listener st ctx x = false) ->
          g_hash_table_lookup (function_by_address (interceptor st')) ra
          = None
          /\ destroyed (contexts st' ctx) = true)
  end.
Proof.
  intros Hr Hres. pose proof (reachable_hooks host st Hr) as [Hm Hs].
  unfold gum_interceptor_revert. cbv beta zeta.
  destruct (hooks_mid_prologue st Hm) as [Hm0 Hd0].
  set (st0 := set_is_dirty true (gum_interceptor_transaction_begin st)) in *.
  destruct (resolve_some host n address st ra Hres st0 eq_refl)
    as (st1 & Er & Hq1).
  rewrite Er.
  destruct (resolve_hooks host _ _ _ _ _ Hm0 Er) as [Hm1 Hi1].
  assert (Ht1 : function_by_address (interceptor st1)
                = function_by_address (interceptor st))
    by (rewrite Hi1; reflexivity).
  assert (Hc1 : contexts st1 = contexts st) by apply (qf_contexts _ _ Hq1).
  assert (Ha1 : arrays st1 = arrays st).
  { destruct Hq1 as [[Hc _ _ _ _] _]. apply (cf_arrays _ _ Hc). }
  rewrite Ht1.
  destruct (g_hash_table_lookup (function_by_address (interceptor st)) ra)
    as [ctx|] eqn:Hl.
  2:{ intros He.
      destruct (transaction_end_hooks host st1 st' Hm1) as [_ Hf];
        [left; unfold transaction; rewrite Hi1; exact Hd0 | exact He |].
      now rewrite (cf_function_by_address _ _ Hf). }
  set (st2 := update_context ctx (set_replacement NULL NULL) st1).
  assert (Hm2 : hooks_mid st2).
  { apply (hooks_mid_frame st1);
      [| apply set_replacement_wf, Hm1 | exact Hm1].
    apply hooks_frame_update_context. intros c. now split_and. }
  assert (Hd2 : is_dirty (transaction st2) = true)
    by (unfold transaction; cbn; rewrite Hi1; exact Hd0).
  assert (Hc2 : contexts st2 ctx = set_replacement NULL NULL (contexts st ctx))
    by (unfold st2; cbn; rewrite upd_eq, Hc1; reflexivity).
  assert (He2 : entries_of st2 ctx = entries_of st ctx).
  { unfold entries_of. rewrite Hc2. cbn [listener_entries set_replacement].
    unfold st2. cbn [arrays update_context set_contexts]. now rewrite Ha1. }
  assert (Hhas : forall s x,
            entries_of s ctx = entries_of st ctx ->
            gum_function_context_has_listener s ctx x
            = gum_function_context_has_listener st ctx x).
  { intros s x E. unfold gum_function_context_has_listener,
      gum_function_context_find_listener. now rewrite E. }
  assert (Hend : forall s,
            hooks_mid s -> is_dirty (transaction s) = true ->
            contexts s ctx = contexts st2 ctx \/
            (replacement_function (contexts s ctx) = NULL
             /\ replacement_data (contexts s ctx) = NULL
             /\ listener_entries (contexts s ctx)
                = listener_entries (contexts st2 ctx)) ->
            arrays s = arrays st2 ->
            gum_interceptor_transaction_end host s = Some st' ->
            replacement_function (contexts st' ctx) = NULL
            /\ replacement_data (contexts st' ctx) = NULL
            /\ entries_of st' ctx = entries_of st ctx
            /\ function_by_address (interceptor st')
               = function_by_address (interceptor s)
            /\ destroyed (contexts st' ctx) = destroyed (contexts s ctx)).
  { intros s Hms Hds Hcs Has He.
    destruct (transaction_end_hooks host s st' Hms (or_introl Hds) He)
      as [_ Hf].
    pose proof (cf_contexts _ _ Hf ctx) as Hk.
    assert (Hs3 : replacement_function (contexts s ctx) = NULL
                  /\ replacement_data (contexts s ctx) = NULL
                  /\ listener_entries (contexts s ctx)
                     = listener_entries (contexts st2 ctx)).
    { destruct Hcs as [E|H]; [rewrite E, Hc2; now split_and | exact H]. }
    destruct Hs3 as (R1 & R2 & R3).
    rewrite Hk. cbn. split; [exact R1|]. split; [exact R2|].
    split; [|split; [apply (cf_function_by_address _ _ Hf) | reflexivity]].
    unfold entries_of. rewrite (cf_arrays _ _ Hf), Has, Hk. cbn.
    rewrite R3. exact He2. }
  destruct (gum_function_context_is_empty st2 ctx) eqn:Hempty.
  - apply is_empty_live in Hempty. destruct Hempty as [_ Hnone].
    rewrite He2 in Hnone.
    destruct (function_by_address_remove host ra st2) as [st3|] eqn:E3;
      [|discriminate].
    destruct (function_by_address_remove_hooks host ra st2 st3 Hm2 E3)
      as (Hm3 & Hd3 & Ht3 & Ha3 & _ & Hq3 & Hdes3).
    intros He.
    destruct (Hq3 ctx) as (Hle3 & Hr3 & _).
    assert (Hrd3 : replacement_data (contexts st3 ctx) = NULL).
    { destruct (function_by_address_remove_contexts ra st2 st3 E3 ctx)
        as [E|E]; rewrite E, Hc2; reflexivity. }
    destruct (Hend st3 Hm3) as (R1 & R2 & E & T & D);
      [congruence | right; split_and | exact Ha3 | exact He |].
    { rewrite Hr3, Hc2. reflexivity. }
    { exact Hrd3. }
    { exact Hle3. }
    split; [exact R1|]. split; [exact R2|].
    split; [intros x; now apply Hhas|].
    split.
    + intros (x & Hx). apply has_listener_live in Hx.
      rewrite Hnone in Hx. destruct Hx.
    + intros _. rewrite T, Ht3.
      change (function_by_address (interceptor st2))
        with (function_by_address (interceptor st1)).
      rewrite Ht1.
      split; [apply lookup_remove_eq, (wf_table _ (hm_wf _ Hm))|].
      rewrite D. apply Hdes3.
      change (function_by_address (interceptor st2))
        with (function_by_address (interceptor st1)).
      now rewrite Ht1.
  - intros He.
    destruct (Hend st2 Hm2 Hd2 (or_introl eq_refl) eq_refl He)
      as (R1 & R2 & E & T & D).
    split; [exact R1|]. split; [exact R2|].
    split; [intros x; now apply Hhas|].
    split.
    + intros _. split.
      * rewrite T.
        change (function_by_address (interceptor st2))
          with (function_by_address (interceptor st1)).
        now rewrite Ht1.
      * intros cpu ret Hb.
        destruct (begin_invocation_spec host ctx cpu ret st' Hb)
          as (_ & Hhop & _).
        rewrite Hhop, R1. reflexivity.
    + intros Hall. exfalso.
      assert (Ht : gum_function_context_is_empty st2 ctx = true).
      { apply is_empty_live. split; [now rewrite Hc2|].
        rewrite He2.
        destruct (live_listeners (entries_of st ctx)) as [|x xs] eqn:Hlv;
          [reflexivity|].
        assert (Hx : gum_function_context_has_listener st ctx x = true)
          by (apply has_listener_live; rewrite Hlv; now left).
        rewrite Hall in Hx. discriminate Hx. }
      rewrite Hempty in Ht. discriminate Ht.
Qed.

End TearDown.

Lemma dispose_tears_down_witness :
  exists st',
    gum_interceptor_do_dispose demo_host demo_attached = Some st'
    /\ function_by_address (interceptor st') = [].
Proof.
  destruct (dispose_tears_down demo_host demo_attached
              demo_attached_reachable) as (st' & Hd & Ht & _).
  exists st'. split; assumption.
Defined.

Lemma revert_restores_original_witness :
  g_hash_table_lookup (function_by_address (interceptor demo_reverted))
    4198400 = None
  /\ destroyed (contexts demo_reverted O) = true.
Proof.
  assert (Hres : resolve_address demo_host 0 4198400 demo_replaced
                 = Some 4198400) by (vm_compute; reflexivity).
  assert (Hrev : gum_interceptor_revert demo_host 0 4198400 demo_replaced
                 = Some demo_reverted) by (vm_compute; reflexivity).
  pose proof (revert_restores_original demo_host 0 4198400 demo_replaced
                4198400 demo_reverted demo_replaced_reachable Hres Hrev)
    as H.
  assert (Hl : g_hash_table_lookup
                 (function_by_address (interceptor demo_replaced)) 4198400
               = Some O) by (vm_compute; reflexivity).
  rewrite Hl in H. destruct H as (_ & _ & _ & _ & H).
  apply H. intros x.
  destruct (gum_function_context_has_listener demo_replaced O x) eqn:E;
    [|reflexivity].
  apply has_listener_live in E. vm_compute in E. destruct E.
Defined.

(** ** Suspending the other threads during a commit *)

Section Suspend.
Variable host : Host.




End Suspend.


(** ** The shadow stack as a stack *)

(** X28. [gum_invocation_stack_push] adds one frame on top, for the given
    context and return address, with the signed function address and no
    backend, and leaves the frames below alone;
    [gum_invocation_stack_pop] undoes it; [gum_invocation_stack_peek_top]
    is NULL exactly on the empty stack and is the last frame otherwise. *)
Theorem invocation_stack_laws host (s : GumInvocationStack) f fa ra :
  let pushed := gum_invocation_stack_push host s f fa ra in
  (exists e,
     gum_invocation_stack_peek_top pushed = Some e
     /\ function_ctx e = f
     /\ caller_ret_addr e = ra
     /\ invocation_function e = gum_sign_code_pointer host fa
     /\ invocation_backend e = NoBackend)
  /\ gum_invocation_stack_pop pushed = s
  /\ length pushed = S (length s)
  /\ (forall i, (i < length s)%nat -> nth_error pushed i = nth_error s i)
  /\ (gum_invocation_stack_peek_top s = None <-> s = [])
  /\ (forall below top,
        s = below ++ [top] ->
        gum_invocation_stack_peek_top s = Some top
        /\ gum_invocation_stack_pop s = below).
Proof.
  intros pushed. subst pushed. unfold gum_invocation_stack_push,
    gum_invocation_stack_pop.
  split; [eexists; rewrite peek_top_snoc; now split_and|].
  split; [apply removelast_last|].
  split; [rewrite length_app; cbn; lia|].
  split; [intros i Hi; now apply nth_error_app1|].
  split.
  - destruct s as [|e s] using rev_ind; [now split|].
    rewrite peek_top_snoc. split; [discriminate|].
    intros H. destruct s; discriminate H.
  - intros below top ->. rewrite peek_top_snoc. split; [reflexivity|].
    apply removelast_last.
Qed.

(** ** The order of the writes of a commit *)









Section WriteOrder.
Variable host : Host.

















End WriteOrder.


